(* ===== verification/_CoqProject ===== *)
-Q . S2P
Prelude.v
MachineInt.v
Harness.v
FixedPoint.v
Interest.v
RateBucket.v
Redistribution.v
ReactorMath.v
Recovery.v
RedemptionRate.v
OracleScale.v
Oracle.v
Twap.v
SupplyTransition.v
Cdp.v
State.v
Token.v
AccountBytes.v
Accrual.v
Bucket.v
CertoraRules.v
PositionOps.v
TouchEffect.v
PositionProofs.v
World.v
Reactor.v
ReactorShares.v
Liquidate.v
LiquidateProofs.v
Redeem.v
RedeemProofs.v
MarketOps.v
ReactorOps.v
Init.v
Governance.v
CeilingLine.v
Backstop.v
SupplyRecon.v
OracleAdmin.v
UpdatePrice.v
System.v
Events.v
Frames.v
Confined.v
SystemProofs.v
Reserve.v
Scenario.v
Safety.v
EventLog.v
ReactorSafety.v
Guarantees.v
GovernanceProofs.v
Infrastructure.v
ReactorGains.v
GainsSafety.v
BufferReserve.v
Protocol.v
OracleProofs.v
StakeMath.v
StakeTargets.v
KaniHarness.v
StakeView.v
Cpi.v
SplCpi.v
Metadata.v
StakeState.v
StakeAccounts.v
StakeCrank.v
StakeSystem.v
StakeEvents.v
StakePlan.v
StakeNeutral.v
StakeDirected.v
StakeInv.v
StakeProofs.v
StakeRefine.v
StakePreference.v
StakeStream.v
StakeCalls.v
StakeScenario.v
