(* ===== verification/Prelude.v ===== *)
(** * Fusion: a verification of the fUSD protocol and of the fuSOL stake controller

    Fusion issues fUSD, a stablecoin minted against collateral on Solana. A borrower opens
    a position in the market of one collateral asset, deposits collateral and mints fUSD at
    a rate of their own choice. Anyone may redeem fUSD for collateral at face value, lowest
    rate first; anyone may liquidate a position below the market's minimum ratio. A
    liquidated debt is absorbed by a waterfall: the Reactor Pool (a stability pool of fUSD
    deposits), redistribution to the other positions, the market's insurance buffer, the
    global backstop, and what is left is booked as bad debt. Prices come from Pyth and
    Switchboard with a DEX average or a stake pool's rate as a third source. Parameters
    change through a timelock.

    One collateral is fuSOL, the share of a native stake pool. A second program, the stake
    controller, decides where the pool's stake goes: every epoch anyone may crank it
    through its phases (reconcile the pool's accounts, take a snapshot, count the
    preferences of fuSOL borrowers, plan directed and neutral targets, rebalance towards
    them) for a small reward.

    The code modelled is the Rust of [src/crates/fusd-math] (pure arithmetic),
    [src/crates/fusd-oracle] (price policy), [src/programs/fusd-core] (the program: the
    state of its accounts, its helpers and its instruction handlers),
    [src/crates/fusion-stake-math], [src/crates/fusion-stake-view] and
    [src/programs/fusion-stake-controller].

    ** Conventions

    A machine integer is a [Z]; [u8] .. [u128], [i32] and [i64] of [MachineInt] are the
    ranges, [checked_*], [sat_*] and [as_*] the operations of Rust at that width. A handler
    returns [result Error _]: [Ok] of the accounts it leaves, or the error that aborts the
    transaction, so a failing call changes nothing. [x ← e; k] is Rust's [?] and
    [check b e] is [require!]. A public key and a program address are integers. A record is
    updated with [r <| field := v |>] ([State]), and a field that two records share carries
    a prefix in one of them ([rp_], [gb_], ...). The definitions are executable: the witness
    lemmas run them on concrete accounts.

    ** The files, in dependency order

    Arithmetic.
    - [Prelude]: results, the tactics ([bind], [propify], [split_if], [rlia]), the list, sum
      and division lemmas shared by all files.
    - [MachineInt]: ranges and operations; [U256], the interface of the third-party 256-bit
      crate, with the instance [WideInt.wide_u256].
    - [Harness]: a small language of proof harnesses (assume, assert, cover, arbitrary
      values) and what it means that one holds.
    - [FixedPoint] (fusd-math/lib.rs), [Interest] (interest.rs), [RateBucket]
      (rate_bucket.rs), [Redistribution] (redistribution.rs), [ReactorMath]
      (reactor_pool.rs), [Recovery] (recovery.rs), [RedemptionRate] (redemption.rs),
      [OracleScale] (oracle_scale.rs), [Oracle] (fusd-oracle/lib.rs), [Twap] (twap.rs),
      [SupplyTransition] (fusd-core/supply_transition.rs), [Cdp] (cdp.rs).
    - [KaniHarness] (the kani_proofs.rs of fusd-math and of fusion-stake-math),
      [CertoraRules] (fusd-core/certora.rs): the harnesses and rules the repository keeps
      for other tools, as programs of [Harness] over the program's definitions.

    The program.
    - [State] (state/, errors.rs, constants.rs): the accounts as records, the error codes.
    - [Token]: [Runtime], the interface of the token and system programs, with the instance
      [MapLedger.runtime].
    - [AccountBytes] (clmm.rs, stake_pool.rs): parsers of third-party account bytes.
    - [Accrual] (accrual.rs, redist.rs), [Bucket] (bucket.rs), [Reactor] (reactor.rs).
    - [PositionOps] (open_position, close_position, deposit, withdraw, borrow, repay,
      adjust_rate; reconcile.rs), [Liquidate] (liquidate.rs), [Redeem] (redeem.rs,
      urgent_redeem.rs), [MarketOps] (refresh_market, settle_bad_debt, shutdown,
      fund_buffer, claim_coll_surplus, withdraw_surplus, sweep_protocol_collateral,
      guardian_derisk, dev_set_price), [ReactorOps] (the four deposit instructions of the
      Reactor Pool), [Init] (init_market, init_reactor_pool, init_insurance_buffer,
      init_protocol), [Governance] (governance.rs, set_guardian.rs,
      migrate_gov_authority.rs), [CeilingLine] (debt_ceiling_line.rs), [Backstop]
      (global_backstop.rs), [SupplyRecon] (supply_reconciliation.rs), [OracleAdmin]
      (init_market_oracle.rs, oracle_admin.rs), [UpdatePrice] (update_price.rs,
      sample_twap.rs).

    The system.
    - [TouchEffect], [PositionProofs], [World], [LiquidateProofs], [RedeemProofs]: the
      effect of each handler on the books of a market and all its positions.
    - [System] (lib.rs): [World], all accounts of one market; [Instr], the instructions,
      those that create the market's other accounts included; [exec], which asks that the
      accounts an instruction loads exist ([loads]) and dispatches to its handler
      ([handle]); [genesis], the states [init_market] produces; [run], the sequences of
      instructions at non-decreasing times, interleaved with activity [elsewhere] on what
      the market shares. A run carries two numbers: what came into the vault from elsewhere,
      and the supply issued elsewhere.
    - [Events] (events.rs and the [emit_cpi!] calls of the handlers): every event, and
      [emits], what each instruction emits.
    - [Frames], [Confined], [SystemProofs], [Reserve], [BufferReserve]: for each instruction,
      what it cannot change, whose tokens it cannot take, its case of the market's
      invariants, of the backstop's and of the insurance buffer's.
    - [Scenario]: a concrete market ([Demo]) and the runs the witnesses use.
    - [Safety], [EventLog], [ReactorSafety], [GainsSafety], [Guarantees], [GovernanceProofs],
      [Infrastructure], [OracleProofs]: the theorems about runs and about handlers.
      [ReactorShares] and [ReactorGains] have what a pool deposit is worth, and what it is
      owed of the collateral, as real numbers, and the invariants on their sums.
    - [Protocol]: many markets over the shared accounts, and the proof of reserves.
      [elsewhere] is what one market relies on; [exec_elsewhere] shows that every other
      market guarantees it.

    The stake controller.
    - [StakeMath] (fusion-stake-math: lib, lifecycle, reserve, churn, rewards, preference),
      [StakeTargets] (targets.rs: directed targets, capacity rounds, the one-shot driver
      [distribute_neutral]), [StakeView] (fusion-stake-view: the byte parsers, with the
      layouts they invert).
    - [Cpi]: instructions as values, the privilege rules of a cross-program call, and byte
      readers; [SplCpi] (spl_cpi.rs): the builders of the calls into the stake-pool program,
      and a decoder of their arguments; [Metadata] (fusd-core/create_fusd_metadata.rs).
    - [StakeState] (state/, errors.rs, constants.rs, logic.rs, maintenance.rs):
      [EpochState], [ValidatorRecord], [Preference], the decision rules; [StakeRuntime],
      the interface of the stake-pool program; [Controller], all accounts together.
    - [StakeAccounts] (genesis, registration, deposits, preferences), [StakeCrank] (the
      epoch machine: start_epoch to finish_epoch).
    - [StakeSystem] (lib.rs): [SInstr] and [stake_exec], the dispatch; [stake_step], an
      instruction or a change of the pool from outside; [stake_reachable].
    - [StakeEvents] (events.rs): the controller's events and [stake_emits].
    - [StakePlan]: the invariant that ties the epoch account to the records in every phase;
      [StakeNeutral], [StakeDirected], [StakeInv]: its case for each instruction.
    - [StakeProofs], [StakeRefine], [StakePreference], [StakeStream], [StakeCalls]: the
      theorems about reachable states, runs, events and calls. [StakeScenario]: a concrete
      pool ([PlainPool]) and a run over two epochs, for the witnesses.

    ** What the theorems show

    Of every reachable state ([Safety]): the market's aggregates agree with the sums over
    its positions, the vault covers the tracked claims exactly, the fUSD supply is backed,
    and the redemption index counts exactly the indebted positions. The proof is one
    invariant of [World], preserved by each instruction; the touches of a position share
    the effect of [TouchEffect]. The Reactor Pool is solvent ([ReactorSafety]): its vault
    covers its deposits, and the depositors' compounded deposits fit in them. Their
    collateral gains ([GainsSafety]) exceed the collateral vault by at most a fraction
    [M / (m * 10^18)] of the collateral received, in a pool that is offset while it holds
    between [m] and [M]: the product and the deposits it stands for may drift apart by the
    carried residual, and that drift is what the fraction pays for. No debt is taken
    on before the accounts a liquidation needs exist ([Infrastructure]).

    Of the event stream ([EventLog]): the events of a run, and nothing else, add up to the
    supply and to the bad debt, announce a shutdown once, and every instruction that commits
    emits its own.

    Of the harnesses ([KaniHarness], [CertoraRules]): every assertion holds on every
    input its assumptions admit, most of them at far wider inputs than the tools are given,
    and every cover point of the Kani harnesses is reached.

    Of the handlers that move value ([Guarantees]): what must hold for a liquidation,
    redemption, borrow, withdrawal or shutdown to succeed, and what it then did.

    Of the protocol ([Protocol]): each of its markets refines the single-market system, so
    the theorems above hold of all of them at once; the supply is backed across markets, the
    vaults of the backstop and of every insurance buffer cover their counters, and the
    supply reconciliation reports exactly what holders burned.

    Of governance ([GovernanceProofs]): a parameter moves only by executing a change that
    its authority queued a timelock earlier in the same run, the debt ceiling also by its
    auto-line; every reachable configuration
    is in bounds and jointly valid, a raised minimum ratio grants every borrower the grace,
    and a shutdown is final.

    Of prices ([Oracle], [Twap], [OracleProofs], [AccountBytes], [OracleAdmin]): a
    committed price is authenticated, fresh and ordered; minting opens only when every
    source vouches for the price; the ring implements the list of the newest samples, its
    average is the time-weighted mean, one print moves it by its share of the window, and
    flooding cannot push the window out of the ring; the pool parser inverts the layout.

    Of the arithmetic: the 256-bit operations are exact floors and ceilings and the
    hand-written shim agrees with the crate; interest booked covers interest owed; the
    redistribution never promises more than it holds, over any sequence of events; the
    bitmap implements a finite set; the waterfall, the collar, the health test, the fee and
    the rate limiter meet their contracts; each supply transition moves both sides of the
    supply identity by the same amount, and on u128 either fails or agrees with the
    unbounded one.

    Of the stake controller ([StakeProofs], [StakeRefine], [StakePreference], [StakeStream],
    [StakeCalls], [StakeMath], [StakeTargets], [StakeView]): a finished plan accounts for
    every lamport of the pool and respects every cap; batches of any size, interleaved with
    anything, compute what the one-shot driver computes, and the driver terminates with a
    fair, exact distribution; the internal consistency errors do not occur; churn and
    rewards stay within their budgets; a rebalancing move never overshoots; a position
    counts once per epoch; a status is justified by the validator's history; every phase
    leads on along the cycle and can be abandoned for the next epoch; a reader of its events
    alone always holds its epoch, phase, budgets, statuses and preferences; the parsers
    invert the layouts; the controller changes the pool only through its allowlisted calls,
    on derived accounts, and the pool program reads each call as it was meant.

    ** Fuel and bounds

    Every loop is structural or has fuel that is proved enough. The rescale of the Reactor
    Pool's product ([update_product_loop]) has fuel 5; [update_product_total] shows that two
    rounds suffice on the pool's domain. The shift-subtract division of the 256-bit shim
    runs its 256 steps. [ray_pow] recurses on the binary exponent. The redemption loops
    recurse on the list of candidates, the average of the ring on its count, the bit scans
    on the words of the bitmap. The driver of the neutral rounds has one unit of fuel more
    than there are validators, and [neutral_distribution] shows that it returns. The loop
    over a vote account's credits runs once per stored entry.

    ** What is assumed

    Third-party code is a parameter, a class with an instance that satisfies it: the 256-bit
    crate ([U256]), the token and system programs ([Runtime]), and the Pyth and Switchboard
    decoders with the epoch schedule ([OracleSdk], instance [PlainSdk.sdk]), and the
    stake-pool program ([StakeRuntime], instance [PlainPool.pool_runtime]): a function from
    an instruction, the pool and the ledger to a new pool and ledger, of which only the
    capacity of its validator list, that account data are bytes and that distinct seeds give
    distinct addresses are used; a call reaches it only with the privileges the runtime
    demands ([invoke_signed]). Addresses come from a hash that is a parameter ([Addresses]).
    A new token account is empty, with the mint and owner its creation asks for
    ([new_vault]). A run has a clock that does not go back; program addresses do not sign;
    activity outside the market never debits its vaults, because only the program signs for
    their owners, and distinct seeds give distinct program addresses. In [Protocol] only
    these last two facts are assumed of what is not the program, and that only the program
    mints fUSD.

    ** What is not modelled

    The self-CPI that carries an event into the log, the Borsh layout of the program's own
    accounts and events, the PDA bumps and the padding, rent, and the failure of a second
    borrow of an account's data. The configuration of the other verification tools, the unit
    and integration tests and the vendored stake pool are not part of the program.

    ** Open ends

    Not stated yet: the authority hand-overs along protocol runs, the lamport bonds of the
    positions, and the conditions under which a liquidation or a withdrawal cannot be
    refused. *)

From stdpp Require Export base tactics option list gmap.
From Stdlib Require Export ZArith Lia.

Declare Scope fusion_scope.
Delimit Scope fusion_scope with fusion.

#[export] Set Default Proof Using "Type".

Open Scope Z_scope.

(** ** Results: a value or an error, with the early return of Rust's [?] *)

Inductive result (E A : Type) : Type :=
  | Ok (a : A)
  | Err (e : E).
Arguments Ok {E A} a.
Arguments Err {E A} e.

#[export] Instance result_ret E : MRet (result E) := fun A a => Ok a.
#[export] Instance result_bind E : MBind (result E) := fun A B f r =>
  match r with Ok a => f a | Err e => Err e end.
#[export] Instance result_fmap E : FMap (result E) := fun A B f r =>
  match r with Ok a => Ok (f a) | Err e => Err e end.

(** [opt.ok_or(e)?] *)
Definition ok_or {E A} (o : option A) (e : E) : result E A :=
  match o with Some a => Ok a | None => Err e end.

(** [res.map_err(f)?] *)
Definition map_err {E F A} (f : E -> F) (r : result E A) : result F A :=
  match r with Ok a => Ok a | Err e => Err (f e) end.

(** Anchor's [require!(cond, e)] *)
Definition require {E} (b : bool) (e : E) : result E unit :=
  if b then Ok tt else Err e.

Lemma bind_Ok {E A B} (r : result E A) (f : A -> result E B) b :
  (r ≫= f) = Ok b <-> exists a, r = Ok a /\ f a = Ok b.
Proof.
  destruct r as [a|e]; cbn; split.
  - eauto.
  - by intros (a' & [= ->] & ?).
  - done.
  - by intros (a' & ? & ?).
Qed.

Lemma bind_Some' {A B} (r : option A) (f : A -> option B) b :
  (r ≫= f) = Some b <-> exists a, r = Some a /\ f a = Some b.
Proof.
  destruct r as [a|]; cbn; split.
  - eauto.
  - by intros (a' & [= ->] & ?).
  - done.
  - by intros (a' & ? & ?).
Qed.

Lemma ok_or_Ok {E A} (o : option A) (e : E) a : ok_or o e = Ok a <-> o = Some a.
Proof. destruct o; cbn; split; congruence. Qed.

Lemma map_err_Ok {E F A} (f : E -> F) (r : result E A) a :
  map_err f r = Ok a <-> r = Ok a.
Proof. destruct r; cbn; split; congruence. Qed.

Lemma require_Ok {E} b (e : E) u : require b e = Ok u <-> b = true.
Proof. destruct b, u; cbn; split; congruence. Qed.

Lemma if_Some_l {A} (b : bool) (x : option A) y :
  (if b then x else None) = Some y <-> b = true /\ x = Some y.
Proof. destruct b; split; [auto | tauto | done | intros [[=] _]]. Qed.

Lemma if_Some_r {A} (b : bool) (x : option A) y :
  (if b then None else x) = Some y <-> b = false /\ x = Some y.
Proof. destruct b; split; [done | intros [[=] _] | auto | tauto]. Qed.

(** Boolean tests of the code turned into the propositions they decide. *)
Ltac propify_in H :=
  first
    [ rewrite Z.eqb_eq in H | rewrite Z.eqb_neq in H
    | rewrite Z.leb_le in H | rewrite Z.leb_gt in H
    | rewrite Z.ltb_lt in H | rewrite Z.ltb_ge in H
    | rewrite negb_true_iff in H | rewrite negb_false_iff in H
    | rewrite bool_decide_eq_true in H | rewrite bool_decide_eq_false in H
    | apply andb_true_iff in H; destruct H
    | apply orb_false_iff in H; destruct H ].

Ltac propify :=
  repeat match goal with
  | H : (_ =? _)%Z = _ |- _ => propify_in H
  | H : (_ <=? _)%Z = _ |- _ => propify_in H
  | H : (_ <? _)%Z = _ |- _ => propify_in H
  | H : negb _ = _ |- _ => propify_in H
  | H : bool_decide _ = _ |- _ => propify_in H
  | H : (_ && _) = true |- _ => propify_in H
  | H : (_ || _) = false |- _ => propify_in H
  end.

(** Invert one step of a computation that is known to have succeeded. *)
Ltac inv_ok_step H :=
  lazymatch type of H with
  | (_ ≫= _) = Ok _ =>
      let a := fresh "a" in let Ha := fresh "Hrun" in
      apply bind_Ok in H as (a & Ha & H); cbv beta in H;
      repeat (progress inv_ok_step Ha)
  | (_ ≫= _) = Some _ =>
      let a := fresh "a" in let Ha := fresh "Hrun" in
      apply bind_Some' in H as (a & Ha & H); cbv beta in H;
      repeat (progress inv_ok_step Ha)
  | ok_or _ _ = Ok _ => apply ok_or_Ok in H
  | map_err _ _ = Ok _ => apply map_err_Ok in H
  | require _ _ = Ok ?u => apply require_Ok in H; try clear u
  | Ok _ = Ok _ => apply (inj Ok) in H
  | Some _ = Some _ => apply (inj Some) in H
  | Err _ = Ok _ => discriminate H
  | None = Some _ => discriminate H
  | (match ?p with pair _ _ => _ end) = _ =>
      is_var p; let x := fresh "a" in let y := fresh "b" in destruct p as [x y]
  | _ => idtac
  end.

#[export] Instance Ok_inj E A : Inj (=) (=) (@Ok E A).
Proof. by intros ?? [= ->]. Qed.

Ltac inv_ok H :=
  repeat (progress inv_ok_step H); subst; propify; try done.

(** One bind of a successful run. *)
Tactic Notation "bind" hyp(H) "as" simple_intropattern(x) ident(Hx) :=
  apply bind_Ok in H; destruct H as (x & Hx & H); cbv beta iota in H.

(** The branch a successful run took. *)
Ltac split_if H := match type of H with (if ?b then _ else _) = _ => destruct b end.

(** Run the binds whose first computation is a value, and nothing else. *)
Ltac step_ok := cbn [ok_or map_err require mbind result_bind option_bind].

(** ** Record update

    A record type declares its eta-expansion once; the update of one field is
    then derived from it, so handlers read like the field assignments of the
    source: [m <| spot := s |> <| debt_spot := d |>]. *)

Class Fields (R : Type) := eta_expand : R -> R.

Class Update {R T : Type} (field : R -> T) := update : T -> R -> R.
Arguments update {R T} field {_} _ _ /.

Ltac head_of t := lazymatch t with ?f _ => head_of f | _ => t end.

Ltac derive_update field :=
  match type of field with
  | ?R -> ?T =>
      let eta := constr:(eta_expand (R := R)) in
      let eta := eval unfold eta_expand in eta in
      let h := head_of eta in
      let eta := eval cbv beta delta [h] in eta in
      exact (fun (v : T) (r : R) => ltac:(
        let body := eval cbv beta in (eta r) in
        match body with
        | context C [field r] => let b := context C [v] in exact b
        end))
  end.

#[export] Hint Extern 1 (Update ?f) => derive_update f : typeclass_instances.

Notation "r <| f := v |>" := (update f v r)
  (at level 1, left associativity, f at next level, v at level 99,
   format "r  <| f  :=  v |>").

(** ** Sums over a finite map *)

Section map_sums.
Context {A : Type}.
Implicit Types (f g : A -> Z) (ps : gmap Z A).

Definition msum f ps : Z := map_fold (fun _ a n => f a + n) 0 ps.

Lemma msum_empty f : msum f ∅ = 0.
Proof. apply map_fold_empty. Qed.

Lemma msum_insert f ps k a : ps !! k = None -> msum f (<[k := a]> ps) = f a + msum f ps.
Proof. intros. unfold msum. rewrite map_fold_insert_L; [done | intros; lia | done]. Qed.

Lemma msum_delete f ps k a : ps !! k = Some a -> msum f ps = f a + msum f (delete k ps).
Proof. intros. unfold msum. rewrite (map_fold_delete_L _ _ k a); [done | intros; lia | done]. Qed.

(** Replacing one value changes the sum by the difference. *)
Lemma msum_update f ps k a b : ps !! k = Some a -> msum f (<[k := b]> ps) = msum f ps - f a + f b.
Proof.
  intros Hk. rewrite (msum_delete f ps k a Hk).
  rewrite <- insert_delete_eq, msum_insert by apply lookup_delete_eq. lia.
Qed.

Lemma msum_le f g ps : (forall k a, ps !! k = Some a -> f a <= g a) -> msum f ps <= msum g ps.
Proof.
  induction ps as [|k a ps Hk IH] using map_ind; intros Hle; [by rewrite !msum_empty|].
  rewrite !msum_insert by done.
  assert (f a <= g a) by (apply (Hle k); apply lookup_insert_eq).
  assert (msum f ps <= msum g ps); [|lia].
  apply IH. intros k' a' Hk'. apply (Hle k'). rewrite lookup_insert_ne; [done | congruence].
Qed.

Lemma msum_ext f g ps : (forall a, f a = g a) -> msum f ps = msum g ps.
Proof. intros E. apply Z.le_antisymm; apply msum_le; intros; rewrite E; lia. Qed.

Lemma msum_add f g ps : msum (fun a => f a + g a) ps = msum f ps + msum g ps.
Proof.
  induction ps as [|k a ps Hk IH] using map_ind; [by rewrite !msum_empty|].
  rewrite !msum_insert by done. lia.
Qed.

Lemma msum_scale c f ps : msum (fun a => c * f a) ps = c * msum f ps.
Proof.
  induction ps as [|k a ps Hk IH] using map_ind; [rewrite !msum_empty; lia|].
  rewrite !msum_insert by done. lia.
Qed.

Lemma msum_zero f ps : (forall k a, ps !! k = Some a -> f a = 0) -> msum f ps = 0.
Proof.
  induction ps as [|k a ps Hk IH] using map_ind; intros Hf; [apply msum_empty|].
  rewrite msum_insert by done. rewrite (Hf k a) by apply lookup_insert_eq.
  apply IH. intros k' a' H. apply (Hf k'). rewrite lookup_insert_ne; [done|]. by intros <-; simplify_eq.
Qed.

Lemma msum_nonneg f ps : (forall k a, ps !! k = Some a -> 0 <= f a) -> 0 <= msum f ps.
Proof.
  intros Hf. transitivity (msum (fun _ => 0) ps); [|by apply msum_le].
  rewrite (msum_ext _ (fun a => 0 * 0)) by done. rewrite (msum_scale 0 (fun _ => 0)). lia.
Qed.

(** One value is at most the sum of non-negative values. *)
Lemma msum_lookup_le f ps k a : (forall k a, ps !! k = Some a -> 0 <= f a) ->
  ps !! k = Some a -> f a <= msum f ps.
Proof.
  intros Hf Hk. rewrite (msum_delete _ _ _ _ Hk).
  assert (0 <= msum f (delete k ps)); [|lia]. apply msum_nonneg.
  intros k' a' [_ ?]%lookup_delete_Some. by eapply Hf.
Qed.

End map_sums.
