(* ===== verification/MachineInt.v ===== *)
(** * Machine integers

    Rust's fixed-width integers are integers of [Z] kept inside their range.
    This file holds the ranges, the checked, saturating and truncating
    operations the program uses, and the interface of the 256-bit integers
    ([bnum::types::U256], a third-party crate): the operations the program
    calls with their documented behaviour as the laws of the class, and one
    instance that shows the laws can hold and lets every definition compute. *)

From S2P Require Import Prelude.

Open Scope Z_scope.

Abbreviation U8_MAX := 255.
Abbreviation U16_MAX := 65535.
Abbreviation U32_MAX := 4294967295.
Abbreviation U64_MAX := 18446744073709551615.
Abbreviation U128_MAX := 340282366920938463463374607431768211455.
Abbreviation I64_MIN := (-9223372036854775808).
Abbreviation I64_MAX := 9223372036854775807.

Definition u8 (z : Z) : Prop := 0 <= z <= U8_MAX.
Definition u16 (z : Z) : Prop := 0 <= z <= U16_MAX.
Definition u32 (z : Z) : Prop := 0 <= z <= U32_MAX.
Definition u64 (z : Z) : Prop := 0 <= z <= U64_MAX.
Definition u128 (z : Z) : Prop := 0 <= z <= U128_MAX.
Definition i64 (z : Z) : Prop := I64_MIN <= z <= I64_MAX.

(** A result computed in [Z] that must fit [0 .. max]. *)
Definition fit (max r : Z) : option Z :=
  if (0 <=? r) && (r <=? max) then Some r else None.

(** [checked_add], [checked_sub], [checked_mul] and [try_from] of each width. *)
Definition checked_add128 (a b : Z) : option Z := fit U128_MAX (a + b).
Definition checked_sub128 (a b : Z) : option Z := fit U128_MAX (a - b).
Definition checked_mul128 (a b : Z) : option Z := fit U128_MAX (a * b).
Definition checked_add64 (a b : Z) : option Z := fit U64_MAX (a + b).
Definition checked_sub64 (a b : Z) : option Z := fit U64_MAX (a - b).
Definition checked_add32 (a b : Z) : option Z := fit U32_MAX (a + b).
Definition checked_sub32 (a b : Z) : option Z := fit U32_MAX (a - b).
Definition try_u64 (z : Z) : option Z := fit U64_MAX z.

(** Saturating operations. *)
Definition sat_add128 (a b : Z) : Z := Z.min U128_MAX (a + b).
Definition sat_mul128 (a b : Z) : Z := Z.min U128_MAX (a * b).
Definition sat_add64 (a b : Z) : Z := Z.min U64_MAX (a + b).
Definition sat_sub (a b : Z) : Z := Z.max 0 (a - b).
Definition clamp_i64 (z : Z) : Z := Z.max I64_MIN (Z.min I64_MAX z).
Definition sat_sub_i64 (a b : Z) : Z := clamp_i64 (a - b).
Definition sat_add_i64 (a b : Z) : Z := clamp_i64 (a + b).

(** [as] casts keep the low bits. *)
Definition as_u16 (z : Z) : Z := z mod 65536.
Definition as_u64 (z : Z) : Z := z mod 18446744073709551616.
Definition as_i64 (z : Z) : Z := (z + 9223372036854775808) mod 18446744073709551616 - 9223372036854775808.

Lemma fit_Some max r q : fit max r = Some q <-> q = r /\ 0 <= r <= max.
Proof.
  unfold fit. destruct (Z.leb_spec 0 r), (Z.leb_spec r max); cbn; split;
    try (intros [= ->]; lia); try discriminate; intros [? ?]; lia || by subst.
Qed.

Lemma fit_None max r : fit max r = None <-> r < 0 \/ max < r.
Proof.
  unfold fit. destruct (Z.leb_spec 0 r), (Z.leb_spec r max); cbn;
    split; intros; congruence || lia.
Qed.

Lemma fit_in max r : 0 <= r <= max -> fit max r = Some r.
Proof. intros. by apply fit_Some. Qed.

Create HintDb ranges.
#[export] Hint Unfold u8 u16 u32 u64 u128 i64 : ranges.

(** Unfold the ranges and the total operations, then decide with [lia]. *)
Ltac range_unfold :=
  unfold u8, u16, u32, u64, u128, i64, sat_add128, sat_mul128, sat_add64, sat_sub,
    sat_sub_i64, sat_add_i64, clamp_i64 in *.
Ltac rlia := range_unfold; lia.

(** Facts of every checked operation in the context. *)
Ltac checked :=
  repeat match goal with
  | H : checked_add128 _ _ = Some _ |- _ => apply fit_Some in H as [H ?]
  | H : checked_sub128 _ _ = Some _ |- _ => apply fit_Some in H as [H ?]
  | H : checked_mul128 _ _ = Some _ |- _ => apply fit_Some in H as [H ?]
  | H : checked_add64 _ _ = Some _ |- _ => apply fit_Some in H as [H ?]
  | H : checked_sub64 _ _ = Some _ |- _ => apply fit_Some in H as [H ?]
  | H : checked_add32 _ _ = Some _ |- _ => apply fit_Some in H as [H ?]
  | H : checked_sub32 _ _ = Some _ |- _ => apply fit_Some in H as [H ?]
  | H : try_u64 _ = Some _ |- _ => apply fit_Some in H as [H ?]
  end.

(** ** 256-bit integers

    What the program uses of [bnum]'s [U256]. The bare operators are used by
    the program only where the result fits, which is what their laws ask. *)

Abbreviation U256_SIZE :=
  115792089237316195423570985008687907853269984665640564039457584007913129639936.

Class U256 := {
  u256 : Type;
  u256_val : u256 -> Z;
  u256_from : Z -> u256;
  u256_mul : u256 -> u256 -> u256;
  u256_add : u256 -> u256 -> u256;
  u256_sub : u256 -> u256 -> u256;
  u256_div : u256 -> u256 -> u256;
  u256_rem : u256 -> u256 -> u256;
  u256_shr : u256 -> Z -> u256;
  u256_pow : u256 -> Z -> u256;
  u256_checked_mul : u256 -> u256 -> option u256;
  u256_checked_add : u256 -> u256 -> option u256;
  u256_eqb : u256 -> u256 -> bool;
  u256_geb : u256 -> u256 -> bool;
  u256_cmp : u256 -> u256 -> comparison;
  u256_try_u128 : u256 -> option Z;

  u256_range x : 0 <= u256_val x < U256_SIZE;
  u256_from_val z : u128 z -> u256_val (u256_from z) = z;
  u256_mul_val x y : u256_val x * u256_val y < U256_SIZE ->
    u256_val (u256_mul x y) = u256_val x * u256_val y;
  u256_add_val x y : u256_val x + u256_val y < U256_SIZE ->
    u256_val (u256_add x y) = u256_val x + u256_val y;
  u256_sub_val x y : u256_val y <= u256_val x ->
    u256_val (u256_sub x y) = u256_val x - u256_val y;
  u256_div_val x y : 0 < u256_val y ->
    u256_val (u256_div x y) = u256_val x / u256_val y;
  u256_rem_val x y : 0 < u256_val y ->
    u256_val (u256_rem x y) = u256_val x mod u256_val y;
  u256_shr_val x n : 0 <= n < 256 -> u256_val (u256_shr x n) = Z.shiftr (u256_val x) n;
  u256_pow_val x n : 0 <= n -> u256_val x ^ n < U256_SIZE ->
    u256_val (u256_pow x n) = u256_val x ^ n;
  u256_checked_mul_val x y : u256_val <$> u256_checked_mul x y
    = fit (U256_SIZE - 1) (u256_val x * u256_val y);
  u256_checked_add_val x y : u256_val <$> u256_checked_add x y
    = fit (U256_SIZE - 1) (u256_val x + u256_val y);
  u256_eqb_val x y : u256_eqb x y = (u256_val x =? u256_val y);
  u256_geb_val x y : u256_geb x y = (u256_val y <=? u256_val x);
  u256_cmp_val x y : u256_cmp x y = (u256_val x ?= u256_val y);
  u256_try_u128_val x : u256_try_u128 x = fit U128_MAX (u256_val x);
}.

(** *** A model of the laws: integers below [2^256] with wrapped results. *)

Module WideInt.

Record wide := mkWide { wval : Z; wval_ok : (0 <=? wval) && (wval <? U256_SIZE) = true }.

Lemma wrap_ok z :
  (0 <=? z mod U256_SIZE) && (z mod U256_SIZE <? U256_SIZE) = true.
Proof.
  pose proof (Z.mod_pos_bound z U256_SIZE eq_refl).
  apply andb_true_iff; split; [apply Z.leb_le | apply Z.ltb_lt]; lia.
Qed.

Definition wrap (z : Z) : wide := mkWide (z mod U256_SIZE) (wrap_ok z).

Lemma wval_range x : 0 <= wval x < U256_SIZE.
Proof. destruct x as [v Hv]. cbn. propify. lia. Qed.

Lemma wrap_val z : 0 <= z < U256_SIZE -> wval (wrap z) = z.
Proof. intros. by apply Z.mod_small. Qed.

Definition checked (r : Z) : option wide := wrap <$> fit (U256_SIZE - 1) r.

Lemma checked_val r : wval <$> checked r = fit (U256_SIZE - 1) r.
Proof.
  unfold checked. destruct (fit _ r) eqn:E; [|done].
  apply fit_Some in E as [-> ?]. cbn. by rewrite Z.mod_small by lia.
Qed.

#[export, refine] Instance wide_u256 : U256 := {|
  u256 := wide;
  u256_val := wval;
  u256_from := wrap;
  u256_mul x y := wrap (wval x * wval y);
  u256_add x y := wrap (wval x + wval y);
  u256_sub x y := wrap (wval x - wval y);
  u256_div x y := wrap (wval x / wval y);
  u256_rem x y := wrap (wval x mod wval y);
  u256_shr x n := wrap (Z.shiftr (wval x) n);
  u256_pow x n := wrap (wval x ^ n);
  u256_checked_mul x y := checked (wval x * wval y);
  u256_checked_add x y := checked (wval x + wval y);
  u256_eqb x y := wval x =? wval y;
  u256_geb x y := wval y <=? wval x;
  u256_cmp x y := wval x ?= wval y;
  u256_try_u128 x := fit U128_MAX (wval x);
|}.
Proof.
  all: intros; try done.
  - apply wval_range.
  - apply wrap_val. rlia.
  - pose proof (wval_range x). pose proof (wval_range y). apply wrap_val. nia.
  - pose proof (wval_range x). pose proof (wval_range y). apply wrap_val. lia.
  - pose proof (wval_range x). pose proof (wval_range y). apply wrap_val. lia.
  - pose proof (wval_range x). apply wrap_val. split; [apply Z.div_pos; lia|].
    apply Z.le_lt_trans with (wval x); [|lia]. apply Z.div_le_upper_bound; nia.
  - pose proof (wval_range y).
    pose proof (Z.mod_pos_bound (wval x) (wval y) ltac:(lia)). apply wrap_val. lia.
  - pose proof (wval_range x). apply wrap_val. rewrite Z.shiftr_div_pow2 by lia.
    assert (0 < 2 ^ n) by (apply Z.pow_pos_nonneg; lia).
    split; [apply Z.div_pos; lia|].
    apply Z.le_lt_trans with (wval x); [|lia]. apply Z.div_le_upper_bound; nia.
  - pose proof (wval_range x). apply wrap_val. split; [apply Z.pow_nonneg; lia | lia].
  - apply checked_val.
  - apply checked_val.
Defined.

End WideInt.
