(* ===== verification/Harness.v ===== *)
(** * The harness language

    What a verification harness of the repository does besides calling the code: it
    assumes, asserts, unwraps and marks the points that must be reachable. A run of a
    harness is discarded by a false assumption, fails at a false assertion or a panic
    (arithmetic overflow is one), or finishes with the values its cover points saw.
    [kani::assume] / [cvlr_assume!], [assert!] / [cvlr_assert!], [kani::cover!] /
    [cvlr_satisfy!] are the operations below; a [kani::any] or a [nondet] is a
    parameter of the harness. *)

From S2P Require Import Prelude MachineInt.

Open Scope Z_scope.

Inductive outcome (A : Type) :=
  | Discarded
  | Failed
  | Finished (covers : list bool) (a : A).
Arguments Discarded {A}.
Arguments Failed {A}.
Arguments Finished {A} covers a.

#[export] Instance outcome_ret : MRet outcome := fun A a => Finished [] a.
#[export] Instance outcome_bind : MBind outcome := fun A B f m =>
  match m with
  | Discarded => Discarded
  | Failed => Failed
  | Finished cs a =>
      match f a with
      | Finished cs' b => Finished (cs ++ cs') b
      | r => r
      end
  end.

Definition assume (b : bool) : outcome unit := if b then mret tt else Discarded.
Definition asserts (b : bool) : outcome unit := if b then mret tt else Failed.
Definition cover (b : bool) : outcome unit := Finished [b] tt.

(** [assert_eq!] *)
Definition asserts_eq {A} `{!EqDecision A} (x y : A) : outcome unit := asserts (bool_decide (x = y)).

#[export] Instance result_eq_dec {E A} `{!EqDecision E, !EqDecision A} : EqDecision (result E A).
Proof. solve_decision. Defined.

(** [Option::unwrap] and [Result::unwrap] *)
Definition unwrap {A} (o : option A) : outcome A :=
  match o with Some a => mret a | None => Failed end.
Definition unwrap_ok {E A} (r : result E A) : outcome A :=
  match r with Ok a => mret a | Err _ => Failed end.

(** An [if] without an [else]. *)
Definition when (b : bool) (body : outcome unit) : outcome unit := if b then body else mret tt.

(** [let Some(d) = o else { return };] *)
Definition if_let_some {A} (o : option A) (body : A -> outcome unit) : outcome unit :=
  match o with Some a => body a | None => mret tt end.

(** Rust's [+], [-] and [*] at [u128] and [u64]: overflow is a failure of the harness. *)
Definition add128 (a b : Z) : outcome Z := unwrap (checked_add128 a b).
Definition sub128 (a b : Z) : outcome Z := unwrap (checked_sub128 a b).
Definition mul128 (a b : Z) : outcome Z := unwrap (checked_mul128 a b).
Definition add64 (a b : Z) : outcome Z := unwrap (checked_add64 a b).
Definition sub64 (a b : Z) : outcome Z := unwrap (checked_sub64 a b).
Definition mul64 (a b : Z) : outcome Z := unwrap (fit U64_MAX (a * b)).

(** The harness is verified at an input when no run of it fails. *)
Definition verified {A} (m : outcome A) : Prop :=
  match m with Failed => False | _ => True end.

(** The values of its cover points. *)
Definition covers {A} (m : outcome A) : list bool :=
  match m with Finished cs _ => cs | _ => [] end.

(** Every one of the [n] cover points is reached by some of the runs. *)
Definition all_covered (n : nat) (runs : list (outcome unit)) : bool :=
  forallb (fun i => existsb (fun r => default false (covers r !! i)) runs) (seq 0 n).

(** ** Reasoning about a harness, one statement at a time *)

Lemma verified_bind {A B} (m : outcome A) (k : A -> outcome B) :
  verified (m ≫= k) <-> verified m /\ (forall cs a, m = Finished cs a -> verified (k a)).
Proof.
  destruct m as [| |cs a]; cbn; [split; [intros _; split; [done | by intros] | done] | split; [done | by intros [[] _]] |].
  destruct (k a) as [| |cs' b] eqn:E; cbn; split; try done.
  - intros _. split; [done|]. by intros ?? [= <- <-]; rewrite E.
  - intros [_ H]. specialize (H cs a eq_refl). by rewrite E in H.
  - intros _. split; [done|]. by intros ?? [= <- <-]; rewrite E.
Qed.

Section statements.
Context {A B : Type}.

Lemma verified_assume b (k : unit -> outcome A) :
  (b = true -> verified (k tt)) -> verified (assume b ≫= k).
Proof. destruct b; cbn; [|done]. intros H. specialize (H eq_refl). by destruct (k tt). Qed.

Lemma verified_asserts b (k : unit -> outcome A) :
  b = true -> verified (k tt) -> verified (asserts b ≫= k).
Proof. intros -> H. cbn. by destruct (k tt). Qed.

Lemma verified_asserts_eq `{!EqDecision B} (x y : B) (k : unit -> outcome A) :
  x = y -> verified (k tt) -> verified (asserts_eq x y ≫= k).
Proof. intros ->. apply verified_asserts. by apply bool_decide_eq_true. Qed.

Lemma verified_cover b (k : unit -> outcome A) : verified (k tt) -> verified (cover b ≫= k).
Proof. cbn. by destruct (k tt). Qed.

Lemma verified_unwrap (o : option B) b (k : B -> outcome A) :
  o = Some b -> verified (k b) -> verified (unwrap o ≫= k).
Proof. intros ->. cbn. by destruct (k b). Qed.

Lemma verified_unwrap_ok {E} (r : result E B) b (k : B -> outcome A) :
  r = Ok b -> verified (k b) -> verified (unwrap_ok r ≫= k).
Proof. intros ->. cbn. by destruct (k b). Qed.

Lemma verified_when b body (k : unit -> outcome A) :
  (b = true -> verified body) -> verified (k tt) -> verified (when b body ≫= k).
Proof.
  intros Hb Hk. unfold when. destruct b; [|cbn; by destruct (k tt)].
  apply verified_bind. split; [auto | by intros ? []].
Qed.

End statements.

Lemma verified_asserts_last b : b = true -> verified (asserts b).
Proof. by intros ->. Qed.

Lemma verified_asserts_eq_last {A} `{!EqDecision A} (x y : A) : x = y -> verified (asserts_eq x y).
Proof. intros ->. apply verified_asserts_last. by apply bool_decide_eq_true. Qed.

Lemma verified_cover_last b : verified (cover b).
Proof. done. Qed.

Lemma verified_when_last b body : (b = true -> verified body) -> verified (when b body).
Proof. destruct b; [auto | done]. Qed.

Lemma verified_if_let {A} (o : option A) body :
  (forall a, o = Some a -> verified (body a)) -> verified (if_let_some o body).
Proof. destruct o; cbn; auto. Qed.

(** Rust's arithmetic where it stays in range. *)
Lemma verified_fit {A} max r (k : Z -> outcome A) :
  0 <= r <= max -> verified (k r) -> verified (unwrap (fit max r) ≫= k).
Proof. intros Hr. apply verified_unwrap. by apply fit_in. Qed.

(** Discharge the assertions of a harness from arithmetic facts in the context. *)
Ltac decide_test :=
  repeat match goal with
  | |- (_ && _) = true => apply andb_true_iff; split
  | |- negb (_ =? _) = true => apply negb_true_iff, Z.eqb_neq
  | |- (_ =? _) = true => apply Z.eqb_eq
  | |- (_ <=? _) = true => apply Z.leb_le
  | |- (_ <? _) = true => apply Z.ltb_lt
  | |- bool_decide _ = true => apply bool_decide_eq_true
  end.

(** Step through assumptions, covers and in-range arithmetic. *)
Ltac harness_step :=
  lazymatch goal with
  | |- verified (assume _ ≫= _) => apply verified_assume; intros ?; propify
  | |- verified (cover _ ≫= _) => apply verified_cover
  | |- verified (cover _) => apply verified_cover_last
  | |- verified (mret _) => exact I
  | |- verified (Finished _ _) => exact I
  end.

(** Run through a harness: each statement by its rule, each test by arithmetic. *)
Ltac run := repeat first
  [ harness_step
  | apply verified_asserts_eq; [lia|]
  | apply verified_asserts; [decide_test; lia|]
  | apply verified_asserts_eq_last; lia
  | apply verified_asserts_last; decide_test; lia
  | apply verified_fit; [lia|] ].
