(* ===== verification/FixedPoint.v ===== *)
(** * Fixed-point money math ([crates/fusd-math/src/lib.rs])

    The 256-bit multiply-divide every other computation is built from, its
    WAD/RAY specialisations, [ray_pow], and the hand-written 256-bit shim
    ([wide_mul], [div_256_by_128], [wide_muladd_div]) the repository uses for
    bounded model checking in place of [bnum]. *)

From S2P Require Import Prelude MachineInt.

Open Scope Z_scope.

Abbreviation wide_u256 := WideInt.wide_u256.

Abbreviation WAD := 1000000000000000000.
Abbreviation RAY := 1000000000000000000000000000.
Abbreviation BPS_DENOMINATOR := 10000.

Section multiply_divide.
Context {U : U256}.

Definition wide_mul_div (a b denom : Z) : option (Z * bool) :=
  if denom =? 0 then None
  else
    let prod := u256_mul (u256_from a) (u256_from b) in
    let d := u256_from denom in
    q ← u256_try_u128 (u256_div prod d);
    Some (q, negb (u256_eqb (u256_rem prod d) (u256_from 0))).

Definition mul_div_floor (a b denom : Z) : option Z :=
  fst <$> wide_mul_div a b denom.

Definition mul_div_ceil (a b denom : Z) : option Z :=
  '(q, has_rem) ← wide_mul_div a b denom;
  if has_rem : bool then checked_add128 q 1 else Some q.

Definition wad_mul (a b : Z) : option Z := mul_div_floor a b WAD.
Definition wad_mul_up (a b : Z) : option Z := mul_div_ceil a b WAD.
Definition wad_div (a b : Z) : option Z := mul_div_floor a WAD b.
Definition ray_mul (a b : Z) : option Z := mul_div_floor a b RAY.
Definition ray_mul_up (a b : Z) : option Z := mul_div_ceil a b RAY.
Definition ray_div (a b : Z) : option Z := mul_div_floor a RAY b.
Definition present_debt (art rate : Z) : option Z := ray_mul_up art rate.

(** The loop of [ray_pow] halves [exp] until it is 0: it is structural on the
    binary digits of [exp], so it needs no fuel. *)
Fixpoint ray_pow_loop (exp : positive) (z b : Z) : option Z :=
  b ← ray_mul b b;
  match exp with
  | xH => ray_mul z b
  | xO exp => ray_pow_loop exp z b
  | xI exp => z ← ray_mul z b; ray_pow_loop exp z b
  end.

Definition ray_pow (base exp : Z) : option Z :=
  let z := if Z.odd exp then base else RAY in
  match Z.shiftr exp 1 with
  | Zpos p => ray_pow_loop p z base
  | _ => Some z
  end.

End multiply_divide.

#[global] Arguments wide_mul_div : simpl never.
#[global] Arguments mul_div_floor : simpl never.
#[global] Arguments mul_div_ceil : simpl never.
#[global] Arguments ray_mul : simpl never.
#[global] Arguments ray_mul_up : simpl never.
#[global] Arguments ray_pow : simpl never.

Definition apply_bps (amount bps : Z) : option Z :=
  scaled ← checked_mul128 amount bps;
  try_u64 (scaled / BPS_DENOMINATOR).

(** ** The model-checking shim, over [u128] words *)

Abbreviation TWO64 := 18446744073709551616.
Abbreviation TWO128 := 340282366920938463463374607431768211456.

Definition wide_mul (a b : Z) : Z * Z :=
  let M := U64_MAX in
  let a0 := Z.land a M in let a1 := Z.shiftr a 64 in
  let b0 := Z.land b M in let b1 := Z.shiftr b 64 in
  let lo_lo := a0 * b0 in
  let mid1 := a1 * b0 in
  let mid2 := a0 * b1 in
  let hi_hi := a1 * b1 in
  let cross := Z.shiftr lo_lo 64 + Z.land mid1 M + Z.land mid2 M in
  let lo := Z.lor (Z.land lo_lo M) (Z.shiftl cross 64 mod TWO128) in
  let hi := hi_hi + Z.shiftr mid1 64 + Z.shiftr mid2 64 + Z.shiftr cross 64 in
  (hi, lo).

(** One iteration of the restoring long division, at bit index [i]. *)
Definition div_step (hi lo denom : Z) (i : Z) (st : Z * Z) : Z * Z :=
  let '(rem, quo) := st in
  let bit := if 128 <=? i then Z.land (Z.shiftr hi (i - 128)) 1
             else Z.land (Z.shiftr lo i) 1 in
  let carry := Z.shiftr rem 127 in
  let rem := Z.lor (Z.shiftl rem 1 mod TWO128) bit in
  let quo := Z.shiftl quo 1 mod TWO128 in
  if (carry =? 1) || (denom <=? rem)
  then ((rem - denom) mod TWO128, Z.lor quo 1)
  else (rem, quo).

(** The loop counts [i] down from [n] to 0. *)
Fixpoint div_loop (hi lo denom : Z) (n : nat) (st : Z * Z) : Z * Z :=
  match n with
  | O => st
  | S i => div_loop hi lo denom i (div_step hi lo denom (Z.of_nat i) st)
  end.

Definition div_256_by_128 (hi lo denom : Z) : option (Z * Z) :=
  if denom <=? hi then None
  else if hi =? 0 then Some (lo / denom, lo mod denom)
  else
    let '(rem, quo) := div_loop hi lo denom 256 (0, 0) in
    Some (quo, rem).

Definition wide_muladd_div (a b add denom : Z) : option (Z * Z) :=
  if denom =? 0 then None
  else
    let '(hi, lo) := wide_mul a b in
    let carry := TWO128 <=? lo + add in
    let lo := (lo + add) mod TWO128 in
    let hi := if carry then hi + 1 else hi in
    div_256_by_128 hi lo denom.

(** ** Specification of the multiply-divide *)

Lemma div_u128_bound a b d : u128 a -> 0 < d -> 0 <= b <= d -> u128 (a * b / d).
Proof.
  intros Ha Hd Hb. unfold u128 in *. split; [apply Z.div_pos; nia|].
  apply Z.div_le_upper_bound; nia.
Qed.

(** Ceiling division. *)
Definition cdiv (n d : Z) : Z := (n + d - 1) / d.

Lemma cdiv_spec n d : 0 < d -> cdiv n d = n / d + (if n mod d =? 0 then 0 else 1).
Proof.
  intros Hd. unfold cdiv. pose proof (Z.div_mod n d ltac:(lia)) as E.
  pose proof (Z.mod_pos_bound n d Hd).
  destruct (Z.eqb_spec (n mod d) 0) as [E0|E0].
  - rewrite E0 in E. symmetry. apply Z.div_unique with (d - 1); lia.
  - symmetry. apply Z.div_unique with (n mod d - 1); lia.
Qed.

Lemma cdiv_lower n d : 0 < d -> n <= d * cdiv n d.
Proof.
  intros Hd. unfold cdiv.
  pose proof (Z.div_mod (n + d - 1) d ltac:(lia)).
  pose proof (Z.mod_pos_bound (n + d - 1) d Hd). lia.
Qed.

Lemma cdiv_upper n d : 0 < d -> d * cdiv n d < n + d.
Proof.
  intros Hd. unfold cdiv.
  pose proof (Z.mul_div_le (n + d - 1) d Hd). lia.
Qed.

Lemma cdiv_nonneg n d : 0 < d -> 0 <= n -> 0 <= cdiv n d.
Proof. intros. apply Z.div_pos; lia. Qed.

Lemma cdiv_floor n d : 0 < d -> n / d <= cdiv n d <= n / d + 1.
Proof. intros. rewrite cdiv_spec by lia. destruct (_ =? _); lia. Qed.

Section multiply_divide_spec.
Context {U : U256}.

Lemma u256_prod a b : u128 a -> u128 b ->
  u256_val (u256_mul (u256_from a) (u256_from b)) = a * b.
Proof.
  intros Ha Hb. rewrite u256_mul_val; rewrite !u256_from_val; auto.
  unfold u128 in *. nia.
Qed.

Lemma wide_mul_div_spec a b d : u128 a -> u128 b -> u128 d -> d <> 0 ->
  wide_mul_div a b d =
    q ← fit U128_MAX (a * b / d); Some (q, negb (a * b mod d =? 0)).
Proof.
  intros Ha Hb Hd Hd0. unfold wide_mul_div.
  destruct (Z.eqb_spec d 0) as [|_]; [done|].
  assert (0 < u256_val (u256_from d)) as Hpos by (rewrite u256_from_val; unfold u128 in *; lia).
  rewrite u256_try_u128_val, u256_eqb_val, u256_div_val, u256_rem_val by done.
  rewrite u256_prod, !u256_from_val by (done || rlia). done.
Qed.

Lemma mul_div_floor_spec a b d : u128 a -> u128 b -> u128 d ->
  mul_div_floor a b d = if d =? 0 then None else fit U128_MAX (a * b / d).
Proof.
  intros. unfold mul_div_floor. destruct (Z.eqb_spec d 0) as [->|]; [done|].
  rewrite wide_mul_div_spec by done. by destruct (fit _ _).
Qed.

Lemma mul_div_floor_Some a b d q : u128 a -> u128 b -> u128 d ->
  mul_div_floor a b d = Some q <-> 0 < d /\ q = a * b / d /\ a * b / d <= U128_MAX.
Proof.
  intros Ha Hb Hd. rewrite mul_div_floor_spec by done.
  destruct (Z.eqb_spec d 0) as [->|]; [split; [done | intros [? _]; lia]|].
  assert (0 <= a * b / d) by (apply Z.div_pos; unfold u128 in *; nia).
  rewrite fit_Some. unfold u128 in *. split; intros; repeat split; lia.
Qed.

Lemma mul_div_ceil_spec a b d : u128 a -> u128 b -> u128 d ->
  mul_div_ceil a b d = if d =? 0 then None else fit U128_MAX (cdiv (a * b) d).
Proof.
  intros Ha Hb Hd. unfold mul_div_ceil. destruct (Z.eqb_spec d 0) as [->|]; [done|].
  rewrite wide_mul_div_spec by done. rewrite cdiv_spec by rlia.
  assert (0 <= a * b / d) by (apply Z.div_pos; unfold u128 in *; nia).
  destruct (fit _ (a * b / d)) as [q|] eqn:E; cbn.
  - apply fit_Some in E as [-> ?]. destruct (a * b mod d =? 0); cbn; [|done].
    rewrite Z.add_0_r. by rewrite fit_in by lia.
  - symmetry. apply fit_None. apply fit_None in E. destruct (_ =? _); lia.
Qed.

Lemma mul_div_ceil_Some a b d q : u128 a -> u128 b -> u128 d ->
  mul_div_ceil a b d = Some q <-> 0 < d /\ q = cdiv (a * b) d /\ q <= U128_MAX.
Proof.
  intros Ha Hb Hd. rewrite mul_div_ceil_spec by done.
  destruct (Z.eqb_spec d 0) as [->|]; [split; [done | intros [? _]; lia]|].
  assert (0 <= cdiv (a * b) d) by (apply cdiv_nonneg; unfold u128 in *; nia).
  rewrite fit_Some. unfold u128 in *. split; intros; intuition (subst; lia).
Qed.

Lemma mul_div_floor_u128 a b d q :
  u128 a -> u128 b -> u128 d -> mul_div_floor a b d = Some q -> u128 q.
Proof.
  intros Ha Hb Hd H. rewrite mul_div_floor_spec in H by done.
  destruct (_ =? _); [done|]. apply fit_Some in H as [-> ?]. done.
Qed.

Lemma mul_div_ceil_u128 a b d q :
  u128 a -> u128 b -> u128 d -> mul_div_ceil a b d = Some q -> u128 q.
Proof.
  intros Ha Hb Hd H. rewrite mul_div_ceil_spec in H by done.
  destruct (_ =? _); [done|]. apply fit_Some in H as [-> ?]. done.
Qed.

End multiply_divide_spec.

(** ** The shim computes the exact product and quotient *)

Lemma lor_disjoint n x y : 0 <= n -> 0 <= x < 2 ^ n -> Z.lor x (y * 2 ^ n) = x + y * 2 ^ n.
Proof.
  intros Hn Hx. symmetry. apply Z.add_nocarry_lor. apply Z.bits_inj'. intros m Hm.
  rewrite Z.land_spec, Z.bits_0. destruct (Z.lt_ge_cases m n).
  - rewrite Z.mul_pow2_bits_low by lia. apply andb_false_r.
  - rewrite <- (Z.mod_small x (2 ^ n)), Z.mod_pow2_bits_high by lia. done.
Qed.

Lemma land_mask64 x : Z.land x U64_MAX = x mod TWO64.
Proof. change U64_MAX with (Z.ones 64). by rewrite Z.land_ones. Qed.

Lemma shiftl64_low x : Z.shiftl x 64 mod TWO128 = (x mod TWO64) * 2 ^ 64.
Proof.
  rewrite Z.shiftl_mul_pow2 by lia. change TWO128 with (TWO64 * 2 ^ 64).
  by rewrite Z.mul_mod_distr_r.
Qed.

Lemma wide_mul_exact a b : u128 a -> u128 b ->
  let '(hi, lo) := wide_mul a b in
  hi * TWO128 + lo = a * b /\ 0 <= hi <= U128_MAX - 1 /\ u128 lo.
Proof.
  intros Ha Hb. unfold wide_mul. rewrite !land_mask64, shiftl64_low.
  rewrite lor_disjoint by (lia || apply (Z.mod_pos_bound _ TWO64); lia).
  rewrite !Z.shiftr_div_pow2 by lia. change (2 ^ 64) with TWO64.
  pose proof (Z.div_mod a TWO64 ltac:(lia)) as Ea.
  pose proof (Z.div_mod b TWO64 ltac:(lia)) as Eb.
  pose proof (Z.mod_pos_bound a TWO64 ltac:(lia)).
  pose proof (Z.mod_pos_bound b TWO64 ltac:(lia)).
  assert (0 <= a / TWO64 < TWO64) by (split; [apply Z.div_pos | apply Z.div_lt_upper_bound]; rlia).
  assert (0 <= b / TWO64 < TWO64) by (split; [apply Z.div_pos | apply Z.div_lt_upper_bound]; rlia).
  set (a1 := a / TWO64) in *. set (a0 := a mod TWO64) in *.
  set (b1 := b / TWO64) in *. set (b0 := b mod TWO64) in *.
  set (cross := a0 * b0 / TWO64 + (a1 * b0) mod TWO64 + (a0 * b1) mod TWO64).
  pose proof (Z.div_mod (a0 * b0) TWO64 ltac:(lia)).
  pose proof (Z.div_mod (a1 * b0) TWO64 ltac:(lia)).
  pose proof (Z.div_mod (a0 * b1) TWO64 ltac:(lia)).
  pose proof (Z.div_mod cross TWO64 ltac:(lia)).
  pose proof (Z.mod_pos_bound (a0 * b0) TWO64 ltac:(lia)).
  pose proof (Z.mod_pos_bound cross TWO64 ltac:(lia)).
  assert (a * b = a1 * b1 * TWO128 + (a1 * b0 + a0 * b1) * TWO64 + a0 * b0) as Eprod
    by (rewrite Ea, Eb; ring).
  assert (a * b <= U128_MAX * U128_MAX) by (apply Z.mul_le_mono_nonneg; rlia).
  assert (0 <= a1 * b1) by nia. assert (0 <= a1 * b0 / TWO64) by (apply Z.div_pos; nia).
  assert (0 <= a0 * b1 / TWO64) by (apply Z.div_pos; nia).
  assert (0 <= a0 * b0 / TWO64) by (apply Z.div_pos; nia).
  pose proof (Z.mod_pos_bound (a1 * b0) TWO64 ltac:(lia)).
  pose proof (Z.mod_pos_bound (a0 * b1) TWO64 ltac:(lia)).
  assert (0 <= cross / TWO64) by (apply Z.div_pos; lia).
  unfold u128. clearbody a1 a0 b1 b0. subst cross. lia.
Qed.

(** The division loop keeps [rem] and [quo] equal to the remainder and the
    (wrapped) quotient of the bits of the numerator read so far. *)
Lemma numerator_bit hi lo i : u128 hi -> u128 lo -> 0 <= i < 256 ->
  (if 128 <=? i then Z.land (Z.shiftr hi (i - 128)) 1 else Z.land (Z.shiftr lo i) 1)
  = ((hi * TWO128 + lo) / 2 ^ i) mod 2.
Proof.
  intros Hh Hl Hi.
  assert (forall x k, 0 <= k -> Z.land (Z.shiftr x k) 1 = (x / 2 ^ k) mod 2) as Ebit.
  { intros x k Hk. rewrite Z.shiftr_div_pow2 by lia. apply (Z.land_ones _ 1). lia. }
  destruct (Z.leb_spec 128 i); rewrite Ebit by lia.
  - replace (2 ^ i) with (TWO128 * 2 ^ (i - 128))
      by (change TWO128 with (2 ^ 128); rewrite <- Z.pow_add_r by lia; f_equal; lia).
    assert (0 < 2 ^ (i - 128)) by (apply Z.pow_pos_nonneg; lia).
    rewrite <- Z.div_div by lia. rewrite Z.div_add_l by lia.
    rewrite (Z.div_small lo) by rlia. by rewrite Z.add_0_r.
  - assert (0 < 2 ^ i) by (apply Z.pow_pos_nonneg; lia).
    replace (hi * TWO128) with ((2 * hi * 2 ^ (127 - i)) * 2 ^ i).
    2:{ rewrite <- Z.mul_assoc, <- Z.pow_add_r by lia.
        replace (127 - i + i) with 127 by lia. change (2 ^ 127) with (TWO128 / 2).
        change TWO128 with (2 * (TWO128 / 2)) at 2. ring. }
    rewrite Z.div_add_l by lia.
    replace (2 * hi * 2 ^ (127 - i) + lo / 2 ^ i)
      with (lo / 2 ^ i + (hi * 2 ^ (127 - i)) * 2) by ring.
    by rewrite Z.mod_add by lia.
Qed.

Lemma shl1_or x bit : 0 <= bit <= 1 ->
  Z.lor (Z.shiftl x 1 mod TWO128) bit = (2 * x + bit) mod TWO128.
Proof.
  intros Hb. set (H := TWO128 / 2). assert (H = 2 ^ 127) as EH by done.
  rewrite Z.shiftl_mul_pow2 by lia. change (2 ^ 1) with 2.
  replace TWO128 with (H * 2) by (subst H; done).
  rewrite Z.mul_mod_distr_r, Z.lor_comm by (subst H; lia).
  assert (Z.lor bit (x mod H * 2) = bit + x mod H * 2) as ->
    by (apply (lor_disjoint 1); change (2 ^ 1) with 2; lia).
  pose proof (Z.div_mod x H ltac:(subst H; lia)).
  pose proof (Z.mod_pos_bound x H ltac:(subst H; lia)).
  clearbody H. apply Z.mod_unique with (x / H); [left; nia | nia].
Qed.

Definition div_state (d v : Z) : Z * Z := (v mod d, (v / d) mod TWO128).

Lemma div_step_spec hi lo d i : u128 hi -> u128 lo -> 0 < d <= U128_MAX -> 0 <= i < 256 ->
  let N := hi * TWO128 + lo in
  div_step hi lo d i (div_state d (N / 2 ^ (i + 1))) = div_state d (N / 2 ^ i).
Proof.
  intros Hh Hl Hd Hi N. unfold div_step, div_state.
  rewrite numerator_bit by done. fold N. set (w := N / 2 ^ i).
  assert (N / 2 ^ (i + 1) = w / 2) as ->.
  { unfold w. rewrite Z.pow_add_r, Z.div_div by (try apply Z.pow_nonzero; lia). done. }
  pose proof (Z.div_mod w 2 ltac:(lia)) as Ew.
  pose proof (Z.mod_pos_bound w 2 ltac:(lia)) as Hbit.
  set (v := w / 2) in *. set (bit := w mod 2) in *. clearbody v bit. clearbody w.
  pose proof (Z.div_mod v d ltac:(lia)) as Ev.
  pose proof (Z.mod_pos_bound v d ltac:(lia)) as Hr.
  set (r := v mod d) in *. set (q := v / d) in *. clearbody r q.
  rewrite !shl1_or by lia. rewrite Z.shiftr_div_pow2 by lia.
  assert ((2 * (q mod TWO128) + 1) mod TWO128 = (2 * q + 1) mod TWO128) as Equ.
  { by rewrite <- Z.add_mod_idemp_l, Z.mul_mod_idemp_r, Z.add_mod_idemp_l. }
  assert (Z.shiftl (q mod TWO128) 1 mod TWO128 = (2 * q) mod TWO128) as Equ0.
  { rewrite Z.shiftl_mul_pow2 by lia. change (2 ^ 1) with 2.
    by rewrite Z.mul_mod_idemp_l, Z.mul_comm. }
  assert (((r / 2 ^ 127 =? 1) || (d <=? (2 * r + bit) mod TWO128)) = (d <=? 2 * r + bit)) as ->.
  { destruct (Z.lt_ge_cases r (2 ^ 127)).
    - rewrite Z.div_small by lia. rewrite Z.mod_small by lia. done.
    - assert (r / 2 ^ 127 = 1) as -> by (symmetry; apply Z.div_unique with (r - 2 ^ 127); lia).
      cbn. symmetry. apply Z.leb_le. lia. }
  destruct (Z.leb_spec d (2 * r + bit)).
  - rewrite Equ, Zminus_mod_idemp_l.
    assert (w / d = 2 * q + 1 /\ w mod d = 2 * r + bit - d) as [-> ->].
    { split; symmetry; [apply Z.div_unique with (2 * r + bit - d)
                       | apply Z.mod_unique with (2 * q + 1)]; lia. }
    f_equal. apply Z.mod_small. lia.
  - rewrite Equ0, Z.mod_small by lia.
    assert (w / d = 2 * q /\ w mod d = 2 * r + bit) as [-> ->]; [|done].
    split; symmetry; [apply Z.div_unique with (2 * r + bit)
                     | apply Z.mod_unique with (2 * q)]; lia.
Qed.

Lemma div_loop_spec hi lo d n : u128 hi -> u128 lo -> 0 < d <= U128_MAX -> (n <= 256)%nat ->
  let N := hi * TWO128 + lo in
  div_loop hi lo d n (div_state d (N / 2 ^ Z.of_nat n)) = div_state d N.
Proof.
  intros Hh Hl Hd Hn N. induction n as [|n IH]; cbn [div_loop].
  - by rewrite Z.div_1_r.
  - replace (Z.of_nat (S n)) with (Z.of_nat n + 1) by lia.
    rewrite div_step_spec by (done || lia). apply IH. lia.
Qed.

Lemma div_256_by_128_spec hi lo d : u128 hi -> u128 lo -> u128 d -> d <> 0 ->
  div_256_by_128 hi lo d =
    if d <=? hi then None
    else Some ((hi * TWO128 + lo) / d, (hi * TWO128 + lo) mod d).
Proof.
  intros Hh Hl Hd Hd0. unfold div_256_by_128. destruct (Z.leb_spec d hi); [done|].
  destruct (Z.eqb_spec hi 0) as [->|]; [done|].
  pose proof (div_loop_spec hi lo d 256 Hh Hl ltac:(rlia) ltac:(lia)) as E. cbv zeta in E.
  rewrite Z.div_small in E by (change (2 ^ Z.of_nat 256) with (TWO128 * TWO128); rlia).
  unfold div_state at 1 in E. rewrite Z.mod_0_l, Z.div_0_l in E by lia.
  change (0 mod TWO128) with 0 in E. rewrite E. unfold div_state.
  do 2 f_equal. apply Z.mod_small. split; [apply Z.div_pos; rlia|].
  apply Z.div_lt_upper_bound; rlia.
Qed.

Lemma quotient_fits hi lo d : u128 hi -> u128 lo -> 0 < d ->
  (hi * TWO128 + lo) / d <= U128_MAX <-> hi < d.
Proof.
  intros Hh Hl Hd. split; intros H.
  - destruct (Z.lt_ge_cases hi d) as [|Hge]; [done|].
    assert (TWO128 <= (hi * TWO128 + lo) / d) by (apply Z.div_le_lower_bound; unfold u128 in *; nia).
    lia.
  - assert ((hi * TWO128 + lo) / d < TWO128); [|lia].
    apply Z.div_lt_upper_bound; unfold u128 in *; nia.
Qed.

(** ** Properties *)

(** The exact multiply-divide: the floor and ceiling variants return the
    rounded rational [a*b/denom], and fail exactly when the denominator is 0 or
    the rounded quotient does not fit [u128]; nothing wraps or truncates. *)
Theorem mul_div_rounding {U : U256} (a b denom : Z)
    (Ha : u128 a) (Hb : u128 b) (Hd : u128 denom) :
  mul_div_floor a b denom
    = (if denom =? 0 then None else fit U128_MAX (a * b / denom)) /\
  mul_div_ceil a b denom
    = (if denom =? 0 then None else fit U128_MAX ((a * b + denom - 1) / denom)) /\
  (forall lo hi, mul_div_floor a b denom = Some lo -> mul_div_ceil a b denom = Some hi ->
     lo * denom <= a * b <= hi * denom /\ hi - lo <= 1).
Proof.
  split; [by apply mul_div_floor_spec|]. split; [by apply mul_div_ceil_spec|].
  intros lo hi [? [-> _]]%mul_div_floor_Some [? [-> _]]%mul_div_ceil_Some; try done.
  pose proof (Z.mul_div_le (a * b) denom ltac:(lia)).
  pose proof (cdiv_lower (a * b) denom ltac:(lia)).
  pose proof (cdiv_floor (a * b) denom ltac:(lia)). lia.
Qed.

(** The model-checking shim agrees with the shipped 256-bit path on every
    input: [wide_mul] followed by the 256-step restoring division gives exactly
    the quotient, the has-remainder flag and the overflow failure of
    [wide_mul_div]. *)
Theorem shim_matches_bnum {U : U256} (a b d : Z)
    (Ha : u128 a) (Hb : u128 b) (Hd : u128 d) (Hd0 : d <> 0) :
  (let '(hi, lo) := wide_mul a b in
   '(q, r) ← div_256_by_128 hi lo d; Some (q, negb (r =? 0)))
  = wide_mul_div a b d.
Proof.
  rewrite wide_mul_div_spec by done.
  pose proof (wide_mul_exact a b Ha Hb) as Hw.
  destruct (wide_mul a b) as [hi lo]. destruct Hw as (E & Hh & Hl).
  assert (u128 hi) by rlia.
  rewrite div_256_by_128_spec by done. rewrite <- E.
  pose proof (quotient_fits hi lo d ltac:(done) Hl ltac:(rlia)) as Hq.
  destruct (Z.leb_spec d hi).
  - destruct (fit _ _) eqn:F; [|done]. apply fit_Some in F. lia.
  - cbn. rewrite fit_in; [done|]. split; [apply Z.div_pos; rlia | lia].
Qed.

(** The fused shim: exact quotient and remainder over the 256-bit intermediate. *)
Lemma wide_muladd_div_spec (a b add d : Z)
    (Ha : u128 a) (Hb : u128 b) (Hadd : u128 add) (Hd : u128 d) (Hd0 : d <> 0) :
  wide_muladd_div a b add d =
    q ← fit U128_MAX ((a * b + add) / d); Some (q, (a * b + add) mod d).
Proof.
  unfold wide_muladd_div. destruct (Z.eqb_spec d 0) as [|_]; [done|].
  pose proof (wide_mul_exact a b Ha Hb) as Hw.
  destruct (wide_mul a b) as [hi lo]. destruct Hw as (E & Hh & Hl).
  set (hi' := if TWO128 <=? lo + add then hi + 1 else hi).
  set (lo' := (lo + add) mod TWO128).
  assert (u128 hi' /\ u128 lo' /\ hi' * TWO128 + lo' = a * b + add) as (Hh' & Hl' & E').
  { subst hi' lo'. pose proof (Z.mod_pos_bound (lo + add) TWO128 ltac:(lia)).
    destruct (Z.leb_spec TWO128 (lo + add)).
    - rewrite <- (Z.mod_unique (lo + add) TWO128 1 (lo + add - TWO128)) by rlia.
      rlia.
    - rewrite Z.mod_small by rlia. rlia. }
  rewrite div_256_by_128_spec, <- E' by done.
  pose proof (quotient_fits hi' lo' d ltac:(done) Hl' ltac:(rlia)) as Hq.
  destruct (Z.leb_spec d hi').
  - destruct (fit _ _) eqn:F; [|done]. apply fit_Some in F. lia.
  - rewrite fit_in; [done|]. split; [apply Z.div_pos; rlia | lia].
Qed.

Section ray_power.
Context {U : U256}.

Lemma ray_mul_Some a b q : u128 a -> u128 b ->
  ray_mul a b = Some q <-> q = a * b / RAY /\ q <= U128_MAX.
Proof.
  intros. unfold ray_mul. rewrite mul_div_floor_Some by (done || rlia). intuition (subst; lia).
Qed.

Lemma ray_mul_le a b q : u128 a -> u128 b -> ray_mul a b = Some q ->
  u128 q /\ q * RAY <= a * b.
Proof.
  intros Ha Hb [-> ?]%ray_mul_Some; try done.
  pose proof (Z.mul_div_le (a * b) RAY ltac:(lia)).
  unfold u128. repeat split; try lia. apply Z.div_pos; unfold u128 in *; nia.
Qed.

Lemma ray_mul_total a b : 0 <= a <= RAY -> 0 <= b <= RAY ->
  exists q, ray_mul a b = Some q /\ 0 <= q <= RAY.
Proof.
  intros Ha Hb. exists (a * b / RAY). rewrite ray_mul_Some by rlia.
  assert (0 <= a * b / RAY <= RAY); [|repeat split; lia].
  split; [apply Z.div_pos; nia | apply Z.div_le_upper_bound; nia].
Qed.

Lemma pow_square_step k b b1 : 0 <= k -> 0 <= b1 -> b1 * RAY <= b * b ->
  b1 ^ k * RAY ^ k <= b ^ (2 * k).
Proof.
  intros Hk Hb1 H. rewrite <- Z.pow_mul_l, Z.pow_mul_r, Z.pow_2_r by lia.
  apply Z.pow_le_mono_l. lia.
Qed.

Lemma ray_pow_double k : 0 <= k -> RAY ^ (2 * k) = RAY ^ k * RAY ^ k /\ 0 < RAY ^ k.
Proof.
  intros. replace (2 * k) with (k + k) by lia. rewrite Z.pow_add_r by lia.
  split; [done | apply Z.pow_pos_nonneg; lia].
Qed.

Lemma ray_pow_loop_le p : forall z b r, u128 z -> u128 b -> ray_pow_loop p z b = Some r ->
  u128 r /\ r * RAY ^ (2 * Zpos p) <= z * b ^ (2 * Zpos p).
Proof.
  induction p as [p IH|p IH|]; intros z b r Hz Hb H; cbn [ray_pow_loop] in H; inv_ok H;
    (apply ray_mul_le in Hrun as [Hb1 Eb]; [|done..]).
  - apply ray_mul_le in Hrun0 as [Hz1 Ez]; [|done..].
    apply IH in H as [Hr E]; [|done..]. split; [done|].
    pose proof (pow_square_step (2 * Zpos p + 1) b a ltac:(lia) ltac:(rlia) Eb) as Hsq.
    replace (Zpos p~1) with (2 * Zpos p + 1) by lia.
    destruct (ray_pow_double (2 * Zpos p + 1) ltac:(lia)) as [-> _].
    destruct (ray_pow_double (2 * Zpos p) ltac:(lia)) as [_ HX].
    assert (0 <= a ^ (2 * Zpos p)) as HY by (apply Z.pow_nonneg; rlia).
    rewrite !(Z.pow_add_r _ (2 * Zpos p) 1), !Z.pow_1_r in * by lia.
    set (X := RAY ^ (2 * Zpos p)) in *. set (Y := a ^ (2 * Zpos p)) in *.
    set (W := b ^ (2 * (2 * Zpos p + 1))) in *. clearbody X Y W. unfold u128 in *.
    assert (r * X * RAY <= z * a * Y) by nia.
    assert (r * X * RAY * (X * RAY) <= z * a * Y * (X * RAY)) by nia.
    assert (z * (Y * a * (X * RAY)) <= z * W) by (apply Z.mul_le_mono_nonneg_l; lia).
    lia.
  - apply IH in H as [Hr E]; [|done..]. split; [done|].
    pose proof (pow_square_step (2 * Zpos p) b a ltac:(lia) ltac:(rlia) Eb) as Hsq.
    replace (Zpos p~0) with (2 * Zpos p) by lia.
    destruct (ray_pow_double (2 * Zpos p) ltac:(lia)) as [-> HX].
    set (X := RAY ^ (2 * Zpos p)) in *. set (Y := a ^ (2 * Zpos p)) in *.
    set (W := b ^ (2 * (2 * Zpos p))) in *. clearbody X Y W. unfold u128 in *.
    assert (r * X * X <= z * Y * X) by nia.
    assert (z * (Y * X) <= z * W) by (apply Z.mul_le_mono_nonneg_l; lia).
    lia.
  - apply ray_mul_le in H as [Hr Er]; [|done..]. split; [done|].
    rewrite !Z.pow_2_r by lia. unfold u128 in *. nia.
Qed.

Lemma ray_pow_loop_total p : forall z b, 0 <= z <= RAY -> 0 <= b <= RAY ->
  exists r, ray_pow_loop p z b = Some r /\ 0 <= r <= RAY.
Proof.
  induction p as [p IH|p IH|]; intros z b Hz Hb; cbn [ray_pow_loop];
    destruct (ray_mul_total b b Hb Hb) as (b1 & -> & Hb1); cbn.
  - destruct (ray_mul_total z b1 Hz Hb1) as (z1 & -> & Hz1). cbn. by apply IH.
  - by apply IH.
  - by apply ray_mul_total.
Qed.

Lemma ray_pow_total base exp : 0 <= base <= RAY ->
  exists r, ray_pow base exp = Some r /\ 0 <= r <= RAY.
Proof.
  intros Hb. unfold ray_pow.
  assert (0 <= (if Z.odd exp then base else RAY) <= RAY) by (destruct (Z.odd exp); lia).
  destruct (Z.shiftr exp 1); [eauto | by apply ray_pow_loop_total | eauto].
Qed.

(** RAY exponentiation never over-estimates: whenever [ray_pow base exp]
    returns [r], the scaled inequality [r/RAY <= (base/RAY)^exp] holds (every
    intermediate floor only lowers the result), [base^0] is 1.0, and for a decay
    factor ([base <= RAY]) it always returns, with a result at most 1.0. *)
Theorem ray_pow_lower_bound (base exp : Z) (Hb : u128 base) (He : u64 exp) :
  (forall r, ray_pow base exp = Some r -> u128 r /\ r * RAY ^ exp <= RAY * base ^ exp) /\
  ray_pow base 0 = Some RAY /\
  (base <= RAY -> exists r, ray_pow base exp = Some r /\ 0 <= r <= RAY).
Proof.
  split; [|split; [done | intros; apply ray_pow_total; rlia]].
  intros r. unfold ray_pow. rewrite Z.shiftr_div_pow2 by lia. change (2 ^ 1) with 2.
  pose proof (Zdiv2_odd_eqn exp) as Eo. rewrite Z.div2_div in Eo.
  assert (0 <= exp / 2) by (apply Z.div_pos; rlia).
  destruct (exp / 2) as [|p|p] eqn:Ed; [|intros Hl|lia].
  - intros [= <-]. destruct (Z.odd exp); rewrite Eo; cbn [Z.mul Z.add].
    + rewrite !Z.pow_1_r. split; [done | lia].
    + rewrite !Z.pow_0_r. rlia.
  - apply ray_pow_loop_le in Hl as [Hr E]; [|destruct (Z.odd exp); [done | rlia] | done].
    split; [done|]. destruct (Z.odd exp); rewrite Eo.
    + rewrite !(Z.pow_add_r _ _ 1), !Z.pow_1_r by lia. nia.
    + rewrite Z.add_0_r. done.
Qed.

End ray_power.

