(* ===== verification/Interest.v ===== *)
(** * Per-position interest ([crates/fusd-math/src/interest.rs])

    The weighted-debt-sum accrual: one ceiling for the whole market, one floor
    per position, over the same quantity [debt * rate * time / denom]. *)

From S2P Require Import Prelude MachineInt FixedPoint.

Open Scope Z_scope.

Abbreviation SECONDS_PER_YEAR := 31536000.
Abbreviation INTEREST_RATE_DENOM := 10000.
Abbreviation INTEREST_DENOM := 315360000000.

Definition weighted_debt (recorded_debt rate_bps : Z) : option Z :=
  checked_mul128 recorded_debt rate_bps.

Section interest.
Context {U : U256}.

Definition pending_aggregate_interest (weighted_sum dt : Z) : option Z :=
  mul_div_ceil weighted_sum dt INTEREST_DENOM.

Definition accrued_interest (recorded_debt rate_bps period : Z) : option Z :=
  weighted ← weighted_debt recorded_debt rate_bps;
  mul_div_floor weighted period INTEREST_DENOM.

Definition premature_adjustment_fee (recorded_debt rate_bps period_secs : Z) : option Z :=
  weighted ← weighted_debt recorded_debt rate_bps;
  mul_div_ceil weighted period_secs INTEREST_DENOM.

Lemma weighted_debt_Some d r w : weighted_debt d r = Some w -> w = d * r /\ u128 w.
Proof. intros H. unfold weighted_debt in H. checked. subst. done. Qed.

Lemma pending_aggregate_Some w dt x : u128 w -> u64 dt ->
  pending_aggregate_interest w dt = Some x ->
  x = cdiv (w * dt) INTEREST_DENOM /\ u128 x /\ w * dt <= INTEREST_DENOM * x.
Proof.
  intros Hw Hdt H. pose proof H as H0. apply mul_div_ceil_u128 in H0; [|rlia..].
  apply mul_div_ceil_Some in H as (_ & -> & _); [|rlia..].
  repeat split; try done; try apply H0. apply cdiv_lower. lia.
Qed.

Lemma accrued_Some d r t x : u128 d -> u16 r -> u64 t -> accrued_interest d r t = Some x ->
  x = d * r * t / INTEREST_DENOM /\ u128 x /\ INTEREST_DENOM * x <= d * r * t.
Proof.
  intros Hd Hr Ht H. unfold accrued_interest in H. inv_ok H.
  apply weighted_debt_Some in Hrun as [-> Hw].
  pose proof H as H0. apply mul_div_floor_u128 in H0; [|rlia..].
  apply mul_div_floor_Some in H as (_ & -> & _); [|rlia..].
  repeat split; try apply H0. apply Z.mul_div_le. lia.
Qed.

Lemma premature_fee_Some d r t x : u128 d -> u16 r -> u64 t ->
  premature_adjustment_fee d r t = Some x ->
  x = cdiv (d * r * t) INTEREST_DENOM /\ u128 x.
Proof.
  intros Hd Hr Ht H. unfold premature_adjustment_fee in H. inv_ok H.
  apply weighted_debt_Some in Hrun as [-> Hw].
  pose proof H as H0. apply mul_div_ceil_u128 in H0; [|rlia..].
  apply mul_div_ceil_Some in H as (_ & -> & _); [|rlia..]. done.
Qed.

End interest.

(** The realizations of a list of positions [(debt, rate)] over one interval. *)
Fixpoint sum_weighted (ps : list (Z * Z)) : Z :=
  match ps with [] => 0 | (d, r) :: ps => d * r + sum_weighted ps end.

Section solvency.
Context {U : U256}.

Fixpoint sum_accrued (ps : list (Z * Z)) (dt : Z) : option Z :=
  match ps with
  | [] => Some 0
  | (d, r) :: ps => x ← accrued_interest d r dt; rest ← sum_accrued ps dt; Some (x + rest)
  end.

Lemma sum_accrued_le ps dt total : u64 dt -> Forall (fun '(d, r) => u128 d /\ u16 r) ps ->
  sum_accrued ps dt = Some total -> INTEREST_DENOM * total <= sum_weighted ps * dt.
Proof.
  intros Hdt. revert total. induction ps as [|[d r] ps IH]; intros total Hall H; cbn in *.
  - inv_ok H; lia.
  - apply Forall_cons in Hall as [[Hd Hr] Hall']. inv_ok H.
    apply accrued_Some in Hrun as (_ & _ & ?); [|done..].
    specialize (IH _ Hall' Hrun0). lia.
Qed.

(** The market's aggregate interest for an interval, rounded up over the
    weighted-debt sum, is never short of the sum of what every position realizes
    for that interval (each rounded down), for any number of positions at any
    individual rates. *)
Theorem aggregate_covers_positions (ps : list (Z * Z)) (dt agg total : Z)
    (Hdt : u64 dt) (Hps : Forall (fun '(d, r) => u128 d /\ u16 r) ps)
    (Hw : u128 (sum_weighted ps))
    (Hagg : pending_aggregate_interest (sum_weighted ps) dt = Some agg)
    (Hsum : sum_accrued ps dt = Some total) :
  total <= agg.
Proof.
  apply pending_aggregate_Some in Hagg as (_ & _ & ?); [|done..].
  apply sum_accrued_le in Hsum; [|done..]. lia.
Qed.

(** Interest fails closed: a position's interest and the premature fee are
    the floor and the ceiling of the same exact rational (so they differ by at
    most one unit, the fee never below the accrual), and both return [None]
    exactly when the weighted debt overflows [u128] or the rounded result
    does. *)
Theorem interest_rounding (d r t : Z) (Hd : u128 d) (Hr : u16 r) (Ht : u64 t) :
  accrued_interest d r t
    = (if d * r <=? U128_MAX then fit U128_MAX (d * r * t / INTEREST_DENOM) else None) /\
  premature_adjustment_fee d r t
    = (if d * r <=? U128_MAX then fit U128_MAX (cdiv (d * r * t) INTEREST_DENOM) else None) /\
  0 <= cdiv (d * r * t) INTEREST_DENOM - d * r * t / INTEREST_DENOM <= 1.
Proof.
  unfold accrued_interest, premature_adjustment_fee, weighted_debt, checked_mul128.
  assert (0 <= d * r) by (unfold u128, u16 in *; nia).
  pose proof (cdiv_floor (d * r * t) INTEREST_DENOM ltac:(lia)).
  destruct (Z.leb_spec (d * r) U128_MAX).
  - rewrite fit_in by lia. cbn. rewrite mul_div_floor_spec, mul_div_ceil_spec by rlia.
    split; [done|]. split; [done | lia].
  - assert (fit U128_MAX (d * r) = None) as -> by (apply fit_None; lia).
    split; [done|]. split; [done | lia].
Qed.

End solvency.

