(* ===== verification/RateBucket.v ===== *)
(** * The redemption rate-bucket bitmap ([crates/fusd-math/src/rate_bucket.rs])

    Pure bit operations over an array of 64-bit words. An index outside the
    array panics in the source; here the operation returns [None]. The set of
    non-empty buckets ([gset Z]) is the abstract specification the bit
    operations implement. *)

From S2P Require Import Prelude MachineInt FixedPoint.

Open Scope Z_scope.

Definition bucket_of (rate_bps width_bps num_buckets : Z) : option Z :=
  let raw := rate_bps / Z.max width_bps 1 in
  last ← fit U64_MAX (num_buckets - 1);
  Some (Z.min raw last).

Definition num_buckets (words : list Z) : Z := Z.of_nat (length words) * 64.

Definition word_index (b : Z) : nat := Z.to_nat (Z.shiftr b 6).
Definition bit_index (b : Z) : Z := Z.land b 63.

Definition set (words : list Z) (b : Z) : option (list Z) :=
  w ← words !! word_index b;
  Some (<[word_index b := Z.lor w (Z.shiftl 1 (bit_index b))]> words).

Definition clear (words : list Z) (b : Z) : option (list Z) :=
  w ← words !! word_index b;
  Some (<[word_index b := Z.land w (Z.lxor (Z.shiftl 1 (bit_index b)) U64_MAX)]> words).

Definition is_set (words : list Z) (b : Z) : option bool :=
  w ← words !! word_index b;
  Some (negb (Z.land w (Z.shiftl 1 (bit_index b)) =? 0)).

(** [u64::trailing_zeros] *)
Fixpoint ctz (p : positive) : Z :=
  match p with xO p => 1 + ctz p | _ => 0 end.
Definition trailing_zeros (w : Z) : Z :=
  match w with Zpos p => ctz p | _ => 64 end.

(** The scan of [words.iter().enumerate()] from word number [i]. *)
Fixpoint first_set_scan (i : Z) (words : list Z) : option Z :=
  match words with
  | [] => None
  | w :: words =>
      if w =? 0 then first_set_scan (i + 1) words else Some (i * 64 + trailing_zeros w)
  end.

Definition first_set (words : list Z) : option Z := first_set_scan 0 words.

Definition first_set_from (words : list Z) (from : Z) : option Z :=
  if num_buckets words <=? from then None
  else
    let start_word := word_index from in
    w ← words !! start_word;
    let first_word := Z.land w (Z.shiftl U64_MAX (bit_index from) mod 18446744073709551616) in
    if first_word =? 0
    then first_set_scan (Z.of_nat start_word + 1) (drop (S start_word) words)
    else Some (Z.of_nat start_word * 64 + trailing_zeros first_word).

(** [u64::count_ones] *)
Fixpoint popcount (p : positive) : Z :=
  match p with xO p => popcount p | xI p => 1 + popcount p | xH => 1 end.
Definition count_ones (w : Z) : Z := match w with Zpos p => popcount p | _ => 0 end.
Definition count_set (words : list Z) : Z := foldr (fun w n => count_ones w + n) 0 words.

Definition cmp_collateral_ratio {U : U256} (ink_a art_a ink_b art_b : Z) : comparison :=
  let lhs := u256_mul (u256_from ink_a) (u256_from art_b) in
  let rhs := u256_mul (u256_from ink_b) (u256_from art_a) in
  u256_cmp lhs rhs.

(** ** The abstract view: which bit is set *)

Definition bit (words : list Z) (b : Z) : bool :=
  match words !! word_index b with
  | Some w => Z.testbit w (bit_index b)
  | None => false
  end.

Definition words_ok (words : list Z) : Prop := Forall u64 words.

Lemma word_index_div b : word_index b = Z.to_nat (b / 64).
Proof. unfold word_index. by rewrite Z.shiftr_div_pow2. Qed.

Lemma bit_index_mod b : bit_index b = b mod 64.
Proof. unfold bit_index. change 63 with (Z.ones 6). by rewrite Z.land_ones. Qed.

Lemma bit_index_range b : 0 <= bit_index b < 64.
Proof. rewrite bit_index_mod. by apply Z.mod_pos_bound. Qed.

Lemma index_inj a b : 0 <= a -> 0 <= b ->
  word_index a = word_index b -> bit_index a = bit_index b -> a = b.
Proof.
  intros Ha Hb. rewrite !word_index_div, !bit_index_mod. intros Hw Hm.
  apply Z2Nat.inj in Hw; [|by apply Z.div_pos..].
  rewrite (Z.div_mod a 64), (Z.div_mod b 64) by lia. lia.
Qed.

Lemma word_in_range words b : 0 <= b < num_buckets words ->
  exists w, words !! word_index b = Some w.
Proof.
  intros Hb. apply lookup_lt_is_Some_2. rewrite word_index_div. unfold num_buckets in Hb.
  assert (b / 64 < Z.of_nat (length words)) by (apply Z.div_lt_upper_bound; lia).
  assert (0 <= b / 64) by (apply Z.div_pos; lia). lia.
Qed.

Lemma num_buckets_insert words i w : num_buckets (<[i := w]> words) = num_buckets words.
Proof. unfold num_buckets. by rewrite length_insert. Qed.

Lemma is_set_bit words b : 0 <= b < num_buckets words -> is_set words b = Some (bit words b).
Proof.
  intros Hb. destruct (word_in_range words b Hb) as [w Hw].
  unfold is_set, bit. rewrite Hw. cbn. f_equal. pose proof (bit_index_range b).
  rewrite Z.shiftl_1_l.
  destruct (Z.testbit w (bit_index b)) eqn:E; apply eq_true_iff_eq; rewrite negb_true_iff, Z.eqb_neq.
  - split; [done|]. intros _ H0. apply (f_equal (fun z => Z.testbit z (bit_index b))) in H0.
    rewrite Z.land_spec, E, Z.pow2_bits_true, Z.bits_0 in H0 by lia. done.
  - split; [|done]. intros H0. destruct H0. apply Z.bits_inj'. intros j Hj.
    rewrite Z.land_spec, Z.bits_0, Z.pow2_bits_eqb by lia.
    destruct (Z.eqb_spec (bit_index b) j) as [<-|]; [by rewrite E | apply andb_false_r].
Qed.

Lemma testbit_u64 w j : u64 w -> 64 <= j -> Z.testbit w j = false.
Proof.
  intros Hw Hj. rewrite <- (Z.mod_small w (2 ^ 64)) by (change (2 ^ 64) with (U64_MAX + 1); rlia).
  apply Z.mod_pow2_bits_high. lia.
Qed.

Lemma u64_testbit w : 0 <= w -> (forall j, 64 <= j -> Z.testbit w j = false) -> u64 w.
Proof.
  intros Hw Hj. assert (w mod 2 ^ 64 = w) as <-.
  { apply Z.bits_inj'. intros j ?. destruct (Z.lt_ge_cases j 64).
    - by apply Z.mod_pow2_bits_low.
    - rewrite Z.mod_pow2_bits_high by lia. symmetry. by apply Hj. }
  pose proof (Z.mod_pos_bound w (2 ^ 64) ltac:(lia)). change (2 ^ 64) with (U64_MAX + 1) in *. rlia.
Qed.

Lemma mask64_bit j : 0 <= j -> Z.testbit U64_MAX j = (j <? 64).
Proof.
  intros. change U64_MAX with (Z.ones 64). rewrite Z.testbit_ones_nonneg by lia. done.
Qed.

Lemma set_word_bit w k j : 0 <= k -> 0 <= j ->
  Z.testbit (Z.lor w (Z.shiftl 1 k)) j = (k =? j) || Z.testbit w j.
Proof.
  intros. rewrite Z.lor_spec, Z.shiftl_1_l, Z.pow2_bits_eqb by lia. apply orb_comm.
Qed.

Lemma clear_word_bit w k j : u64 w -> 0 <= k < 64 -> 0 <= j ->
  Z.testbit (Z.land w (Z.lxor (Z.shiftl 1 k) U64_MAX)) j = negb (k =? j) && Z.testbit w j.
Proof.
  intros Hw Hk Hj.
  rewrite Z.land_spec, Z.lxor_spec, Z.shiftl_1_l, Z.pow2_bits_eqb, mask64_bit by lia.
  destruct (Z.ltb_spec j 64).
  - rewrite xorb_true_r. apply andb_comm.
  - rewrite (testbit_u64 w j) by done. by rewrite andb_false_r.
Qed.

Lemma set_spec words b : words_ok words -> 0 <= b < num_buckets words ->
  exists words', set words b = Some words' /\ words_ok words' /\
    num_buckets words' = num_buckets words /\
    forall b', 0 <= b' -> bit words' b' = (b =? b') || bit words b'.
Proof.
  intros Hok Hb. destruct (word_in_range words b Hb) as [w Hw].
  pose proof (bit_index_range b) as Hk.
  assert (u64 w) as Hwr by (eapply Forall_lookup_1 in Hok; [exact Hok | exact Hw]).
  unfold set. rewrite Hw. cbn. eexists. split; [done|]. split; [|split].
  - apply Forall_insert; [done|]. apply u64_testbit.
    + apply Z.lor_nonneg. split; [rlia|]. rewrite Z.shiftl_1_l. apply Z.pow_nonneg. lia.
    + intros j Hj. rewrite set_word_bit, testbit_u64 by (done || lia).
      destruct (Z.eqb_spec (bit_index b) j); [lia | done].
  - apply num_buckets_insert.
  - intros b' Hb'. unfold bit. pose proof (bit_index_range b').
    destruct (decide (word_index b = word_index b')) as [E|E].
    + rewrite <- E, list_lookup_insert_eq, Hw by (by eapply lookup_lt_Some).
      rewrite set_word_bit by lia. f_equal.
      destruct (Z.eqb_spec b b') as [<-|Hne]; [by apply Z.eqb_eq|].
      apply Z.eqb_neq. intros E'. apply Hne. apply index_inj; (done || lia).
    + rewrite list_lookup_insert_ne by done.
      destruct (Z.eqb_spec b b') as [<-|]; done.
Qed.

Lemma clear_spec words b : words_ok words -> 0 <= b < num_buckets words ->
  exists words', clear words b = Some words' /\ words_ok words' /\
    num_buckets words' = num_buckets words /\
    forall b', 0 <= b' -> bit words' b' = negb (b =? b') && bit words b'.
Proof.
  intros Hok Hb. destruct (word_in_range words b Hb) as [w Hw].
  pose proof (bit_index_range b) as Hk.
  assert (u64 w) as Hwr by (eapply Forall_lookup_1 in Hok; [exact Hok | exact Hw]).
  unfold clear. rewrite Hw. cbn. eexists. split; [done|]. split; [|split].
  - apply Forall_insert; [done|]. apply u64_testbit.
    + apply Z.land_nonneg. left. rlia.
    + intros j Hj. rewrite clear_word_bit, testbit_u64 by (done || lia). apply andb_false_r.
  - apply num_buckets_insert.
  - intros b' Hb'. unfold bit. pose proof (bit_index_range b').
    destruct (decide (word_index b = word_index b')) as [E|E].
    + rewrite <- E, list_lookup_insert_eq, Hw by (by eapply lookup_lt_Some).
      rewrite clear_word_bit by (done || lia). f_equal. f_equal.
      destruct (Z.eqb_spec b b') as [<-|Hne]; [by apply Z.eqb_eq|].
      apply Z.eqb_neq. intros E'. apply Hne. apply index_inj; (done || lia).
    + rewrite list_lookup_insert_ne by done.
      destruct (Z.eqb_spec b b') as [<-|]; done.
Qed.

(** ** Find-first-set *)

Lemma ctz_spec p : 0 <= ctz p /\ Z.testbit (Zpos p) (ctz p) = true /\
  forall j, 0 <= j < ctz p -> Z.testbit (Zpos p) j = false.
Proof.
  induction p as [p _|p (IH0 & IH1 & IH2)|]; cbn [ctz].
  - repeat split; [lia | intros; lia].
  - change (Zpos (xO p)) with (2 * Zpos p). split; [lia|]. split.
    + replace (1 + ctz p) with (Z.succ (ctz p)) by lia. by rewrite Z.testbit_even_succ.
    + intros j Hj. destruct (Z.eq_dec j 0) as [->|]; [apply Z.testbit_even_0|].
      replace j with (Z.succ (j - 1)) by lia. rewrite Z.testbit_even_succ by lia. apply IH2; lia.
  - repeat split; [lia | intros; lia].
Qed.

Lemma trailing_zeros_spec w : u64 w -> w <> 0 ->
  0 <= trailing_zeros w < 64 /\ Z.testbit w (trailing_zeros w) = true /\
  forall j, 0 <= j < trailing_zeros w -> Z.testbit w j = false.
Proof.
  intros Hw Hw0. destruct w as [|p|p]; [done | | rlia]. cbn [trailing_zeros].
  destruct (ctz_spec p) as (? & Ht & ?). split; [|done]. split; [done|].
  destruct (Z.lt_ge_cases (ctz p) 64); [done|]. by rewrite (testbit_u64 _ _ Hw) in Ht.
Qed.

Lemma bit_cons w ws b : 0 <= b ->
  bit (w :: ws) b = if b <? 64 then Z.testbit w b else bit ws (b - 64).
Proof.
  intros Hb. unfold bit. rewrite !word_index_div, !bit_index_mod.
  destruct (Z.ltb_spec b 64).
  - rewrite Z.div_small, Z.mod_small by lia. done.
  - replace (Z.to_nat (b / 64)) with (S (Z.to_nat ((b - 64) / 64))).
    + cbn. replace (b mod 64) with ((b - 64) mod 64); [done|].
      replace (b - 64) with (b + -1 * 64) by lia. by rewrite Z.mod_add.
    + replace (b / 64) with (1 + (b - 64) / 64).
      * assert (0 <= (b - 64) / 64) by (apply Z.div_pos; lia). lia.
      * rewrite <- Z.div_add_l by lia. f_equal. lia.
Qed.

Lemma bit_drop n ws b : 0 <= b -> bit (drop n ws) b = bit ws (Z.of_nat n * 64 + b).
Proof.
  revert ws b. induction n as [|n IH]; intros ws b Hb; [done|].
  destruct ws as [|w ws]; [by unfold bit; rewrite drop_nil, !lookup_nil|].
  cbn [drop]. rewrite IH, bit_cons by lia. destruct (Z.ltb_spec (Z.of_nat (S n) * 64 + b) 64); [lia|].
  f_equal. lia.
Qed.

Lemma bit_out words b : num_buckets words <= b -> bit words b = false.
Proof.
  intros Hb. unfold bit. rewrite lookup_ge_None_2; [done|].
  rewrite word_index_div. unfold num_buckets in Hb.
  assert (Z.of_nat (length words) <= b / 64) by (apply Z.div_le_lower_bound; lia). lia.
Qed.

(** [o] is the lowest set bucket at or above [from]. *)
Definition lowest (words : list Z) (from : Z) (o : option Z) : Prop :=
  match o with
  | Some b => from <= b < num_buckets words /\ bit words b = true /\
              forall j, from <= j < b -> bit words j = false
  | None => forall j, from <= j -> bit words j = false
  end.

Lemma bit_true_range words b : bit words b = true -> b < num_buckets words.
Proof.
  intros H. destruct (Z.lt_ge_cases b (num_buckets words)); [done|]. by rewrite bit_out in H.
Qed.

Lemma first_set_scan_spec i words : words_ok words ->
  lowest words 0 ((fun b => b - i * 64) <$> first_set_scan i words).
Proof.
  revert i. induction words as [|w ws IH]; intros i Hok; [by intros j _; unfold bit; rewrite lookup_nil|].
  apply Forall_cons in Hok as [Hw Hws]. specialize (IH (i + 1) Hws).
  cbn [first_set_scan]. destruct (Z.eqb_spec w 0) as [->|Hw0].
  - destruct (first_set_scan (i + 1) ws) as [b|]; cbn in *.
    + destruct IH as (Hr & Hb & Hlow). unfold num_buckets in *. cbn [length].
      split; [lia|]. split.
      * rewrite bit_cons by lia. destruct (Z.ltb_spec (b - i * 64) 64); [lia|].
        rewrite <- Hb. f_equal. lia.
      * intros j Hj. rewrite bit_cons by lia.
        destruct (Z.ltb_spec j 64); [apply Z.bits_0 | apply Hlow; lia].
    + intros j Hj. rewrite bit_cons by lia.
      destruct (Z.ltb_spec j 64); [apply Z.bits_0 | apply IH; lia].
  - destruct (trailing_zeros_spec w Hw Hw0) as (Hr & Ht & Hlow). cbn.
    replace (i * 64 + trailing_zeros w - i * 64) with (trailing_zeros w) by lia.
    unfold num_buckets. cbn [length]. split; [lia|]. split.
    + rewrite bit_cons by lia. by destruct (Z.ltb_spec (trailing_zeros w) 64); [|lia].
    + intros j Hj. rewrite bit_cons by lia. destruct (Z.ltb_spec j 64); [apply Hlow; lia | lia].
Qed.

Lemma first_set_lowest words : words_ok words -> lowest words 0 (first_set words).
Proof.
  intros Hok. pose proof (first_set_scan_spec 0 words Hok) as H. unfold first_set.
  destruct (first_set_scan 0 words) as [b|]; cbn in H; [|done]. by rewrite Z.sub_0_r in H.
Qed.

(** The starting word with the bits below [from] masked off. *)
Lemma mask_from_bit w k j : u64 w -> 0 <= k < 64 -> 0 <= j ->
  Z.testbit (Z.land w (Z.shiftl U64_MAX k mod 18446744073709551616)) j
  = (k <=? j) && Z.testbit w j.
Proof.
  intros Hw Hk Hj. rewrite Z.land_spec. change 18446744073709551616 with (2 ^ 64).
  destruct (Z.lt_ge_cases j 64).
  - rewrite Z.mod_pow2_bits_low, Z.shiftl_spec by lia.
    destruct (Z.leb_spec k j).
    + rewrite mask64_bit by lia. destruct (Z.ltb_spec (j - k) 64); [|lia]. by rewrite andb_true_r.
    + rewrite (Z.testbit_neg_r _ (j - k)) by lia. by rewrite andb_false_r.
  - by rewrite (testbit_u64 w j), andb_false_r.
Qed.

Lemma mask_from_u64 w k : u64 w -> 0 <= k < 64 ->
  u64 (Z.land w (Z.shiftl U64_MAX k mod 18446744073709551616)).
Proof.
  intros Hw Hk. apply u64_testbit; [apply Z.land_nonneg; left; rlia|].
  intros j Hj. rewrite mask_from_bit, testbit_u64 by (done || lia). apply andb_false_r.
Qed.

Lemma first_set_from_lowest words from : words_ok words -> 0 <= from ->
  lowest words from (first_set_from words from).
Proof.
  intros Hok Hfrom. unfold first_set_from.
  destruct (Z.leb_spec (num_buckets words) from); [intros j Hj; apply bit_out; lia|].
  destruct (word_in_range words from) as [w Hw]; [lia|]. rewrite Hw. cbn.
  pose proof (bit_index_range from) as Hk.
  assert (u64 w) as Hwr by (eapply Forall_lookup_1 in Hok; [exact Hok | exact Hw]).
  set (m := Z.land w _). set (k := word_index from) in *.
  assert (from = Z.of_nat k * 64 + bit_index from) as Hfr.
  { unfold k. rewrite word_index_div, bit_index_mod, Z2Nat.id by (apply Z.div_pos; lia).
    rewrite Z.mul_comm. apply Z.div_mod. lia. }
  assert (drop k words = w :: drop (S k) words) as Edrop by (by apply drop_S).
  assert (forall j, 0 <= j ->
    bit (m :: drop (S k) words) j = (bit_index from <=? j) && bit words (Z.of_nat k * 64 + j)) as Hbit.
  { intros j Hj. rewrite <- bit_drop, Edrop, !bit_cons by lia.
    destruct (Z.ltb_spec j 64); [by apply mask_from_bit|].
    destruct (Z.leb_spec (bit_index from) j); [done | lia]. }
  pose proof (first_set_scan_spec (Z.of_nat k) (m :: drop (S k) words)) as Hscan.
  cbn [first_set_scan] in Hscan. change (if m =? 0 then _ else _) with
    (first_set_scan (Z.of_nat k) (m :: drop (S k) words)).
  change (if m =? 0 then _ else _) with
    (first_set_scan (Z.of_nat k) (m :: drop (S k) words)) in Hscan.
  assert (words_ok (m :: drop (S k) words)) as Hok'.
  { apply Forall_cons. split; [by apply mask_from_u64 | by apply Forall_drop]. }
  specialize (Hscan Hok'). destruct (first_set_scan _ _) as [b|]; cbn in *.
  - destruct Hscan as (Hr & Hb & Hlow). rewrite Hbit in Hb by lia. propify.
    replace (Z.of_nat k * 64 + (b - Z.of_nat k * 64)) with b in * by lia.
    split; [split; [lia | by apply bit_true_range]|]. split; [done|].
    intros j Hj. specialize (Hlow (j - Z.of_nat k * 64) ltac:(lia)).
    rewrite Hbit in Hlow by lia. destruct (Z.leb_spec (bit_index from) (j - Z.of_nat k * 64)); [|lia].
    cbn in Hlow. by replace (Z.of_nat k * 64 + (j - Z.of_nat k * 64)) with j in Hlow by lia.
  - intros j Hj. specialize (Hscan (j - Z.of_nat k * 64) ltac:(lia)).
    rewrite Hbit in Hscan by lia. destruct (Z.leb_spec (bit_index from) (j - Z.of_nat k * 64)); [|lia].
    cbn in Hscan. by replace (Z.of_nat k * 64 + (j - Z.of_nat k * 64)) with j in Hscan by lia.
Qed.

(** ** Refinement: the words implement a finite set of buckets *)

Definition represents (words : list Z) (s : gset Z) : Prop :=
  words_ok words /\
  forall b, (0 <= b < num_buckets words /\ bit words b = true) <-> b ∈ s.

Inductive bucket_op := SetBit (b : Z) | ClearBit (b : Z).

Definition op_bucket (o : bucket_op) : Z := match o with SetBit b | ClearBit b => b end.

Definition run_op (words : list Z) (o : bucket_op) : option (list Z) :=
  match o with SetBit b => set words b | ClearBit b => clear words b end.

Definition spec_op (s : gset Z) (o : bucket_op) : gset Z :=
  match o with SetBit b => {[ b ]} ∪ s | ClearBit b => s ∖ {[ b ]} end.

Fixpoint run_ops (words : list Z) (os : list bucket_op) : option (list Z) :=
  match os with [] => Some words | o :: os => words ← run_op words o; run_ops words os end.

Lemma run_op_represents words s o : represents words s -> 0 <= op_bucket o < num_buckets words ->
  exists words', run_op words o = Some words' /\ represents words' (spec_op s o) /\
    num_buckets words' = num_buckets words.
Proof.
  intros [Hok Hs] Ho. destruct o as [b|b]; cbn in *.
  - destruct (set_spec words b Hok Ho) as (words' & E & Hok' & En & Hbit).
    exists words'. split; [done|]. split; [|done]. split; [done|]. intros x. rewrite En. split.
    + intros [Hx Hb]. rewrite Hbit in Hb by lia. apply orb_true_iff in Hb as [Hb|Hb].
      * propify. set_solver.
      * apply elem_of_union. right. by apply Hs.
    + intros [->%elem_of_singleton|Hx%Hs]%elem_of_union.
      * split; [done|]. rewrite Hbit by lia. by rewrite Z.eqb_refl.
      * split; [tauto|]. rewrite Hbit by lia. destruct Hx as [_ ->]. apply orb_true_r.
  - destruct (clear_spec words b Hok Ho) as (words' & E & Hok' & En & Hbit).
    exists words'. split; [done|]. split; [|done]. split; [done|]. intros x. rewrite En. split.
    + intros [Hx Hb]. rewrite Hbit in Hb by lia. propify.
      apply elem_of_difference. split; [by apply Hs | set_solver].
    + intros [Hx%Hs Hne]%elem_of_difference. split; [tauto|]. rewrite Hbit by lia.
      destruct Hx as [_ ->]. destruct (Z.eqb_spec b x); [set_solver | done].
Qed.

Lemma run_ops_represents words s os : represents words s ->
  Forall (fun o => 0 <= op_bucket o < num_buckets words) os ->
  exists words', run_ops words os = Some words' /\ represents words' (foldl spec_op s os) /\
    num_buckets words' = num_buckets words.
Proof.
  revert words s. induction os as [|o os IH]; intros words s Hr Hos; cbn; [by exists words|].
  apply Forall_cons in Hos as [Ho Hos].
  destruct (run_op_represents words s o Hr Ho) as (w1 & -> & Hr1 & En). cbn.
  destruct (IH w1 (spec_op s o) Hr1) as (w2 & E2 & Hr2 & En2); [by rewrite En|].
  exists w2. split; [done|]. split; [done|]. by rewrite En2.
Qed.

Lemma lowest_represents words s from o : represents words s -> 0 <= from ->
  lowest words from o ->
  match o with
  | Some b => b ∈ s /\ from <= b /\ forall j, j ∈ s -> from <= j -> b <= j
  | None => forall j, j ∈ s -> j < from
  end.
Proof.
  intros [_ Hs] Hf Hlow. destruct o as [b|]; cbn in Hlow.
  - destruct Hlow as (Hr & Hb & Hlow). split; [apply Hs; split; [lia | done]|]. split; [lia|].
    intros j [_ Hj]%Hs Hfj. destruct (Z.lt_ge_cases j b); [|done]. by rewrite Hlow in Hj.
  - intros j [_ Hj]%Hs. destruct (Z.lt_ge_cases j from); [done|]. by rewrite Hlow in Hj.
Qed.

Lemma empty_represents n : represents (replicate n 0) ∅.
Proof.
  split; [by apply Forall_replicate; rlia|]. intros b.
  assert (bit (replicate n 0) b = false) as ->; [|set_solver].
  unfold bit. destruct (replicate n 0 !! word_index b) as [w|] eqn:E; [|done].
  apply lookup_replicate in E as [-> _]. apply Z.bits_0.
Qed.

(** Refinement of the bitmap. Any sequence of in-range [set]/[clear] calls from
    the all-zero words succeeds, and the words then represent exactly the finite set
    the sequence builds; on them [is_set] decides membership, [first_set] returns the
    minimum of the set ([None] exactly when it is empty), and [first_set_from] the
    minimum at or above [from]: a redemption can never be started above a non-empty
    bucket. *)
Theorem bitmap_implements_set (n : nat) (os : list bucket_op) (from : Z)
    (Hos : Forall (fun o => 0 <= op_bucket o < Z.of_nat n * 64) os) (Hfrom : 0 <= from) :
  let s := foldl spec_op (∅ : gset Z) os in
  exists words, run_ops (replicate n 0) os = Some words /\
    (forall b, 0 <= b < Z.of_nat n * 64 -> is_set words b = Some (bool_decide (b ∈ s))) /\
    match first_set words with
    | Some b => b ∈ s /\ forall j, j ∈ s -> b <= j
    | None => s = ∅
    end /\
    match first_set_from words from with
    | Some b => b ∈ s /\ from <= b /\ forall j, j ∈ s -> from <= j -> b <= j
    | None => forall j, j ∈ s -> j < from
    end.
Proof.
  intros s. assert (num_buckets (replicate n 0) = Z.of_nat n * 64) as En
    by (unfold num_buckets; by rewrite length_replicate).
  destruct (run_ops_represents (replicate n 0) ∅ os (empty_represents n)) as (words & E & Hr & En');
    [by rewrite En|]. fold s in Hr. exists words. split; [done|].
  pose proof (lowest_represents _ _ 0 _ Hr (Z.le_refl 0) (first_set_lowest _ (proj1 Hr))) as H0.
  pose proof (lowest_represents _ _ from _ Hr Hfrom
    (first_set_from_lowest _ _ (proj1 Hr) Hfrom)) as Hf.
  assert (forall j, j ∈ s -> 0 <= j) as Hpos by (intros j Hj%(proj2 Hr); lia).
  split; [|split; [|done]].
  - intros b Hb. rewrite is_set_bit by lia. f_equal. apply eq_true_iff_eq.
    rewrite bool_decide_eq_true. rewrite <- (proj2 Hr b). rewrite En', En. tauto.
  - destruct (first_set words) as [b|].
    + split; [apply H0|]. intros j Hj. apply H0; [done | by apply Hpos].
    + apply set_eq. intros j. split; [|set_solver].
      intros Hj. specialize (H0 _ Hj). specialize (Hpos _ Hj). lia.
Qed.

(** A rate always lands in a bucket of the map (never a panic) when there is one,
    and a higher rate never lands in a lower bucket. *)
Theorem bucket_of_monotone (r1 r2 width n : Z) (H1 : u16 r1) (H2 : u16 r2) (Hle : r1 <= r2)
    (Hw : u16 width) (Hn : 1 <= n <= U64_MAX) :
  exists b1 b2, bucket_of r1 width n = Some b1 /\ bucket_of r2 width n = Some b2 /\
    0 <= b1 <= b2 /\ b2 < n /\ b1 = Z.min (r1 / Z.max width 1) (n - 1).
Proof.
  unfold bucket_of. rewrite fit_in by lia. cbn. do 2 eexists. split; [done|]. split; [done|].
  assert (r1 / Z.max width 1 <= r2 / Z.max width 1) by (apply Z.div_le_mono; lia).
  assert (0 <= r1 / Z.max width 1) by (apply Z.div_pos; rlia). lia.
Qed.

(** ** Ordering by collateral ratio *)

Section ordering.
Context {U : U256}.

Lemma cmp_ratio_spec ia aa ib ab : u64 ia -> u128 aa -> u64 ib -> u128 ab ->
  cmp_collateral_ratio ia aa ib ab = (ia * ab ?= ib * aa).
Proof.
  intros. unfold cmp_collateral_ratio. rewrite u256_cmp_val, !u256_mul_val, !u256_from_val;
    rewrite ?u256_from_val by rlia; try rlia; try done; unfold u64, u128 in *; nia.
Qed.

(** On positions with debt the comparison is a total preorder that orders by the
    exact ratio collateral/debt: reversing the arguments reverses the answer, and
    [<=] is transitive, which is what the in-bucket sort of a redemption relies on. *)
Theorem cmp_ratio_preorder (ia aa ib ab ic ac : Z)
    (Ha : u64 ia /\ 0 < aa <= U128_MAX) (Hb : u64 ib /\ 0 < ab <= U128_MAX)
    (Hc : u64 ic /\ 0 < ac <= U128_MAX) :
  cmp_collateral_ratio ib ab ia aa = CompOpp (cmp_collateral_ratio ia aa ib ab) /\
  (cmp_collateral_ratio ia aa ib ab <> Gt <-> ia * ab <= ib * aa) /\
  (cmp_collateral_ratio ia aa ib ab <> Gt -> cmp_collateral_ratio ib ab ic ac <> Gt ->
   cmp_collateral_ratio ia aa ic ac <> Gt).
Proof.
  destruct Ha, Hb, Hc. rewrite !cmp_ratio_spec by (done || rlia).
  split; [apply Z.compare_antisym|]. fold (ia * ab <= ib * aa).
  split; [done|]. fold (ib * ac <= ic * ab) (ia * ac <= ic * aa). intros H12 H23.
  unfold u64 in *. assert (ia * ab * ac <= ic * aa * ab) by nia. nia.
Qed.

End ordering.

