(* ===== verification/Redistribution.v ===== *)
(** * Liquidation redistribution ([crates/fusd-math/src/redistribution.rs])

    The reward-per-unit-staked accumulators, the per-position pending gains and
    the stake formula. A failed call aborts the transaction, so the state an
    error leaves behind is not represented. *)

From S2P Require Import Prelude MachineInt FixedPoint.

Open Scope Z_scope.

Abbreviation PRECISION := 1000000000000000000.

Module RedistError.
Inductive t := NoStakes | AccumulatorOverflow | Math.
End RedistError.

Record RedistState := mkRedistState {
  rs_l_coll : Z;
  rs_l_art : Z;
  rs_last_coll_error : Z;
  rs_last_art_error : Z;
}.

Record RedistSnapshot := mkRedistSnapshot {
  snap_l_coll : Z;
  snap_l_art : Z;
}.

Definition redist_new : RedistState := mkRedistState 0 0 0 0.

Definition redist_snapshot (st : RedistState) : RedistSnapshot :=
  mkRedistSnapshot (rs_l_coll st) (rs_l_art st).

Section redistribution.
Context {U : U256}.

(** The accumulator [l] and the carried residual [last_error] after one bump. *)
Definition accumulate (l last_error total_stakes amount : Z) : result RedistError.t (Z * Z) :=
  numerator ← ok_or
    (x ← u256_checked_mul (u256_from amount) (u256_from PRECISION);
     u256_checked_add x (u256_from last_error)) RedistError.Math;
  let ts := u256_from total_stakes in
  let reward_per_unit := u256_div numerator ts in
  rem ← ok_or (u256_try_u128 (u256_sub numerator (u256_mul reward_per_unit ts))) RedistError.Math;
  rpu ← ok_or (u256_try_u128 reward_per_unit) RedistError.AccumulatorOverflow;
  l ← ok_or (checked_add128 l rpu) RedistError.AccumulatorOverflow;
  Ok (l, rem).

(** The [cfg(kani)] body of the same function. *)
Definition accumulate_kani (l last_error total_stakes amount : Z) : result RedistError.t (Z * Z) :=
  '(rpu, rem) ← ok_or (wide_muladd_div amount PRECISION last_error total_stakes)
    RedistError.AccumulatorOverflow;
  l ← ok_or (checked_add128 l rpu) RedistError.AccumulatorOverflow;
  Ok (l, rem).

Definition redistribute (st : RedistState) (total_stakes coll art : Z)
    : result RedistError.t RedistState :=
  if total_stakes =? 0 then Err RedistError.NoStakes
  else
    '(l_coll, coll_error) ← accumulate (rs_l_coll st) (rs_last_coll_error st) total_stakes coll;
    '(l_art, art_error) ← accumulate (rs_l_art st) (rs_last_art_error st) total_stakes art;
    Ok (mkRedistState l_coll l_art coll_error art_error).

Definition pending_one (stake l_now l_snap : Z) : result RedistError.t Z :=
  let delta := sat_sub l_now l_snap in
  if (stake =? 0) || (delta =? 0) then Ok 0
  else ok_or (mul_div_floor stake delta PRECISION) RedistError.Math.

Definition pending (stake : Z) (st : RedistState) (snap : RedistSnapshot)
    : result RedistError.t (Z * Z) :=
  coll ← pending_one stake (rs_l_coll st) (snap_l_coll snap);
  art ← pending_one stake (rs_l_art st) (snap_l_art snap);
  Ok (coll, art).

Definition compute_stake (coll total_stakes_snapshot total_collateral_snapshot : Z)
    : result RedistError.t Z :=
  if total_collateral_snapshot =? 0 then Ok coll
  else ok_or (mul_div_floor coll total_stakes_snapshot total_collateral_snapshot) RedistError.Math.

(** ** Specification of the accumulator *)

Lemma checked_numerator amount err : u128 amount -> u128 err ->
  exists n, (x ← u256_checked_mul (u256_from amount) (u256_from PRECISION);
             u256_checked_add x (u256_from err)) = Some n /\ u256_val n = amount * PRECISION + err.
Proof.
  intros Ha He.
  pose proof (u256_checked_mul_val (u256_from amount) (u256_from PRECISION)) as Em.
  rewrite !u256_from_val, fit_in in Em by rlia.
  destruct (u256_checked_mul _ _) as [x|]; [|done]. injection Em as Ex. cbn.
  pose proof (u256_checked_add_val x (u256_from err)) as Ea.
  rewrite Ex, u256_from_val, fit_in in Ea by rlia.
  destruct (u256_checked_add _ _) as [n|]; [|done]. injection Ea as En. eauto.
Qed.

Lemma accumulate_spec l err ts amount :
  u128 amount -> u128 err -> u128 ts -> 0 < ts ->
  accumulate l err ts amount =
    let n := amount * PRECISION + err in
    ok_or (rpu ← fit U128_MAX (n / ts); l ← checked_add128 l rpu; Some (l, n mod ts))
      RedistError.AccumulatorOverflow.
Proof.
  intros Ha He Ht Hpos. unfold accumulate.
  destruct (checked_numerator amount err Ha He) as (n & -> & En).
  cbn [ok_or mbind result_bind option_bind]. rewrite !u256_try_u128_val.
  assert (u256_val (u256_div n (u256_from ts)) = u256_val n / ts) as Ed.
  { rewrite u256_div_val, u256_from_val; [done | rlia | rewrite u256_from_val; rlia]. }
  pose proof (u256_range n) as Hn. pose proof (Z.mul_div_le (u256_val n) ts Hpos).
  pose proof (Z.div_mod (u256_val n) ts ltac:(lia)).
  pose proof (Z.mod_pos_bound (u256_val n) ts Hpos).
  assert (u256_val (u256_mul (u256_div n (u256_from ts)) (u256_from ts)) = u256_val n / ts * ts) as Em.
  { rewrite u256_mul_val; rewrite Ed, u256_from_val by rlia; lia. }
  rewrite u256_sub_val, Em, Ed, En in * by lia.
  set (N := amount * PRECISION + err) in *. clearbody N.
  rewrite (fit_in _ (N - _)) by rlia. cbn.
  replace (N - N / ts * ts) with (N mod ts) by lia.
  destruct (fit _ _) as [rpu|]; cbn; [|done]. by destruct (checked_add128 l rpu).
Qed.

Lemma accumulate_Ok l err ts amount l' err' :
  u128 l -> u128 amount -> u128 err -> u128 ts -> 0 < ts ->
  accumulate l err ts amount = Ok (l', err') ->
  u128 l' /\ l <= l' /\ 0 <= err' < ts /\
  ts * (l' - l) + err' = amount * PRECISION + err.
Proof.
  intros Hl Ha He Ht Hpos H. rewrite accumulate_spec in H by done. cbv zeta in H. inv_ok H.
  apply fit_Some in Hrun as [-> ?]. checked. injection H as <- <-.
  pose proof (Z.div_mod (amount * PRECISION + err) ts ltac:(lia)).
  pose proof (Z.mod_pos_bound (amount * PRECISION + err) ts Hpos). rlia.
Qed.

Lemma redistribute_Ok st ts coll art st' :
  u128 (rs_l_coll st) -> u128 (rs_l_art st) ->
  u128 (rs_last_coll_error st) -> u128 (rs_last_art_error st) ->
  u128 ts -> u128 coll -> u128 art ->
  redistribute st ts coll art = Ok st' ->
  0 < ts /\
  (u128 (rs_l_coll st') /\ rs_l_coll st <= rs_l_coll st' /\ 0 <= rs_last_coll_error st' < ts /\
   ts * (rs_l_coll st' - rs_l_coll st) + rs_last_coll_error st'
     = coll * PRECISION + rs_last_coll_error st) /\
  (u128 (rs_l_art st') /\ rs_l_art st <= rs_l_art st' /\ 0 <= rs_last_art_error st' < ts /\
   ts * (rs_l_art st' - rs_l_art st) + rs_last_art_error st'
     = art * PRECISION + rs_last_art_error st).
Proof.
  intros Hlc Hla Hec Hea Ht Hc Ha H. unfold redistribute in H.
  destruct (Z.eqb_spec ts 0); [done|]. assert (0 < ts) by rlia.
  apply bind_Ok in H as ([lc ec] & H1 & H). apply bind_Ok in H as ([la ea] & H2 & H).
  inv_ok H. cbn. apply accumulate_Ok in H1; [|done..]. apply accumulate_Ok in H2; done.
Qed.

Lemma pending_one_Ok stake l0 l1 x : u128 stake -> u128 l0 -> u128 l1 -> l0 <= l1 ->
  pending_one stake l1 l0 = Ok x ->
  x = stake * (l1 - l0) / PRECISION /\ u128 x /\ PRECISION * x <= stake * (l1 - l0).
Proof.
  intros Hs H0 H1 Hle H. unfold pending_one in H.
  assert (sat_sub l1 l0 = l1 - l0) as E by rlia. rewrite E in H.
  assert (x = stake * (l1 - l0) / PRECISION /\ u128 x) as [-> Hx].
  { destruct (_ || _) eqn:Eb.
    - injection H as <-. split; [|rlia].
      replace (stake * (l1 - l0)) with 0; [done|].
      apply orb_true_iff in Eb. rewrite !Z.eqb_eq in Eb. nia.
    - apply ok_or_Ok in H. pose proof H as H'. apply mul_div_floor_u128 in H'; [|rlia..].
      apply mul_div_floor_Some in H as (_ & -> & _); [done|rlia..]. }
  split; [done|]. split; [done|]. apply Z.mul_div_le. lia.
Qed.

Lemma compute_stake_Ok coll ts tc x : u128 coll -> u128 ts -> u128 tc ->
  compute_stake coll ts tc = Ok x ->
  u128 x /\ (tc = 0 -> x = coll) /\ (tc <> 0 -> x = coll * ts / tc) /\ (coll = 0 -> x = 0).
Proof.
  intros Hc Ht Htc H. unfold compute_stake in H. destruct (Z.eqb_spec tc 0) as [->|].
  - injection H as <-. done.
  - apply ok_or_Ok in H. pose proof H as H'. apply mul_div_floor_u128 in H'; [|done..].
    apply mul_div_floor_Some in H as (_ & -> & _); [|done..].
    repeat split; try apply H'; try done. by intros ->.
Qed.

(** ** Sequences of liquidations against a fixed set of staked positions *)

Fixpoint redistribute_all (st : RedistState) (ts : Z) (events : list (Z * Z))
    : result RedistError.t RedistState :=
  match events with
  | [] => Ok st
  | (coll, art) :: events => st ← redistribute st ts coll art; redistribute_all st ts events
  end.

Fixpoint sum_pending (stakes : list Z) (st : RedistState) (snap : RedistSnapshot)
    : result RedistError.t (Z * Z) :=
  match stakes with
  | [] => Ok (0, 0)
  | stake :: stakes =>
      '(c, a) ← pending stake st snap;
      '(cs, as_) ← sum_pending stakes st snap;
      Ok (c + cs, a + as_)
  end.

Definition sum_list (xs : list Z) : Z := foldr Z.add 0 xs.

Definition redist_ok (st : RedistState) : Prop :=
  u128 (rs_l_coll st) /\ u128 (rs_l_art st) /\
  u128 (rs_last_coll_error st) /\ u128 (rs_last_art_error st).

Lemma redistribute_all_Ok ts events : forall st st', redist_ok st -> u128 ts ->
  Forall (fun '(c, a) => u128 c /\ u128 a) events ->
  redistribute_all st ts events = Ok st' ->
  redist_ok st' /\
  rs_l_coll st <= rs_l_coll st' /\ rs_l_art st <= rs_l_art st' /\
  ts * (rs_l_coll st' - rs_l_coll st) + rs_last_coll_error st'
    = sum_list events.*1 * PRECISION + rs_last_coll_error st /\
  ts * (rs_l_art st' - rs_l_art st) + rs_last_art_error st'
    = sum_list events.*2 * PRECISION + rs_last_art_error st /\
  (rs_last_coll_error st < ts /\ rs_last_art_error st < ts ->
   rs_last_coll_error st' < ts /\ rs_last_art_error st' < ts).
Proof.
  induction events as [|[c a] events IH]; intros st st' Hst Hts Hev H; cbn in H.
  - inv_ok H. cbn. repeat split; try apply Hst; try lia; done.
  - apply Forall_cons in Hev as [[Hc Ha] Hev]. destruct Hst as (? & ? & ? & ?).
    apply bind_Ok in H as (st1 & Hred & H).
    apply redistribute_Ok in Hred as (? & Hcoll & Hart); [|done..].
    apply IH in H as (Hok & ? & ? & Ec & Ea & Hlt); [|unfold redist_ok; rlia|done|done].
    cbn [fmap list_fmap sum_list foldr fst snd]. fold (sum_list events.*1) (sum_list events.*2).
    split; [done|]. repeat split; try lia.
Qed.

Lemma pending_Ok stake st snap c a : u128 stake -> redist_ok st ->
  u128 (snap_l_coll snap) -> u128 (snap_l_art snap) ->
  snap_l_coll snap <= rs_l_coll st -> snap_l_art snap <= rs_l_art st ->
  pending stake st snap = Ok (c, a) ->
  c = stake * (rs_l_coll st - snap_l_coll snap) / PRECISION /\ u128 c /\
  a = stake * (rs_l_art st - snap_l_art snap) / PRECISION /\ u128 a.
Proof.
  intros Hs (? & ? & _ & _) ? ? ? ? Hp. unfold pending in Hp. inv_ok Hp. injection Hp as <- <-.
  apply pending_one_Ok in Hrun; [|done..]. apply pending_one_Ok in Hrun0; [|done..]. tauto.
Qed.

Lemma sum_pending_bounds stakes st snap c a : Forall u128 stakes -> redist_ok st ->
  u128 (snap_l_coll snap) -> u128 (snap_l_art snap) ->
  snap_l_coll snap <= rs_l_coll st -> snap_l_art snap <= rs_l_art st ->
  sum_pending stakes st snap = Ok (c, a) ->
  let n := Z.of_nat (length stakes) in
  let dc := sum_list stakes * (rs_l_coll st - snap_l_coll snap) in
  let da := sum_list stakes * (rs_l_art st - snap_l_art snap) in
  dc - PRECISION * n <= PRECISION * c <= dc /\ da - PRECISION * n <= PRECISION * a <= da.
Proof.
  intros Hall Hst Hc0 Ha0 Hc Ha. revert c a.
  induction stakes as [|x xs IH]; intros c a H; cbn [sum_pending] in H; [inv_ok H; injection H; cbn; lia|].
  apply Forall_cons in Hall as [Hx Hxs]. inv_ok H. injection H as <- <-.
  apply pending_Ok in Hrun as (-> & _ & -> & _); [|done..].
  specialize (IH Hxs _ _ Hrun0). cbn [sum_list foldr length]. fold (sum_list xs).
  pose proof (Z.mul_div_le (x * (rs_l_coll st - snap_l_coll snap)) PRECISION ltac:(lia)).
  pose proof (Z.mul_succ_div_gt (x * (rs_l_coll st - snap_l_coll snap)) PRECISION ltac:(lia)).
  pose proof (Z.mul_div_le (x * (rs_l_art st - snap_l_art snap)) PRECISION ltac:(lia)).
  pose proof (Z.mul_succ_div_gt (x * (rs_l_art st - snap_l_art snap)) PRECISION ltac:(lia)).
  cbv zeta in *. lia.
Qed.

(** Redistribution conserves value. For any set of staked positions whose stakes
    add up to [ts], and any sequence of liquidations redistributed over them since
    they were last touched, what the positions can realize never exceeds what was
    redistributed plus the carried residual, and what rounding leaves behind is at
    most one unit per position plus [ts/10^18]: the error feedback stops any drift,
    however long the sequence. *)
Theorem redistribution_conserves (stakes : list Z) (events : list (Z * Z))
    (st st' : RedistState) (c a : Z)
    (Hstakes : Forall u128 stakes) (Hts : u128 (sum_list stakes)) (Hst : redist_ok st)
    (Hres : rs_last_coll_error st < sum_list stakes /\ rs_last_art_error st < sum_list stakes)
    (Hev : Forall (fun '(c, a) => u128 c /\ u128 a) events)
    (Hrun : redistribute_all st (sum_list stakes) events = Ok st')
    (Hpend : sum_pending stakes st' (redist_snapshot st) = Ok (c, a)) :
  let n := Z.of_nat (length stakes) in
  let ts := sum_list stakes in
  let coll := PRECISION * sum_list events.*1 + rs_last_coll_error st in
  let art := PRECISION * sum_list events.*2 + rs_last_art_error st in
  coll - PRECISION * n - ts < PRECISION * c <= coll /\
  art - PRECISION * n - ts < PRECISION * a <= art.
Proof.
  apply redistribute_all_Ok in Hrun as (Hok & ? & ? & Ec & Ea & Hlt); [|done..].
  destruct Hst as (? & ? & ? & ?). pose proof Hok as (? & ? & ? & ?).
  apply sum_pending_bounds in Hpend; [|done..]. cbn in *. specialize (Hlt Hres). rlia.
Qed.

(** The two implementations of the accumulator, the shipped 256-bit one and the
    model-checking shim, agree on every input with a non-zero stake total, errors
    included; the only failure is the documented accumulator overflow. *)
Theorem accumulate_twins (l err ts amount : Z) (Hl : u128 l) (Ha : u128 amount)
    (He : u128 err) (Ht : u128 ts) (Hpos : 0 < ts) :
  accumulate l err ts amount = accumulate_kani l err ts amount /\
  (forall e, accumulate l err ts amount = Err e -> e = RedistError.AccumulatorOverflow /\
     U128_MAX < l + (amount * PRECISION + err) / ts).
Proof.
  rewrite accumulate_spec by done. unfold accumulate_kani.
  rewrite wide_muladd_div_spec by (done || rlia). cbv zeta.
  assert (0 <= (amount * PRECISION + err) / ts) by (apply Z.div_pos; rlia).
  destruct (fit _ _) as [rpu|] eqn:F; cbn.
  - apply fit_Some in F as [-> ?]. unfold checked_add128.
    destruct (fit _ (l + _)) eqn:G; cbn; split; [done | done | done |].
    intros e [= <-]. split; [done|]. apply fit_None in G. rlia.
  - split; [done|]. intros e [= <-]. split; [done|]. apply fit_None in F. rlia.
Qed.

End redistribution.

