(* ===== verification/ReactorMath.v ===== *)
(** * Reactor-Pool product-sum accounting ([crates/fusd-math/src/reactor_pool.rs])

    The running product [P], the [(epoch, scale)] grid of sums [S], the offset
    of a liquidation against the pool, and a depositor's compounded deposit and
    collateral gain. The grid is the flat slice of the source, a list; an index
    outside it reads as "no sum yet". *)

From S2P Require Import Prelude MachineInt FixedPoint.

Open Scope Z_scope.

Abbreviation DECIMAL_PRECISION := 1000000000000000000.
Abbreviation SCALE_FACTOR := 1000000000.

Module ReactorError.
Inductive t := NoDeposits | DebtExceedsDeposits | ScaleOverflow | EpochOverflow | Math.
End ReactorError.

Record Snapshot := mkSnapshot { sn_p : Z; sn_s : Z; sn_scale : Z; sn_epoch : Z }.

Record PoolState := mkPoolState {
  ps_p : Z;
  ps_epoch : Z;
  ps_scale : Z;
  ps_total_deposits : Z;
  ps_last_coll_error : Z;
  ps_last_loss_error : Z;
}.

#[export] Instance PoolState_fields : Fields PoolState := fun r =>
  mkPoolState (ps_p r) (ps_epoch r) (ps_scale r) (ps_total_deposits r)
    (ps_last_coll_error r) (ps_last_loss_error r).

Definition pool_new : PoolState := mkPoolState DECIMAL_PRECISION 0 0 0 0 0.

Definition s_idx (epoch scale stride len : Z) : option Z :=
  if stride <=? scale then None
  else
    i ← checked_mul128 epoch stride;
    i ← checked_add128 i scale;
    i ← try_u64 i;
    if i <? len then Some i else None.

Definition grid_len (s_grid : list Z) : Z := Z.of_nat (length s_grid).

(** [s_idx(..).map(|i| s_grid[i]).unwrap_or(0)] *)
Definition s_at (s_grid : list Z) (epoch scale stride : Z) : Z :=
  default 0 (i ← s_idx epoch scale stride (grid_len s_grid); s_grid !! Z.to_nat i).

Definition snapshot (st : PoolState) (s_grid : list Z) (stride : Z) : Snapshot :=
  mkSnapshot (ps_p st) (s_at s_grid (ps_epoch st) (ps_scale st) stride) (ps_scale st) (ps_epoch st).

Section reactor.
Context {U : U256}.

(** One pass of the loop per unit of [fuel]; the loop gives up at its fifth
    rescale, so five passes are all it ever makes. *)
Fixpoint update_product_loop (fuel : nat) (num : u256) (bumps : Z) : result ReactorError.t (Z * Z) :=
  match fuel with
  | O => Err ReactorError.Math
  | S fuel =>
      let new_p := u256_div num (u256_from DECIMAL_PRECISION) in
      if u256_geb new_p (u256_from SCALE_FACTOR)
      then p ← ok_or (u256_try_u128 new_p) ReactorError.Math; Ok (p, bumps)
      else
        let num := u256_mul num (u256_from SCALE_FACTOR) in
        let bumps := bumps + 1 in
        if 4 <? bumps then Err ReactorError.Math else update_product_loop fuel num bumps
  end.

Definition update_product (p factor : Z) : result ReactorError.t (Z * Z) :=
  update_product_loop 5 (u256_mul (u256_from p) (u256_from factor)) 0.

(** The [u128]-native twin. *)
Fixpoint update_product_u128_loop (fuel : nat) (num bumps : Z) : result ReactorError.t (Z * Z) :=
  match fuel with
  | O => Err ReactorError.Math
  | S fuel =>
      let new_p := num / DECIMAL_PRECISION in
      if SCALE_FACTOR <=? new_p then Ok (new_p, bumps)
      else
        num ← ok_or (checked_mul128 num SCALE_FACTOR) ReactorError.Math;
        let bumps := bumps + 1 in
        if 4 <? bumps then Err ReactorError.Math else update_product_u128_loop fuel num bumps
  end.

Definition update_product_u128 (p factor : Z) : result ReactorError.t (Z * Z) :=
  num ← ok_or (checked_mul128 p factor) ReactorError.Math;
  update_product_u128_loop 5 num 0.

(** The loss side of [offset]: the new carried residual and the product factor. *)
Definition loss_factor (st : PoolState) (debt_to_offset : Z) : result ReactorError.t (Z * Z) :=
  let total := ps_total_deposits st in
  if debt_to_offset =? total then Ok (0, 0)
  else
    loss_numerator ← ok_or
      (x ← checked_mul128 debt_to_offset DECIMAL_PRECISION;
       checked_sub128 x (ps_last_loss_error st)) ReactorError.Math;
    let loss_per_unit := loss_numerator / total + 1 in
    charged ← ok_or (checked_mul128 loss_per_unit total) ReactorError.Math;
    Ok (charged - loss_numerator, DECIMAL_PRECISION - loss_per_unit).

(** The [P]/[scale]/[epoch] update of [offset]. *)
Definition roll_product (st : PoolState) (len stride product_factor : Z)
    : result ReactorError.t PoolState :=
  if product_factor =? 0 then
    new_epoch ← ok_or (checked_add64 (ps_epoch st) 1) ReactorError.EpochOverflow;
    _ ← ok_or (s_idx new_epoch 0 stride len) ReactorError.EpochOverflow;
    Ok (st <| ps_epoch := new_epoch |> <| ps_scale := 0 |> <| ps_p := DECIMAL_PRECISION |>)
  else
    '(new_p, bumps) ← update_product (ps_p st) product_factor;
    st ← (if 0 <? bumps then
            new_scale ← ok_or (checked_add64 (ps_scale st) bumps) ReactorError.ScaleOverflow;
            _ ← ok_or (s_idx (ps_epoch st) new_scale stride len) ReactorError.ScaleOverflow;
            Ok (st <| ps_scale := new_scale |>)
          else Ok st);
    Ok (st <| ps_p := new_p |>).

Definition offset (st : PoolState) (s_grid : list Z) (stride debt_to_offset coll_to_add : Z)
    : result ReactorError.t (PoolState * list Z) :=
  let total := ps_total_deposits st in
  if total =? 0 then Err ReactorError.NoDeposits
  else if total <? debt_to_offset then Err ReactorError.DebtExceedsDeposits
  else
    coll_numerator ← ok_or
      (x ← checked_mul128 coll_to_add DECIMAL_PRECISION;
       checked_add128 x (ps_last_coll_error st)) ReactorError.Math;
    let coll_gain_per_unit := coll_numerator / total in
    let coll_error := coll_numerator - coll_gain_per_unit * total in
    '(loss_error, product_factor) ← loss_factor st debt_to_offset;
    marginal ← ok_or (checked_mul128 coll_gain_per_unit (ps_p st)) ReactorError.Math;
    cur_i ← ok_or (s_idx (ps_epoch st) (ps_scale st) stride (grid_len s_grid))
      ReactorError.EpochOverflow;
    cell ← ok_or (s_grid !! Z.to_nat cur_i) ReactorError.Math;
    cell ← ok_or (checked_add128 cell marginal) ReactorError.Math;
    let s_grid := <[Z.to_nat cur_i := cell]> s_grid in
    st ← roll_product (st <| ps_last_coll_error := coll_error |> <| ps_last_loss_error := loss_error |>)
           (grid_len s_grid) stride product_factor;
    Ok (st <| ps_total_deposits := total - debt_to_offset |>, s_grid).

(** [None] is the panic of [st.scale - snap.scale] on a snapshot ahead of the pool. *)
Definition compounded_deposit (st : PoolState) (initial_deposit : Z) (snap : Snapshot) : option Z :=
  if (initial_deposit =? 0) || (sn_epoch snap <? ps_epoch st) then Some 0
  else
    scale_diff ← checked_sub64 (ps_scale st) (sn_scale snap);
    let compounded :=
      if scale_diff =? 0 then default 0 (mul_div_floor initial_deposit (ps_p st) (sn_p snap))
      else if scale_diff =? 1
      then default 0 (mul_div_floor initial_deposit (ps_p st) (sn_p snap)) / SCALE_FACTOR
      else 0 in
    if compounded <? initial_deposit / 1000000000 then Some 0 else Some compounded.

(** A snapshot's scale indexes the grid, so [snap.scale + 1] stays a [u64]. *)
Definition collateral_gain (s_grid : list Z) (stride initial_deposit : Z) (snap : Snapshot)
    : result ReactorError.t Z :=
  if initial_deposit =? 0 then Ok 0
  else
    let first_portion := sat_sub (s_at s_grid (sn_epoch snap) (sn_scale snap) stride) (sn_s snap) in
    let second_portion := s_at s_grid (sn_epoch snap) (sn_scale snap + 1) stride / SCALE_FACTOR in
    sum ← ok_or (checked_add128 first_portion second_portion) ReactorError.Math;
    t ← ok_or (mul_div_floor initial_deposit sum (sn_p snap)) ReactorError.Math;
    Ok (t / DECIMAL_PRECISION).

End reactor.

(** ** The rescale loop *)

Section update_product_proofs.
Context {U : U256}.

Definition product_ok (p : Z) : Prop := SCALE_FACTOR <= p <= DECIMAL_PRECISION.

(** Both loops, run on numerators of the same value, agree. *)
Lemma update_product_loops fuel : forall num n bumps,
  u256_val num = n -> 0 <= n <= DECIMAL_PRECISION * DECIMAL_PRECISION ->
  update_product_loop fuel num bumps = update_product_u128_loop fuel n bumps.
Proof.
  induction fuel as [|fuel IH]; intros num n bumps En Hn; cbn [update_product_loop update_product_u128_loop]; [done|].
  assert (u256_val (u256_div num (u256_from DECIMAL_PRECISION)) = n / DECIMAL_PRECISION) as Ed.
  { rewrite u256_div_val, u256_from_val, En; [done | rlia | rewrite u256_from_val; rlia]. }
  rewrite u256_geb_val, u256_try_u128_val, Ed, u256_from_val by rlia.
  assert (0 <= n / DECIMAL_PRECISION <= DECIMAL_PRECISION).
  { split; [apply Z.div_pos; lia | apply Z.div_le_upper_bound; lia]. }
  destruct (Z.leb_spec SCALE_FACTOR (n / DECIMAL_PRECISION)).
  - by rewrite fit_in by lia.
  - assert (n < SCALE_FACTOR * DECIMAL_PRECISION).
    { pose proof (Z.mul_succ_div_gt n DECIMAL_PRECISION ltac:(lia)). lia. }
    unfold checked_mul128. rewrite fit_in by lia. cbn.
    destruct (4 <? bumps + 1); [done|]. apply IH; [|lia].
    rewrite u256_mul_val; rewrite En, u256_from_val by rlia; lia.
Qed.

Lemma update_product_twin p factor : 0 <= p <= DECIMAL_PRECISION -> 0 <= factor <= DECIMAL_PRECISION ->
  update_product p factor = update_product_u128 p factor.
Proof.
  intros Hp Hf. unfold update_product, update_product_u128, checked_mul128.
  rewrite fit_in by nia. step_ok. apply update_product_loops; [|nia].
  apply u256_prod; rlia.
Qed.

(** On the pool's domain the loop succeeds after at most two rescales. *)
Lemma update_product_Ok p factor : product_ok p -> 0 < factor <= DECIMAL_PRECISION ->
  exists p' bumps, update_product p factor = Ok (p', bumps) /\ product_ok p' /\
    0 <= bumps <= 2 /\ p' = p * factor * SCALE_FACTOR ^ bumps / DECIMAL_PRECISION /\
    (0 < bumps -> p * factor * SCALE_FACTOR ^ (bumps - 1) < SCALE_FACTOR * DECIMAL_PRECISION).
Proof.
  intros Hp Hf. unfold product_ok in *. rewrite update_product_twin by lia.
  unfold update_product_u128, checked_mul128. set (n := p * factor).
  assert (SCALE_FACTOR <= n <= DECIMAL_PRECISION * DECIMAL_PRECISION) as Hn by (subst n; nia).
  clearbody n. rewrite fit_in by lia. step_ok.
  assert (forall k, SCALE_FACTOR * DECIMAL_PRECISION <= k <= DECIMAL_PRECISION * DECIMAL_PRECISION ->
    SCALE_FACTOR <= k / DECIMAL_PRECISION <= DECIMAL_PRECISION) as Hrange.
  { intros k Hk. split; [apply Z.div_le_lower_bound; lia | apply Z.div_le_upper_bound; lia]. }
  do 3 (cbn [update_product_u128_loop];
    lazymatch goal with |- context [SCALE_FACTOR <=? ?x / DECIMAL_PRECISION] =>
      destruct (Z.leb_spec SCALE_FACTOR (x / DECIMAL_PRECISION));
      [ eexists _, _; split; [done|];
        assert (SCALE_FACTOR * DECIMAL_PRECISION <= x)
          by (pose proof (Z.mul_div_le x DECIMAL_PRECISION ltac:(lia)); lia);
        split; [apply Hrange; lia|]; split; [lia|];
        cbn [Z.add Z.sub Z.pow Z.pow_pos Pos.iter Z.opp Z.pos_sub Pos.pred_double Pos.add];
        split; [f_equal; lia | lia]
      | assert (x < SCALE_FACTOR * DECIMAL_PRECISION)
          by (pose proof (Z.mul_succ_div_gt x DECIMAL_PRECISION ltac:(lia)); lia);
        unfold checked_mul128; rewrite fit_in by lia;
        cbn [ok_or mbind result_bind option_bind Z.ltb Z.add Pos.add Z.compare Pos.compare Pos.compare_cont] ]
    end).
  exfalso. lia.
Qed.

End update_product_proofs.

(** ** One offset *)

Section offset_proofs.
Context {U : U256}.

Record pool_ok (st : PoolState) : Prop := {
  po_p : product_ok (ps_p st);
  po_epoch : u64 (ps_epoch st);
  po_scale : u64 (ps_scale st);
  po_total : u128 (ps_total_deposits st);
  po_coll_error : u128 (ps_last_coll_error st);
  po_loss_error : u128 (ps_last_loss_error st);
}.

Lemma s_idx_Some epoch scale stride len i : 0 <= epoch -> 0 <= scale ->
  s_idx epoch scale stride len = Some i <->
  i = epoch * stride + scale /\ scale < stride /\ i < len /\ i <= U64_MAX.
Proof.
  intros He Hs. unfold s_idx. destruct (Z.leb_spec stride scale); [split; [done | lia]|].
  unfold checked_mul128, checked_add128, try_u64.
  assert (0 <= epoch * stride) by nia.
  destruct (fit _ (epoch * stride)) as [a|] eqn:Ea; step_ok.
  2:{ apply fit_None in Ea. split; [done | lia]. }
  apply fit_Some in Ea as [-> ?].
  destruct (fit U128_MAX (epoch * stride + scale)) as [b|] eqn:Eb; step_ok.
  2:{ apply fit_None in Eb. split; [done | lia]. }
  apply fit_Some in Eb as [-> ?].
  destruct (fit U64_MAX _) as [c|] eqn:Ec; step_ok.
  2:{ apply fit_None in Ec. split; [done | lia]. }
  apply fit_Some in Ec as [-> ?].
  destruct (Z.ltb_spec (epoch * stride + scale) len); split; try done.
  - intros [= <-]. lia.
  - intros (-> & _). done.
  - lia.
Qed.

(** The factor charges the offset, the residual carried in and the one carried out. *)
Lemma loss_factor_Ok st debt err' factor :
  u128 (ps_last_loss_error st) -> 0 < ps_total_deposits st -> 0 <= debt < ps_total_deposits st ->
  loss_factor st debt = Ok (err', factor) ->
  factor * ps_total_deposits st
    = (ps_total_deposits st - debt) * DECIMAL_PRECISION + ps_last_loss_error st - err' /\
  0 < err' <= ps_total_deposits st /\ 0 <= factor < DECIMAL_PRECISION /\
  (ps_total_deposits st < DECIMAL_PRECISION -> 0 < factor).
Proof.
  intros He Ht Hd H. unfold loss_factor in H.
  destruct (Z.eqb_spec debt (ps_total_deposits st)); [lia|].
  set (T := ps_total_deposits st) in *. set (err := ps_last_loss_error st) in *. clearbody T err.
  inv_ok H. injection H as <- <-. checked. subst.
  set (N := debt * DECIMAL_PRECISION - err) in *.
  pose proof (Z.div_mod N T ltac:(lia)). pose proof (Z.mod_pos_bound N T ltac:(lia)).
  assert (0 <= N / T) by (apply Z.div_pos; lia).
  assert (N / T <= DECIMAL_PRECISION - 1).
  { assert (N / T < DECIMAL_PRECISION); [apply Z.div_lt_upper_bound; rlia | lia]. }
  repeat split; try lia. intros HT.
  assert (N / T < DECIMAL_PRECISION - 1); [apply Z.div_lt_upper_bound; rlia | lia].
Qed.

Lemma loss_factor_full st err' factor :
  loss_factor st (ps_total_deposits st) = Ok (err', factor) -> err' = 0 /\ factor = 0.
Proof. unfold loss_factor. rewrite Z.eqb_refl. by intros [= <- <-]. Qed.

(** What [roll_product] leaves: a product in range, and a later (epoch, scale). *)
Lemma roll_product_Ok st len stride factor st' : pool_ok st -> 0 <= factor <= DECIMAL_PRECISION ->
  roll_product st len stride factor = Ok st' ->
  product_ok (ps_p st') /\ u64 (ps_epoch st') /\ u64 (ps_scale st') /\
  ps_last_coll_error st' = ps_last_coll_error st /\
  ps_last_loss_error st' = ps_last_loss_error st /\
  (factor = 0 -> ps_epoch st' = ps_epoch st + 1 /\ ps_scale st' = 0 /\
     ps_p st' = DECIMAL_PRECISION /\ is_Some (s_idx (ps_epoch st') 0 stride len)) /\
  (0 < factor -> ps_epoch st' = ps_epoch st /\ ps_scale st <= ps_scale st' <= ps_scale st + 2 /\
     ps_p st' * DECIMAL_PRECISION <= ps_p st * factor * SCALE_FACTOR ^ (ps_scale st' - ps_scale st) /\
     (ps_scale st < ps_scale st' -> is_Some (s_idx (ps_epoch st) (ps_scale st') stride len))).
Proof.
  intros [Hp He Hs _ _ _] Hf H. unfold roll_product in H.
  destruct (Z.eqb_spec factor 0) as [->|].
  - inv_ok H. checked. subst. cbn. unfold product_ok.
    repeat split; try rlia; try (by eexists).
  - destruct (update_product_Ok (ps_p st) factor Hp) as (p' & bumps & Eu & Hp' & Hb & E & _); [lia|].
    rewrite Eu in H. cbn in H. apply bind_Ok in H as (st1 & H1 & H). injection H as <-. cbn.
    pose proof (Z.mul_div_le (ps_p st * factor * SCALE_FACTOR ^ bumps) DECIMAL_PRECISION ltac:(lia)).
    destruct (Z.ltb_spec 0 bumps).
    + inv_ok H1. checked. subst. cbn.
      replace (ps_scale st + bumps - ps_scale st) with bumps by lia.
      split; [done|]. repeat split; try done; try rlia; try (by eexists).
    + injection H1 as <-. assert (bumps = 0) as -> by lia.
      replace (ps_scale st - ps_scale st) with 0 by lia. split; [done|]. repeat split; try done; try rlia.
Qed.

Record offset_effect (st : PoolState) (g : list Z) (stride debt coll : Z)
    (st' : PoolState) (g' : list Z) : Prop := {
  oe_debt : 0 < ps_total_deposits st /\ debt <= ps_total_deposits st;
  oe_total : ps_total_deposits st' = ps_total_deposits st - debt;
  oe_ok : pool_ok st';
  oe_gain : exists cgpu i cell,
    s_idx (ps_epoch st) (ps_scale st) stride (grid_len g) = Some i /\
    g !! Z.to_nat i = Some cell /\
    g' = <[Z.to_nat i := cell + cgpu * ps_p st]> g /\ 0 <= cgpu /\
    cgpu * ps_total_deposits st + ps_last_coll_error st'
      = coll * DECIMAL_PRECISION + ps_last_coll_error st /\
    0 <= ps_last_coll_error st' < ps_total_deposits st;
  oe_loss_error : 0 <= ps_last_loss_error st' <= ps_total_deposits st;
  oe_full : debt = ps_total_deposits st ->
    ps_epoch st' = ps_epoch st + 1 /\ ps_scale st' = 0 /\ ps_p st' = DECIMAL_PRECISION;
  oe_loss : debt < ps_total_deposits st -> exists factor, 0 <= factor < DECIMAL_PRECISION /\
    factor * ps_total_deposits st = ps_total_deposits st' * DECIMAL_PRECISION
      + ps_last_loss_error st - ps_last_loss_error st' /\
    (ps_epoch st < ps_epoch st' \/
     ps_epoch st' = ps_epoch st /\ ps_scale st <= ps_scale st' /\
     ps_p st' * DECIMAL_PRECISION <= ps_p st * factor * SCALE_FACTOR ^ (ps_scale st' - ps_scale st));
  oe_forward : ps_epoch st <= ps_epoch st' /\
    (ps_epoch st' = ps_epoch st -> ps_scale st <= ps_scale st');
}.

Lemma offset_Ok st g stride debt coll st' g' : pool_ok st -> 0 <= debt -> u128 coll ->
  offset st g stride debt coll = Ok (st', g') -> offset_effect st g stride debt coll st' g'.
Proof.
  intros Hok Hd Hc H. pose proof Hok as [Hp He Hs Ht Hce Hle]. unfold offset in H.
  destruct (Z.eqb_spec (ps_total_deposits st) 0); [done|].
  destruct (Z.ltb_spec (ps_total_deposits st) debt); [done|].
  assert (0 < ps_total_deposits st) as HT by rlia.
  inv_ok H. injection H as <- <-. checked. subst.
  set (N := coll * DECIMAL_PRECISION + ps_last_coll_error st) in *.
  set (cgpu := N / ps_total_deposits st) in *.
  assert (N mod ps_total_deposits st = N - cgpu * ps_total_deposits st) as Em
    by (subst cgpu; pose proof (Z.div_mod N (ps_total_deposits st) ltac:(lia)); lia).
  pose proof (Z.mod_pos_bound N _ HT) as Hm. rewrite Em in Hm.
  assert (0 <= cgpu) by (apply Z.div_pos; lia).
  assert (0 <= a2 <= ps_total_deposits st /\ 0 <= b <= DECIMAL_PRECISION) as [Hb1 Hb2].
  { destruct (Z.eq_dec debt (ps_total_deposits st)) as [->|].
    - apply loss_factor_full in Hrun1 as [-> ->]. lia.
    - apply loss_factor_Ok in Hrun1; [lia | done | lia | lia]. }
  rename a6 into st1. rename Hrun6 into Hroll.
  apply roll_product_Ok in Hroll as (Hp' & He' & Hs' & Ece & Ele & Hz & Hnz);
    [cbn in *|constructor; cbn; rlia || done|done].
  constructor; cbn.
  - lia.
  - done.
  - constructor; cbn; try done; rlia.
  - exists cgpu, a3, a4. rewrite Ece. repeat split; try done; try lia.
  - lia.
  - intros ->. apply loss_factor_full in Hrun1 as [-> ->]. destruct (Hz eq_refl) as (? & ? & ? & _).
    done.
  - intros Hlt. apply loss_factor_Ok in Hrun1 as (Ef & Hf0 & Hf1 & _); [|done|lia|lia].
    exists b. split; [lia|]. split; [lia|]. destruct (Z.eq_dec b 0) as [->|].
    + left. destruct (Hz eq_refl). lia.
    + right. destruct (Hnz ltac:(lia)) as (? & ? & ? & _). auto with lia.
  - destruct (Z.eq_dec b 0) as [->|]; [destruct (Hz eq_refl) | destruct (Hnz ltac:(lia))]; lia.
Qed.

End offset_proofs.

(** ** Depositors *)

Section depositors.
Context {U : U256}.

Definition sum_deposits (ds : list Z) : Z := foldr Z.add 0 ds.

(** A snapshot the pool has only moved forward from. *)
Definition snap_before (snap : Snapshot) (st : PoolState) : Prop :=
  sn_epoch snap < ps_epoch st \/
  (sn_epoch snap = ps_epoch st /\ 0 <= sn_scale snap <= ps_scale st).

Lemma compounded_bound st d snap : pool_ok st -> product_ok (sn_p snap) -> u128 d ->
  snap_before snap st ->
  exists c, compounded_deposit st d snap = Some c /\ 0 <= c /\
    (sn_epoch snap < ps_epoch st -> c = 0) /\
    (sn_epoch snap = ps_epoch st ->
     c * (sn_p snap * SCALE_FACTOR ^ (ps_scale st - sn_scale snap)) <= d * ps_p st).
Proof.
  intros [Hp He Hs _ _ _] Hsp Hd Hb. unfold compounded_deposit, product_ok in *.
  assert (0 <= d * ps_p st) as Hpos by (unfold u128 in *; nia).
  destruct (_ || _) eqn:E0.
  { exists 0. split; [done|]. split; [lia|]. split; [done | lia]. }
  apply orb_false_iff in E0 as [Ed Ee]. propify.
  destruct Hb as [|[Eep Hsc]]; [lia|].
  unfold checked_sub64. rewrite fit_in by rlia. step_ok.
  assert (forall c, 0 <= c -> c * (sn_p snap * SCALE_FACTOR ^ (ps_scale st - sn_scale snap)) <= d * ps_p st ->
    exists c', (if c <? d / 1000000000 then Some 0 else Some c) = Some c' /\ 0 <= c' /\
      (sn_epoch snap < ps_epoch st -> c' = 0) /\
      (sn_epoch snap = ps_epoch st ->
       c' * (sn_p snap * SCALE_FACTOR ^ (ps_scale st - sn_scale snap)) <= d * ps_p st)) as Hdust.
  { intros c Hc Hle. destruct (c <? _); eexists; (split; [done|]); repeat split; lia. }
  assert (0 <= default 0 (mul_div_floor d (ps_p st) (sn_p snap)) /\
          default 0 (mul_div_floor d (ps_p st) (sn_p snap)) * sn_p snap <= d * ps_p st) as [Hq0 Hq].
  { rewrite mul_div_floor_spec by rlia. destruct (Z.eqb_spec (sn_p snap) 0); [lia|].
    destruct (fit _ _) as [q|] eqn:F; cbn; [apply fit_Some in F as [-> ?]|lia].
    pose proof (Z.mul_div_le (d * ps_p st) (sn_p snap) ltac:(lia)). lia. }
  set (q := default 0 _) in *. clearbody q. apply Hdust.
  - destruct (_ =? 0); [done|]. destruct (_ =? 1); [apply Z.div_pos; lia | lia].
  - destruct (Z.eqb_spec (ps_scale st - sn_scale snap) 0) as [->|]; [cbn; lia|].
    destruct (Z.eqb_spec (ps_scale st - sn_scale snap) 1) as [->|]; [|lia].
    pose proof (Z.mul_div_le q SCALE_FACTOR ltac:(lia)). rewrite Z.pow_1_r. nia.
Qed.

End depositors.

Section gains.
Context {U : U256}.

Fixpoint sum_gains (g : list Z) (stride : Z) (ds : list Z) (snap : Snapshot)
    : result ReactorError.t Z :=
  match ds with
  | [] => Ok 0
  | d :: ds => x ← collateral_gain g stride d snap; rest ← sum_gains g stride ds snap; Ok (x + rest)
  end.

Lemma s_at_insert g i x e s stride : 0 <= e -> 0 <= s ->
  s_idx e s stride (grid_len g) = Some i -> s_at (<[Z.to_nat i := x]> g) e s stride = x.
Proof.
  intros He Hs Hi. unfold s_at, grid_len in *. rewrite length_insert, Hi. step_ok.
  apply s_idx_Some in Hi as (-> & ? & ? & _); [|done..].
  rewrite list_lookup_insert_eq; [done|]. nia.
Qed.

Lemma s_at_insert_next g i x e s stride : 0 <= e -> 0 <= s ->
  s_idx e s stride (grid_len g) = Some i ->
  s_at (<[Z.to_nat i := x]> g) e (s + 1) stride = s_at g e (s + 1) stride.
Proof.
  intros He Hs Hi. unfold s_at, grid_len in *. rewrite length_insert.
  destruct (s_idx e (s + 1) _ _) as [j|] eqn:Ej; [|done]. step_ok.
  apply s_idx_Some in Hi as (-> & ? & ? & _); [|done..].
  apply s_idx_Some in Ej as (-> & ? & ? & _); [|lia..].
  rewrite list_lookup_insert_ne; [done | nia].
Qed.

Lemma collateral_gain_bound g stride d snap x delta :
  u128 d -> product_ok (sn_p snap) -> 0 <= delta ->
  s_at g (sn_epoch snap) (sn_scale snap) stride = sn_s snap + delta ->
  s_at g (sn_epoch snap) (sn_scale snap + 1) stride = 0 ->
  collateral_gain g stride d snap = Ok x ->
  0 <= x /\ x * (sn_p snap * DECIMAL_PRECISION) <= d * delta.
Proof.
  intros Hd Hp Hdelta Es Es1 H. unfold collateral_gain, product_ok in *.
  destruct (Z.eqb_spec d 0) as [->|]; [injection H as <-; lia|].
  rewrite Es, Es1 in H. inv_ok H. checked. subst.
  replace (sat_sub (sn_s snap + delta) (sn_s snap) + 0 / SCALE_FACTOR) with delta in *
    by (change (0 / SCALE_FACTOR) with 0; rlia).
  apply mul_div_floor_Some in Hrun0 as (_ & -> & _); [|rlia..].
  pose proof (Z.mul_div_le (d * delta) (sn_p snap) ltac:(lia)).
  assert (0 <= d * delta / sn_p snap) by (apply Z.div_pos; unfold u128 in *; nia).
  pose proof (Z.mul_div_le (d * delta / sn_p snap) DECIMAL_PRECISION ltac:(lia)).
  split; [apply Z.div_pos; lia | nia].
Qed.

(** The collateral a liquidation gives the pool is never over-distributed: for
    depositors whose deposits fit in the pool, all snapshotted just before an offset
    (with the next scale's cell still unused), their gains after it add up to at most
    the collateral added plus the residual carried from before it. *)
Theorem gains_never_exceed_collateral (st st' : PoolState) (g g' : list Z)
    (stride debt coll total : Z) (ds : list Z)
    (Hok : pool_ok st) (Hd : 0 <= debt) (Hc : u128 coll)
    (Hds : Forall u128 ds) (Hsum : sum_deposits ds <= ps_total_deposits st)
    (Hfresh : s_at g (ps_epoch st) (ps_scale st + 1) stride = 0)
    (Hrun : offset st g stride debt coll = Ok (st', g'))
    (Hgain : sum_gains g' stride ds (snapshot st g stride) = Ok total) :
  total * DECIMAL_PRECISION <= coll * DECIMAL_PRECISION + ps_last_coll_error st.
Proof.
  apply offset_Ok in Hrun; [|done..].
  destruct (oe_gain _ _ _ _ _ _ _ Hrun) as (cgpu & i & cell & Ei & Ecell & -> & Hcg & E & Her).
  pose proof Hok as [Hp He Hs _ _ _].
  assert (s_at g (ps_epoch st) (ps_scale st) stride = cell) as Ec
    by (unfold s_at; rewrite Ei; step_ok; by rewrite Ecell).
  assert (total * (ps_p st * DECIMAL_PRECISION) <= sum_deposits ds * (cgpu * ps_p st)) as Hle.
  { revert total Hgain. clear Hsum. induction Hds as [|d ds Hdd Hds IH]; intros total Hgain; cbn in Hgain.
    - injection Hgain as <-. cbn. lia.
    - inv_ok Hgain. apply (collateral_gain_bound _ _ _ _ _ (cgpu * ps_p st)) in Hrun0;
        [|done|done|unfold product_ok in *; nia|cbn..].
      + specialize (IH _ Hrun1). cbn in *. fold (sum_deposits ds). lia.
      + by rewrite (s_at_insert g i) by (done || rlia).
      + by rewrite (s_at_insert_next g i) by (done || rlia). }
  unfold product_ok in *.
  assert (sum_deposits ds * (cgpu * ps_p st) <= ps_total_deposits st * (cgpu * ps_p st))
    by (apply Z.mul_le_mono_nonneg_r; nia).
  assert (ps_p st * (total * DECIMAL_PRECISION) <= ps_p st * (cgpu * ps_total_deposits st)) as HX by lia.
  apply Z.mul_le_mono_pos_l in HX; lia.
Qed.

(** The product rescale is total on the pool's domain: for [P] in [10^9, 10^18]
    and a factor in [(0, 10^18]] the shipped 256-bit loop returns after at most two
    rescales (its bound of four is never reached) a product again in [10^9, 10^18],
    exactly the floor of the rescaled product, and the [u128] twin returns the same. *)
Theorem update_product_total (p factor : Z) (Hp : product_ok p) (Hf : 0 < factor <= DECIMAL_PRECISION) :
  exists p' bumps, update_product p factor = Ok (p', bumps) /\
    update_product_u128 p factor = Ok (p', bumps) /\
    product_ok p' /\ 0 <= bumps <= 2 /\
    p' = p * factor * SCALE_FACTOR ^ bumps / DECIMAL_PRECISION.
Proof.
  destruct (update_product_Ok p factor Hp Hf) as (p' & b & E & Hp' & Hb & Ep & _).
  exists p', b. rewrite <- update_product_twin by (unfold product_ok in *; lia). done.
Qed.

End gains.

(** Where the pool may forfeit what it holds: at exactly 10^18
    native units an offset of all but one unit of deposits rounds the product factor
    down to zero: the epoch rolls and every depositor is wiped although one unit of
    deposits remains in the pool. *)
Theorem offset_at_envelope_wipes_pool :
  let st := pool_new <| ps_total_deposits := DECIMAL_PRECISION |> in
  exists st' g',
    offset (U := wide_u256) st (replicate 8 0) 4 (DECIMAL_PRECISION - 1) 5 = Ok (st', g') /\
    ps_epoch st' = 1 /\ ps_total_deposits st' = 1 /\
    compounded_deposit (U := wide_u256) st' DECIMAL_PRECISION (snapshot st (replicate 8 0) 4) = Some 0.
Proof. do 2 eexists. split; [vm_compute; reflexivity|]. vm_compute. done. Qed.
