(* ===== verification/Recovery.v ===== *)
(** * The loss-absorption waterfall ([crates/fusd-math/src/recovery.rs]) *)

From S2P Require Import Prelude MachineInt.

Open Scope Z_scope.

Record Absorption := mkAbsorption {
  ab_reactor : Z;
  ab_redist : Z;
  ab_buffer : Z;
  ab_global : Z;
  ab_unhomed : Z;
}.

Definition absorb (debt reactor_capacity : Z) (has_redist_recipients : bool)
    (buffer_balance global_available : Z) : Absorption :=
  let reactor := Z.min debt reactor_capacity in
  let rem := debt - reactor in
  let redist := if has_redist_recipients then rem else 0 in
  let rem := rem - redist in
  let buffer := Z.min rem buffer_balance in
  let rem := rem - buffer in
  let global := Z.min rem global_available in
  let unhomed := rem - global in
  mkAbsorption reactor redist buffer global unhomed.

#[global] Arguments absorb : simpl never.

Definition ab_total (a : Absorption) : Z :=
  ab_reactor a + ab_redist a + ab_buffer a + ab_global a + ab_unhomed a.

Lemma absorb_global_le debt rc (h : bool) bb ga : ab_global (absorb debt rc h bb ga) <= ga.
Proof. unfold absorb. apply Z.le_min_r. Qed.

Lemma absorb_spec debt rc (h : bool) bb ga :
  u128 debt -> u128 rc -> u128 bb -> u128 ga ->
  let a := absorb debt rc h bb ga in
  u128 (ab_reactor a) /\ u128 (ab_redist a) /\ u128 (ab_buffer a) /\ u128 (ab_global a) /\
  u128 (ab_unhomed a) /\ ab_total a = debt /\
  ab_reactor a <= rc /\ ab_buffer a <= bb /\ ab_global a <= ga /\
  (h = false -> ab_redist a = 0).
Proof. intros. subst a. unfold absorb, ab_total. cbn. destruct h; rlia. Qed.

(** The waterfall. Every tier stays a [u128] within its capacity and the five
    parts add up to the debt exactly (no subtraction underflows); a tier is used only
    when every tier before it is exhausted; and debt is left un-homed exactly when
    there is no redistribution recipient and the debt exceeds everything the pool,
    the local buffer and the backstop can take, by exactly that excess. *)
Theorem absorb_waterfall (debt rc : Z) (h : bool) (bb ga : Z)
    (Hd : u128 debt) (Hrc : u128 rc) (Hbb : u128 bb) (Hga : u128 ga) :
  let a := absorb debt rc h bb ga in
  ab_total a = debt /\
  Forall u128 [ab_reactor a; ab_redist a; ab_buffer a; ab_global a; ab_unhomed a] /\
  ab_reactor a <= rc /\ ab_buffer a <= bb /\ ab_global a <= ga /\
  (0 < ab_redist a + ab_buffer a + ab_global a + ab_unhomed a -> ab_reactor a = rc) /\
  (0 < ab_buffer a + ab_global a + ab_unhomed a -> h = false) /\
  (0 < ab_global a + ab_unhomed a -> ab_buffer a = bb) /\
  (0 < ab_unhomed a -> ab_global a = ga) /\
  ab_unhomed a = if h then 0 else Z.max 0 (debt - (rc + bb + ga)).
Proof.
  intros a. subst a. unfold absorb, ab_total. cbn.
  split; [lia|]. split; [repeat constructor; destruct h; rlia|].
  destruct h; rlia.
Qed.

