(* ===== verification/RedemptionRate.v ===== *)
(** * The dynamic redemption fee ([crates/fusd-math/src/redemption.rs]) *)

From S2P Require Import Prelude MachineInt FixedPoint.

Open Scope Z_scope.

Abbreviation BASE_RATE_DECAY_PER_MINUTE := 998076443575628823990894592.
Abbreviation BASE_RATE_BETA := 2.

Section redemption_rate.
Context {U : U256}.

Definition decay_base_rate (base_rate secs_elapsed : Z) : Z :=
  if (base_rate =? 0) || (secs_elapsed <=? 0) then base_rate
  else
    let minutes := as_u64 secs_elapsed / 60 in
    if minutes =? 0 then base_rate
    else
      let factor := default 0 (ray_pow BASE_RATE_DECAY_PER_MINUTE minutes) in
      default 0 (ray_mul base_rate factor).

Definition bump_base_rate (base_rate redeemed total_debt : Z) : Z :=
  if (total_debt =? 0) || (redeemed =? 0) || (BASE_RATE_BETA =? 0) then base_rate
  else
    let frac := default 0 (mul_div_floor redeemed RAY total_debt) / BASE_RATE_BETA in
    Z.min (sat_add128 base_rate frac) RAY.

End redemption_rate.

Definition effective_fee_bps (base_rate floor_bps dynamic_max_bps cap_bps : Z) : Z :=
  let dyn_bps := base_rate / (RAY / BPS_DENOMINATOR) in
  let dyn_capped := Z.min dyn_bps dynamic_max_bps in
  let eff := Z.min (floor_bps + dyn_capped) cap_bps in
  as_u16 eff.

Section redemption_rate_proofs.
Context {U : U256}.

Lemma decay_base_rate_spec b s : u128 b -> i64 s ->
  exists factor, ray_pow BASE_RATE_DECAY_PER_MINUTE (s / 60) = Some factor /\
    0 <= factor <= RAY /\
    decay_base_rate b s = if (s <? 60) then b else b * factor / RAY.
Proof.
  intros Hb Hs. destruct (ray_pow_total BASE_RATE_DECAY_PER_MINUTE (s / 60)) as (f & Ef & Hf); [lia|].
  exists f. split; [done|]. split; [done|]. unfold decay_base_rate.
  destruct (Z.eqb_spec b 0) as [->|]; [by destruct (s <? 60)|].
  destruct (Z.leb_spec s 0); cbn [orb].
  { destruct (Z.ltb_spec s 60); [done | lia]. }
  unfold as_u64. rewrite Z.mod_small by rlia.
  destruct (Z.eqb_spec (s / 60) 0) as [E0|E0].
  - assert (s < 60) by (destruct (Z.lt_ge_cases s 60); [done|];
      assert (1 <= s / 60) by (apply Z.div_le_lower_bound; lia); lia).
    destruct (Z.ltb_spec s 60); [done | lia].
  - destruct (Z.ltb_spec s 60); [by rewrite Z.div_small in E0 by lia|].
    rewrite Ef. cbn.
    assert (u128 (b * f / RAY)) by (apply div_u128_bound; lia || done).
    assert (ray_mul b f = Some (b * f / RAY)) as -> by (apply ray_mul_Some; rlia). done.
Qed.

Lemma decay_base_rate_le b s : u128 b -> i64 s -> 0 <= decay_base_rate b s <= b.
Proof.
  intros Hb Hs. destruct (decay_base_rate_spec b s Hb Hs) as (f & _ & Hf & ->).
  destruct (s <? 60); [rlia|]. unfold u128 in *.
  split; [apply Z.div_pos; nia | apply Z.div_le_upper_bound; nia].
Qed.

Lemma bump_base_rate_range b r t : 0 <= b <= RAY -> u128 r -> u128 t ->
  b <= bump_base_rate b r t <= RAY.
Proof.
  intros Hb Hr Ht. unfold bump_base_rate. destruct (_ || _); [lia|].
  assert (0 <= default 0 (mul_div_floor r RAY t)) as Hq.
  { destruct (mul_div_floor r RAY t) as [q|] eqn:E; cbn; [|lia].
    apply mul_div_floor_u128 in E; [rlia..]. }
  assert (0 <= default 0 (mul_div_floor r RAY t) / BASE_RATE_BETA) by (apply Z.div_pos; lia). rlia.
Qed.

Lemma effective_fee_spec b fl dm cap : 0 <= b -> u16 fl -> u16 dm -> u16 cap ->
  effective_fee_bps b fl dm cap
    = Z.min (fl + Z.min (b / 100000000000000000000000) dm) cap.
Proof.
  intros Hb Hfl Hdm Hcap. unfold effective_fee_bps, as_u16.
  change (RAY / BPS_DENOMINATOR) with 100000000000000000000000.
  assert (0 <= b / 100000000000000000000000) by (apply Z.div_pos; lia).
  apply Z.mod_small. rlia.
Qed.

(** The dynamic redemption fee. The stored base rate only decays with time (one
    [ray_pow] per whole minute, never failing, so the fallback to 0 is unreachable)
    and only rises with a redemption, never past 100%; and the fee charged lies
    between the flat floor and the cap, grows with the base rate, adds at most
    [dynamic_max], and is exactly the flat fee when the dynamic part is disabled. *)
Theorem redemption_fee_bounds (b b' s redeemed debt fl dm cap : Z)
    (Hb : 0 <= b <= RAY) (Hb' : b <= b') (Hs : i64 s) (Hr : u128 redeemed) (Hdebt : u128 debt)
    (Hfl : u16 fl) (Hdm : u16 dm) (Hcap : u16 cap) :
  let b1 := bump_base_rate (decay_base_rate b s) redeemed debt in
  0 <= decay_base_rate b s <= b /\ decay_base_rate b s <= b1 <= RAY /\
  Z.min fl cap <= effective_fee_bps b fl dm cap <= Z.min (fl + dm) cap /\
  effective_fee_bps b fl dm cap <= effective_fee_bps b' fl dm cap /\
  effective_fee_bps b fl 0 cap = Z.min fl cap.
Proof.
  intros b1. pose proof (decay_base_rate_le b s ltac:(rlia) Hs) as Hd.
  split; [done|]. split; [apply bump_base_rate_range; done || lia|].
  rewrite !effective_fee_spec by (done || rlia).
  assert (0 <= b / 100000000000000000000000) by (apply Z.div_pos; lia).
  assert (b / 100000000000000000000000 <= b' / 100000000000000000000000) by (apply Z.div_le_mono; lia).
  rlia.
Qed.

End redemption_rate_proofs.

