(* ===== verification/OracleScale.v ===== *)
(** * Price scaling ([crates/fusd-math/src/oracle_scale.rs])

    Feed prices and CLMM square-root prices to RAY-scaled prices, all
    intermediates in 256 bits. *)

From S2P Require Import Prelude MachineInt FixedPoint.

Open Scope Z_scope.

Section oracle_scale.
Context {U : U256}.

Definition ten_pow (e : Z) : option u256 :=
  if 60 <? e then None else Some (u256_pow (u256_from 10) e).

Definition px_to_ray (price expo : Z) : option Z :=
  base ← u256_checked_mul (u256_from price) (u256_from RAY);
  scaled ← (if expo <? 0
            then d ← ten_pow (Z.abs expo); Some (u256_div base d)
            else m ← ten_pow expo; u256_checked_mul base m);
  u256_try_u128 scaled.

Definition usd_ray_to_spot (usd_ray coll_decimals fusd_decimals : Z) : option Z :=
  f ← ten_pow fusd_decimals;
  num ← u256_checked_mul (u256_from usd_ray) f;
  c ← ten_pow coll_decimals;
  u256_try_u128 (u256_div num c).

Definition sqrt_price_q64_to_ray (sqrt_price base_decimals quote_decimals : Z) : option Z :=
  if sqrt_price =? 0 then None
  else
    let sp := u256_from sqrt_price in
    sq ← u256_checked_mul sp sp;
    let q := u256_shr sq 64 in
    p ← u256_checked_mul q (u256_from RAY);
    let price_raw_ray := u256_shr p 64 in
    b ← ten_pow base_decimals;
    num ← u256_checked_mul price_raw_ray b;
    d ← ten_pow quote_decimals;
    u256_try_u128 (u256_div num d).

Lemma ten_pow_spec e : 0 <= e ->
  match ten_pow e with
  | Some t => e <= 60 /\ u256_val t = 10 ^ e
  | None => 60 < e
  end.
Proof.
  intros He. unfold ten_pow. destruct (Z.ltb_spec 60 e); [lia|]. split; [lia|].
  rewrite u256_pow_val; rewrite ?u256_from_val by rlia; try done.
  apply Z.le_lt_trans with (10 ^ 60); [apply Z.pow_le_mono_r; lia | done].
Qed.

Lemma ten_pow_pos e : 0 <= e -> 0 < 10 ^ e.
Proof. intros. apply Z.pow_pos_nonneg; lia. Qed.

Lemma checked_mul_Some x y z : u256_checked_mul x y = Some z ->
  u256_val z = u256_val x * u256_val y.
Proof.
  intros H. pose proof (u256_checked_mul_val x y) as E. rewrite H in E. cbn in E.
  symmetry in E. by apply fit_Some in E as [-> _].
Qed.

Lemma checked_mul_fits x y : u256_val x * u256_val y < U256_SIZE ->
  exists z, u256_checked_mul x y = Some z /\ u256_val z = u256_val x * u256_val y.
Proof.
  intros H. pose proof (u256_checked_mul_val x y) as E.
  pose proof (u256_range x). pose proof (u256_range y).
  rewrite fit_in in E by nia. destruct (u256_checked_mul x y) as [z|]; [|done].
  injection E as E. eauto.
Qed.

Lemma px_to_ray_down price expo : u128 price -> -60 <= expo < 0 ->
  px_to_ray price expo = fit U128_MAX (price * RAY / 10 ^ (- expo)).
Proof.
  intros Hp He. unfold px_to_ray.
  destruct (checked_mul_fits (u256_from price) (u256_from RAY)) as (base & -> & Eb).
  { rewrite !u256_from_val by rlia. rlia. }
  rewrite !u256_from_val in Eb by rlia. step_ok.
  destruct (Z.ltb_spec expo 0); [|lia].
  pose proof (ten_pow_spec (Z.abs expo) ltac:(lia)) as Ht.
  destruct (ten_pow (Z.abs expo)) as [t|]; [|lia]. destruct Ht as [_ Et]. step_ok.
  pose proof (ten_pow_pos (Z.abs expo) ltac:(lia)).
  rewrite u256_try_u128_val, u256_div_val, Eb, Et by lia.
  by replace (Z.abs expo) with (- expo) by lia.
Qed.

Lemma usd_ray_to_spot_spec usd cd fd : u128 usd -> 0 <= cd <= 38 -> 0 <= fd <= 38 ->
  usd_ray_to_spot usd cd fd = fit U128_MAX (usd * 10 ^ fd / 10 ^ cd).
Proof.
  intros Hu Hc Hf. unfold usd_ray_to_spot.
  pose proof (ten_pow_spec fd ltac:(lia)) as H1. pose proof (ten_pow_spec cd ltac:(lia)) as H2.
  destruct (ten_pow fd) as [f|]; [|lia]. destruct H1 as [_ Ef]. step_ok.
  assert (10 ^ fd <= 10 ^ 38) by (apply Z.pow_le_mono_r; lia).
  pose proof (ten_pow_pos fd ltac:(lia)). pose proof (ten_pow_pos cd ltac:(lia)).
  destruct (checked_mul_fits (u256_from usd) f) as (n & -> & En).
  { rewrite u256_from_val, Ef by done. unfold u128 in *. nia. }
  rewrite u256_from_val, Ef in En by done. step_ok.
  destruct (ten_pow cd) as [c|]; [|lia]. destruct H2 as [_ Ec]. step_ok.
  by rewrite u256_try_u128_val, u256_div_val, En, Ec by lia.
Qed.

(** Feed and spot scaling are exact floors: for the exponents and decimals a feed
    or a mint can have, [px_to_ray] is the floor of [price * 10^expo * RAY] and
    [usd_ray_to_spot] the floor of [usd * 10^fusd / 10^coll], each failing exactly when
    that floor exceeds [u128]; so scaling down and back up never gains value. *)
Theorem price_scaling_exact (price expo usd cd fd : Z)
    (Hp : u128 price) (He : -60 <= expo < 0) (Hu : u128 usd) (Hcd : 0 <= cd <= 38) (Hfd : 0 <= fd <= 38) :
  px_to_ray price expo = fit U128_MAX (price * RAY / 10 ^ (- expo)) /\
  usd_ray_to_spot usd cd fd = fit U128_MAX (usd * 10 ^ fd / 10 ^ cd) /\
  (forall s u, usd_ray_to_spot usd cd fd = Some s -> usd_ray_to_spot s fd cd = Some u -> u <= usd).
Proof.
  split; [by apply px_to_ray_down|]. split; [by apply usd_ray_to_spot_spec|].
  intros s u H1 H2. rewrite usd_ray_to_spot_spec in H1 by done. apply fit_Some in H1 as [-> Hs].
  rewrite usd_ray_to_spot_spec in H2 by (done || rlia). apply fit_Some in H2 as [-> _].
  pose proof (ten_pow_pos fd ltac:(lia)). pose proof (ten_pow_pos cd ltac:(lia)).
  pose proof (Z.mul_div_le (usd * 10 ^ fd) (10 ^ cd) ltac:(lia)).
  apply Z.div_le_upper_bound; lia.
Qed.

(** A CLMM square-root price is never over-estimated: whenever the conversion
    returns [r], [r] is at most the exact quote price
    [sqrt^2 * RAY * 10^base / (2^128 * 10^quote)], and it is the exact value up to
    the two truncated shifts. A zero price is rejected. *)
Theorem sqrt_price_never_overestimates (sp bd qd r : Z)
    (Hsp : u128 sp) (Hbd : 0 <= bd) (Hqd : 0 <= qd)
    (Hr : sqrt_price_q64_to_ray sp bd qd = Some r) :
  0 < sp /\ r = (sp * sp / 2 ^ 64 * RAY / 2 ^ 64) * 10 ^ bd / 10 ^ qd /\
  r * (2 ^ 128 * 10 ^ qd) <= sp * sp * RAY * 10 ^ bd.
Proof.
  unfold sqrt_price_q64_to_ray in Hr. destruct (Z.eqb_spec sp 0); [done|].
  inv_ok Hr. apply checked_mul_Some in Hrun, Hrun0, Hrun2.
  pose proof (ten_pow_spec bd Hbd) as Hb. rewrite Hrun1 in Hb. destruct Hb as [_ Eb].
  pose proof (ten_pow_spec qd Hqd) as Hq. rewrite Hrun3 in Hq. destruct Hq as [_ Eq].
  pose proof (ten_pow_pos bd Hbd). pose proof (ten_pow_pos qd Hqd).
  rewrite u256_shr_val, Z.shiftr_div_pow2, Eb in Hrun2 by lia.
  rewrite u256_shr_val, Z.shiftr_div_pow2, u256_from_val in Hrun0 by (lia || rlia).
  rewrite u256_from_val in Hrun by done.
  rewrite u256_try_u128_val, u256_div_val, Eq, Hrun2, Hrun0, Hrun in Hr by lia.
  apply fit_Some in Hr as [-> _]. split; [rlia|]. split; [done|].
  pose proof (Z.mul_div_le (sp * sp) (2 ^ 64) ltac:(lia)).
  pose proof (Z.mul_div_le (sp * sp / 2 ^ 64 * RAY) (2 ^ 64) ltac:(lia)).
  pose proof (Z.mul_div_le (sp * sp / 2 ^ 64 * RAY / 2 ^ 64 * 10 ^ bd) (10 ^ qd) ltac:(lia)).
  change (2 ^ 128) with (2 ^ 64 * 2 ^ 64).
  set (A := sp * sp / 2 ^ 64) in *. set (B := A * RAY / 2 ^ 64) in *.
  set (C := B * 10 ^ bd / 10 ^ qd) in *. clearbody A B C.
  assert (B * (2 ^ 64 * 2 ^ 64) <= sp * sp * RAY) by lia. nia.
Qed.

End oracle_scale.

