(* ===== verification/Oracle.v ===== *)
(** * Price aggregation ([crates/fusd-oracle/src/lib.rs])

    The cross-oracle policy: which feed prices the market, the two conservative
    prices, whether minting is allowed, and whether liquidations pause. *)

From S2P Require Import Prelude MachineInt.

Open Scope Z_scope.

Abbreviation BPS := 10000.

Module OracleMode.
Inductive t := Ok | MintFrozen.
End OracleMode.

Record PriceView := mkPriceView {
  pv_price : Z;
  pv_conf : Z;
  pv_expo : Z;
  pv_publish_ts : Z;
}.

Definition conf_ratio_bps (p : PriceView) : Z :=
  if pv_price p =? 0 then U128_MAX else sat_mul128 (pv_conf p) BPS / pv_price p.

Definition is_stale (p : PriceView) (now max_age_secs : Z) : bool :=
  max_age_secs <? sat_sub_i64 now (pv_publish_ts p).

Definition collateral_price (p : PriceView) (k_bps : Z) : Z :=
  let haircut := sat_mul128 (pv_conf p) k_bps / BPS in
  sat_sub (pv_price p) haircut.

Definition debt_price (p : PriceView) (k_bps : Z) : Z :=
  let markup := sat_mul128 (pv_conf p) k_bps / BPS in
  sat_add128 (pv_price p) markup.

Record OracleConfig := mkOracleConfig {
  oc_max_conf_bps : Z;
  oc_max_deviation_bps : Z;
  oc_twap_max_divergence_bps : Z;
  oc_max_age_secs : Z;
  oc_k_bps : Z;
  oc_band_lower_ray : Z;
  oc_band_upper_ray : Z;
  oc_liq_max_divergence_bps : Z;
  oc_canonical_required : bool;
  oc_twap_corridor_optional : bool;
}.

Record OracleResult := mkOracleResult {
  or_collateral_price : Z;
  or_debt_price : Z;
  or_mode : OracleMode.t;
  or_fresh : bool;
  or_plausible : bool;
  or_liq_divergent : bool;
}.

Definition deviation_bps (a b : Z) : Z :=
  let '(lo, hi) := if a <? b then (a, b) else (b, a) in
  if lo =? 0 then U128_MAX else sat_mul128 (hi - lo) BPS / lo.

(** [Option::is_some_and], [Option::is_none_or] *)
Definition is_some_and {A} (o : option A) (f : A -> bool) : bool :=
  match o with Some a => f a | None => false end.
Definition is_none_or {A} (o : option A) (f : A -> bool) : bool :=
  match o with Some a => f a | None => true end.

(** A feed that is not stale and has a price. *)
Definition view_fresh (now : Z) (cfg : OracleConfig) (p : PriceView) : bool :=
  negb (is_stale p now (oc_max_age_secs cfg)) && (0 <? pv_price p).

(** The best available view: a fresh Pyth, else a fresh Switchboard, else the freshest
    of the two that has a price. *)
Definition chosen_view (pyth : PriceView) (switchboard : option PriceView) (pyth_fresh sb_fresh : bool)
    : PriceView :=
  if pyth_fresh then pyth
  else match switchboard with
       | Some s =>
           if sb_fresh then s
           else if (0 <? pv_price s)
                   && ((pv_price pyth =? 0) || (pv_publish_ts pyth <? pv_publish_ts s))
                then s else pyth
       | None => pyth
       end.

Definition plausible_price (cfg : OracleConfig) (mid : Z) : bool :=
  ((oc_band_lower_ray cfg =? 0) || (oc_band_lower_ray cfg <=? mid))
  && ((oc_band_upper_ray cfg =? 0) || (mid <=? oc_band_upper_ray cfg)).

(** A fresh primary that grossly disagrees with a present secondary. *)
Definition liq_divergence (pyth : PriceView) (switchboard : option PriceView) (dex_twap : option Z)
    (pyth_fresh sb_fresh : bool) (cfg : OracleConfig) : bool :=
  (0 <? oc_liq_max_divergence_bps cfg) && pyth_fresh
  && (is_some_and switchboard (fun s =>
        sb_fresh && (pv_expo s =? pv_expo pyth)
        && (oc_liq_max_divergence_bps cfg <? deviation_bps (pv_price pyth) (pv_price s)))
      || is_some_and dex_twap (fun t =>
           oc_liq_max_divergence_bps cfg <? deviation_bps (pv_price pyth) t)).

(** Everything that must hold for new debt to be minted on this price. *)
Definition mint_allowed (pyth : PriceView) (switchboard : option PriceView) (dex_twap canonical : option Z)
    (pyth_fresh sb_fresh plausible : bool) (cfg : OracleConfig) : bool :=
  pyth_fresh
  && (conf_ratio_bps pyth <=? oc_max_conf_bps cfg)
  && is_some_and switchboard (fun s =>
       sb_fresh && (pv_expo s =? pv_expo pyth)
       && (deviation_bps (pv_price pyth) (pv_price s) <=? oc_max_deviation_bps cfg))
  && (if oc_twap_corridor_optional cfg
      then is_none_or dex_twap (fun t =>
             deviation_bps (pv_price pyth) t <=? oc_twap_max_divergence_bps cfg)
      else is_some_and dex_twap (fun t =>
             deviation_bps (pv_price pyth) t <=? oc_twap_max_divergence_bps cfg))
  && plausible
  && (negb (oc_canonical_required cfg) || bool_decide (is_Some canonical)).

Definition aggregate (pyth : PriceView) (switchboard : option PriceView) (dex_twap canonical : option Z)
    (now : Z) (cfg : OracleConfig) : OracleResult :=
  let pyth_fresh := view_fresh now cfg pyth in
  let sb_fresh := is_some_and switchboard (view_fresh now cfg) in
  let chosen := chosen_view pyth switchboard pyth_fresh sb_fresh in
  let plausible := plausible_price cfg (pv_price chosen) in
  let coll_mid := match canonical with Some c => Z.min (pv_price chosen) c | None => pv_price chosen end in
  let coll_haircut := sat_mul128 (pv_conf chosen) (oc_k_bps cfg) / BPS in
  {| or_collateral_price := sat_sub coll_mid coll_haircut;
     or_debt_price := debt_price chosen (oc_k_bps cfg);
     or_mode := if mint_allowed pyth switchboard dex_twap canonical pyth_fresh sb_fresh plausible cfg
                then OracleMode.Ok else OracleMode.MintFrozen;
     or_fresh := pyth_fresh || sb_fresh;
     or_plausible := plausible;
     or_liq_divergent := liq_divergence pyth switchboard dex_twap pyth_fresh sb_fresh cfg |}.

(** ** What the policy guarantees *)

Record view_ok (p : PriceView) : Prop := {
  vo_price : u128 (pv_price p);
  vo_conf : u128 (pv_conf p);
}.

Record config_ok (cfg : OracleConfig) : Prop := {
  co_k : 0 <= oc_k_bps cfg;
  co_deviation : 0 <= oc_max_deviation_bps cfg;
  co_twap : 0 <= oc_twap_max_divergence_bps cfg;
}.

(** The confidence markup and haircut. *)
Lemma spread_nonneg conf k : 0 <= conf -> 0 <= k -> 0 <= sat_mul128 conf k / BPS.
Proof. intros. apply Z.div_pos; [|lia]. unfold sat_mul128. apply Z.min_glb; nia. Qed.

(** A price within [dev] bps of a reference, as an inequality on the prices. *)
Lemma deviation_close a b dev : 0 <= a -> 0 <= b -> a * BPS <= U128_MAX -> b * BPS <= U128_MAX ->
  0 <= dev < U128_MAX -> deviation_bps a b <= dev ->
  0 < a /\ 0 < b /\ a * BPS < b * (BPS + dev + 1) /\ b * BPS < a * (BPS + dev + 1).
Proof.
  intros Ha Hb Hao Hbo Hd. unfold deviation_bps, sat_mul128.
  destruct (Z.ltb_spec a b); cbv beta iota zeta.
  - destruct (Z.eqb_spec a 0); [lia|]. rewrite Z.min_r by lia. intros Hdev.
    assert ((b - a) * BPS < a * (dev + 1)) by (pose proof (Z.mul_succ_div_gt ((b - a) * BPS) a); nia). nia.
  - destruct (Z.eqb_spec b 0); [lia|]. rewrite Z.min_r by lia. intros Hdev.
    assert ((a - b) * BPS < b * (dev + 1)) by (pose proof (Z.mul_succ_div_gt ((a - b) * BPS) b); nia). nia.
Qed.

Lemma chosen_ok pyth sb pf sf : view_ok pyth -> (forall s, sb = Some s -> view_ok s) ->
  view_ok (chosen_view pyth sb pf sf).
Proof.
  intros Hp Hs. unfold chosen_view. destruct pf; [done|]. destruct sb as [s|]; [|done].
  specialize (Hs s eq_refl). destruct sf; [done|]. by destruct (_ && _).
Qed.

Lemma aggregate_mint pyth sb twap can now cfg :
  or_mode (aggregate pyth sb twap can now cfg) = OracleMode.Ok ->
  mint_allowed pyth sb twap can (view_fresh now cfg pyth) (is_some_and sb (view_fresh now cfg))
    (or_plausible (aggregate pyth sb twap can now cfg)) cfg = true.
Proof. cbn. by destruct (mint_allowed _ _ _ _ _ _ _ _). Qed.

(** A price that new debt can be minted on is corroborated by every other source. When
    the aggregate allows minting, the collateral price it serves is at most the Pyth price,
    the primary was published within the age limit, and a Switchboard view published within
    the age limit exists; the served price exceeds neither that view nor the DEX average
    (whenever one is present, and one is present unless the market makes the corridor
    optional) by more than its corridor, nor the canonical stake-pool price, and it lies
    below the plausibility ceiling. So no single manipulated source can raise what a
    borrower may mint past what the others vouch for. *)
Theorem mint_price_corroborated (pyth : PriceView) (sb : option PriceView) (twap can : option Z) (now : Z)
    (cfg : OracleConfig)
    (Hp : view_ok pyth) (Hcfg : config_ok cfg) (Hpo : pv_price pyth * BPS <= U128_MAX)
    (Hs : forall s, sb = Some s -> view_ok s /\ pv_price s * BPS <= U128_MAX)
    (Ht : forall t, twap = Some t -> 0 <= t /\ t * BPS <= U128_MAX)
    (Hdev : Forall (fun d => d < U128_MAX) [oc_max_deviation_bps cfg; oc_twap_max_divergence_bps cfg])
    (Hmode : or_mode (aggregate pyth sb twap can now cfg) = OracleMode.Ok) :
  let price := or_collateral_price (aggregate pyth sb twap can now cfg) in
  price <= pv_price pyth /\
  sat_sub_i64 now (pv_publish_ts pyth) <= oc_max_age_secs cfg /\
  (exists s, sb = Some s /\ sat_sub_i64 now (pv_publish_ts s) <= oc_max_age_secs cfg /\
     price * BPS < pv_price s * (BPS + oc_max_deviation_bps cfg + 1)) /\
  (forall t, twap = Some t -> price * BPS < t * (BPS + oc_twap_max_divergence_bps cfg + 1)) /\
  (oc_twap_corridor_optional cfg = false -> is_Some twap) /\
  (forall c, can = Some c -> 0 <= c -> price <= c) /\
  (oc_canonical_required cfg = true -> is_Some can) /\
  (oc_band_upper_ray cfg <> 0 -> price <= oc_band_upper_ray cfg).
Proof.
  apply aggregate_mint in Hmode. unfold mint_allowed in Hmode. propify.
  rewrite !Forall_cons in Hdev. destruct Hdev as (Hd1 & Hd2 & _), Hcfg, Hp.
  assert (Hch : view_fresh now cfg pyth = true) by done.
  unfold aggregate in *. cbn [or_collateral_price or_plausible] in *. rewrite Hch in *.
  cbn [chosen_view] in *. pose proof (spread_nonneg (pv_conf pyth) (oc_k_bps cfg) ltac:(rlia) co_k0) as Hsp.
  set (h := sat_mul128 _ _ / BPS) in *. cbv zeta.
  assert (Hle : sat_sub (match can with Some c => Z.min (pv_price pyth) c | None => pv_price pyth end) h
                <= pv_price pyth) by (destruct can; rlia).
  set (price := sat_sub _ h) in *. unfold view_fresh, is_stale in Hch. propify.
  split; [done|]. split; [done|]. split; [|split; [|split; [|split; [|split]]]].
  - destruct sb as [s|]; [|done]. cbn in *. propify. destruct (Hs s eq_refl) as [[] Hso].
    unfold view_fresh, is_stale in *. propify. exists s. split; [done|]. split; [done|].
    destruct (deviation_close (pv_price pyth) (pv_price s) (oc_max_deviation_bps cfg)) as (_ & _ & Hc & _);
      try rlia; nia.
  - intros t ->. destruct (Ht t eq_refl) as [Ht0 Hto]. cbn in *.
    assert (deviation_bps (pv_price pyth) t <= oc_twap_max_divergence_bps cfg) as Hdv
      by (destruct (oc_twap_corridor_optional cfg); by propify).
    destruct (deviation_close (pv_price pyth) t (oc_twap_max_divergence_bps cfg)) as (_ & _ & Hc & _);
      try rlia; nia.
  - intros Ho. rewrite Ho in *. by destruct twap.
  - intros c -> Hc. subst price. unfold sat_sub. lia.
  - intros Hr. rewrite Hr in *. cbn in *. propify. done.
  - intros Hu. unfold plausible_price in *. propify.
    match goal with H : (_ =? 0) || (_ <=? oc_band_upper_ray cfg) = true |- _ => apply orb_true_iff in H as [H|H] end;
      propify; lia.
Qed.

(** Liquidations never pause while minting is open. When the liquidation threshold is
    off or no tighter than both minting corridors, which governance enforces, an aggregate
    that pauses liquidations also freezes mints. *)
Theorem pause_implies_frozen (pyth : PriceView) (sb : option PriceView) (twap can : option Z) (now : Z)
    (cfg : OracleConfig)
    (Hrel : oc_liq_max_divergence_bps cfg = 0 \/
      oc_max_deviation_bps cfg <= oc_liq_max_divergence_bps cfg /\
      oc_twap_max_divergence_bps cfg <= oc_liq_max_divergence_bps cfg)
    (Hdiv : or_liq_divergent (aggregate pyth sb twap can now cfg) = true) :
  or_mode (aggregate pyth sb twap can now cfg) = OracleMode.MintFrozen.
Proof.
  destruct (or_mode _) eqn:Hm; [exfalso|done]. apply aggregate_mint in Hm.
  unfold mint_allowed in Hm. cbn in Hdiv. unfold liq_divergence in Hdiv. propify.
  destruct Hrel as [Hz|[Hd Ht]]; [lia|].
  match goal with H : is_some_and _ _ || _ = true |- _ => apply orb_true_iff in H as [H|H] end.
  - destruct sb as [s|]; [|done]. cbn in *. propify. lia.
  - destruct twap as [t|]; [|done]. cbn in *. destruct (oc_twap_corridor_optional cfg); propify; lia.
Qed.

(** The market never loses its price, and never serves an inverted pair. Whatever the
    state of the feeds, the collateral price is at most the debt price; if any feed reports
    a price, the debt price is positive; and a price not backed by a fresh feed freezes
    mints. *)
Theorem aggregate_always_prices (pyth : PriceView) (sb : option PriceView) (twap can : option Z) (now : Z)
    (cfg : OracleConfig) (Hp : view_ok pyth) (Hs : forall s, sb = Some s -> view_ok s) (Hk : 0 <= oc_k_bps cfg) :
  let r := aggregate pyth sb twap can now cfg in
  or_collateral_price r <= or_debt_price r /\
  (0 < pv_price pyth \/ (exists s, sb = Some s /\ 0 < pv_price s) -> 0 < or_debt_price r) /\
  (or_fresh r = false -> or_mode r = OracleMode.MintFrozen).
Proof.
  cbv zeta. set (pf := view_fresh now cfg pyth). set (sf := is_some_and sb (view_fresh now cfg)).
  pose proof (chosen_ok pyth sb pf sf Hp Hs) as [Hcp Hcc].
  pose proof (spread_nonneg _ _ (proj1 Hcc) Hk) as Hsp.
  split; [|split].
  - cbn. fold pf sf. unfold debt_price. destruct can; rlia.
  - intros Hany. cbn. fold pf sf. unfold debt_price.
    assert (0 < pv_price (chosen_view pyth sb pf sf)); [|rlia].
    unfold chosen_view. subst pf sf. destruct (view_fresh now cfg pyth) eqn:Epf.
    { unfold view_fresh in Epf. by propify. }
    destruct sb as [s|]; [|destruct Hany as [?|(s & [=] & _)]; done].
    destruct (is_some_and _ _) eqn:Esf; [unfold view_fresh in Esf; cbn in Esf; by propify|].
    destruct Hp as [[Hp0 _] _].
    destruct (Z.ltb_spec 0 (pv_price s)); cbn.
    + destruct (Z.eqb_spec (pv_price pyth) 0); [done|]. cbn. destruct (_ <? _); lia.
    + destruct Hany as [?|(s' & [= <-] & ?)]; lia.
  - intros Hf. destruct (or_mode _) eqn:Hm; [exfalso|done]. apply aggregate_mint in Hm.
    unfold mint_allowed in Hm. cbn in Hf. propify. congruence.
Qed.

(** ** A healthy market *)

Definition demo_config : OracleConfig := mkOracleConfig 500 100 200 60 21200 0 0 300 true false.
Definition demo_pyth : PriceView := mkPriceView 1000000 1000 0 990.
Definition demo_switchboard : PriceView := mkPriceView 1001000 2000 0 995.

