(* ===== verification/Twap.v ===== *)
(** * The DEX price ring ([crates/fusd-oracle/src/twap.rs])

    A fixed-capacity ring of price observations and the time-weighted average over
    a trailing window. The chronological list of the retained observations is the
    abstract specification of the ring; the average is specified second by second,
    as the mean over the window of the price in force at each second. *)

From S2P Require Import Prelude MachineInt.

Open Scope Z_scope.

(** [IndexPanic] stands for the panic of a write outside the arrays. *)
Module TwapError.
Inductive t := NonMonotonicTs | IndexPanic.
End TwapError.

Record Observation := mkObservation { ob_price : Z; ob_ts : Z }.

Record TwapConfig := mkTwapConfig { tc_min_samples : Z; tc_max_staleness : Z }.

Record ObservationRing := mkObservationRing {
  ring_prices : list Z;
  ring_ts : list Z;
  ring_next : Z;
  ring_count : Z;
}.

(** The capacity, a constant parameter of the type in the source. *)
Definition capacity (r : ObservationRing) : Z := Z.of_nat (length (ring_prices r)).

Definition ring_new (n : Z) : option ObservationRing :=
  if (0 <? n) && (n mod 2 =? 0)
  then Some (mkObservationRing (replicate (Z.to_nat n) 0) (replicate (Z.to_nat n) 0) 0 0)
  else None.

(** The slot [idx], which every caller reduces modulo the capacity. *)
Definition ring_slot (r : ObservationRing) (idx : Z) : Observation :=
  mkObservation (nth (Z.to_nat idx) (ring_prices r) 0) (nth (Z.to_nat idx) (ring_ts r) 0).

Definition ring_last (r : ObservationRing) : option Observation :=
  if ring_count r =? 0 then None
  else Some (ring_slot r ((ring_next r + capacity r - 1) mod capacity r)).

Definition ring_nth (r : ObservationRing) (k : Z) : Observation :=
  let oldest := (ring_next r + capacity r - ring_count r) mod capacity r in
  ring_slot r ((oldest + k) mod capacity r).

Definition push (r : ObservationRing) (price ts : Z) : result TwapError.t ObservationRing :=
  let accepted := match ring_last r with Some last => ob_ts last <? ts | None => true end in
  _ ← require accepted TwapError.NonMonotonicTs;
  _ ← require (ring_next r <? capacity r) TwapError.IndexPanic;
  let idx := Z.to_nat (ring_next r) in
  Ok {| ring_prices := <[idx := price]> (ring_prices r);
        ring_ts := <[idx := ts]> (ring_ts r);
        ring_next := (ring_next r + 1) mod capacity r;
        ring_count := if ring_count r <? capacity r then ring_count r + 1 else ring_count r |}.

(** The segments of the loop, [rest = n - k] of them to go. *)
Fixpoint twap_loop (r : ObservationRing) (now start n : Z) (rest : nat) (k acc : Z) : option Z :=
  match rest with
  | O => Some acc
  | S rest =>
      let o := ring_nth r k in
      let seg_start := Z.max (ob_ts o) start in
      let seg_end := if k + 1 <? n then ob_ts (ring_nth r (k + 1)) else now in
      let seg_end := Z.min seg_end now in
      if seg_end <=? seg_start then twap_loop r now start n rest (k + 1) acc
      else
        area ← checked_mul128 (ob_price o) (seg_end - seg_start);
        acc ← checked_add128 acc area;
        twap_loop r now start n rest (k + 1) acc
  end.

Definition twap (r : ObservationRing) (now window : Z) (cfg : TwapConfig) : option Z :=
  if (window <=? 0) || (ring_count r <? tc_min_samples cfg) || (ring_count r =? 0) then None
  else
    newest ← ring_last r;
    if (now <? ob_ts newest) || (tc_max_staleness cfg <? now - ob_ts newest) then None
    else
      let start := now - window in
      if start <? I64_MIN then None
      else if start <? ob_ts (ring_nth r 0) then None
      else
        acc ← twap_loop r now start (ring_count r) (Z.to_nat (ring_count r)) 0 0;
        Some (acc / window).

(** ** The specification *)

(** The retained observations, oldest first. *)
Definition history (r : ObservationRing) : list Observation :=
  (fun k => ring_nth r (Z.of_nat k)) <$> seq 0 (Z.to_nat (ring_count r)).

(** A history that keeps the [n] newest observations. *)
Definition spec_push (n : nat) (h : list Observation) (o : Observation) : list Observation :=
  let h := h ++ [o] in drop (length h - n) h.

(** The price in force at time [t]: that of the newest observation not after [t]. *)
Definition price_at (h : list Observation) (t : Z) : Z :=
  foldl (fun p o => if ob_ts o <=? t then ob_price o else p) 0 h.

(** The sum of [f] over the [n] seconds from [lo]. *)
Fixpoint seconds_sum (f : Z -> Z) (lo : Z) (n : nat) : Z :=
  match n with O => 0 | S n => f lo + seconds_sum f (lo + 1) n end.

Fixpoint increasing (h : list Observation) : Prop :=
  match h with
  | [] => True
  | o :: h' => match h' with [] => True | o' :: _ => ob_ts o < ob_ts o' end /\ increasing h'
  end.

Record ring_ok (r : ObservationRing) : Prop := {
  ro_ts : length (ring_ts r) = length (ring_prices r);
  ro_next : 0 <= ring_next r < capacity r;
  ro_count : 0 <= ring_count r <= capacity r;
  ro_increasing : increasing (history r);
}.

(** ** The ring keeps the newest observations *)

Lemma capacity_pos r : ring_ok r -> 0 < capacity r.
Proof. intros []. lia. Qed.

Lemma history_length r : ring_ok r -> Z.of_nat (length (history r)) = ring_count r.
Proof. intros []. unfold history. rewrite length_fmap, length_seq. lia. Qed.

Lemma history_lookup r k : ring_ok r -> 0 <= k < ring_count r ->
  history r !! Z.to_nat k = Some (ring_nth r k).
Proof.
  intros Hr Hk. unfold history. rewrite list_lookup_fmap, lookup_seq_lt by lia. cbn.
  by rewrite Z2Nat.id by lia.
Qed.

(** One modular index for a chronological one. *)
Lemma nth_slot r k : ring_ok r ->
  ring_nth r k = ring_slot r ((ring_next r - ring_count r + k) mod capacity r).
Proof.
  intros Hr. pose proof (capacity_pos r Hr). unfold ring_nth. cbv zeta. f_equal.
  rewrite Zplus_mod_idemp_l.
  replace (ring_next r + capacity r - ring_count r + k)
    with (ring_next r - ring_count r + k + 1 * capacity r) by lia.
  by rewrite Z_mod_plus_full.
Qed.

Lemma last_history r : ring_ok r -> ring_last r = last (history r).
Proof.
  intros Hr. pose proof (history_length r Hr) as Hl. unfold ring_last.
  destruct (Z.eqb_spec (ring_count r) 0) as [Hz|Hz].
  - destruct (history r); [done|cbn in Hl; lia].
  - destruct Hr as [Hts Hn Hc Hi]. rewrite last_lookup.
    replace (Init.Nat.pred (length (history r))) with (Z.to_nat (ring_count r - 1)) by lia.
    rewrite history_lookup by (done || lia). rewrite nth_slot by done. do 2 f_equal.
    replace (ring_next r + capacity r - 1) with (ring_next r - 1 + 1 * capacity r) by lia.
    rewrite Z_mod_plus_full. f_equal. lia.
Qed.

Lemma slot_insert r i idx price ts nx c : length (ring_ts r) = length (ring_prices r) ->
  0 <= i < capacity r -> 0 <= idx ->
  ring_slot (mkObservationRing (<[Z.to_nat i := price]> (ring_prices r)) (<[Z.to_nat i := ts]> (ring_ts r))
               nx c) idx
  = if idx =? i then mkObservation price ts else ring_slot r idx.
Proof.
  intros Hts Hi Hx. unfold capacity in *. unfold ring_slot. cbn. rewrite !nth_lookup.
  destruct (Z.eqb_spec idx i) as [->|Hne].
  - rewrite !list_lookup_insert_eq by lia. done.
  - rewrite !list_lookup_insert_ne by lia. done.
Qed.

(** A push drops the oldest observation of a full ring and appends the new one. *)
Lemma push_history r price ts r' : ring_ok r -> push r price ts = Ok r' ->
  capacity r' = capacity r /\ history r' = spec_push (Z.to_nat (capacity r)) (history r) (mkObservation price ts) /\
  (forall o, last (history r) = Some o -> ob_ts o < ts).
Proof.
  intros Hr H. pose proof (last_history r Hr) as Hlast. pose proof (history_length r Hr) as Hlen.
  pose proof Hr as [Hts Hn Hc Hi]. unfold push in H. rewrite Hlast in H.
  bind H as ? Hacc. bind H as ? Hidx. apply (inj Ok) in H.
  assert (capacity r' = capacity r) as Hcap by (subst r'; unfold capacity; cbn; by rewrite length_insert).
  split; [done|]. split; [|intros o E; rewrite E in Hacc; apply require_Ok in Hacc; by propify].
  set (d := if ring_count r <? capacity r then 0 else 1).
  assert (ring_count r' = ring_count r + 1 - d /\ ring_next r' = (ring_next r + 1) mod capacity r) as [Hc' Hn'].
  { subst r' d. cbn. destruct (ring_count r <? capacity r); split; (done || lia). }
  assert (Hok' : 0 <= ring_count r' <= capacity r').
  { rewrite Hc', Hcap. subst d. destruct (Z.ltb_spec (ring_count r) (capacity r)); lia. }
  assert (Hnth : forall k, ring_nth r' k
      = if (ring_next r - ring_count r + d + k) mod capacity r =? ring_next r
        then mkObservation price ts
        else ring_slot r ((ring_next r - ring_count r + d + k) mod capacity r)).
  { intros k. unfold ring_nth. cbv zeta. rewrite Hcap, Hn', Hc'.
    rewrite Zplus_mod_idemp_l, <- slot_insert with (nx := ring_next r') (c := ring_count r') (ts := ts) (price := price);
      [|done|done|apply Z.mod_pos_bound; lia].
    assert (((ring_next r + 1) mod capacity r + capacity r - (ring_count r + 1 - d) + k) mod capacity r
            = (ring_next r - ring_count r + d + k) mod capacity r) as ->.
    { replace ((ring_next r + 1) mod capacity r + capacity r - (ring_count r + 1 - d) + k)
        with ((ring_next r + 1) mod capacity r + (d - ring_count r - 1 + k) + 1 * capacity r) by lia.
      rewrite Z_mod_plus_full, Zplus_mod_idemp_l. f_equal. lia. }
    subst r'. reflexivity. }
  unfold spec_push. cbv zeta. rewrite length_app. cbn [length].
  assert ((length (history r) + 1 - Z.to_nat (capacity r))%nat = Z.to_nat d) as ->.
  { subst d. destruct (Z.ltb_spec (ring_count r) (capacity r)); lia. }
  assert (0 <= d <= 1 /\ d <= ring_count r /\ (d = 0 -> ring_count r < capacity r)) as Hd by (subst d; destruct (Z.ltb_spec (ring_count r) (capacity r)); lia).
  rewrite drop_app_le by lia. unfold history at 1.
  replace (Z.to_nat (ring_count r')) with (S (Z.to_nat (ring_count r - d))) by lia.
  rewrite seq_S, fmap_app. f_equal.
  - unfold history. rewrite <- fmap_drop, drop_seq. cbn [Nat.add].
    rewrite <- (Nat.add_0_r (Z.to_nat d)) at 1.
    rewrite <- fmap_add_seq, <- list_fmap_compose.
    replace (Z.to_nat (ring_count r) - Z.to_nat d)%nat with (Z.to_nat (ring_count r - d)) by lia.
    apply list_fmap_ext. intros i k Hk. apply lookup_seq in Hk as [-> Hk]. cbn.
    rewrite Hnth, nth_slot by done.
    replace (ring_next r - ring_count r + Z.of_nat (Z.to_nat d + i)) with (ring_next r - ring_count r + d + Z.of_nat i) by lia.
    destruct (Z.eqb_spec ((ring_next r - ring_count r + d + Z.of_nat i) mod capacity r) (ring_next r)) as [E|]; [|done].
    exfalso. pose proof (Z.div_mod (ring_next r - ring_count r + d + Z.of_nat i) (capacity r)) as Hdm.
    specialize (Hdm ltac:(lia)). rewrite E in Hdm.
    set (q := _ / _) in Hdm. assert (q < 0 \/ 0 <= q) as [?|?] by lia; nia.
  - cbn. rewrite Hnth. replace (ring_next r - ring_count r + d + Z.of_nat (Z.to_nat (ring_count r - d))) with (ring_next r) by lia.
    rewrite Z.mod_small by lia. by rewrite Z.eqb_refl.
Qed.

Lemma increasing_app h o : increasing h -> (forall p, last h = Some p -> ob_ts p < ob_ts o) ->
  increasing (h ++ [o]).
Proof.
  induction h as [|a h IH]; cbn; [done|]. intros [Hhd Hh] Hl. destruct h as [|b h].
  - cbn. by split; [apply Hl|].
  - cbn. split; [done|]. apply IH; [done|]. intros p Hp. apply Hl. by rewrite <- Hp.
Qed.

Lemma increasing_drop k h : increasing h -> increasing (drop k h).
Proof. revert k. induction h as [|a h IH]; intros [|k] Hh; try done. apply IH. apply Hh. Qed.

Lemma last_drop k (h : list Observation) o : last (drop k h) = Some o -> last h = Some o.
Proof.
  revert k. induction h as [|a h IH]; intros [|k] Hl; try done. cbn in Hl. apply IH in Hl.
  by destruct h.
Qed.

Lemma push_ok r price ts r' : ring_ok r -> push r price ts = Ok r' -> ring_ok r'.
Proof.
  intros Hr H. destruct (push_history _ _ _ _ Hr H) as (Hcap & Hh & Hlt). pose proof Hr as [Hts Hn Hc Hi].
  unfold push in H. bind H as ? Ha. bind H as ? Hb. apply (inj Ok) in H. constructor.
  - subst r'. cbn. by rewrite !length_insert.
  - rewrite Hcap. subst r'. cbn. apply Z.mod_pos_bound. lia.
  - rewrite Hcap. subst r'. cbn. destruct (Z.ltb_spec (ring_count r) (capacity r)); lia.
  - rewrite Hh. apply increasing_drop, increasing_app; [done|]. exact Hlt.
Qed.

Lemma push_succeeds r price ts : ring_ok r ->
  (exists r', push r price ts = Ok r') <-> forall o, last (history r) = Some o -> ob_ts o < ts.
Proof.
  intros Hr. split.
  - intros [r' H]. apply (push_history _ _ _ _ Hr) in H. apply H.
  - intros Hl. unfold push. rewrite last_history by done. destruct Hr as [_ Hn _ _].
    assert ((ring_next r <? capacity r) = true) as -> by lia. destruct (last (history r)) as [o|].
    + specialize (Hl o eq_refl). assert ((ob_ts o <? ts) = true) as -> by lia. cbn. eauto.
    + cbn. eauto.
Qed.

Lemma new_ok n r : ring_new n = Some r -> ring_ok r /\ capacity r = n /\ history r = [].
Proof.
  unfold ring_new. intros H. apply if_Some_l in H as [Hn [= <-]]. propify.
  split; [constructor|split]; cbn; unfold capacity; cbn; rewrite ?length_replicate; try done; lia.
Qed.

Fixpoint push_all (r : ObservationRing) (os : list Observation) : result TwapError.t ObservationRing :=
  match os with
  | [] => Ok r
  | o :: os => r ← push r (ob_price o) (ob_ts o); push_all r os
  end.

(** The [n] newest entries. *)
Definition newest (n : nat) (h : list Observation) : list Observation := drop (length h - n) h.

Lemma spec_push_newest n h o : (0 < n)%nat -> spec_push n (newest n h) o = newest n (h ++ [o]).
Proof.
  intros Hn. unfold spec_push, newest. cbv zeta. rewrite !length_app, length_drop. cbn [length].
  destruct (Nat.le_gt_cases n (length h)).
  - rewrite <- drop_app_le by lia. rewrite drop_drop. f_equal. lia.
  - replace (length h - n)%nat with 0%nat by lia. rewrite drop_0. f_equal. lia.
Qed.

Lemma push_all_history r os : ring_ok r -> let n := Z.to_nat (capacity r) in
  forall pre, history r = newest n pre -> increasing pre ->
  ((exists r', push_all r os = Ok r') <-> increasing (pre ++ os)) /\
  (forall r', push_all r os = Ok r' ->
     ring_ok r' /\ capacity r' = capacity r /\ history r' = newest n (pre ++ os)).
Proof.
  revert r. induction os as [|o os IH]; intros r Hr n pre Hpre Hinc; cbn.
  { rewrite app_nil_r. split; [by split; [done|intros; exists r]|]. by intros r' [= <-]. }
  assert (0 < n)%nat as Hn by (pose proof (capacity_pos r Hr); lia).
  assert (forall p, last (history r) = Some p <-> last pre = Some p) as Hlast.
  { intros p. rewrite Hpre. split; [apply last_drop|]. intros Hl. unfold newest.
    rewrite last_lookup in *. rewrite lookup_drop, length_drop. apply lookup_lt_Some in Hl as Hlt.
    rewrite <- Hl. f_equal. lia. }
  destruct (push r (ob_price o) (ob_ts o)) as [r1|e] eqn:Hp; cbn.
  - destruct (push_history _ _ _ _ Hr Hp) as (Hcap & Hh & Hlt). pose proof (push_ok _ _ _ _ Hr Hp) as Hr1.
    destruct (IH r1 Hr1 (pre ++ [o])) as [Hiff Hres].
    + rewrite Hcap. fold n. rewrite Hh, Hpre. destruct o. by apply spec_push_newest.
    + apply increasing_app; [done|]. intros p Hl. apply Hlt. by apply Hlast.
    + rewrite <- app_assoc in Hiff, Hres. cbn in Hiff, Hres. split; [done|]. intros r' H'.
      rewrite Hcap in Hres. by apply Hres.
  - split; [|done]. split; [by intros []|]. intros Happ. exfalso.
    enough (exists r', push r (ob_price o) (ob_ts o) = Ok r') as [r' ?] by congruence.
    apply push_succeeds; [done|]. intros p Hl. apply Hlast in Hl. clear - Happ Hl.
    induction pre as [|a pre IHp]; [done|]. destruct pre as [|b pre]; cbn in *.
    + injection Hl as <-. apply Happ.
    + apply IHp; [apply Happ|done].
Qed.

(** C39: the ring is the list of the newest observations. Starting from an empty ring of any
    legal capacity [n], a sequence of pushes is accepted exactly when its times strictly
    increase; the retained history is then the last [n] observations in order, and the
    newest one is what [last] returns. *)
Theorem ring_keeps_newest (n : Z) (r0 : ObservationRing) (os : list Observation)
    (Hnew : ring_new n = Some r0) :
  ((exists r, push_all r0 os = Ok r) <-> increasing os) /\
  (forall r, push_all r0 os = Ok r ->
     history r = newest (Z.to_nat n) os /\ ring_last r = last os /\
     ring_count r = Z.min n (Z.of_nat (length os))).
Proof.
  destruct (new_ok _ _ Hnew) as (Hok & Hcap & Hh).
  destruct (push_all_history r0 os Hok [] Hh I) as [Hiff Hres]. cbn in Hiff, Hres.
  rewrite Hcap in Hres. split; [done|]. intros r Hr. destruct (Hres r Hr) as (Hrok & Hc & Hhist).
  pose proof (capacity_pos _ Hrok). pose proof (history_length _ Hrok) as Hl.
  split; [done|]. rewrite <- Hl, last_history, Hhist by done. unfold newest. split.
  - destruct (last os) as [o|] eqn:E.
    + rewrite last_lookup in *. rewrite lookup_drop, length_drop. apply lookup_lt_Some in E as Hlt.
      rewrite <- E. f_equal. lia.
    + apply last_None in E as ->. by rewrite drop_nil.
  - rewrite length_drop. lia.
Qed.

(** ** The average is the mean of the price in force *)

(** What the loop adds up over the observations [h], up to [now]. *)
Fixpoint area (h : list Observation) (start now : Z) : Z :=
  match h with
  | [] => 0
  | o :: h' =>
      let seg_end := match h' with [] => now | o' :: _ => ob_ts o' end in
      ob_price o * Z.max 0 (Z.min seg_end now - Z.max (ob_ts o) start) + area h' start now
  end.

Lemma loop_area r now start : ring_ok r -> forall rest k acc a, 0 <= k ->
  k + Z.of_nat rest = ring_count r ->
  twap_loop r now start (ring_count r) rest k acc = Some a ->
  a = acc + area (drop (Z.to_nat k) (history r)) start now.
Proof.
  intros Hr. induction rest as [|rest IH]; intros k acc a Hk Hrest Hl; cbn [twap_loop] in Hl; cbv zeta in Hl.
  { injection Hl as <-. rewrite drop_ge; [cbn; lia|]. pose proof (history_length r Hr). lia. }
  rewrite (drop_S _ (ring_nth r k)) by (apply history_lookup; [done|lia]). cbn [area].
  replace (S (Z.to_nat k)) with (Z.to_nat (k + 1)) by lia.
  set (e := if k + 1 <? ring_count r then _ else _) in Hl.
  assert (match drop (Z.to_nat (k + 1)) (history r) with [] => now | o' :: _ => ob_ts o' end = e) as ->.
  { subst e. destruct (Z.ltb_spec (k + 1) (ring_count r)).
    - by rewrite (drop_S _ (ring_nth r (k + 1))) by (apply history_lookup; [done|lia]).
    - rewrite drop_ge; [done|]. pose proof (history_length r Hr). lia. }
  destruct (Z.leb_spec (Z.min e now) (Z.max (ob_ts (ring_nth r k)) start)).
  - apply IH in Hl; [|lia|lia]. rewrite Z.max_l by lia. lia.
  - inv_ok Hl. checked. subst. apply IH in Hl; [|lia|lia]. rewrite Z.max_r by lia. lia.
Qed.

Lemma price_at_cons o h t : ob_ts o <= t -> (forall p, p ∈ h -> t < ob_ts p) ->
  price_at (o :: h) t = ob_price o.
Proof.
  intros Ho Hh. unfold price_at. cbn. rewrite (proj2 (Z.leb_le _ _) Ho). clear Ho.
  generalize (ob_price o). induction h as [|a h IH]; intros p; cbn; [done|].
  rewrite (proj2 (Z.leb_gt _ _)) by (apply Hh; left). apply IH. intros q Hq. apply Hh. by right.
Qed.

Lemma price_at_skip o o' h t : ob_ts o' <= t -> price_at (o :: o' :: h) t = price_at (o' :: h) t.
Proof. intros Ho. unfold price_at. cbn. by rewrite (proj2 (Z.leb_le _ _) Ho). Qed.

Lemma increasing_head o h : increasing (o :: h) -> forall p, p ∈ h -> ob_ts o < ob_ts p.
Proof.
  revert o. induction h as [|a h IH]; intros o Hi p Hp; [by apply elem_of_nil in Hp|].
  destruct Hi as [Hlt Hi]. apply elem_of_cons in Hp as [->|Hp]; [done|].
  specialize (IH a Hi p Hp). lia.
Qed.

Lemma seconds_sum_ext f g lo n : (forall t, lo <= t < lo + Z.of_nat n -> f t = g t) ->
  seconds_sum f lo n = seconds_sum g lo n.
Proof.
  revert lo. induction n as [|n IH]; intros lo H; cbn; [done|].
  rewrite H by lia. f_equal. apply IH. intros. apply H. lia.
Qed.

Lemma seconds_sum_const c lo n : seconds_sum (fun _ => c) lo n = c * Z.of_nat n.
Proof. revert lo. induction n as [|n IH]; intros lo; cbn [seconds_sum]; rewrite ?IH; lia. Qed.

Lemma seconds_sum_split f lo n m :
  seconds_sum f lo (n + m) = seconds_sum f lo n + seconds_sum f (lo + Z.of_nat n) m.
Proof.
  revert lo. induction n as [|n IH]; intros lo; cbn [seconds_sum Nat.add].
  - rewrite Z.add_0_r. lia.
  - rewrite IH, Nat2Z.inj_succ. replace (lo + 1 + Z.of_nat n) with (lo + Z.succ (Z.of_nat n)) by lia. lia.
Qed.

Lemma seconds_sum_le f g lo n : (forall t, lo <= t < lo + Z.of_nat n -> f t <= g t) ->
  seconds_sum f lo n <= seconds_sum g lo n.
Proof.
  revert lo. induction n as [|n IH]; intros lo H; cbn; [done|].
  assert (f lo <= g lo) by (apply H; lia).
  assert (seconds_sum f (lo + 1) n <= seconds_sum g (lo + 1) n) by (apply IH; intros; apply H; lia). lia.
Qed.

Lemma area_late h start start' now : (forall p, p ∈ h -> start <= ob_ts p /\ start' <= ob_ts p) ->
  area h start now = area h start' now.
Proof.
  induction h as [|o h IH]; intros H; cbn; [done|].
  destruct (H o ltac:(left)). rewrite (Z.max_l _ start), (Z.max_l _ start') by lia. f_equal. apply IH. intros. apply H. by right.
Qed.

(** The segments of an increasing history that covers [start] sum the price in force. *)
Lemma area_seconds o h start now : increasing (o :: h) -> ob_ts o <= start <= now ->
  (forall p, p ∈ h -> ob_ts p <= now) ->
  area (o :: h) start now = seconds_sum (price_at (o :: h)) start (Z.to_nat (now - start)).
Proof.
  revert o start. induction h as [|o' h IH]; intros o start Hi Hs Hn.
  - cbn [area]. replace (Z.max 0 (Z.min now now - Z.max (ob_ts o) start)) with (now - start) by lia.
    rewrite (seconds_sum_ext _ (fun _ => ob_price o)), seconds_sum_const;
      [rewrite Z2Nat.id by lia; lia|].
    intros t Ht. apply price_at_cons; [lia|]. intros p Hp. by apply elem_of_nil in Hp.
  - pose proof (increasing_head _ _ Hi) as Hhd. destruct Hi as [Hlt Hi].
    pose proof (increasing_head _ _ Hi) as Hhd'. assert (ob_ts o' <= now) by (apply Hn; left).
    change (area (o :: o' :: h) start now)
      with (ob_price o * Z.max 0 (Z.min (ob_ts o') now - Z.max (ob_ts o) start) + area (o' :: h) start now).
    assert (forall p, p ∈ h -> ob_ts p <= now) as Hn' by (intros; apply Hn; by right).
    destruct (Z.le_gt_cases (ob_ts o') start).
    + rewrite Z.max_l by lia. rewrite IH by (done || lia). rewrite Z.mul_0_r, Z.add_0_l.
      apply seconds_sum_ext. intros t Ht. symmetry. apply price_at_skip. lia.
    + replace (Z.to_nat (now - start)) with (Z.to_nat (ob_ts o' - start) + Z.to_nat (now - ob_ts o'))%nat by lia.
      rewrite seconds_sum_split. replace (start + Z.of_nat (Z.to_nat (ob_ts o' - start))) with (ob_ts o') by lia.
      rewrite (seconds_sum_ext _ (fun _ => ob_price o) start), seconds_sum_const.
      2:{ intros t Ht. apply price_at_cons; [lia|]. intros p Hp. apply elem_of_cons in Hp as [->|Hp]; [lia|].
          specialize (Hhd' p Hp). lia. }
      rewrite (area_late (o' :: h) start (ob_ts o')).
      2:{ intros p Hp. apply elem_of_cons in Hp as [->|Hp]; [lia|]. specialize (Hhd' p Hp). lia. }
      rewrite IH by (done || lia). rewrite (seconds_sum_ext (price_at (o :: o' :: h)) (price_at (o' :: h)) (ob_ts o')).
      * rewrite Z.max_r, Z2Nat.id by lia.
        replace (Z.min (ob_ts o') now - Z.max (ob_ts o) start) with (ob_ts o' - start) by lia. done.
      * intros t Ht. apply price_at_skip. lia.
Qed.

Lemma price_at_snoc h o t : price_at (h ++ [o]) t = if ob_ts o <=? t then ob_price o else price_at h t.
Proof. unfold price_at. by rewrite foldl_app. Qed.

Lemma price_at_drop k h o h' t : drop k h = o :: h' -> ob_ts o <= t -> price_at (drop k h) t = price_at h t.
Proof.
  intros Hd Ho. rewrite <- (take_drop k h) at 2. rewrite Hd. unfold price_at. rewrite foldl_app. cbn.
  by rewrite (proj2 (Z.leb_le _ _) Ho).
Qed.

Lemma price_at_bounds o h t lo hi : ob_ts o <= t -> Forall (fun p => lo <= ob_price p <= hi) (o :: h) ->
  lo <= price_at (o :: h) t <= hi.
Proof.
  intros Ho [Hp Hh]%Forall_cons. unfold price_at. cbn. rewrite (proj2 (Z.leb_le _ _) Ho).
  revert Hp. generalize (ob_price o). induction Hh as [|a h Ha Hh IH]; intros p Hp; cbn; [done|].
  apply IH. by destruct (_ <=? _).
Qed.



(** The mean over the [window] seconds before [now] of the price in force. *)
Definition mean_price (h : list Observation) (now window : Z) : Z :=
  seconds_sum (price_at h) (now - window) (Z.to_nat window) / window.

Lemma history_head r : ring_ok r -> 0 < ring_count r ->
  exists h, history r = ring_nth r 0 :: h.
Proof.
  intros Hr Hc. pose proof (history_lookup r 0 Hr ltac:(lia)) as Hl. cbn in Hl.
  destruct (history r) as [|o h]; [done|]. injection Hl as ->. eauto.
Qed.

Lemma increasing_last h l : increasing h -> last h = Some l -> forall p, p ∈ h -> ob_ts p <= ob_ts l.
Proof.
  induction h as [|a h IH]; intros Hi Hl p Hp; [done|]. destruct h as [|b h].
  - injection Hl as <-. apply list_elem_of_singleton in Hp as ->. lia.
  - destruct Hi as [Hlt Hi]. change (last (b :: h) = Some l) in Hl. apply elem_of_cons in Hp as [->|Hp].
    + specialize (IH Hi Hl b ltac:(left)). lia.
    + by apply IH.
Qed.

(** What a returned average means. *)
Lemma twap_Some r now window cfg a : ring_ok r -> twap r now window cfg = Some a ->
  exists l h, ring_last r = Some l /\ history r = ring_nth r 0 :: h /\ 0 < window /\
    ob_ts l <= now /\ now - ob_ts l <= tc_max_staleness cfg /\ ob_ts (ring_nth r 0) <= now - window /\
    tc_min_samples cfg <= ring_count r /\ a = mean_price (history r) now window.
Proof.
  intros Hr H. pose proof Hr as [_ _ Hc Hi]. unfold twap in H. apply if_Some_r in H as [Hg H]. propify.
  apply bind_Some' in H as (l & Hl & H). apply if_Some_r in H as [Hg2 H]. cbv zeta in H.
  apply if_Some_r in H as [Hg3 H]. apply if_Some_r in H as [Hg4 H]. apply bind_Some' in H as (acc & Ha & H).
  injection H as <-. propify. destruct (history_head r Hr ltac:(lia)) as [h Hh].
  exists l, h. repeat (split; [done || lia|]). unfold mean_price. f_equal.
  apply loop_area in Ha as ->; [|done|lia|lia]. rewrite drop_0, Z.add_0_l, Hh.
  rewrite Hh in Hi. rewrite area_seconds; [do 2 f_equal; lia|done|lia|].
  intros p Hp. rewrite last_history, Hh in Hl by done.
  specialize (increasing_last _ _ Hi Hl p ltac:(by right)). lia.
Qed.



(** The price in force, before and after one more push. *)
Lemma price_at_push r price ts r' l u : ring_ok r -> push r price ts = Ok r' -> ring_last r = Some l ->
  ob_ts (ring_nth r' 0) <= u ->
  price_at (history r') u - price_at (history r) u = if ts <=? u then price - ob_price l else 0.
Proof.
  intros Hr Hpush Hl Hold. destruct (push_history _ _ _ _ Hr Hpush) as (_ & Hh & Hlt).
  pose proof (push_ok _ _ _ _ Hr Hpush) as Hr'.
  assert (0 < ring_count r') as Hc.
  { unfold push in Hpush. bind Hpush as ? Ha. bind Hpush as ? Hb. apply (inj Ok) in Hpush. subst r'.
    destruct Hr as [_ ? ? _]. cbn. destruct (Z.ltb_spec (ring_count r) (capacity r)); lia. }
  destruct (history_head r' Hr' Hc) as [h' Hh']. rewrite last_history in Hl by done.
  rewrite Hh in Hh' |- *. unfold spec_push in *. cbv zeta in *.
  rewrite (price_at_drop _ _ _ _ _ Hh' Hold), price_at_snoc. cbn.
  specialize (Hlt l Hl). destruct (Z.leb_spec ts u); [|lia]. f_equal.
  apply last_Some in Hl as [h0 ->]. rewrite price_at_snoc. by rewrite (proj2 (Z.leb_le _ _)) by lia.
Qed.

Lemma seconds_sum_sub f g lo n :
  seconds_sum f lo n - seconds_sum g lo n = seconds_sum (fun t => f t - g t) lo n.
Proof. revert lo. induction n as [|n IH]; intros lo; cbn; [done|]. rewrite <- IH. lia. Qed.

Lemma seconds_sum_from c ts lo n : lo <= ts <= lo + Z.of_nat n ->
  seconds_sum (fun u => if ts <=? u then c else 0) lo n = c * (lo + Z.of_nat n - ts).
Proof.
  intros Hts. replace n with (Z.to_nat (ts - lo) + Z.to_nat (lo + Z.of_nat n - ts))%nat at 1 by lia.
  rewrite seconds_sum_split. rewrite (seconds_sum_ext _ (fun _ => 0) lo), seconds_sum_const.
  - rewrite (seconds_sum_ext _ (fun _ => c)), seconds_sum_const; [rewrite !Z2Nat.id by lia; lia|].
    intros t Ht. by rewrite (proj2 (Z.leb_le _ _)) by lia.
  - intros t Ht. by rewrite (proj2 (Z.leb_gt _ _)) by lia.
Qed.

(** A fresh print cannot move the average much. When an observation of price [p] is
    pushed at time [t] inside the window, the average at any later time moves by the jump
    [p - q] from the previous price [q], weighted by the share of the window since [t], up
    to the rounding of one unit: a price held for [now - t] seconds of a [window] shifts
    the average by [(now - t) * (p - q) / window]. *)
Theorem twap_manipulation_bounded (r r' : ObservationRing) (p t now window : Z) (cfg : TwapConfig)
    (l : Observation) (a a' : Z)
    (Hr : ring_ok r) (Hl : ring_last r = Some l) (Hpush : push r p t = Ok r') (Ht : now - window <= t)
    (Ha : twap r now window cfg = Some a) (Ha' : twap r' now window cfg = Some a') :
  Z.abs ((a' - a) * window - (now - t) * (p - ob_price l)) < window.
Proof.
  pose proof (push_ok _ _ _ _ Hr Hpush) as Hr'.
  apply twap_Some in Ha as (_ & _ & _ & _ & Hw & _ & _ & _ & _ & ->); [|done].
  apply twap_Some in Ha' as (l' & h' & Hl' & Hh' & _ & Hfut & _ & Hold & _ & ->); [|done].
  destruct (push_history _ _ _ _ Hr Hpush) as (_ & Hh & _).
  assert (l' = mkObservation p t) as ->.
  { rewrite last_history, Hh in Hl' by done. unfold spec_push in Hl'. cbv zeta in Hl'. apply last_drop in Hl'.
    rewrite last_snoc in Hl'. congruence. }
  cbn in Hfut. unfold mean_price. set (n := Z.to_nat window). set (lo := now - window).
  assert (seconds_sum (price_at (history r')) lo n - seconds_sum (price_at (history r)) lo n
          = (now - t) * (p - ob_price l)) as HS.
  { rewrite seconds_sum_sub.
    rewrite (seconds_sum_ext _ (fun u => if t <=? u then p - ob_price l else 0)).
    - rewrite seconds_sum_from by lia. subst lo n. rewrite Z2Nat.id by lia. lia.
    - intros u Hu. by apply price_at_push; [..|lia]. }
  set (S' := seconds_sum (price_at (history r')) lo n) in *. set (S := seconds_sum (price_at (history r)) lo n) in *.
  pose proof (Z.div_mod S' window ltac:(lia)). pose proof (Z.mod_pos_bound S' window Hw).
  pose proof (Z.div_mod S window ltac:(lia)). pose proof (Z.mod_pos_bound S window Hw).
  rewrite <- HS. lia.
Qed.

(** ** A ring of four *)

Definition demo_pushes : list Observation :=
  [mkObservation 100 10; mkObservation 110 20; mkObservation 120 30; mkObservation 130 40; mkObservation 140 50].

Lemma ring_keeps_newest_witness :
  exists r, push_all (mkObservationRing [0; 0; 0; 0] [0; 0; 0; 0] 0 0) demo_pushes = Ok r /\
    history r = [mkObservation 110 20; mkObservation 120 30; mkObservation 130 40; mkObservation 140 50].
Proof.
  destruct (ring_keeps_newest 4 (mkObservationRing [0; 0; 0; 0] [0; 0; 0; 0] 0 0) demo_pushes eq_refl)
    as [Hiff Hres].
  destruct (proj2 Hiff) as [r Hr]; [cbn; lia|]. exists r. split; [done|]. exact (proj1 (Hres r Hr)).
Defined.



