(* ===== verification/SupplyTransition.v ===== *)
(** * Supply-identity transitions ([programs/fusd-core/src/supply_transition.rs])

    The generic accounting steps of [agg_recorded_debt], [unminted_interest] and
    [bad_debt], over the arithmetic interface [SupplyNum] and its two
    implementations: checked [u128] (what the handlers run) and unbounded
    integers (what the repository's prover rules run). *)

From S2P Require Import Prelude MachineInt FixedPoint.

Open Scope Z_scope.

Class SupplyNum (T : Type) := {
  cadd : T -> T -> option T;
  csub : T -> T -> option T;
  min2 : T -> T -> T;
  bps_cut : T -> Z -> option T;
  from_u64 : Z -> T;
  gtb : T -> T -> bool;
}.

(** [impl SupplyNum for u128]: what the handlers use. *)
#[export] Instance supply_u128 : SupplyNum Z := {|
  cadd := checked_add128;
  csub := checked_sub128;
  min2 := Z.min;
  bps_cut a bps := scaled ← checked_mul128 a bps; Some (scaled / BPS_DENOMINATOR);
  from_u64 v := v;
  gtb a b := b <? a;
|}.

(** [impl SupplyNum for NativeInt] *)
Definition supply_native : SupplyNum Z := {|
  cadd a b := Some (a + b);
  csub a b := if b <=? a then Some (a - b) else None;
  min2 := Z.min;
  bps_cut a bps := Some (a * bps / 10000);
  from_u64 v := v;
  gtb a b := b <? a;
|}.

Section transitions.
Context {T : Type} {SN : SupplyNum T}.

Record BorrowDelta := mkBorrowDelta {
  bd_debt_delta : T; bd_new_agg : T; bd_new_unminted : T; bd_minted : T }.

Definition supply_borrow (agg0 unminted0 amount fee : T) : option BorrowDelta :=
  debt_delta ← cadd amount fee;
  new_agg ← cadd agg0 debt_delta;
  new_unminted ← cadd unminted0 fee;
  Some (mkBorrowDelta debt_delta new_agg new_unminted amount).

Record RepayDelta := mkRepayDelta {
  rd_burn : T; rd_new_position_debt : T; rd_new_agg : T }.

Definition supply_repay (agg0 position_debt amount : T) : option RepayDelta :=
  let burn := min2 amount position_debt in
  new_position_debt ← csub position_debt burn;
  new_agg ← csub agg0 burn;
  Some (mkRepayDelta burn new_position_debt new_agg).

Record RefreshDelta := mkRefreshDelta {
  rf_amount : T; rf_keeper_cut : T; rf_paydown : T; rf_backstop_cut : T;
  rf_buffer_amount : T; rf_new_unminted : T; rf_new_bad : T }.

Definition supply_refresh (pending bad0 : T) (keeper_bps paydown_bps backstop_cut_bps : Z)
    (backstop_headroom : T) : option RefreshDelta :=
  let zero := from_u64 0 in
  let amount := min2 pending (from_u64 U64_MAX) in
  keeper_cut ← (if 0 <? keeper_bps then bps_cut amount keeper_bps else Some zero);
  post_keeper ← csub amount keeper_cut;
  paydown ← (if (0 <? paydown_bps) && gtb bad0 zero
             then want ← bps_cut post_keeper paydown_bps; Some (min2 want bad0)
             else Some zero);
  post_paydown ← csub post_keeper paydown;
  backstop_cut ← (if 0 <? backstop_cut_bps
                  then want ← bps_cut post_paydown backstop_cut_bps;
                       Some (min2 want backstop_headroom)
                  else Some zero);
  buffer_amount ← csub post_paydown backstop_cut;
  new_unminted ← csub pending amount;
  new_bad ← csub bad0 paydown;
  Some (mkRefreshDelta amount keeper_cut paydown backstop_cut buffer_amount new_unminted new_bad).

Record LiquidateDelta := mkLiquidateDelta {
  ld_burned : T; ld_new_agg : T; ld_new_bad : T }.

Definition supply_liquidate (agg0 bad0 reactor redist buffer global unhomed : T)
    : option LiquidateDelta :=
  a1 ← csub agg0 reactor;
  a2 ← csub a1 buffer;
  a3 ← csub a2 global;
  new_agg ← csub a3 unhomed;
  b1 ← cadd reactor buffer;
  burned ← cadd b1 global;
  new_bad ← cadd bad0 unhomed;
  Some (mkLiquidateDelta burned new_agg new_bad).

Record RedeemStepDelta := mkRedeemStepDelta { rs_burned : T; rs_new_agg : T }.

Definition supply_redeem_step (agg0 redeem_amt : T) : option RedeemStepDelta :=
  new_agg ← csub agg0 redeem_amt;
  Some (mkRedeemStepDelta redeem_amt new_agg).

Definition supply_settle_bad_debt (bad0 burned : T) : option T := csub bad0 burned.

Record InterestDelta := mkInterestDelta { id_new_agg : T; id_new_unminted : T }.

Definition supply_book_interest (agg0 unminted0 x : T) : option InterestDelta :=
  new_agg ← cadd agg0 x;
  new_unminted ← cadd unminted0 x;
  Some (mkInterestDelta new_agg new_unminted).

End transitions.

Arguments BorrowDelta : clear implicits.
Arguments RepayDelta : clear implicits.
Arguments RefreshDelta : clear implicits.
Arguments LiquidateDelta : clear implicits.
Arguments RedeemStepDelta : clear implicits.
Arguments InterestDelta : clear implicits.

(** ** The [u128] transitions, as the handlers see them *)

Lemma supply_borrow_Ok agg um amount fee d : supply_borrow agg um amount fee = Some d ->
  bd_debt_delta d = amount + fee /\ bd_new_agg d = agg + (amount + fee) /\
  bd_new_unminted d = um + fee /\ bd_minted d = amount /\
  u128 (bd_debt_delta d) /\ u128 (bd_new_agg d) /\ u128 (bd_new_unminted d).
Proof. intros H. unfold supply_borrow in H. cbn in H. inv_ok H. checked. subst. cbn. done. Qed.

Lemma supply_repay_Ok agg debt amount d : 0 <= amount -> 0 <= debt ->
  supply_repay agg debt amount = Some d ->
  rd_burn d = Z.min amount debt /\ rd_new_position_debt d = debt - rd_burn d /\
  rd_new_agg d = agg - rd_burn d /\ u128 (rd_new_position_debt d) /\ u128 (rd_new_agg d).
Proof. intros ? ? H. unfold supply_repay in H. cbn in H. inv_ok H. checked. subst. cbn. done. Qed.

Lemma supply_refresh_Ok pending bad kb pb bb head d :
  u128 pending -> u128 bad -> 0 <= head ->
  supply_refresh pending bad kb pb bb head = Some d ->
  rf_amount d = Z.min pending U64_MAX /\
  rf_keeper_cut d + rf_paydown d + rf_backstop_cut d + rf_buffer_amount d = rf_amount d /\
  rf_new_unminted d = pending - rf_amount d /\ rf_new_bad d = bad - rf_paydown d /\
  Forall u128 [rf_keeper_cut d; rf_paydown d; rf_backstop_cut d; rf_buffer_amount d;
               rf_new_unminted d; rf_new_bad d] /\
  rf_backstop_cut d <= head /\
  (kb <= 0 -> rf_keeper_cut d = 0) /\ (bb <= 0 -> rf_backstop_cut d = 0).
Proof.
  intros Hp Hb Hh H. unfold supply_refresh in H. inv_ok H. cbn -[Z.mul Z.div] in *.
  rename Hrun into Hk. rename Hrun1 into Hpd. rename Hrun3 into Hbs. checked. subst. cbn.
  assert (forall x bps y, (s ← checked_mul128 x bps; Some (s / BPS_DENOMINATOR)) = Some y -> 0 <= y) as Hcut.
  { intros x bps y Hy. inv_ok Hy. checked. subst. apply Z.div_pos; lia. }
  assert (0 <= a) by (destruct (0 <? kb); [eauto | by injection Hk as <-]).
  assert (0 <= a1) by (destruct ((0 <? pb) && _);
    [apply bind_Some' in Hpd as (w & Hw%Hcut & [= <-]); rlia | by injection Hpd as <-]).
  assert (0 <= a3 <= head) by (destruct (0 <? bb);
    [apply bind_Some' in Hbs as (w & Hw%Hcut & [= <-]); rlia | injection Hbs as <-; rlia]).
  repeat split; try rlia.
  - repeat constructor; rlia.
  - intros Hz. destruct (Z.ltb_spec 0 kb); [lia | by injection Hk].
  - intros Hz. destruct (Z.ltb_spec 0 bb); [lia | by injection Hbs].
Qed.

Lemma supply_liquidate_Ok agg bad r rd b g u d : supply_liquidate agg bad r rd b g u = Some d ->
  ld_burned d = r + b + g /\ ld_new_agg d = agg - (r + b + g + u) /\ ld_new_bad d = bad + u /\
  u128 (ld_new_agg d) /\ u128 (ld_new_bad d).
Proof. intros H. unfold supply_liquidate in H. cbn in H. inv_ok H. checked. subst. cbn. rlia. Qed.

Lemma supply_redeem_Ok agg x d : supply_redeem_step agg x = Some d ->
  rs_burned d = x /\ rs_new_agg d = agg - x /\ u128 (rs_new_agg d).
Proof. intros H. unfold supply_redeem_step in H. cbn in H. inv_ok H. checked. subst. cbn. done. Qed.

Lemma supply_book_Ok agg um x d : supply_book_interest agg um x = Some d ->
  id_new_agg d = agg + x /\ id_new_unminted d = um + x /\
  u128 (id_new_agg d) /\ u128 (id_new_unminted d).
Proof. intros H. unfold supply_book_interest in H. cbn in H. inv_ok H. checked. subst. cbn. done. Qed.

(** ** Properties *)

(** Unminted interest, aggregate debt and bad debt enter the identity
    [circulating = agg - unminted + bad]. *)
Definition backed (agg unminted bad : Z) : Z := agg - unminted + bad.

(** Every accounting step moves the circulating supply and its accounting by the
    same amount. At the checked [u128] instance, whenever a step succeeds: borrow mints
    exactly what [agg - unminted + bad] grows by; repay, redeem, settle and liquidate
    burn exactly what it falls by (redistributed debt stays in the aggregate, the
    un-homed part moves to bad debt); refresh mints, over its three recipients, exactly
    the interest it un-books less the bad debt it retires; booking interest moves
    nothing. *)
Theorem supply_identity_preserved (agg um bad x y z : Z) (Hum : u128 um) (Hbad : u128 bad)
    (Hz : u128 z) (Hx : 0 <= x) (Hy : 0 <= y) :
  (forall d, supply_borrow agg um x y = Some d ->
     backed (bd_new_agg d) (bd_new_unminted d) bad = backed agg um bad + bd_minted d) /\
  (forall d, supply_repay agg x y = Some d ->
     backed (rd_new_agg d) um bad = backed agg um bad - rd_burn d /\
     rd_new_position_debt d = x - rd_burn d) /\
  (forall kb pb bb d, supply_refresh um bad kb pb bb z = Some d ->
     backed agg (rf_new_unminted d) (rf_new_bad d)
       = backed agg um bad + (rf_keeper_cut d + rf_backstop_cut d + rf_buffer_amount d)) /\
  (forall r rd b g u d, supply_liquidate agg bad r rd b g u = Some d ->
     backed (ld_new_agg d) um (ld_new_bad d) = backed agg um bad - ld_burned d) /\
  (forall d, supply_redeem_step agg x = Some d ->
     backed (rs_new_agg d) um bad = backed agg um bad - rs_burned d) /\
  (forall bad', supply_settle_bad_debt bad x = Some bad' ->
     backed agg um bad' = backed agg um bad - x) /\
  (forall d, supply_book_interest agg um x = Some d ->
     backed (id_new_agg d) (id_new_unminted d) bad = backed agg um bad).
Proof.
  unfold backed. repeat split; intros.
  - apply supply_borrow_Ok in H. lia.
  - apply supply_repay_Ok in H; lia.
  - apply supply_repay_Ok in H; lia.
  - apply supply_refresh_Ok in H; [lia | rlia..].
  - apply supply_liquidate_Ok in H. lia.
  - apply supply_redeem_Ok in H. lia.
  - unfold supply_settle_bad_debt in H. cbn in H. checked. lia.
  - apply supply_book_Ok in H. lia.
Qed.

(** The outcome at [u128] agrees with the unbounded one: the same value, or an overflow. *)
Definition refines {A} (o_u128 o_native : option A) : Prop :=
  match o_u128 with Some d => o_native = Some d | None => True end.

Lemma csub_refines a b r : checked_sub128 a b = Some r ->
  (if b <=? a then Some (a - b) else None) = Some r.
Proof. intros H. checked. subst. destruct (Z.leb_spec b a); [done | lia]. Qed.

(** The proofs run on unbounded integers carry over to the program: each transition
    at checked [u128] returns exactly what the same body returns over unbounded
    integers, whenever it returns at all. *)
Theorem u128_refines_native (a b x y z w v : Z) (kb pb bb : Z) :
  refines (supply_borrow (SN := supply_u128) a b x y) (supply_borrow (SN := supply_native) a b x y) /\
  refines (supply_repay (SN := supply_u128) a x y) (supply_repay (SN := supply_native) a x y) /\
  refines (supply_refresh (SN := supply_u128) a b kb pb bb z)
          (supply_refresh (SN := supply_native) a b kb pb bb z) /\
  refines (supply_liquidate (SN := supply_u128) a b x y z w v)
          (supply_liquidate (SN := supply_native) a b x y z w v) /\
  refines (supply_redeem_step (SN := supply_u128) a x) (supply_redeem_step (SN := supply_native) a x) /\
  refines (supply_settle_bad_debt (SN := supply_u128) a x)
          (supply_settle_bad_debt (SN := supply_native) a x) /\
  refines (supply_book_interest (SN := supply_u128) a b x)
          (supply_book_interest (SN := supply_native) a b x).
Proof.
  assert (forall A (o n : option A), (forall d, o = Some d -> n = Some d) -> refines o n) as Hr.
  { intros A [d|] n Hd; cbn; eauto. }
  assert (forall p q r, (s ← checked_mul128 p q; Some (s / BPS_DENOMINATOR)) = Some r ->
    p * q / 10000 = r) as Hcut.
  { intros p q r H. apply bind_Some' in H as (s & Hs & [= <-]). checked. by rewrite Hs. }
  repeat split; apply Hr; intros d H;
    unfold supply_borrow, supply_repay, supply_refresh, supply_liquidate, supply_redeem_step,
      supply_settle_bad_debt, supply_book_interest in *; cbn -[Z.mul Z.div] in *.
  1, 7: inv_ok H; checked; by subst.
  1: inv_ok H; apply csub_refines in Hrun, Hrun0; rewrite Hrun; step_ok; by rewrite Hrun0.
  2: inv_ok H; apply csub_refines in Hrun, Hrun0, Hrun1, Hrun2; rewrite Hrun; step_ok;
     rewrite Hrun0; step_ok; rewrite Hrun1; step_ok; rewrite Hrun2; step_ok; checked; by subst.
  2: inv_ok H; apply csub_refines in Hrun; by rewrite Hrun.
  2: by apply csub_refines.
  repeat (apply bind_Some' in H as (?x & ?Hx & H)). injection H as <-.
  repeat match goal with Hs : checked_sub128 _ _ = Some _ |- _ => apply csub_refines in Hs end.
  assert (forall (c : bool) p q r, (if c then s ← checked_mul128 p q; Some (s / BPS_DENOMINATOR)
    else Some 0) = Some r -> (if c then Some (p * q / 10000) else Some 0) = Some r) as Hif.
  { intros [] p q r Hq; [by rewrite (Hcut _ _ _ Hq) | done]. }
  assert (forall (c : bool) p q m r, (if c then w ← (s ← checked_mul128 p q; Some (s / BPS_DENOMINATOR));
    Some (Z.min w m) else Some 0) = Some r ->
    (if c then Some (Z.min (p * q / 10000) m) else Some 0) = Some r) as Hif2.
  { intros [] p q m r Hq; [|done]. apply bind_Some' in Hq as (w0 & Hw0%Hcut & Hq). by subst. }
  repeat match goal with
    | Hs : (if _ then Some (_ - _) else None) = Some _ |- _ => rewrite Hs; step_ok; clear Hs
    | Hs : _ = Some _ |- _ => apply Hif in Hs; rewrite Hs; step_ok; clear Hs
    | Hs : _ = Some _ |- _ => apply Hif2 in Hs; rewrite Hs; step_ok; clear Hs
    end.
  done.
Qed.
