(* ===== verification/Cdp.v ===== *)
(** * CDP math ([programs/fusd-core/src/cdp.rs])

    Collateral value, the health test, the liquidation collar, the market-level
    ratio test and the net-issuance rate limiter. *)

From S2P Require Import Prelude MachineInt FixedPoint.

Open Scope Z_scope.

Abbreviation BPS := 10000.

Section cdp.
Context {U : U256}.

Definition collateral_value (ink spot : Z) : option Z := ray_mul ink spot.

Definition max_debt (collateral_value mcr_bps : Z) : option Z :=
  if mcr_bps =? 0 then None else mul_div_floor collateral_value BPS mcr_bps.

Definition seize_collateral (ink debt spot bonus_bps : Z) : option (Z * Z) :=
  if bonus_bps =? 0 then Some (ink, 0)
  else
    seize_value ← mul_div_ceil debt (BPS + bonus_bps) BPS;
    c ← mul_div_ceil seize_value RAY spot;
    let seize_coll := as_u64 (Z.min c ink) in
    Some (seize_coll, ink - seize_coll).

Definition is_healthy (ink recorded_debt spot mcr_bps : Z) : bool :=
  match collateral_value ink spot with
  | None => false
  | Some value =>
      match max_debt value mcr_bps with
      | Some m => recorded_debt <=? m
      | None => false
      end
  end.

Definition tcr_below (total_collateral agg_recorded_debt spot ratio_bps : Z) : bool :=
  if agg_recorded_debt =? 0 then false
  else
    match ray_mul total_collateral spot with
    | None => false
    | Some value =>
        match max_debt value ratio_bps with
        | Some m => m <? agg_recorded_debt
        | None => false
        end
    end.

End cdp.

Definition ratelimit_decayed (accrued last_update now cap window_secs : Z) : Z :=
  if window_secs <=? 0 then accrued
  else
    let elapsed := Z.max (sat_sub_i64 now last_update) 0 in
    let restored := sat_mul128 cap elapsed / window_secs in
    sat_sub accrued (default U64_MAX (try_u64 (Z.min restored U64_MAX))).

Definition ratelimit_consume (accrued last_update now cap window_secs outflow : Z) : option Z :=
  next ← checked_add64 (ratelimit_decayed accrued last_update now cap window_secs) outflow;
  if cap <? next then None else Some next.

Definition ratelimit_restore (accrued last_update now cap window_secs inflow : Z) : Z :=
  sat_sub (ratelimit_decayed accrued last_update now cap window_secs) inflow.

(** ** Health *)

Section health.
Context {U : U256}.

Lemma collateral_value_total ink spot : u64 ink -> u128 spot ->
  collateral_value ink spot = Some (ink * spot / RAY) /\
  0 <= ink * spot / RAY <= 6277101735386680763835789423207.
Proof.
  intros Hi Hs. assert (0 <= ink * spot / RAY <= 6277101735386680763835789423207) as Hv.
  { unfold u64, u128 in *. split; [apply Z.div_pos; nia|].
    apply Z.div_le_upper_bound; [lia|]. transitivity (U64_MAX * U128_MAX); [nia | lia]. }
  split; [|done]. apply ray_mul_Some; rlia.
Qed.

Lemma is_healthy_spec ink debt spot mcr : u64 ink -> u128 spot -> u16 mcr ->
  is_healthy ink debt spot mcr = negb (mcr =? 0) && (debt <=? ink * spot / RAY * BPS / mcr).
Proof.
  intros Hi Hs Hm. unfold is_healthy.
  destruct (collateral_value_total ink spot Hi Hs) as [-> Hv]. unfold max_debt.
  destruct (Z.eqb_spec mcr 0) as [|Hne]; [done|].
  assert (0 <= ink * spot / RAY * BPS / mcr <= U128_MAX).
  { split; [apply Z.div_pos; rlia | apply Z.div_le_upper_bound; rlia]. }
  rewrite mul_div_floor_spec by rlia. destruct (Z.eqb_spec mcr 0); [lia|].
  by rewrite fit_in.
Qed.

(** The health test is sound, exact up to its two floors, and never fails on an
    arithmetic edge: it holds exactly when the debt is at most
    [floor(floor(ink*spot/RAY) * 10000 / mcr)], a healthy position is truly
    over-collateralised ([debt * mcr * RAY <= ink * spot * 10000]), and it is monotone:
    a position healthy at the LOW price is healthy at any higher one, so pricing
    liquidation off the HIGH price can only shrink the liquidatable set. *)
Theorem is_healthy_sound (ink debt spot spot' mcr : Z) (Hi : u64 ink) (Hd : 0 <= debt)
    (Hs : u128 spot) (Hs' : u128 spot') (Hm : u16 mcr) (Hle : spot <= spot') :
  (is_healthy ink debt spot mcr = true <-> 0 < mcr /\ debt <= ink * spot / RAY * BPS / mcr) /\
  (is_healthy ink debt spot mcr = true -> debt * mcr * RAY <= ink * spot * BPS) /\
  (is_healthy ink debt spot mcr = true -> is_healthy ink debt spot' mcr = true).
Proof.
  rewrite !is_healthy_spec by done.
  rewrite !andb_true_iff, !negb_true_iff, !Z.eqb_neq, !Z.leb_le.
  split; [rlia|]. assert (ink * spot <= ink * spot') by (unfold u64 in *; nia).
  assert (ink * spot / RAY <= ink * spot' / RAY) by (apply Z.div_le_mono; lia).
  assert (0 <= ink * spot / RAY) by (apply Z.div_pos; unfold u64, u128 in *; nia). split.
  - intros [? Hle']. pose proof (Z.mul_div_le (ink * spot) RAY ltac:(lia)).
    pose proof (Z.mul_div_le (ink * spot / RAY * BPS) mcr ltac:(rlia)).
    assert (debt * mcr <= ink * spot / RAY * BPS) by (unfold u16 in *; nia). nia.
  - intros [? Hle']. split; [done|]. etransitivity; [exact Hle'|].
    apply Z.div_le_mono; [rlia | lia].
Qed.

(** ** The liquidation collar *)

Lemma seize_collateral_Some ink debt spot bonus s r :
  u64 ink -> u128 debt -> u128 spot -> u16 bonus ->
  seize_collateral ink debt spot bonus = Some (s, r) ->
  s + r = ink /\ 0 <= s /\ 0 <= r /\ u64 s /\ u64 r.
Proof.
  intros Hi Hd Hs Hb H. unfold seize_collateral in H. destruct (bonus =? 0).
  - injection H as <- <-. rlia.
  - inv_ok H. injection H as <- <-.
    apply mul_div_ceil_u128 in Hrun; [|rlia..]. apply mul_div_ceil_u128 in Hrun0; [|rlia..].
    unfold as_u64. rewrite Z.mod_small by rlia. rlia.
Qed.

(** The liquidation collar splits the collateral exactly ([seize + surplus = ink]),
    seizes everything when it is off, and when it leaves the borrower a surplus the
    seized part is worth at least the debt plus the bonus while one unit less would
    not be worth the rounded-up seize value: the borrower is never over-charged by a
    whole unit and the protocol never under-covered. *)
Theorem collar_split (ink debt spot bonus s r : Z) (Hi : u64 ink) (Hd : u128 debt)
    (Hs : 0 < spot <= U128_MAX) (Hb : u16 bonus)
    (H : seize_collateral ink debt spot bonus = Some (s, r)) :
  s + r = ink /\ 0 <= s /\ 0 <= r /\
  (bonus = 0 -> r = 0) /\
  (0 < r -> debt * (BPS + bonus) * RAY <= s * spot * BPS /\
            (s - 1) * spot < cdiv (debt * (BPS + bonus)) BPS * RAY).
Proof.
  pose proof H as H0. apply seize_collateral_Some in H0 as (? & ? & ? & _); [|done || rlia..].
  split; [done|]. split; [done|]. split; [done|]. unfold seize_collateral in H.
  destruct (Z.eqb_spec bonus 0); [injection H as <- <-; split; [done | lia]|].
  split; [done|]. intros Hr. inv_ok H. injection H as E1 E2.
  pose proof Hrun as Hu. apply mul_div_ceil_u128 in Hu; [|rlia..].
  apply mul_div_ceil_Some in Hrun as (_ & Ev & _); [|rlia..].
  pose proof Hrun0 as Hu0. apply mul_div_ceil_u128 in Hu0; [|rlia..].
  apply mul_div_ceil_Some in Hrun0 as (_ & Ec & _); [|rlia..].
  unfold as_u64 in E1. rewrite Z.mod_small in E1 by rlia.
  assert (s = a0) as -> by lia.
  pose proof (cdiv_lower (debt * (BPS + bonus)) BPS ltac:(lia)).
  pose proof (cdiv_lower (a * RAY) spot ltac:(lia)).
  pose proof (cdiv_upper (a * RAY) spot ltac:(lia)). subst a. nia.
Qed.

End health.

(** ** The rate limiter over any sequence of borrows and repays *)

Lemma ratelimit_decayed_bounds acc last now cap win :
  0 <= acc -> i64 last -> i64 now -> last <= now -> u64 cap -> 0 < win ->
  0 <= ratelimit_decayed acc last now cap win <= acc /\
  acc * win <= ratelimit_decayed acc last now cap win * win + cap * (now - last).
Proof.
  intros Ha Hl Hn Hle Hc Hw. unfold ratelimit_decayed. destruct (Z.leb_spec win 0); [lia|].
  set (el := Z.max _ 0). assert (0 <= el <= now - last) as He by (subst el; rlia). clearbody el.
  set (q := sat_mul128 cap el / win).
  assert (0 <= q /\ q * win <= cap * (now - last)) as [Hq Hqw].
  { assert (0 <= sat_mul128 cap el <= cap * (now - last)) as Hs
      by (unfold sat_mul128, u64 in *; nia).
    subst q. pose proof (Z.mul_div_le (sat_mul128 cap el) win Hw).
    split; [apply Z.div_pos; lia | lia]. }
  clearbody q. unfold try_u64. rewrite fit_in by lia. cbn. unfold sat_sub.
  split; [lia|]. nia.
Qed.

Inductive rl_op := Outflow (now amount : Z) | Inflow (now amount : Z).

Definition rl_time (o : rl_op) : Z := match o with Outflow t _ | Inflow t _ => t end.
Definition rl_net (o : rl_op) : Z := match o with Outflow _ x => x | Inflow _ x => - x end.

(** One [borrow] or [repay] touch of the bucket: the new pressure and clock. *)
Definition rl_step (cap win : Z) (st : Z * Z) (o : rl_op) : option (Z * Z) :=
  let '(acc, last) := st in
  match o with
  | Outflow now x => next ← ratelimit_consume acc last now cap win x; Some (next, now)
  | Inflow now x => Some (ratelimit_restore acc last now cap win x, now)
  end.

Fixpoint rl_run (cap win : Z) (st : Z * Z) (os : list rl_op) : option (Z * Z) :=
  match os with [] => Some st | o :: os => st ← rl_step cap win st o; rl_run cap win st os end.

(** The clock of the operations never goes backwards. *)
Fixpoint rl_clock (last : Z) (os : list rl_op) : Prop :=
  match os with
  | [] => True
  | o :: os => last <= rl_time o /\ i64 (rl_time o) /\ 0 <= match o with Outflow _ x | Inflow _ x => x end /\
               rl_clock (rl_time o) os
  end.

Definition rl_total (os : list rl_op) : Z := foldr (fun o n => rl_net o + n) 0 os.

Lemma rl_run_bound cap win os : forall acc last acc' last',
  u64 cap -> 0 < win -> 0 <= acc <= cap -> i64 last -> rl_clock last os ->
  rl_run cap win (acc, last) os = Some (acc', last') ->
  0 <= acc' <= cap /\ last <= last' /\
  rl_total os * win + acc * win <= acc' * win + cap * (last' - last).
Proof.
  induction os as [|o os IH]; intros acc last acc' last' Hc Hw Ha Hl Hclk H; cbn in *.
  - injection H as <- <-. lia.
  - destruct Hclk as (Hle & Ht & Hx & Hclk). apply bind_Some' in H as ([a1 l1] & H1 & H).
    assert (0 <= a1 <= cap /\ l1 = rl_time o /\
            rl_net o * win + acc * win <= a1 * win + cap * (l1 - last)) as (Ha1 & -> & Hstep).
    { destruct o as [t x|t x]; cbn in *;
        destruct (ratelimit_decayed_bounds acc last t cap win) as [Hd Hdw]; try done; try lia;
        set (d := ratelimit_decayed acc last t cap win) in *.
      - inv_ok H1. injection H1 as <- <-. unfold ratelimit_consume in Hrun. inv_ok Hrun. fold d in Hrun0.
        checked. destruct (Z.ltb_spec cap a0); [done|]. injection Hrun as <-. subst. nia.
      - injection H1 as <- <-. unfold ratelimit_restore. fold d. unfold sat_sub.
        clearbody d. split; [lia|]. split; [done|]. nia. }
    apply IH in H as (? & ? & ?); [|done..]. unfold rl_total in *. cbn. lia.
Qed.

(** The net-issuance limiter. Over ANY sequence of borrows (which may be refused)
    and repays on a monotone clock, starting from a pressure within the cap, the stored
    pressure stays within the cap, and the net fUSD issued is at most the cap plus what
    the bucket refills in the elapsed time, [cap * elapsed / window]: no boundary burst. *)
Theorem net_issuance_bounded (cap win acc last acc' last' : Z) (os : list rl_op)
    (Hc : u64 cap) (Hw : 0 < win) (Ha : 0 <= acc <= cap) (Hl : i64 last) (Hclk : rl_clock last os)
    (H : rl_run cap win (acc, last) os = Some (acc', last')) :
  0 <= acc' <= cap /\
  rl_total os * win <= (cap - acc) * win + cap * (last' - last).
Proof. apply rl_run_bound in H as (? & ? & ?); [|done..]. split; [done | nia]. Qed.

