(* ===== verification/State.v ===== *)
(** * On-chain state ([programs/fusd-core/src/state/], [errors.rs], [constants.rs])

    The accounts as records, field for field; the PDA bumps, the padding
    ([_reserved]) and the Borsh layout constants are left out: no operation
    computes with them. A handler's outcome is a [result] whose error is a
    program error, a violated account constraint, a refused token or system
    instruction, or a panic (the release profile checks overflow). *)

From S2P Require Import Prelude MachineInt.

Open Scope Z_scope.

(** A public key is the integer its 32 bytes spell; [Pubkey::default()] is [0]. *)
Abbreviation Pubkey := Z.

Abbreviation MAX_PRICE_STALENESS_SLOTS := 250.
Abbreviation LIQ_RESUME_GRACE_SLOTS := 750.
Abbreviation SHUTDOWN_ORACLE_STALENESS_SLOTS := 9000.
Abbreviation RATELIMIT_WINDOW_SECS := 86400.
Abbreviation NUM_RATE_BUCKETS := 256.
Abbreviation ZOMBIE_BUCKET := 256.
Abbreviation REACTOR_MAX_SCALES := 16.
Abbreviation MAX_REDEMPTION_CANDIDATES := 20.
Abbreviation MAX_REDEMPTION_FEE_BPS := 500.
Abbreviation MIN_USER_RATE_BPS := 50.
Abbreviation MAX_USER_RATE_BPS := 2550.
Abbreviation LIQ_INFRA_READY_MASK := 6.
Abbreviation GUARDIAN_MAX_PAUSE_SECS := 604800.
Abbreviation SHUTDOWN_REASON_NONE := 0.
Abbreviation SHUTDOWN_REASON_SCR := 1.
Abbreviation SHUTDOWN_REASON_ORACLE_FAILURE := 2.
Abbreviation SHUTDOWN_REASON_UNHOMED_BAD_DEBT := 3.

Module FusdError.
Inductive t :=
  | Unauthorized | ParamOutOfBounds | CollateralHasFreezeAuthority | OracleUnavailable
  | StalePrice | BelowMinCollateralRatio | DebtCeilingExceeded | ZeroAmount
  | InsufficientCollateral | PositionHealthy | ReactorPoolTooSmall | InsufficientReactorDeposit
  | ReactorGridExhausted | MathOverflow | NoRedistributionRecipients
  | RedistributionAccumulatorOverflow | PositionNotEmpty | NothingToRedeem
  | WrongRedemptionBucket | DuplicateRedemptionTarget | TimelockNotElapsed
  | TimelockMarketMismatch | MintFrozen | InvalidPriceUpdate | InvalidSwitchboardFeed
  | InvalidClmmPool | TwapSampleRejected | GuardianPaused | MarketShutdown | MarketNotShutdown
  | ShutdownConditionNotMet | RateLimitExceeded | CcrRestricted | LiquidationGracePeriod
  | InterestRateOutOfBounds | NoCollateralSurplus | NoPendingAuthority | DebtBelowMinimum
  | TooManyRedemptionCandidates | InsufficientProtocolCollateral | CollarExceedsMcr
  | ParamCombinationInvalid | VaultReconciliationFailed | InvalidRecipient
  | InsufficientBackstopExcess | OracleDivergent | InvalidStakePool | InvalidMetadataAccount
  | LiquidationInfraNotReady.
End FusdError.

Inductive Error :=
  | Fusd (e : FusdError.t)
  | ConstraintViolated
  | TokenProgramError
  | Panicked.

(** [require!(b, FusdError::e)], [o.ok_or(FusdError::e)?], the overflow case of it,
    a CPI into the token or system program, and a panicking operation. *)
Definition check (b : bool) (e : FusdError.t) : result Error unit := require b (Fusd e).
Definition fail_with {A} (o : option A) (e : FusdError.t) : result Error A := ok_or o (Fusd e).
Definition math {A} (o : option A) : result Error A := fail_with o FusdError.MathOverflow.
Definition cpi {A} (o : option A) : result Error A := ok_or o TokenProgramError.
Definition no_panic {A} (o : option A) : result Error A := ok_or o Panicked.
Definition constraint (b : bool) : result Error unit := require b ConstraintViolated.

Lemma check_Ok b e u : check b e = Ok u <-> b = true.
Proof. apply require_Ok. Qed.
Lemma constraint_Ok b u : constraint b = Ok u <-> b = true.
Proof. apply require_Ok. Qed.
Lemma fail_with_Ok {A} (o : option A) e a : fail_with o e = Ok a <-> o = Some a.
Proof. apply ok_or_Ok. Qed.
Lemma math_Ok {A} (o : option A) a : math o = Ok a <-> o = Some a.
Proof. apply ok_or_Ok. Qed.
Lemma cpi_Ok {A} (o : option A) a : cpi o = Ok a <-> o = Some a.
Proof. apply ok_or_Ok. Qed.
Lemma no_panic_Ok {A} (o : option A) a : no_panic o = Ok a <-> o = Some a.
Proof. apply ok_or_Ok. Qed.

(** The clock sysvar. *)
Record Clock := mkClock { unix_timestamp : Z; slot : Z; epoch : Z }.

Record Market := mkMarket {
  collateral_mint : Pubkey;
  collateral_vault : Pubkey;
  agg_recorded_debt : Z;
  agg_weighted_debt_sum : Z;
  unminted_interest : Z;
  last_update_ts : Z;
  spot : Z;
  spot_updated_slot : Z;
  debt_spot : Z;
  mcr_bps : Z;
  debt_ceiling : Z;
  collateral_decimals : Z;
  l_coll : Z;
  l_art : Z;
  last_coll_redist_error : Z;
  last_art_redist_error : Z;
  total_stakes : Z;
  total_collateral : Z;
  total_stakes_snapshot : Z;
  total_collateral_snapshot : Z;
  reserve_lamports : Z;
  liq_gas_comp_bps : Z;
  liq_bonus_bps : Z;
  total_coll_surplus : Z;
  bucket_width_bps : Z;
  redemption_fee_bps : Z;
  surplus_collateral : Z;
  mint_frozen : bool;
  guardian_paused_until : Z;
  shutdown : bool;
  scr_bps : Z;
  rl_cap : Z;
  rl_accrued : Z;
  rl_last_update : Z;
  ccr_bps : Z;
  liq_grace_until : Z;
  liq_divergence_until : Z;
  bad_debt : Z;
  shutdown_reason : Z;
  min_debt : Z;
  rate_adjust_cooldown_secs : Z;
  keeper_reward_bps : Z;
  borrow_fee_bps : Z;
  bad_debt_paydown_bps : Z;
  redemption_base_rate : Z;
  redemption_base_rate_ts : Z;
  redemption_base_rate_max_bps : Z;
  protocol_collateral : Z;
  global_contributed : Z;
  global_drawn : Z;
  liq_infra_flags : Z;
}.

#[export] Instance Market_fields : Fields Market := fun m =>
  mkMarket (collateral_mint m) (collateral_vault m) (agg_recorded_debt m)
    (agg_weighted_debt_sum m) (unminted_interest m) (last_update_ts m) (spot m)
    (spot_updated_slot m) (debt_spot m) (mcr_bps m) (debt_ceiling m) (collateral_decimals m)
    (l_coll m) (l_art m) (last_coll_redist_error m) (last_art_redist_error m) (total_stakes m)
    (total_collateral m) (total_stakes_snapshot m) (total_collateral_snapshot m)
    (reserve_lamports m) (liq_gas_comp_bps m) (liq_bonus_bps m) (total_coll_surplus m)
    (bucket_width_bps m) (redemption_fee_bps m) (surplus_collateral m) (mint_frozen m)
    (guardian_paused_until m) (shutdown m) (scr_bps m) (rl_cap m) (rl_accrued m)
    (rl_last_update m) (ccr_bps m) (liq_grace_until m) (liq_divergence_until m) (bad_debt m)
    (shutdown_reason m) (min_debt m) (rate_adjust_cooldown_secs m) (keeper_reward_bps m)
    (borrow_fee_bps m) (bad_debt_paydown_bps m) (redemption_base_rate m)
    (redemption_base_rate_ts m) (redemption_base_rate_max_bps m) (protocol_collateral m)
    (global_contributed m) (global_drawn m) (liq_infra_flags m).

(** [Market::commit_fresh_spot] *)
Definition commit_fresh_spot (m : Market) (new_spot new_debt_spot now_slot : Z) : Market :=
  let m :=
    if (0 <? spot m) && (MAX_PRICE_STALENESS_SLOTS <? sat_sub now_slot (spot_updated_slot m))
    then m <| liq_grace_until :=
           Z.max (liq_grace_until m) (sat_add64 now_slot LIQ_RESUME_GRACE_SLOTS) |>
    else m in
  m <| spot := new_spot |> <| debt_spot := new_debt_spot |> <| spot_updated_slot := now_slot |>.

Record Position := mkPosition {
  owner : Pubkey;
  pos_collateral_mint : Pubkey;
  ink : Z;
  recorded_debt : Z;
  user_rate_bps : Z;
  last_debt_update : Z;
  stake : Z;
  redist_l_coll_snapshot : Z;
  redist_l_art_snapshot : Z;
  pos_reserve_lamports : Z;
  bucket : Z;
  coll_surplus : Z;
  last_rate_adjust_ts : Z;
  ink_nonce : Z;
}.

#[export] Instance Position_fields : Fields Position := fun p =>
  mkPosition (owner p) (pos_collateral_mint p) (ink p) (recorded_debt p) (user_rate_bps p)
    (last_debt_update p) (stake p) (redist_l_coll_snapshot p) (redist_l_art_snapshot p)
    (pos_reserve_lamports p) (bucket p) (coll_surplus p) (last_rate_adjust_ts p) (ink_nonce p).

(** [Position::set_ink] *)
Definition set_ink (p : Position) (new_ink : Z) : Position :=
  if new_ink =? ink p then p
  else p <| ink := new_ink |> <| ink_nonce := sat_add64 (ink_nonce p) 1 |>.

Record ReactorPool := mkReactorPool {
  rp_collateral_mint : Pubkey;
  rp_fusd_vault : Pubkey;
  rp_coll_vault : Pubkey;
  rp_epoch_to_scale_to_sum : Pubkey;
  rp_p : Z;
  rp_epoch : Z;
  rp_scale : Z;
  rp_total_deposits : Z;
  rp_last_coll_error : Z;
  rp_last_loss_error : Z;
}.

#[export] Instance ReactorPool_fields : Fields ReactorPool := fun r =>
  mkReactorPool (rp_collateral_mint r) (rp_fusd_vault r) (rp_coll_vault r)
    (rp_epoch_to_scale_to_sum r) (rp_p r) (rp_epoch r) (rp_scale r) (rp_total_deposits r)
    (rp_last_coll_error r) (rp_last_loss_error r).

Record ReactorDeposit := mkReactorDeposit {
  dep_owner : Pubkey;
  dep_reactor_pool : Pubkey;
  deposited_fusd : Z;
  snapshot_p : Z;
  snapshot_s : Z;
  snapshot_scale : Z;
  snapshot_epoch : Z;
  pending_collateral_gain : Z;
}.

#[export] Instance ReactorDeposit_fields : Fields ReactorDeposit := fun d =>
  mkReactorDeposit (dep_owner d) (dep_reactor_pool d) (deposited_fusd d) (snapshot_p d)
    (snapshot_s d) (snapshot_scale d) (snapshot_epoch d) (pending_collateral_gain d).

Record RedemptionBitmap := mkRedemptionBitmap {
  words : list Z;
  counts : list Z;
  zombie_count : Z;
}.

#[export] Instance RedemptionBitmap_fields : Fields RedemptionBitmap := fun b =>
  mkRedemptionBitmap (words b) (counts b) (zombie_count b).

Record InsuranceBuffer := mkInsuranceBuffer {
  ib_collateral_mint : Pubkey;
  ib_fusd_vault : Pubkey;
  ib_total_funded : Z;
  ib_total_absorbed : Z;
}.

#[export] Instance InsuranceBuffer_fields : Fields InsuranceBuffer := fun b =>
  mkInsuranceBuffer (ib_collateral_mint b) (ib_fusd_vault b) (ib_total_funded b)
    (ib_total_absorbed b).

Record GlobalBackstopReserve := mkGlobalBackstopReserve {
  bs_fusd_vault : Pubkey;
  cut_bps : Z;
  reserve_cap : Z;
  draw_base_allowance : Z;
  draw_k_bps : Z;
  draw_ceiling_share_bps : Z;
  draw_debt_share_bps : Z;
  bs_total_contributed : Z;
  bs_total_absorbed : Z;
  bs_total_withdrawn : Z;
}.

#[export] Instance GlobalBackstopReserve_fields : Fields GlobalBackstopReserve := fun b =>
  mkGlobalBackstopReserve (bs_fusd_vault b) (cut_bps b) (reserve_cap b) (draw_base_allowance b)
    (draw_k_bps b) (draw_ceiling_share_bps b) (draw_debt_share_bps b) (bs_total_contributed b)
    (bs_total_absorbed b) (bs_total_withdrawn b).

Record GovernanceGate := mkGovernanceGate {
  inbound_authority : Pubkey;
  pending_inbound_authority : Pubkey;
  timelock_secs : Z;
  queue_nonce : Z;
}.

Record ProtocolConfig := mkProtocolConfig {
  gov_authority : Pubkey;
  guardian : Pubkey;
  deployer : Pubkey;
  cfg_fusd_mint : Pubkey;
  pending_gov_authority : Pubkey;
  pyth_receiver_program_id : Pubkey;
  pyth_receiver_program_id_alt : Pubkey;
  switchboard_program_id : Pubkey;
}.

#[export] Instance GovernanceGate_fields : Fields GovernanceGate := fun g =>
  mkGovernanceGate (inbound_authority g) (pending_inbound_authority g) (timelock_secs g) (queue_nonce g).

#[export] Instance ProtocolConfig_fields : Fields ProtocolConfig := fun c =>
  mkProtocolConfig (gov_authority c) (guardian c) (deployer c) (cfg_fusd_mint c)
    (pending_gov_authority c) (pyth_receiver_program_id c) (pyth_receiver_program_id_alt c)
    (switchboard_program_id c).

Record MarketOracle := mkMarketOracle {
  ora_collateral_mint : Pubkey;
  pyth_feed_id : Z;
  switchboard_feed : Pubkey;
  orca_pool : Pubkey;
  raydium_pool : Pubkey;
  ora_collateral_decimals : Z;
  quote_mint : Pubkey;
  quote_decimals : Z;
  max_conf_bps : Z;
  max_deviation_bps : Z;
  twap_max_divergence_bps : Z;
  max_age_secs : Z;
  k_bps : Z;
  twap_window_secs : Z;
  twap_min_samples : Z;
  twap_max_staleness_secs : Z;
  price_band_lower_ray : Z;
  price_band_upper_ray : Z;
  liq_max_divergence_bps : Z;
  lst_stake_pool : Pubkey;
  canonical_primary : Z;
  liquidity_haircut_bps : Z;
  last_canonical_rate_ray : Z;
}.

#[export] Instance MarketOracle_fields : Fields MarketOracle := fun o =>
  mkMarketOracle (ora_collateral_mint o) (pyth_feed_id o) (switchboard_feed o) (orca_pool o)
    (raydium_pool o) (ora_collateral_decimals o) (quote_mint o) (quote_decimals o) (max_conf_bps o)
    (max_deviation_bps o) (twap_max_divergence_bps o) (max_age_secs o) (k_bps o)
    (twap_window_secs o) (twap_min_samples o) (twap_max_staleness_secs o)
    (price_band_lower_ray o) (price_band_upper_ray o) (liq_max_divergence_bps o)
    (lst_stake_pool o) (canonical_primary o) (liquidity_haircut_bps o) (last_canonical_rate_ray o).

(** Inversion of successful handlers goes through these wrappers. *)
Ltac inv_ok_step H ::=
  lazymatch type of H with
  | (_ ≫= _) = Ok _ =>
      let a := fresh "a" in let Ha := fresh "Hrun" in
      apply bind_Ok in H as (a & Ha & H); cbv beta in H;
      repeat (progress inv_ok_step Ha)
  | (_ ≫= _) = Some _ =>
      let a := fresh "a" in let Ha := fresh "Hrun" in
      apply bind_Some' in H as (a & Ha & H); cbv beta in H;
      repeat (progress inv_ok_step Ha)
  | ok_or _ _ = Ok _ => apply ok_or_Ok in H
  | map_err _ _ = Ok _ => apply map_err_Ok in H
  | require _ _ = Ok ?u => apply require_Ok in H; try clear u
  | check _ _ = Ok ?u => apply check_Ok in H; try clear u
  | constraint _ = Ok ?u => apply constraint_Ok in H; try clear u
  | fail_with _ _ = Ok _ => apply fail_with_Ok in H
  | math _ = Ok _ => apply math_Ok in H
  | cpi _ = Ok _ => apply cpi_Ok in H
  | no_panic _ = Ok _ => apply no_panic_Ok in H
  | Ok _ = Ok _ => apply (inj Ok) in H
  | Some _ = Some _ => apply (inj Some) in H
  | Err _ = Ok _ => discriminate H
  | None = Some _ => discriminate H
  | (match ?p with pair _ _ => _ end) = _ =>
      is_var p; let x := fresh "a" in let y := fresh "b" in destruct p as [x y]
  | _ => idtac
  end.
