(* ===== verification/Token.v ===== *)
(** * The runtime: token program, system program and program addresses

    The SPL token program, the system program and the derivation of program
    addresses are not part of this repository. This class states what the
    handlers use of them: a ledger of token accounts, mints and lamports, the
    instructions the handlers invoke, and the documented effect of each
    successful one. [MapLedger.runtime] shows that the laws can hold. *)

From S2P Require Import Prelude MachineInt State.

Open Scope Z_scope.

Class Runtime := {
  ledger : Type;
  (** token account: amount, owner, mint; mint: supply and authority; lamports *)
  tok_amount : ledger -> Pubkey -> Z;
  tok_owner : ledger -> Pubkey -> Pubkey;
  tok_mint : ledger -> Pubkey -> Pubkey;
  mint_supply : ledger -> Pubkey -> Z;
  lamports : ledger -> Pubkey -> Z;

  (** [transfer from to authority amount], [mint_to mint to amount] (signed by the
      mint's authority), [burn mint from authority amount], and a lamport move *)
  token_transfer : ledger -> Pubkey -> Pubkey -> Pubkey -> Z -> option ledger;
  token_mint_to : ledger -> Pubkey -> Pubkey -> Z -> option ledger;
  token_burn : ledger -> Pubkey -> Pubkey -> Pubkey -> Z -> option ledger;
  lamport_transfer : ledger -> Pubkey -> Pubkey -> Z -> option ledger;

  (** program-derived addresses *)
  market_pda : Pubkey -> Pubkey;
  position_pda : Pubkey -> Pubkey -> Pubkey;
  reactor_pda : Pubkey -> Pubkey;
  buffer_pda : Pubkey -> Pubkey;
  backstop_pda : Pubkey;
  fusd_mint : Pubkey;
  (** an address derived from this program's id: only this program signs for it *)
  own_pda : Pubkey -> bool;

  own_pda_market c : own_pda (market_pda c) = true;
  own_pda_reactor c : own_pda (reactor_pda c) = true;
  own_pda_buffer c : own_pda (buffer_pda c) = true;
  own_pda_backstop : own_pda backstop_pda = true;
  (** distinct seeds give distinct addresses *)
  market_pda_inj c c' : market_pda c = market_pda c' -> c = c';
  reactor_pda_inj c c' : reactor_pda c = reactor_pda c' -> c = c';
  buffer_pda_inj c c' : buffer_pda c = buffer_pda c' -> c = c';
  pda_families c c' : market_pda c <> reactor_pda c' /\ market_pda c <> buffer_pda c' /\
    reactor_pda c <> buffer_pda c';
  pda_backstop c : market_pda c <> backstop_pda /\ reactor_pda c <> backstop_pda /\
    buffer_pda c <> backstop_pda;

  tok_amount_range l a : u64 (tok_amount l a);
  mint_supply_range l m : u64 (mint_supply l m);

  transfer_law l src dst auth n l' : token_transfer l src dst auth n = Some l' ->
    tok_owner l src = auth /\ tok_mint l src = tok_mint l dst /\ 0 <= n <= tok_amount l src /\
    (forall a, tok_amount l' a = tok_amount l a
       - (if bool_decide (a = src) then n else 0) + (if bool_decide (a = dst) then n else 0)) /\
    (forall m, mint_supply l' m = mint_supply l m) /\
    (forall a, tok_owner l' a = tok_owner l a /\ tok_mint l' a = tok_mint l a);

  mint_to_law l mint dst n l' : token_mint_to l mint dst n = Some l' ->
    tok_mint l dst = mint /\ 0 <= n /\
    (forall a, tok_amount l' a = tok_amount l a + (if bool_decide (a = dst) then n else 0)) /\
    (forall m, mint_supply l' m = mint_supply l m + (if bool_decide (m = mint) then n else 0)) /\
    (forall a, tok_owner l' a = tok_owner l a /\ tok_mint l' a = tok_mint l a);

  burn_law l mint src auth n l' : token_burn l mint src auth n = Some l' ->
    tok_mint l src = mint /\ tok_owner l src = auth /\ 0 <= n <= tok_amount l src /\
    (forall a, tok_amount l' a = tok_amount l a - (if bool_decide (a = src) then n else 0)) /\
    (forall m, mint_supply l' m = mint_supply l m - (if bool_decide (m = mint) then n else 0)) /\
    (forall a, tok_owner l' a = tok_owner l a /\ tok_mint l' a = tok_mint l a);

  lamport_law l src dst n l' : lamport_transfer l src dst n = Some l' ->
    0 <= n <= lamports l src /\
    (forall a, lamports l' a = lamports l a
       - (if bool_decide (a = src) then n else 0) + (if bool_decide (a = dst) then n else 0)) /\
    (forall a, tok_amount l' a = tok_amount l a /\ tok_owner l' a = tok_owner l a /\
               tok_mint l' a = tok_mint l a) /\
    (forall m, mint_supply l' m = mint_supply l m);
}.

Section ledger_facts.
Context {R : Runtime}.

(** What a sequence of instructions did to one token account, one mint, and the
    owners: the view the handlers' theorems use. *)
Record moved (vault fusd : Pubkey) (l l' : ledger) (dvault dsupply : Z) : Prop := {
  mv_vault : tok_amount l' vault = tok_amount l vault + dvault;
  mv_supply : mint_supply l' fusd = mint_supply l fusd + dsupply;
  mv_owner : forall a, tok_owner l' a = tok_owner l a;
  mv_mint : forall a, tok_mint l' a = tok_mint l a;
}.

Lemma moved_refl vault fusd l : moved vault fusd l l 0 0.
Proof. split; [lia | lia | done | done]. Qed.

Lemma moved_trans vault fusd l1 l2 l3 v1 v2 s1 s2 :
  moved vault fusd l1 l2 v1 s1 -> moved vault fusd l2 l3 v2 s2 ->
  moved vault fusd l1 l3 (v1 + v2) (s1 + s2).
Proof.
  intros [] []. split; [lia | lia | |]; intros a; congruence.
Qed.

(** Changes stated up to equality of the amounts. *)
Lemma moved_eq vault fusd l l' v v' s s' :
  moved vault fusd l l' v s -> v = v' -> s = s' -> moved vault fusd l l' v' s'.
Proof. by intros ? <- <-. Qed.

Lemma moved_transfer vault fusd l src dst auth n l' :
  token_transfer l src dst auth n = Some l' ->
  moved vault fusd l l'
    ((if bool_decide (vault = dst) then n else 0) - (if bool_decide (vault = src) then n else 0)) 0.
Proof.
  intros (_ & _ & _ & Ha & Hs & Ho)%transfer_law.
  split; [rewrite Ha; lia | rewrite Hs; lia | apply Ho | apply Ho].
Qed.

Lemma moved_mint_to vault fusd l dst n l' : token_mint_to l fusd dst n = Some l' ->
  moved vault fusd l l' (if bool_decide (vault = dst) then n else 0) n.
Proof.
  intros (_ & _ & Ha & Hs & Ho)%mint_to_law.
  split; [by rewrite Ha | rewrite Hs, bool_decide_true by done; lia | apply Ho | apply Ho].
Qed.

Lemma moved_burn vault fusd l src auth n l' : token_burn l fusd src auth n = Some l' ->
  moved vault fusd l l' (- (if bool_decide (vault = src) then n else 0)) (- n).
Proof.
  intros (_ & _ & _ & Ha & Hs & Ho)%burn_law.
  split; [rewrite Ha; lia | rewrite Hs, bool_decide_true by done; lia | apply Ho | apply Ho].
Qed.

(** Burning tokens of another mint leaves the vault alone. *)
Lemma burn_elsewhere vault fusd l src auth n l' : tok_mint l vault <> fusd ->
  token_burn l fusd src auth n = Some l' -> moved vault fusd l l' 0 (- n).
Proof.
  intros Hv H. pose proof H as H0. apply burn_law in H0 as (Hm & _).
  apply (moved_burn vault fusd) in H. rewrite bool_decide_false in H by congruence. exact H.
Qed.

(** A transfer between accounts of another mint leaves the vault alone. *)
Lemma transfer_elsewhere vault fusd l src dst auth n l' :
  tok_mint l vault <> fusd -> tok_mint l src = fusd \/ tok_mint l dst = fusd ->
  token_transfer l src dst auth n = Some l' -> moved vault fusd l l' 0 0.
Proof.
  intros Hv Hf H. pose proof H as H0. apply transfer_law in H0 as (_ & Hm & _).
  apply (moved_transfer vault fusd) in H.
  rewrite !bool_decide_false in H by (intros ->; destruct Hf; congruence). exact H.
Qed.

Lemma moved_lamports vault fusd l src dst n l' : lamport_transfer l src dst n = Some l' ->
  moved vault fusd l l' 0 0.
Proof.
  intros (_ & _ & Ha & Hs)%lamport_law.
  split; [destruct (Ha vault) as [-> _]; lia | rewrite Hs; lia | apply Ha | apply Ha].
Qed.

End ledger_facts.

(** ** A ledger of finite maps satisfies the laws *)

Module MapLedger.

Record Ledger := mkLedger {
  amounts : gmap Z Z;
  owners : gmap Z Z;
  mints : gmap Z Z;
  supplies : gmap Z Z;
  sol : gmap Z Z;
}.

Definition get (g : gmap Z Z) (k : Z) : Z := default 0 (g !! k).

(** Amounts and supplies are read as [u64]: entries outside the range read as 0. *)
Definition get64 (g : gmap Z Z) (k : Z) : Z :=
  let v := get g k in if (0 <=? v) && (v <=? U64_MAX) then v else 0.

Definition add64 (g : gmap Z Z) (k d : Z) : option (gmap Z Z) :=
  v ← fit U64_MAX (get64 g k + d); Some (<[k := v]> g).

Definition transfer (l : Ledger) (src dst auth n : Z) : option Ledger :=
  if bool_decide (get (owners l) src = auth) && bool_decide (get (mints l) src = get (mints l) dst)
     && (0 <=? n) then
    g ← add64 (amounts l) src (- n);
    g ← add64 g dst n;
    Some (mkLedger g (owners l) (mints l) (supplies l) (sol l))
  else None.

Definition mint_to (l : Ledger) (mint dst n : Z) : option Ledger :=
  if bool_decide (get (mints l) dst = mint) && (0 <=? n) then
    g ← add64 (amounts l) dst n;
    s ← add64 (supplies l) mint n;
    Some (mkLedger g (owners l) (mints l) s (sol l))
  else None.

Definition burn (l : Ledger) (mint src auth n : Z) : option Ledger :=
  if bool_decide (get (mints l) src = mint) && bool_decide (get (owners l) src = auth) && (0 <=? n) then
    g ← add64 (amounts l) src (- n);
    s ← add64 (supplies l) mint (- n);
    Some (mkLedger g (owners l) (mints l) s (sol l))
  else None.

Definition send_lamports (l : Ledger) (src dst n : Z) : option Ledger :=
  if 0 <=? n then
    g ← add64 (sol l) src (- n);
    g ← add64 g dst n;
    Some (mkLedger (amounts l) (owners l) (mints l) (supplies l) g)
  else None.

Lemma get64_range g k : u64 (get64 g k).
Proof. unfold get64. destruct (_ && _) eqn:E; propify; rlia. Qed.

Lemma add64_Some g k d g' : add64 g k d = Some g' ->
  0 <= get64 g k + d /\ forall a, get64 g' a = get64 g a + (if bool_decide (a = k) then d else 0).
Proof.
  unfold add64. intros H. inv_ok H. apply fit_Some in Hrun as [-> Hr]. split; [lia|]. intros a.
  case_bool_decide as E; [subst a|].
  - assert (forall v, 0 <= v <= U64_MAX -> get64 (<[k:=v]> g) k = v) as ->; [|lia|done].
    intros v Hv. unfold get64, get. rewrite lookup_insert_eq. cbn.
    destruct (Z.leb_spec 0 v), (Z.leb_spec v U64_MAX); cbn; lia.
  - unfold get64, get. rewrite lookup_insert_ne by done. lia.
Qed.

#[export, refine] Instance runtime : Runtime := {|
  ledger := Ledger;
  tok_amount l a := get64 (amounts l) a;
  tok_owner l a := get (owners l) a;
  tok_mint l a := get (mints l) a;
  mint_supply l m := get64 (supplies l) m;
  lamports l a := get64 (sol l) a;
  token_transfer := transfer;
  token_mint_to := mint_to;
  token_burn := burn;
  lamport_transfer := send_lamports;
  market_pda m := 1000 * m + 901;
  position_pda m o := 2000000 + 1000 * m + o;
  reactor_pda m := 1000 * m + 902;
  buffer_pda m := 1000 * m + 903;
  backstop_pda := 998;
  fusd_mint := 999;
  own_pda k := (900 <? k mod 1000) && (k mod 1000 <? 904) || (k =? 998);
|}.
Proof.
  1-3: intros c; rewrite Z.add_comm, Z.mul_comm, Z.mod_add by lia; reflexivity.
  1: reflexivity.
  1-5: intros; lia.
  - intros. apply get64_range.
  - intros. apply get64_range.
  - intros l src dst auth n l' H. unfold transfer in H.
    destruct (_ && _) eqn:E; [|done]. propify. inv_ok H. cbn.
    apply add64_Some in Hrun as [? Hg1], Hrun0 as [? Hg2].
    split; [done|]. split; [done|]. split; [lia|]. split; [|done]. intros x. rewrite Hg2, Hg1.
    destruct (bool_decide (x = src)); lia.
  - intros l mint dst n l' H. unfold mint_to in H.
    destruct (_ && _) eqn:E; [|done]. propify. inv_ok H. cbn.
    apply add64_Some in Hrun as [? Hg1], Hrun0 as [? Hg2]. done.
  - intros l mint src auth n l' H. unfold burn in H.
    destruct (_ && _) eqn:E; [|done]. propify. inv_ok H. cbn.
    apply add64_Some in Hrun as [? Hg1], Hrun0 as [? Hg2].
    split; [done|]. split; [done|]. split; [lia|]. split; [|split; [|done]].
    + intros x. rewrite Hg1. destruct (bool_decide (x = src)); lia.
    + intros x. rewrite Hg2. destruct (bool_decide _); lia.
  - intros l src dst n l' H. unfold send_lamports in H.
    destruct (Z.leb_spec 0 n); [|done]. inv_ok H. cbn.
    apply add64_Some in Hrun as [? Hg1], Hrun0 as [? Hg2].
    split; [lia|]. split; [|done]. intros x. rewrite Hg2, Hg1.
    destruct (bool_decide (x = src)); lia.
Defined.

End MapLedger.
