(* ===== verification/AccountBytes.v ===== *)
(** * Reading third-party accounts ([programs/fusd-core/src/clmm.rs], [stake_pool.rs])

    The parsers of Orca Whirlpool and Raydium CLMM pools and of SPL stake pools:
    fixed offsets in the account's raw bytes. A byte is an integer below 256, a
    public key the little-endian value of its 32 bytes. *)

From S2P Require Import Prelude MachineInt State.

Open Scope Z_scope.

(** The value of little-endian bytes. *)
Definition le_value (bytes : list Z) : Z := foldr (fun b n => b + 256 * n) 0 bytes.

(** [data[off..off + n]] *)
Definition read_bytes (data : list Z) (off n : nat) : list Z := take n (drop off data).

Definition read_u64_le (data : list Z) (off : nat) : Z := le_value (read_bytes data off 8).
Definition read_u128_le (data : list Z) (off : nat) : Z := le_value (read_bytes data off 16).
Definition read_pubkey (data : list Z) (off : nat) : Pubkey := le_value (read_bytes data off 32).
Definition read_u8 (data : list Z) (off : nat) : Z := le_value (read_bytes data off 1).

(** ** [clmm.rs] *)

Inductive Venue := Orca | Raydium.

Abbreviation SQRT_PRICE_MIN := 4295048016.
Abbreviation SQRT_PRICE_MAX := 79226673515401279992447579055.

Module ClmmError.
Inductive t := BadDiscriminator | TooShort | SqrtPriceOutOfBounds.
End ClmmError.

Record PoolSample := mkPoolSample {
  sm_sqrt_price : Z;
  sm_mint_a : Pubkey;
  sm_mint_b : Pubkey;
  sm_dec_a : option Z;
  sm_dec_b : option Z;
}.

Definition discriminator (venue : Venue) : list Z :=
  match venue with
  | Orca => [63; 149; 209; 12; 225; 128; 99; 9]
  | Raydium => [247; 237; 227; 245; 215; 195; 222; 70]
  end.

Definition min_len (venue : Venue) : nat :=
  match venue with Orca => 213 | Raydium => 269 end.

(** The fields at their offsets. *)
Definition read_sample (venue : Venue) (data : list Z) : PoolSample :=
  match venue with
  | Orca => mkPoolSample (read_u128_le data 65) (read_pubkey data 101) (read_pubkey data 181) None None
  | Raydium => mkPoolSample (read_u128_le data 253) (read_pubkey data 73) (read_pubkey data 105)
                 (Some (read_u8 data 233)) (Some (read_u8 data 234))
  end.

Definition clmm_parse (venue : Venue) (data : list Z) : result ClmmError.t PoolSample :=
  if bool_decide (length data < min_len venue)%nat then Err ClmmError.TooShort
  else if negb (bool_decide (read_bytes data 0 8 = discriminator venue)) then Err ClmmError.BadDiscriminator
  else
    let sample := read_sample venue data in
    if (sm_sqrt_price sample <? SQRT_PRICE_MIN) || (SQRT_PRICE_MAX <? sm_sqrt_price sample)
    then Err ClmmError.SqrtPriceOutOfBounds
    else Ok sample.

(** ** [stake_pool.rs] *)

Module StakePoolError.
Inductive t := TooShort | NotStakePool | DegenerateRate.
End StakePoolError.

Record StakePoolSample := mkStakePoolSample {
  sp_pool_mint : Pubkey;
  sp_total_lamports : Z;
  sp_pool_token_supply : Z;
  sp_last_update_epoch : Z;
}.

Definition stake_pool_parse (data : list Z) : result StakePoolError.t StakePoolSample :=
  if bool_decide (length data < 282)%nat then Err StakePoolError.TooShort
  else if negb (read_u8 data 0 =? 1) then Err StakePoolError.NotStakePool
  else
    let total_lamports := read_u64_le data 258 in
    let pool_token_supply := read_u64_le data 266 in
    if (pool_token_supply =? 0) || (total_lamports =? 0) then Err StakePoolError.DegenerateRate
    else Ok (mkStakePoolSample (read_pubkey data 162) total_lamports pool_token_supply
               (read_u64_le data 274)).

(** ** Writing a layout, and reading it back *)

Fixpoint le_bytes (n : nat) (v : Z) : list Z :=
  match n with O => [] | S n => v mod 256 :: le_bytes n (v / 256) end.

(** Overwrite the bytes from [off]. *)
Definition patch (off : nat) (bytes data : list Z) : list Z :=
  take off data ++ bytes ++ drop (off + length bytes) data.

(** An account of [venue] that holds [s], over any background bytes. *)
Definition clmm_bytes (venue : Venue) (s : PoolSample) (bg : list Z) : list Z :=
  let put off n v := patch off (le_bytes n v) in
  let disc := patch 0 (discriminator venue) in
  match venue with
  | Orca => disc (put 65%nat 16%nat (sm_sqrt_price s) (put 101%nat 32%nat (sm_mint_a s)
              (put 181%nat 32%nat (sm_mint_b s) bg)))
  | Raydium => disc (put 253%nat 16%nat (sm_sqrt_price s) (put 73%nat 32%nat (sm_mint_a s)
              (put 105%nat 32%nat (sm_mint_b s) (put 233%nat 1%nat (default 0 (sm_dec_a s))
                (put 234%nat 1%nat (default 0 (sm_dec_b s)) bg)))))
  end.

Definition stake_pool_bytes (s : StakePoolSample) (bg : list Z) : list Z :=
  patch 0 [1] (patch 162 (le_bytes 32 (sp_pool_mint s)) (patch 258 (le_bytes 8 (sp_total_lamports s))
    (patch 266 (le_bytes 8 (sp_pool_token_supply s)) (patch 274 (le_bytes 8 (sp_last_update_epoch s)) bg)))).

Lemma length_le_bytes n v : length (le_bytes n v) = n.
Proof. revert v. induction n; intros; cbn; auto. Qed.

Lemma le_value_bytes n v : 0 <= v < 256 ^ Z.of_nat n -> le_value (le_bytes n v) = v.
Proof.
  revert v. induction n as [|n IH]; intros v Hv; cbn [le_bytes le_value foldr].
  - change (256 ^ Z.of_nat 0) with 1 in Hv. lia.
  - fold (le_value (le_bytes n (v / 256))). rewrite Nat2Z.inj_succ, Z.pow_succ_r in Hv by lia.
    rewrite IH; [pose proof (Z.div_mod v 256); lia|].
    split; [apply Z.div_pos; lia|]. apply Z.div_lt_upper_bound; lia.
Qed.

Lemma le_value_range bs : Forall (fun b => 0 <= b < 256) bs -> 0 <= le_value bs < 256 ^ Z.of_nat (length bs).
Proof.
  induction 1 as [|b bs Hb _ IH]; [cbn; lia|]. cbn [le_value foldr length]. fold (le_value bs).
  rewrite Nat2Z.inj_succ, Z.pow_succ_r by lia. nia.
Qed.

Lemma read_u64_range data off : Forall (fun b => 0 <= b < 256) data -> u64 (read_u64_le data off).
Proof.
  intros Hd. unfold read_u64_le, read_bytes. pose proof (le_value_range (take 8 (drop off data))) as H.
  specialize (H ltac:(by apply Forall_take, Forall_drop)).
  assert (256 ^ Z.of_nat (length (take 8 (drop off data))) <= 256 ^ 8).
  { apply Z.pow_le_mono_r; [lia|]. rewrite length_take. lia. }
  change (256 ^ 8) with 18446744073709551616 in *. unfold u64. lia.
Qed.

Lemma length_patch off bytes data : (off + length bytes <= length data)%nat ->
  length (patch off bytes data) = length data.
Proof. intros. unfold patch. rewrite !length_app, length_take, length_drop. lia. Qed.

Lemma read_patch_same off bytes data n : (off + length bytes <= length data)%nat -> n = length bytes ->
  read_bytes (patch off bytes data) off n = bytes.
Proof.
  intros H ->. unfold read_bytes, patch. rewrite drop_app_length' by (rewrite length_take; lia).
  by rewrite take_app_length.
Qed.

Lemma read_patch_other off bytes data off' n : (off + length bytes <= length data)%nat ->
  (off' + n <= off \/ off + length bytes <= off')%nat ->
  read_bytes (patch off bytes data) off' n = read_bytes data off' n.
Proof.
  intros H Ho. unfold read_bytes, patch. apply list_eq. intros i.
  destruct (decide (i < n)%nat) as [Hi|Hi]; [|by rewrite !lookup_take_ge by lia].
  rewrite !lookup_take_lt, !lookup_drop by done. destruct Ho.
  - rewrite lookup_app_l by (rewrite length_take; lia). by rewrite lookup_take_lt by lia.
  - rewrite lookup_app_r by (rewrite length_take; lia). rewrite length_take, Nat.min_l by lia.
    rewrite lookup_app_r by lia. rewrite lookup_drop. f_equal. lia.
Qed.

Lemma read_value off n v data : (off + n <= length data)%nat -> 0 <= v < 256 ^ Z.of_nat n ->
  le_value (read_bytes (patch off (le_bytes n v) data) off n) = v.
Proof.
  intros. rewrite read_patch_same by (rewrite ?length_le_bytes; done).
  by apply le_value_bytes.
Qed.

Lemma read_put_other off k v data off' n : (off + k <= length data)%nat ->
  (off' + n <= off \/ off + k <= off')%nat ->
  read_bytes (patch off (le_bytes k v) data) off' n = read_bytes data off' n.
Proof. intros. apply read_patch_other; rewrite ?length_le_bytes; done. Qed.

Lemma length_put off k v data : (off + k <= length data)%nat ->
  length (patch off (le_bytes k v) data) = length data.
Proof. intros. apply length_patch. rewrite length_le_bytes. done. Qed.

(** Every field is written inside a buffer whose length is known. *)
Ltac in_buffer := cbn [discriminator length]; rewrite ?length_put by in_buffer; lia.
Ltac read_back :=
  repeat first [rewrite read_value by in_buffer | rewrite read_put_other by in_buffer
               |rewrite read_patch_same by in_buffer | rewrite read_patch_other by in_buffer].

(** The fields fit their widths, and only Raydium stores decimals. *)
Definition is_key (k : Pubkey) : Prop := 0 <= k < 256 ^ 32.

Definition sample_wf (venue : Venue) (s : PoolSample) : Prop :=
  u128 (sm_sqrt_price s) /\ is_key (sm_mint_a s) /\ is_key (sm_mint_b s) /\
  match venue, sm_dec_a s, sm_dec_b s with
  | Orca, None, None => True
  | Raydium, Some a, Some b => u8 a /\ u8 b
  | _, _, _ => False
  end.

Lemma length_clmm_bytes venue s bg : (min_len venue <= length bg)%nat ->
  length (clmm_bytes venue s bg) = length bg.
Proof.
  destruct venue; cbn [min_len clmm_bytes]; intros H; rewrite length_patch by in_buffer; in_buffer.
Qed.

Lemma clmm_bytes_discriminator venue s bg : (min_len venue <= length bg)%nat ->
  read_bytes (clmm_bytes venue s bg) 0 8 = discriminator venue.
Proof.
  destruct venue; cbn [min_len clmm_bytes]; intros H; apply read_patch_same; in_buffer.
Qed.

Lemma read_sample_bytes venue s bg : (min_len venue <= length bg)%nat -> sample_wf venue s ->
  read_sample venue (clmm_bytes venue s bg) = s.
Proof.
  destruct s as [sq ma mb da db]. intros Hl (Hq & Ha & Hb & Hd). cbn in Hq, Ha, Hb, Hd.
  unfold u128, is_key in *.
  destruct venue; cbn [min_len] in Hl.
  - destruct da, db; try contradiction.
    unfold read_sample, read_u128_le, read_pubkey, clmm_bytes; cbn [sm_sqrt_price sm_mint_a sm_mint_b].
    by read_back.
  - destruct da as [da|], db as [db|]; try contradiction. destruct Hd as [Hda Hdb].
    unfold u8 in *.
    unfold read_sample, read_u128_le, read_pubkey, read_u8, clmm_bytes;
      cbn [sm_sqrt_price sm_mint_a sm_mint_b sm_dec_a sm_dec_b default from_option id].
    by read_back.
Qed.

(** The pool parser reads back exactly what the venue's layout stores, over any
    other bytes of the account, however much longer it has grown: the price, the
    mint pair in the venue's order and Raydium's decimals. A price outside the
    global tick bounds is refused, a pool of the other venue is refused by its
    discriminator, and an account too short for the layout before any read. *)
Theorem clmm_layout_roundtrip venue s bg : (min_len venue <= length bg)%nat -> sample_wf venue s ->
  clmm_parse venue (clmm_bytes venue s bg)
    = (if (SQRT_PRICE_MIN <=? sm_sqrt_price s) && (sm_sqrt_price s <=? SQRT_PRICE_MAX)
       then Ok s else Err ClmmError.SqrtPriceOutOfBounds) /\
  (forall other, other <> venue ->
     clmm_parse other (clmm_bytes venue s bg)
       = Err (if bool_decide (length bg < min_len other)%nat then ClmmError.TooShort
              else ClmmError.BadDiscriminator)).
Proof.
  intros Hl Hwf. split; [|intros other Ho]; unfold clmm_parse; rewrite length_clmm_bytes by done.
  - rewrite bool_decide_false by lia. rewrite clmm_bytes_discriminator, bool_decide_true by done. cbn [negb].
    rewrite read_sample_bytes by done. cbn zeta.
    rewrite !Z.ltb_antisym, <- negb_andb. by destruct (_ && _).
  - rewrite clmm_bytes_discriminator by done.
    case_bool_decide; [done|]. rewrite (bool_decide_false (discriminator venue = _)); [done|].
    by destruct other, venue.
Qed.

(** The stake-pool parser reads back what the layout stores, and refuses an empty or
    unbacked pool. *)
Lemma stake_pool_layout_roundtrip s bg : (282 <= length bg)%nat ->
  is_key (sp_pool_mint s) -> u64 (sp_total_lamports s) -> u64 (sp_pool_token_supply s) ->
  u64 (sp_last_update_epoch s) ->
  stake_pool_parse (stake_pool_bytes s bg)
    = if (0 <? sp_pool_token_supply s) && (0 <? sp_total_lamports s)
      then Ok s else Err StakePoolError.DegenerateRate.
Proof.
  destruct s as [pm tl ts le]. cbn [sp_pool_mint sp_total_lamports sp_pool_token_supply sp_last_update_epoch].
  unfold is_key, u64. intros Hl Hm Ht Hs He. unfold stake_pool_parse.
  assert (length (stake_pool_bytes (mkStakePoolSample pm tl ts le) bg) = length bg) as ->
    by (unfold stake_pool_bytes; rewrite length_patch by in_buffer; in_buffer).
  rewrite bool_decide_false by lia.
  unfold read_u8, read_u64_le, read_pubkey, stake_pool_bytes;
    cbn [sp_pool_mint sp_total_lamports sp_pool_token_supply sp_last_update_epoch].
  read_back. cbn [le_value foldr]. cbn zeta.
  change (negb (1 + 256 * 0 =? 1)) with false. cbn match.
  destruct (Z.eqb_spec ts 0), (Z.eqb_spec tl 0), (Z.ltb_spec 0 ts), (Z.ltb_spec 0 tl); cbn; done || lia.
Qed.
