(* ===== verification/Accrual.v ===== *)
(** * Accrual and redistribution glue ([programs/fusd-core/src/accrual.rs], [redist.rs])

    The steps every position touch is made of: [accrue] the market, [realize]
    the position, [reweight] and [set_stake]. *)

From S2P Require Import Prelude MachineInt FixedPoint Interest Redistribution SupplyTransition.
From S2P Require Import State.

Open Scope Z_scope.

(** ** [redist.rs] *)

Module redist.

Definition state (m : Market) : RedistState :=
  mkRedistState (l_coll m) (l_art m) (last_coll_redist_error m) (last_art_redist_error m).

Definition write_state (m : Market) (st : RedistState) : Market :=
  m <| l_coll := rs_l_coll st |> <| l_art := rs_l_art st |>
    <| last_coll_redist_error := rs_last_coll_error st |>
    <| last_art_redist_error := rs_last_art_error st |>.

Definition snapshot_of (p : Position) : RedistSnapshot :=
  mkRedistSnapshot (redist_l_coll_snapshot p) (redist_l_art_snapshot p).

Definition map_redist_err (e : RedistError.t) : Error :=
  Fusd match e with
       | RedistError.NoStakes => FusdError.NoRedistributionRecipients
       | RedistError.AccumulatorOverflow => FusdError.RedistributionAccumulatorOverflow
       | RedistError.Math => FusdError.MathOverflow
       end.

Definition pending {U : U256} (m : Market) (p : Position) : result Error (Z * Z) :=
  map_err map_redist_err (Redistribution.pending (stake p) (state m) (snapshot_of p)).

Definition roll_snapshot (m : Market) (p : Position) : Position :=
  p <| redist_l_coll_snapshot := l_coll m |> <| redist_l_art_snapshot := l_art m |>.

Definition set_stake {U : U256} (m : Market) (p : Position) : result Error (Market * Position) :=
  new_stake ← map_err map_redist_err
    (compute_stake (ink p) (total_stakes_snapshot m) (total_collateral_snapshot m));
  ts ← math (t ← checked_sub128 (total_stakes m) (stake p); checked_add128 t new_stake);
  Ok (m <| total_stakes := ts |>, p <| stake := new_stake |>).

End redist.

(** ** [accrual.rs] *)

Section accrual.
Context {U : U256}.

Definition accrue (m : Market) (now : Z) : result Error Market :=
  let dt := sat_sub_i64 now (last_update_ts m) in
  if (dt <=? 0) || shutdown m then Ok m
  else
    pending ← math (pending_aggregate_interest (agg_weighted_debt_sum m) dt);
    d ← math (supply_book_interest (agg_recorded_debt m) (unminted_interest m) pending);
    Ok (m <| agg_recorded_debt := id_new_agg d |> <| unminted_interest := id_new_unminted d |>
          <| last_update_ts := now |>).

Definition realize (m : Market) (p : Position) (now : Z) : result Error Position :=
  let cap := if shutdown m then last_update_ts m else now in
  let period := Z.max (sat_sub_i64 cap (last_debt_update p)) 0 in
  accrued ← math (accrued_interest (recorded_debt p) (user_rate_bps p) period);
  '(pending_coll, pending_debt) ← redist.pending m p;
  p ← (if 0 <? pending_coll then
         add ← math (try_u64 pending_coll);
         new_ink ← math (checked_add64 (ink p) add);
         Ok (set_ink p new_ink)
       else Ok p);
  d ← math (checked_add128 (recorded_debt p) accrued);
  d ← math (checked_add128 d pending_debt);
  let p := p <| recorded_debt := d |> <| last_debt_update := cap |> in
  Ok (redist.roll_snapshot m p).

Definition weighted (p : Position) : result Error Z :=
  math (weighted_debt (recorded_debt p) (user_rate_bps p)).

Definition reweight (m : Market) (p : Position) (old_weighted : Z) : result Error Market :=
  new_weighted ← weighted p;
  s ← math (checked_add128 (agg_weighted_debt_sum m) new_weighted);
  s ← math (checked_sub128 s old_weighted);
  Ok (m <| agg_weighted_debt_sum := s |>).

End accrual.

(** ** Well-formed accounts

    The integer ranges of the fields the accounting uses, and the ordering facts a
    position and its market keep: a snapshot never ahead of the accumulators, and,
    while there is debt, a realization never ahead of the market's clock. *)

(** Unix times are non-negative. *)
Definition timestamp (t : Z) : Prop := 0 <= t <= I64_MAX.

Record market_ok (m : Market) : Prop := {
  mo_agg : u128 (agg_recorded_debt m);
  mo_weighted : u128 (agg_weighted_debt_sum m);
  mo_unminted : u128 (unminted_interest m);
  mo_bad : u128 (bad_debt m);
  mo_ts : timestamp (last_update_ts m);
  mo_l_coll : u128 (l_coll m);
  mo_l_art : u128 (l_art m);
  mo_coll_error : u128 (last_coll_redist_error m);
  mo_art_error : u128 (last_art_redist_error m);
  mo_stakes : u128 (total_stakes m);
  mo_coll : u128 (total_collateral m);
  mo_stakes_snap : u128 (total_stakes_snapshot m);
  mo_coll_snap : u128 (total_collateral_snapshot m);
  mo_spot : u128 (spot m);
  mo_debt_spot : u128 (debt_spot m);
  mo_width : u16 (bucket_width_bps m);
  mo_bonus : u16 (liq_bonus_bps m);
  mo_gas : u16 (liq_gas_comp_bps m);
  mo_surplus : u64 (surplus_collateral m);
  mo_coll_surplus : u64 (total_coll_surplus m);
  mo_protocol : u64 (protocol_collateral m);
}.

Record position_ok (m : Market) (p : Position) : Prop := {
  pk_ink : u64 (ink p);
  pk_debt : u128 (recorded_debt p);
  pk_rate : u16 (user_rate_bps p);
  pk_stake : u128 (stake p);
  pk_clock : timestamp (last_debt_update p);
  pk_snap_coll : 0 <= redist_l_coll_snapshot p <= l_coll m;
  pk_snap_art : 0 <= redist_l_art_snapshot p <= l_art m;
  pk_ts : 0 < recorded_debt p -> last_debt_update p <= last_update_ts m;
  pk_no_ink : ink p = 0 -> stake p = 0;
}.

(** A position's share of the market's debt and collateral: what it has recorded plus
    what the market's accumulators still owe it, scaled to stay in the integers. *)
Definition weight (p : Position) : Z := recorded_debt p * user_rate_bps p.

Definition debt_share (m : Market) (p : Position) : Z :=
  PRECISION * INTEREST_DENOM * recorded_debt p
  + PRECISION * (weight p * (last_update_ts m - last_debt_update p))
  + INTEREST_DENOM * (stake p * (l_art m - redist_l_art_snapshot p)).

Definition coll_share (m : Market) (p : Position) : Z :=
  PRECISION * ink p + stake p * (l_coll m - redist_l_coll_snapshot p).

Lemma set_ink_eq p x : set_ink p x
  = mkPosition (owner p) (pos_collateral_mint p) x (recorded_debt p) (user_rate_bps p)
    (last_debt_update p) (stake p) (redist_l_coll_snapshot p) (redist_l_art_snapshot p)
    (pos_reserve_lamports p) (bucket p) (coll_surplus p) (last_rate_adjust_ts p)
    (if x =? ink p then ink_nonce p else sat_add64 (ink_nonce p) 1).
Proof.
  unfold set_ink. destruct (Z.eqb_spec x (ink p)) as [->|]; [by destruct p | done].
Qed.

(** The fields an operation on the debt and collateral of one position leaves alone. *)
Record same_frame (p p' : Position) : Prop := {
  sf_owner : owner p' = owner p;
  sf_mint : pos_collateral_mint p' = pos_collateral_mint p;
  sf_surplus : coll_surplus p' = coll_surplus p;
}.

Section accrual_proofs.
Context {U : U256}.

Record accrued_to (m : Market) (now : Z) (m' : Market) (dI : Z) : Prop := {
  ac_agg : agg_recorded_debt m' = agg_recorded_debt m + dI;
  ac_unminted : unminted_interest m' = unminted_interest m + dI;
  ac_pos : 0 <= dI;
  ac_ts : last_update_ts m' = if shutdown m then last_update_ts m else Z.max now (last_update_ts m);
  ac_cover : agg_weighted_debt_sum m * (last_update_ts m' - last_update_ts m) <= INTEREST_DENOM * dI;
  ac_ok : market_ok m';
  ac_rest : m' = m <| agg_recorded_debt := agg_recorded_debt m' |>
    <| unminted_interest := unminted_interest m' |> <| last_update_ts := last_update_ts m' |>;
}.

Lemma accrue_Ok m now m' : market_ok m -> timestamp now -> accrue m now = Ok m' ->
  exists dI, accrued_to m now m' dI.
Proof.
  intros Hm Hn H. unfold accrue in H. pose proof Hm as [].
  assert (sat_sub_i64 now (last_update_ts m) = now - last_update_ts m) as Ed
    by (unfold timestamp in *; rlia).
  rewrite Ed in H. destruct ((now - last_update_ts m <=? 0) || shutdown m) eqn:E.
  - injection H as <-. exists 0. constructor; try lia; try done; [|by destruct m].
    apply orb_true_iff in E as [E| ->]; [|done].
    destruct (shutdown m); [done|]. propify. lia.
  - apply orb_false_iff in E as [E Es]. propify. inv_ok H. exists a.
    apply pending_aggregate_Some in Hrun as (_ & Ha & Hcov); [|done|unfold timestamp in *; rlia].
    apply supply_book_Ok in Hrun0 as (Ea & Eu & ? & ?).
    constructor; cbn; rewrite ?Es, ?Ea, ?Eu; try lia; try done; try rlia.
    constructor; cbn; try done; rewrite <- ?Ea, <- ?Eu; done.
Qed.

(** After [accrue], the clock a realization runs to is the market's own clock. *)
Definition synced (m : Market) (now : Z) : Prop := shutdown m = false -> last_update_ts m = now.

Lemma accrued_synced m now m' dI : accrued_to m now m' dI -> last_update_ts m <= now ->
  synced m' now.
Proof.
  intros [] Hle Hs. rewrite ac_rest0 in Hs. cbn in Hs. rewrite ac_ts0, Hs. lia.
Qed.

Record realized (m : Market) (p p' : Position) : Prop := {
  rz_frame : same_frame p p';
  rz_rate : user_rate_bps p' = user_rate_bps p;
  rz_stake : stake p' = stake p;
  rz_bucket : bucket p' = bucket p;
  rz_reserve : pos_reserve_lamports p' = pos_reserve_lamports p;
  rz_rate_ts : last_rate_adjust_ts p' = last_rate_adjust_ts p;
  rz_debt : recorded_debt p <= recorded_debt p';
  rz_ink : ink p <= ink p';
  rz_clock : last_debt_update p' = last_update_ts m;
  rz_snap_coll : redist_l_coll_snapshot p' = l_coll m;
  rz_snap_art : redist_l_art_snapshot p' = l_art m;
  rz_debt_share : PRECISION * INTEREST_DENOM * recorded_debt p' <= debt_share m p;
  rz_coll_share : PRECISION * ink p' <= coll_share m p;
  rz_ok : position_ok m p';
}.

Lemma pending_glue m p c d : market_ok m -> position_ok m p -> redist.pending m p = Ok (c, d) ->
  u128 c /\ PRECISION * c <= stake p * (l_coll m - redist_l_coll_snapshot p) /\
  u128 d /\ PRECISION * d <= stake p * (l_art m - redist_l_art_snapshot p).
Proof.
  intros [] [] H. unfold redist.pending in H. inv_ok H.
  apply pending_Ok in H as (-> & Hc & -> & Hd); cbn in *; try done; try rlia; try (by repeat split).
  repeat split; try apply Hc; try apply Hd; apply Z.mul_div_le; lia.
Qed.

Lemma realize_Ok m p now p' : market_ok m -> position_ok m p -> timestamp now -> synced m now ->
  realize m p now = Ok p' -> realized m p p'.
Proof.
  intros Hm Hp Hn Hsync H. pose proof Hm as []. pose proof Hp as []. unfold realize in H.
  assert ((if shutdown m then last_update_ts m else now) = last_update_ts m) as Ecap.
  { destruct (shutdown m) eqn:Es; [done|]. by rewrite Hsync. }
  rewrite Ecap in H.
  assert (sat_sub_i64 (last_update_ts m) (last_debt_update p) = last_update_ts m - last_debt_update p)
    as Esub by (unfold timestamp in *; rlia).
  rewrite Esub in H.
  apply bind_Ok in H as (acc & Hacc & H). inv_ok Hacc.
  apply accrued_Some in Hacc as (_ & Hacc & Hacc_le); [|done|done|unfold timestamp in *; rlia].
  apply bind_Ok in H as ([pc pd] & Hpend & H).
  apply pending_glue in Hpend as (Hpc & Hpc_le & Hpd & Hpd_le); [|done..].
  apply bind_Ok in H as (p1 & Hink & H).
  assert (p1 = set_ink p (ink p + pc) /\ u64 (ink p + pc)) as [-> Hu].
  { destruct (Z.ltb_spec 0 pc).
    - inv_ok Hink. checked. subst. split; [done | rlia].
    - injection Hink as <-. assert (pc = 0) as -> by rlia. rewrite Z.add_0_r.
      split; [by rewrite set_ink_eq, Z.eqb_refl; destruct p | done]. }
  rewrite set_ink_eq in H. inv_ok H. checked. cbn in *. subst.
  assert (INTEREST_DENOM * acc <= weight p * (last_update_ts m - last_debt_update p)) as Hacc'.
  { unfold weight. destruct (Z.eq_dec (recorded_debt p) 0) as [E0|]; [rewrite E0 in *; lia|].
    rewrite Z.max_l in Hacc_le by (specialize (pk_ts0 ltac:(rlia)); lia). lia. }
  constructor; cbn; try done; try rlia.
  - unfold debt_share. lia.
  - unfold coll_share. lia.
  - constructor; cbn; try done; try rlia.
Qed.

(** [reweight] replaces the position's old contribution by its new one. *)
Lemma weighted_Ok p w : weighted p = Ok w -> w = weight p /\ u128 w.
Proof. intros H. unfold weighted in H. inv_ok H. by apply weighted_debt_Some in H. Qed.

Lemma reweight_Ok m p old m' : reweight m p old = Ok m' ->
  m' = m <| agg_weighted_debt_sum := agg_weighted_debt_sum m + weight p - old |> /\
  u128 (agg_weighted_debt_sum m + weight p - old).
Proof.
  intros H. unfold reweight in H. inv_ok H. checked. apply weighted_Ok in Hrun as [-> ?]. by subst.
Qed.

Lemma set_stake_Ok m p m' p' : market_ok m -> u64 (ink p) -> redist.set_stake m p = Ok (m', p') ->
  exists s, m' = m <| total_stakes := total_stakes m - stake p + s |> /\ p' = p <| stake := s |> /\
    u128 s /\ (ink p = 0 -> s = 0) /\ u128 (total_stakes m - stake p + s).
Proof.
  intros [] Hi H. unfold redist.set_stake in H. inv_ok H. injection H as <- <-. checked. subst.
  apply compute_stake_Ok in Hrun as (? & _ & _ & ?); [|rlia..]. by exists a.
Qed.

End accrual_proofs.
