(* ===== verification/Bucket.v ===== *)
(** * Redemption-bucket membership ([programs/fusd-core/src/bucket.rs])

    Keeps the bitmap words, the per-bucket member counts and the zombie-pen
    count in step with the positions. *)

From S2P Require Import Prelude MachineInt RateBucket State.

Open Scope Z_scope.

Definition bucket_for (m : Market) (p : Position) : option Z :=
  bucket_of (user_rate_bps p) (bucket_width_bps m) NUM_RATE_BUCKETS.

(** The membership a position should hold: [None] without debt. *)
Definition target (m : Market) (p : Position) : result Error (option Z) :=
  if recorded_debt p =? 0 then Ok None
  else if (ink p =? 0) || (recorded_debt p <? min_debt m) then Ok (Some ZOMBIE_BUCKET)
  else b ← no_panic (bucket_for m p); Ok (Some b).

Definition add_member (bm : RedemptionBitmap) (b : Z) : result Error RedemptionBitmap :=
  if b =? ZOMBIE_BUCKET then
    z ← math (checked_add64 (zombie_count bm) 1);
    Ok (bm <| zombie_count := z |>)
  else
    c ← no_panic (counts bm !! Z.to_nat b);
    ws ← (if c =? 0 then no_panic (set (words bm) b) else Ok (words bm));
    c ← math (checked_add32 c 1);
    Ok (bm <| words := ws |> <| counts := <[Z.to_nat b := c]> (counts bm) |>).

Definition remove_member (bm : RedemptionBitmap) (b : Z) : result Error RedemptionBitmap :=
  if b =? ZOMBIE_BUCKET then
    z ← math (checked_sub64 (zombie_count bm) 1);
    Ok (bm <| zombie_count := z |>)
  else
    c ← no_panic (counts bm !! Z.to_nat b);
    c ← math (checked_sub32 c 1);
    ws ← (if c =? 0 then no_panic (clear (words bm) b) else Ok (words bm));
    Ok (bm <| counts := <[Z.to_nat b := c]> (counts bm) |> <| words := ws |>).

Definition reconcile (bm : RedemptionBitmap) (m : Market) (p : Position) (art_before : Z)
    : result Error (RedemptionBitmap * Position) :=
  let was_member := 0 <? art_before in
  let old := bucket p in
  new ← target m p;
  match was_member, new with
  | false, None => Ok (bm, p)
  | false, Some new => bm ← add_member bm new; Ok (bm, p <| bucket := as_u16 new |>)
  | true, None => bm ← remove_member bm old; Ok (bm, p)
  | true, Some new =>
      if old =? new then Ok (bm, p)
      else
        bm ← remove_member bm old;
        bm ← add_member bm new;
        Ok (bm, p <| bucket := as_u16 new |>)
  end.

(** ** The coupling of words and counts *)

(** Members counted in bucket [b], the pen included. *)
Definition count_of (bm : RedemptionBitmap) (b : Z) : Z :=
  if b =? ZOMBIE_BUCKET then zombie_count bm else default 0 (counts bm !! Z.to_nat b).

Record coupled (bm : RedemptionBitmap) : Prop := {
  cp_words : words_ok (words bm);
  cp_len : num_buckets (words bm) = NUM_RATE_BUCKETS;
  cp_counts : length (counts bm) = Z.to_nat NUM_RATE_BUCKETS;
  cp_u32 : Forall u32 (counts bm);
  cp_zombie : u64 (zombie_count bm);
  cp_bit : forall b, 0 <= b < NUM_RATE_BUCKETS -> bit (words bm) b = (0 <? count_of bm b);
}.

Definition empty_bitmap : RedemptionBitmap :=
  mkRedemptionBitmap (replicate 4 0) (replicate 256 0) 0.

Lemma default_replicate n b : default 0 (replicate n 0 !! b) = 0.
Proof.
  destruct (replicate n 0 !! b) as [c|] eqn:E; [|done]. by apply lookup_replicate in E as [-> _].
Qed.

Lemma empty_coupled : coupled empty_bitmap.
Proof.
  destruct (empty_represents 4) as [Hw Hs].
  unfold empty_bitmap. constructor; cbn [words counts zombie_count].
  - done.
  - done.
  - by rewrite length_replicate.
  - by apply Forall_replicate; rlia.
  - rlia.
  - intros b Hb. unfold count_of. destruct (Z.eqb_spec b ZOMBIE_BUCKET); [lia|].
    cbn [counts]. rewrite default_replicate. cbn [Z.ltb Z.compare].
    destruct (bit _ b) eqn:E; [|done].
    assert (b ∈ (∅ : gset Z)); [|set_solver]. apply Hs. done.
Qed.

Lemma count_insert bm ws b c b' : 0 <= b < NUM_RATE_BUCKETS ->
  length (counts bm) = Z.to_nat NUM_RATE_BUCKETS -> 0 <= b' ->
  count_of (mkRedemptionBitmap ws (<[Z.to_nat b := c]> (counts bm)) (zombie_count bm)) b'
    = if b' =? b then c else count_of bm b'.
Proof.
  intros Hb Hl Hb'. unfold count_of. cbn.
  destruct (Z.eqb_spec b' ZOMBIE_BUCKET) as [->|].
  - destruct (Z.eqb_spec ZOMBIE_BUCKET b); [lia | done].
  - destruct (Z.eqb_spec b' b) as [->|].
    + rewrite list_lookup_insert_eq by lia. done.
    + rewrite list_lookup_insert_ne by lia. done.
Qed.

(** One member more, or one fewer, in bucket [b]: every count and bit follows. *)
Lemma add_member_Ok bm b bm' : coupled bm -> 0 <= b <= ZOMBIE_BUCKET -> add_member bm b = Ok bm' ->
  coupled bm' /\ forall b', 0 <= b' -> count_of bm' b' = count_of bm b' + (if b' =? b then 1 else 0).
Proof.
  intros Hc Hb H. pose proof Hc as []. unfold add_member in H.
  destruct (Z.eqb_spec b ZOMBIE_BUCKET) as [->|].
  - inv_ok H. checked. subst. split.
    + constructor; cbn; try done. intros b' Hb'. rewrite cp_bit0 by done.
      unfold count_of. destruct (Z.eqb_spec b' ZOMBIE_BUCKET); [lia | done].
    + intros b' Hb'. unfold count_of. cbn. destruct (Z.eqb_spec b' ZOMBIE_BUCKET); lia.
  - assert (0 <= b < NUM_RATE_BUCKETS) as Hb0 by lia. inv_ok H. checked. subst.
    rename a into c. rename a0 into ws.
    assert (count_of bm b = c) as Ec
      by (unfold count_of; destruct (Z.eqb_spec b ZOMBIE_BUCKET); [lia|]; by rewrite Hrun).
    assert (words_ok ws /\ num_buckets ws = NUM_RATE_BUCKETS /\
            forall b', 0 <= b' -> bit ws b' = (b =? b') || bit (words bm) b') as (Hws & Hn & Hbit).
    { destruct (Z.eqb_spec c 0) as [->|Hc0].
      - inv_ok Hrun0. destruct (set_spec (words bm) b) as (w & Ew & ? & En & ?); [done|lia|].
        rewrite Hrun0 in Ew. injection Ew as <-. rewrite En. done.
      - injection Hrun0 as <-. split; [done|]. split; [done|]. intros b' Hb'.
        destruct (Z.eqb_spec b b') as [<-|]; [|done]. rewrite cp_bit0, Ec by done.
        apply Z.ltb_lt. eapply Forall_lookup_1 in cp_u33; [|done]. rlia. }
    assert (u32 c) as Hcu by (eapply Forall_lookup_1; done).
    assert (forall b', 0 <= b' -> count_of (mkRedemptionBitmap ws
      (<[Z.to_nat b := c + 1]> (counts bm)) (zombie_count bm)) b'
      = count_of bm b' + (if b' =? b then 1 else 0)) as Hcount.
    { intros b' Hb'. rewrite count_insert by done. destruct (Z.eqb_spec b' b) as [->|]; lia. }
    split; [|done]. constructor; cbn; try done.
    + by rewrite length_insert.
    + apply Forall_insert; [done | rlia].
    + intros b' Hb'. rewrite Hcount, Hbit, cp_bit0 by lia. rewrite (Z.eqb_sym b b').
      destruct (Z.eqb_spec b' b) as [->|]; [|by rewrite Z.add_0_r].
      symmetry. apply Z.ltb_lt. rlia.
Qed.

Lemma remove_member_Ok bm b bm' : coupled bm -> 0 <= b <= ZOMBIE_BUCKET -> remove_member bm b = Ok bm' ->
  coupled bm' /\ forall b', 0 <= b' -> count_of bm' b' = count_of bm b' - (if b' =? b then 1 else 0).
Proof.
  intros Hc Hb H. pose proof Hc as []. unfold remove_member in H.
  destruct (Z.eqb_spec b ZOMBIE_BUCKET) as [->|].
  - inv_ok H. checked. subst. split.
    + constructor; cbn; try done. intros b' Hb'. rewrite cp_bit0 by done.
      unfold count_of. destruct (Z.eqb_spec b' ZOMBIE_BUCKET); [lia | done].
    + intros b' Hb'. unfold count_of. cbn. destruct (Z.eqb_spec b' ZOMBIE_BUCKET); lia.
  - assert (0 <= b < NUM_RATE_BUCKETS) as Hb0 by lia. inv_ok H. checked. subst.
    rename a into c. rename a1 into ws.
    assert (count_of bm b = c) as Ec
      by (unfold count_of; destruct (Z.eqb_spec b ZOMBIE_BUCKET); [lia|]; by rewrite Hrun).
    assert (words_ok ws /\ num_buckets ws = NUM_RATE_BUCKETS /\
            forall b', 0 <= b' -> bit ws b' = bit (words bm) b' && negb ((b =? b') && (c - 1 =? 0)))
      as (Hws & Hn & Hbit).
    { destruct (Z.eqb_spec (c - 1) 0) as [Hc1|Hc1].
      - inv_ok Hrun1. destruct (clear_spec (words bm) b) as (w & Ew & ? & En & Hcl); [done|lia|].
        rewrite Hrun1 in Ew. injection Ew as <-. rewrite En. split; [done|]. split; [done|].
        intros b' Hb'. rewrite Hcl by done. rewrite andb_true_r. apply andb_comm.
      - injection Hrun1 as <-. split; [done|]. split; [done|]. intros b' _.
        by rewrite andb_false_r, andb_true_r. }
    assert (u32 c) as Hcu by (eapply Forall_lookup_1; done).
    assert (forall b', 0 <= b' -> count_of (mkRedemptionBitmap ws
      (<[Z.to_nat b := c - 1]> (counts bm)) (zombie_count bm)) b'
      = count_of bm b' - (if b' =? b then 1 else 0)) as Hcount.
    { intros b' Hb'. rewrite count_insert by done. destruct (Z.eqb_spec b' b) as [->|]; lia. }
    split; [|done]. constructor; cbn; try done.
    + by rewrite length_insert.
    + apply Forall_insert; [done | rlia].
    + intros b' Hb'. rewrite Hcount, Hbit, cp_bit0 by lia. rewrite (Z.eqb_sym b b').
      destruct (Z.eqb_spec b' b) as [->|]; [|by rewrite Z.sub_0_r, andb_true_r].
      rewrite Ec. cbn. destruct (Z.eqb_spec (c - 1) 0), (Z.ltb_spec 0 c), (Z.ltb_spec 0 (c - 1)); done || lia.
Qed.

(** ** Reconciliation *)

(** 1 when the position is a member of bucket [b]. *)
Definition member (debt label b : Z) : Z :=
  if (0 <? debt) && (label =? b) then 1 else 0.

Lemma member_range debt label b : 0 <= member debt label b <= 1.
Proof. unfold member. destruct (_ && _); lia. Qed.

Definition label_ok (p : Position) : Prop := 0 < recorded_debt p -> 0 <= bucket p <= ZOMBIE_BUCKET.

Lemma target_range m p b : u16 (user_rate_bps p) -> u16 (bucket_width_bps m) ->
  target m p = Ok (Some b) -> 0 <= b <= ZOMBIE_BUCKET /\ recorded_debt p <> 0.
Proof.
  intros Hr Hw H. unfold target in H. destruct (Z.eqb_spec (recorded_debt p) 0); [done|].
  split; [|done]. destruct (_ || _); [by injection H as <-|].
  apply bind_Ok in H as (x & Hx & H). injection H as ->. inv_ok Hx.
  unfold bucket_for, bucket_of in Hx. rewrite fit_in in Hx by lia. cbn in Hx. injection Hx as <-.
  assert (0 <= user_rate_bps p / Z.max (bucket_width_bps m) 1) by (apply Z.div_pos; rlia). lia.
Qed.

Record reconciled (bm : RedemptionBitmap) (m : Market) (p : Position) (art_before : Z)
    (bm' : RedemptionBitmap) (p' : Position) : Prop := {
  rc_coupled : coupled bm';
  rc_position : p' = p <| bucket := bucket p' |>;
  rc_count : forall b, 0 <= b -> count_of bm' b
    = count_of bm b - member art_before (bucket p) b + member (recorded_debt p) (bucket p') b;
  rc_label : 0 < recorded_debt p -> 0 <= bucket p' <= ZOMBIE_BUCKET /\ target m p = Ok (Some (bucket p'));
}.

Lemma reconcile_Ok bm m p art_before bm' p' :
  coupled bm -> u16 (user_rate_bps p) -> u16 (bucket_width_bps m) -> 0 <= recorded_debt p ->
  (0 < art_before -> 0 <= bucket p <= ZOMBIE_BUCKET) ->
  reconcile bm m p art_before = Ok (bm', p') -> reconciled bm m p art_before bm' p'.
Proof.
  intros Hc Hr Hw Hd Hb H. unfold reconcile in H. apply bind_Ok in H as (new & Ht & H).
  assert (forall new, 0 <= new <= ZOMBIE_BUCKET -> as_u16 new = new) as Eas
    by (intros x Hx; apply Z.mod_small; lia).
  assert (p = p <| bucket := bucket p |>) as Ep by (by destruct p).
  destruct new as [new|].
  - pose proof Ht as Ht0. apply target_range in Ht0 as [Hnew Hd0]; [|done..].
    destruct (Z.ltb_spec 0 art_before) as [Hart|Hart].
    + destruct (Z.eqb_spec (bucket p) new) as [Eb|Hne].
      * injection H as <- <-. constructor; try done; [|by rewrite Eb].
        intros b Hb'. unfold member. destruct (Z.ltb_spec 0 art_before), (Z.ltb_spec 0 (recorded_debt p)); lia.
      * inv_ok H. injection H as <- <-. apply remove_member_Ok in Hrun as [Hc1 Hcnt1]; [|done|auto].
        apply add_member_Ok in Hrun0 as [Hc2 Hcnt2]; [|done|done].
        constructor; cbn; rewrite ?Eas by done; try done.
        intros b Hb'. rewrite Hcnt2, Hcnt1 by done. unfold member.
        destruct (Z.ltb_spec 0 art_before), (Z.ltb_spec 0 (recorded_debt p)); try lia. cbn.
        rewrite (Z.eqb_sym b), (Z.eqb_sym b). lia.
    + inv_ok H. injection H as <- <-. apply add_member_Ok in Hrun as [Hc1 Hcnt1]; [|done|done].
      constructor; cbn; rewrite ?Eas by done; try done.
      intros b Hb'. rewrite Hcnt1 by done. unfold member.
      destruct (Z.ltb_spec 0 art_before), (Z.ltb_spec 0 (recorded_debt p)); try lia. cbn.
      rewrite (Z.eqb_sym b). lia.
  - assert (recorded_debt p = 0) as Ed.
    { unfold target in Ht. destruct (Z.eqb_spec (recorded_debt p) 0); [done|].
      destruct (_ || _); [done|]. by inv_ok Ht. }
    destruct (Z.ltb_spec 0 art_before) as [Hart|Hart].
    + inv_ok H. injection H as <- <-. apply remove_member_Ok in Hrun as [Hc1 Hcnt1]; [|done|auto].
      constructor; try done; [|lia].
      intros b Hb'. rewrite Hcnt1 by done. unfold member. rewrite Ed.
      destruct (Z.ltb_spec 0 art_before); [|lia]. cbn. rewrite (Z.eqb_sym b). lia.
    + injection H as <- <-. constructor; try done; [|lia].
      intros b Hb'. unfold member. rewrite Ed.
      destruct (Z.ltb_spec 0 art_before); cbn; lia.
Qed.
