(* ===== verification/CertoraRules.v ===== *)
(** * The Certora rules ([programs/fusd-core/src/certora.rs])

    The rules the repository submits to its prover, statement by statement, with each
    [nondet] as a parameter: the bitmap coupling under [add_member], [remove_member] and
    [reconcile], the supply identity under the shared transitions at unbounded integers,
    the waterfall, and the canonical-rate cap of the price aggregate.

    The bitmap rules look at the bitmap a call leaves behind even when it returns an
    error, so the bucket operations appear here once more in place: the bitmap after the
    call and whether the call succeeded. *)

From S2P Require Import Prelude MachineInt RateBucket State Bucket Recovery SupplyTransition Oracle Harness.

Open Scope Z_scope.

(** ** The bucket operations in place; [None] is a panic *)

Definition add_member_mut (bm : RedemptionBitmap) (b : Z) : option (RedemptionBitmap * bool) :=
  if b =? ZOMBIE_BUCKET then
    Some (match checked_add64 (zombie_count bm) 1 with
          | Some z => (bm <| zombie_count := z |>, true)
          | None => (bm, false)
          end)
  else
    c ← counts bm !! Z.to_nat b;
    ws ← (if c =? 0 then set (words bm) b else Some (words bm));
    let bm := bm <| words := ws |> in
    Some (match checked_add32 c 1 with
          | Some c => (bm <| counts := <[Z.to_nat b := c]> (counts bm) |>, true)
          | None => (bm, false)
          end).

Definition remove_member_mut (bm : RedemptionBitmap) (b : Z) : option (RedemptionBitmap * bool) :=
  if b =? ZOMBIE_BUCKET then
    Some (match checked_sub64 (zombie_count bm) 1 with
          | Some z => (bm <| zombie_count := z |>, true)
          | None => (bm, false)
          end)
  else
    c ← counts bm !! Z.to_nat b;
    match checked_sub32 c 1 with
    | None => Some (bm, false)
    | Some c =>
        let bm := bm <| counts := <[Z.to_nat b := c]> (counts bm) |> in
        ws ← (if c =? 0 then clear (words bm) b else Some (words bm));
        Some (bm <| words := ws |>, true)
    end.

(** [position.bucket] is written only on success, so the bitmap is all a failed call leaves. *)
Definition reconcile_mut (bm : RedemptionBitmap) (m : Market) (p : Position) (art_before : Z)
    : option (RedemptionBitmap * bool) :=
  let was_member := 0 <? art_before in
  let old := bucket p in
  match target m p with
  | Err _ => None
  | Ok new =>
      match was_member, new with
      | false, None => Some (bm, true)
      | false, Some new => add_member_mut bm new
      | true, None => remove_member_mut bm old
      | true, Some new =>
          if old =? new then Some (bm, true)
          else
            '(bm, ok) ← remove_member_mut bm old;
            if ok : bool then add_member_mut bm new else Some (bm, false)
      end
  end.

(** ** The rules *)


Definition coupling_holds_at (bm : RedemptionBitmap) (k : Z) : option bool :=
  b ← is_set (words bm) k;
  c ← counts bm !! Z.to_nat k;
  Some (Bool.eqb b (0 <? c)).




(** The supply rules run the transitions over [NativeInt]. *)















(** ** The bitmap in place *)




(** Coupling at [k] survives the change of one bucket's count and bit. *)
Definition keeps_coupling (bm bm' : RedemptionBitmap) : Prop :=
  forall k, 0 <= k < NUM_RATE_BUCKETS -> coupling_holds_at bm k = Some true -> coupling_holds_at bm' k = Some true.

#[export] Instance keeps_coupling_preorder : PreOrder keeps_coupling.
Proof. split; [by intros ?? | intros ??? H1 H2 k Hk H; auto]. Qed.





(** The in-place operations succeed exactly when the functional ones do, with the same bitmap. *)
Lemma add_member_mut_Ok bm b bm' : add_member bm b = Ok bm' <-> add_member_mut bm b = Some (bm', true).
Proof.
  unfold add_member, add_member_mut. destruct (b =? ZOMBIE_BUCKET).
  - destruct (checked_add64 _ _); cbn; split; congruence.
  - destruct (counts bm !! _) as [c|]; cbn; [|done].
    destruct (if c =? 0 then set (words bm) b else Some (words bm)) as [ws|] eqn:E.
    + assert ((if c =? 0 then no_panic (set (words bm) b) else Ok (words bm)) = Ok ws) as ->.
      { destruct (c =? 0); [by rewrite E | congruence]. }
      cbn. destruct (checked_add32 _ _); cbn; split; congruence.
    + destruct (c =? 0); [|done]. rewrite E. done.
Qed.

Lemma remove_member_mut_Ok bm b bm' : remove_member bm b = Ok bm' <-> remove_member_mut bm b = Some (bm', true).
Proof.
  unfold remove_member, remove_member_mut. destruct (b =? ZOMBIE_BUCKET).
  - destruct (checked_sub64 _ _); cbn; split; congruence.
  - destruct (counts bm !! _) as [c|]; cbn; [|done]. destruct (checked_sub32 c 1) as [c'|]; cbn; [|split; congruence].
    destruct (c' =? 0); cbn; [|split; congruence]. destruct (clear _ _); cbn; split; congruence.
Qed.

Lemma reconcile_mut_Ok bm m p art bm' p' :
  reconcile bm m p art = Ok (bm', p') -> reconcile_mut bm m p art = Some (bm', true).
Proof.
  unfold reconcile, reconcile_mut. intros H. apply bind_Ok in H as (new & -> & H).
  destruct (0 <? art), new as [new|].
  - destruct (_ =? _); [by injection H as -> ->|]. inv_ok H. injection H as <- <-.
    apply remove_member_mut_Ok in Hrun as ->. step_ok. by apply add_member_mut_Ok.
  - inv_ok H. injection H as <- <-. by apply remove_member_mut_Ok.
  - inv_ok H. injection H as <- <-. by apply add_member_mut_Ok.
  - by injection H as -> ->.
Qed.


(** ** What the rules establish *)











