(* ===== verification/PositionOps.v ===== *)
(** * Position instructions ([programs/fusd-core/src/instructions/])

    [open_position], [close_position], [deposit], [withdraw], [borrow], [repay],
    [adjust_rate], and the vault check of [reconcile.rs]. An instruction runs on
    the accounts it names: the market, the position, the redemption bitmap and
    the runtime's ledger. Accounts that a PDA seed pins to the market (the bitmap)
    are given directly; the other Anchor constraints are checked first. Events
    are not represented: emitting one changes no account. *)

From S2P Require Import Prelude MachineInt FixedPoint Interest SupplyTransition Cdp State Token.
From S2P Require Import Accrual Bucket.

Open Scope Z_scope.

Section position_ops.
Context {U : U256} {R : Runtime}.

(** The keys a position instruction names. *)
Record Accounts := mkAccounts {
  acc_signer : Pubkey;
  acc_position : Pubkey;
  acc_fusd_ata : Pubkey;
  acc_coll_ata : Pubkey;
  acc_vault : Pubkey;
}.

Record Touch := mkTouch {
  t_market : Market;
  t_position : Position;
  t_bitmap : RedemptionBitmap;
  t_ledger : ledger;
}.

(** [seeds = [POSITION_SEED, mint, owner]], [has_one = owner] *)
Definition position_constraints (k : Accounts) (m : Market) (p : Position) : result Error unit :=
  _ ← constraint (bool_decide (acc_position k = position_pda (collateral_mint m) (acc_signer k)));
  constraint (bool_decide (owner p = acc_signer k)).

(** [token::mint = mint, token::authority = signer] *)
Definition ata_constraints (l : ledger) (ata mint signer : Pubkey) : result Error unit :=
  _ ← constraint (bool_decide (tok_mint l ata = mint));
  constraint (bool_decide (tok_owner l ata = signer)).

(** [reconcile.rs] *)
Definition check_sufficiency (vault_amount total_collateral surplus_collateral total_coll_surplus
    protocol_collateral : Z) : result Error unit :=
  tracked ← math (t ← checked_add128 total_collateral surplus_collateral;
                  t ← checked_add128 t total_coll_surplus;
                  checked_add128 t protocol_collateral);
  check (tracked <=? vault_amount) FusdError.VaultReconciliationFailed.

Definition assert_collateral_vault_sufficiency (l : ledger) (vault : Pubkey) (m : Market)
    : result Error unit :=
  check_sufficiency (tok_amount l vault) (total_collateral m) (surplus_collateral m)
    (total_coll_surplus m) (protocol_collateral m).

(** A price can be acted on while it is at most [MAX_PRICE_STALENESS_SLOTS] old. *)
Definition fresh_price (clk : Clock) (m : Market) : bool :=
  sat_sub (slot clk) (spot_updated_slot m) <=? MAX_PRICE_STALENESS_SLOTS.

(** ** [open_position.rs] *)

Definition open_position (clk : Clock) (k : Accounts) (m : Market) (l : ledger) (rate_bps : Z)
    : result Error (Position * ledger) :=
  _ ← constraint (bool_decide (acc_position k = position_pda (collateral_mint m) (acc_signer k)));
  _ ← check ((MIN_USER_RATE_BPS <=? rate_bps) && (rate_bps <=? MAX_USER_RATE_BPS))
        FusdError.InterestRateOutOfBounds;
  let reserve := reserve_lamports m in
  let now := unix_timestamp clk in
  let p := {|
    owner := acc_signer k; pos_collateral_mint := collateral_mint m; ink := 0;
    recorded_debt := 0; user_rate_bps := rate_bps; last_debt_update := now; stake := 0;
    redist_l_coll_snapshot := l_coll m; redist_l_art_snapshot := l_art m;
    pos_reserve_lamports := reserve; bucket := 0; coll_surplus := 0;
    last_rate_adjust_ts := now; ink_nonce := 0 |} in
  l ← (if 0 <? reserve then cpi (lamport_transfer l (acc_signer k) (acc_position k) reserve) else Ok l);
  Ok (p, l).

(** ** [close_position.rs]: [close = owner] sends all the account's lamports back. *)

Definition close_position (k : Accounts) (m : Market) (p : Position) (l : ledger)
    : result Error ledger :=
  _ ← position_constraints k m p;
  _ ← constraint (bool_decide (pos_collateral_mint p = collateral_mint m));
  _ ← check (recorded_debt p =? 0) FusdError.PositionNotEmpty;
  _ ← check (ink p =? 0) FusdError.PositionNotEmpty;
  _ ← check (coll_surplus p =? 0) FusdError.PositionNotEmpty;
  cpi (lamport_transfer l (acc_position k) (acc_signer k) (lamports l (acc_position k))).

(** ** [deposit.rs] *)

(** The under-bond top-up of the SOL reserve. *)
Definition top_up_bond (k : Accounts) (m : Market) (p : Position) (l : ledger)
    : result Error (Position * ledger) :=
  let market_reserve := reserve_lamports m in
  let posted := pos_reserve_lamports p in
  if posted <? market_reserve then
    l ← cpi (lamport_transfer l (acc_signer k) (acc_position k) (market_reserve - posted));
    Ok (p <| pos_reserve_lamports := market_reserve |>, l)
  else Ok (p, l).

Definition deposit (clk : Clock) (k : Accounts) (t : Touch) (amount : Z) : result Error Touch :=
  let m := t_market t in let p := t_position t in let l := t_ledger t in
  _ ← constraint (bool_decide (acc_vault k = collateral_vault m));
  _ ← position_constraints k m p;
  _ ← ata_constraints l (acc_coll_ata k) (collateral_mint m) (acc_signer k);
  _ ← check (0 <? amount) FusdError.ZeroAmount;
  let now := unix_timestamp clk in
  let art_before := recorded_debt p in
  old_weighted ← weighted p;
  l ← cpi (token_transfer l (acc_coll_ata k) (acc_vault k) (acc_signer k) amount);
  m ← accrue m now;
  p ← realize m p now;
  new_ink ← math (checked_add64 (ink p) amount);
  let p := set_ink p new_ink in
  tc ← math (checked_add128 (total_collateral m) amount);
  let m := m <| total_collateral := tc |> in
  m ← reweight m p old_weighted;
  '(m, p) ← redist.set_stake m p;
  '(p, l) ← top_up_bond k m p l;
  '(bm, p) ← reconcile (t_bitmap t) m p art_before;
  _ ← assert_collateral_vault_sufficiency l (acc_vault k) m;
  Ok (mkTouch m p bm l).

(** ** [withdraw.rs] *)

(** The price and health guards on a withdrawal that leaves [new_ink]. *)
Definition withdraw_guards (clk : Clock) (m : Market) (p : Position) (new_ink amount : Z)
    : result Error unit :=
  _ ← (if 0 <? recorded_debt p then
         _ ← check (0 <? spot m) FusdError.OracleUnavailable;
         _ ← check (fresh_price clk m) FusdError.StalePrice;
         check (is_healthy new_ink (recorded_debt p) (spot m) (mcr_bps m))
           FusdError.BelowMinCollateralRatio
       else Ok tt);
  if (0 <? ccr_bps m) && negb (shutdown m) then
    let fresh := (0 <? spot m) && fresh_price clk m in
    if fresh then
      post_collateral ← math (checked_sub128 (total_collateral m) amount);
      check (negb (tcr_below post_collateral (agg_recorded_debt m) (spot m) (ccr_bps m)))
        FusdError.CcrRestricted
    else Ok tt
  else Ok tt.

Definition withdraw (clk : Clock) (k : Accounts) (t : Touch) (amount : Z) : result Error Touch :=
  let m := t_market t in let p := t_position t in let l := t_ledger t in
  _ ← constraint (bool_decide (acc_vault k = collateral_vault m));
  _ ← position_constraints k m p;
  _ ← ata_constraints l (acc_coll_ata k) (collateral_mint m) (acc_signer k);
  _ ← check (0 <? amount) FusdError.ZeroAmount;
  let now := unix_timestamp clk in
  let art_before := recorded_debt p in
  old_weighted ← weighted p;
  m ← accrue m now;
  p ← realize m p now;
  _ ← check (amount <=? ink p) FusdError.InsufficientCollateral;
  let new_ink := ink p - amount in
  _ ← withdraw_guards clk m p new_ink amount;
  l ← cpi (token_transfer l (acc_vault k) (acc_coll_ata k) (market_pda (collateral_mint m)) amount);
  let p := set_ink p new_ink in
  tc ← math (checked_sub128 (total_collateral m) amount);
  let m := m <| total_collateral := tc |> in
  m ← reweight m p old_weighted;
  '(m, p) ← redist.set_stake m p;
  '(bm, p) ← reconcile (t_bitmap t) m p art_before;
  _ ← assert_collateral_vault_sufficiency l (acc_vault k) m;
  Ok (mkTouch m p bm l).

(** ** [borrow.rs] *)

(** The market conditions under which new debt may be taken on. *)
Definition borrow_open (clk : Clock) (m : Market) : result Error unit :=
  _ ← check (negb (shutdown m)) FusdError.MarketShutdown;
  _ ← check ((liq_infra_flags m =? 0)
             || (Z.land (liq_infra_flags m) LIQ_INFRA_READY_MASK =? LIQ_INFRA_READY_MASK))
        FusdError.LiquidationInfraNotReady;
  _ ← check (0 <? spot m) FusdError.OracleUnavailable;
  _ ← check (negb (mint_frozen m)) FusdError.MintFrozen;
  _ ← check (guardian_paused_until m <=? unix_timestamp clk) FusdError.GuardianPaused;
  check (fresh_price clk m) FusdError.StalePrice.

Definition borrow_fee (m : Market) (amount : Z) : result Error Z :=
  if 0 <? borrow_fee_bps m then math (mul_div_ceil amount (borrow_fee_bps m) BPS_DENOMINATOR)
  else Ok 0.

(** Consume rate-limiter capacity for the mint. *)
Definition consume_rate_limit (m : Market) (now amount : Z) : result Error Market :=
  if 0 <? rl_cap m then
    new_accrued ← fail_with
      (ratelimit_consume (rl_accrued m) (rl_last_update m) now (rl_cap m) RATELIMIT_WINDOW_SECS amount)
      FusdError.RateLimitExceeded;
    Ok (m <| rl_accrued := new_accrued |> <| rl_last_update := now |>)
  else Ok m.

Definition borrow (clk : Clock) (k : Accounts) (t : Touch) (amount : Z) : result Error Touch :=
  let m := t_market t in let p := t_position t in let l := t_ledger t in
  _ ← position_constraints k m p;
  _ ← ata_constraints l (acc_fusd_ata k) fusd_mint (acc_signer k);
  _ ← check (0 <? amount) FusdError.ZeroAmount;
  let now := unix_timestamp clk in
  let art_before := recorded_debt p in
  old_weighted ← weighted p;
  m ← accrue m now;
  p ← realize m p now;
  _ ← borrow_open clk m;
  fee ← borrow_fee m amount;
  d ← math (supply_borrow (agg_recorded_debt m) (unminted_interest m) amount fee);
  new_debt ← math (checked_add128 (recorded_debt p) (bd_debt_delta d));
  _ ← check (is_healthy (ink p) new_debt (spot m) (mcr_bps m)) FusdError.BelowMinCollateralRatio;
  _ ← check ((min_debt m =? 0) || (min_debt m <=? new_debt)) FusdError.DebtBelowMinimum;
  _ ← check (bd_new_agg d <=? debt_ceiling m) FusdError.DebtCeilingExceeded;
  _ ← (if 0 <? ccr_bps m then
         check (negb (tcr_below (total_collateral m) (bd_new_agg d) (spot m) (ccr_bps m)))
           FusdError.CcrRestricted
       else Ok tt);
  m ← consume_rate_limit m now amount;
  let p := p <| recorded_debt := new_debt |> in
  let m := m <| agg_recorded_debt := bd_new_agg d |> <| unminted_interest := bd_new_unminted d |> in
  m ← reweight m p old_weighted;
  '(m, p) ← redist.set_stake m p;
  l ← cpi (token_mint_to l fusd_mint (acc_fusd_ata k) amount);
  '(bm, p) ← reconcile (t_bitmap t) m p art_before;
  Ok (mkTouch m p bm l).

(** ** [repay.rs] *)

Definition restore_rate_limit (m : Market) (now amount : Z) : Market :=
  if 0 <? rl_cap m then
    m <| rl_accrued := ratelimit_restore (rl_accrued m) (rl_last_update m) now (rl_cap m)
                         RATELIMIT_WINDOW_SECS amount |>
      <| rl_last_update := now |>
  else m.

Definition repay (clk : Clock) (k : Accounts) (t : Touch) (amount : Z) : result Error Touch :=
  let m := t_market t in let p := t_position t in let l := t_ledger t in
  _ ← position_constraints k m p;
  _ ← ata_constraints l (acc_fusd_ata k) fusd_mint (acc_signer k);
  _ ← check (0 <? amount) FusdError.ZeroAmount;
  let now := unix_timestamp clk in
  let art_before := recorded_debt p in
  old_weighted ← weighted p;
  m ← accrue m now;
  p ← realize m p now;
  let current_debt := recorded_debt p in
  if current_debt =? 0 then
    '(m, p) ← redist.set_stake m p;
    Ok (mkTouch m p (t_bitmap t) l)
  else
    d ← math (supply_repay (agg_recorded_debt m) current_debt amount);
    let repay_amount := as_u64 (rd_burn d) in
    let resulting_debt := rd_new_position_debt d in
    _ ← check ((min_debt m =? 0) || (resulting_debt =? 0) || (min_debt m <=? resulting_debt))
          FusdError.DebtBelowMinimum;
    l ← cpi (token_burn l fusd_mint (acc_fusd_ata k) (acc_signer k) repay_amount);
    let p := p <| recorded_debt := rd_new_position_debt d |> in
    let m := m <| agg_recorded_debt := rd_new_agg d |> in
    m ← reweight m p old_weighted;
    '(m, p) ← redist.set_stake m p;
    let m := restore_rate_limit m now repay_amount in
    '(bm, p) ← reconcile (t_bitmap t) m p art_before;
    Ok (mkTouch m p bm l).

(** ** [adjust_rate.rs] *)

(** The premature-adjustment fee and the health re-check that follows it. *)
Definition charge_adjust_fee (clk : Clock) (m : Market) (p : Position) (new_rate_bps : Z)
    : result Error (Market * Position) :=
  let now := unix_timestamp clk in
  let cooldown := rate_adjust_cooldown_secs m in
  let within_cooldown :=
    (0 <? cooldown) && (now <? sat_add_i64 (last_rate_adjust_ts p) cooldown) in
  if within_cooldown && (0 <? recorded_debt p) then
    fee ← math (premature_adjustment_fee (recorded_debt p) new_rate_bps (as_u64 cooldown));
    debt ← math (checked_add128 (recorded_debt p) fee);
    let p := p <| recorded_debt := debt |> in
    d ← math (supply_book_interest (agg_recorded_debt m) (unminted_interest m) fee);
    let m := m <| agg_recorded_debt := id_new_agg d |> <| unminted_interest := id_new_unminted d |> in
    _ ← check (0 <? spot m) FusdError.OracleUnavailable;
    _ ← check (fresh_price clk m) FusdError.StalePrice;
    _ ← check (is_healthy (ink p) (recorded_debt p) (spot m) (mcr_bps m))
          FusdError.BelowMinCollateralRatio;
    _ ← (if (0 <? ccr_bps m) && negb (shutdown m) then
           check (negb (tcr_below (total_collateral m) (agg_recorded_debt m) (spot m) (ccr_bps m)))
             FusdError.CcrRestricted
         else Ok tt);
    Ok (m, p)
  else Ok (m, p).

Definition adjust_rate (clk : Clock) (k : Accounts) (t : Touch) (new_rate_bps : Z)
    : result Error Touch :=
  let m := t_market t in let p := t_position t in
  _ ← position_constraints k m p;
  _ ← check (negb (shutdown m)) FusdError.MarketShutdown;
  _ ← check ((MIN_USER_RATE_BPS <=? new_rate_bps) && (new_rate_bps <=? MAX_USER_RATE_BPS))
        FusdError.InterestRateOutOfBounds;
  let now := unix_timestamp clk in
  let art_before := recorded_debt p in
  old_weighted ← weighted p;
  m ← accrue m now;
  p ← realize m p now;
  '(m, p) ← charge_adjust_fee clk m p new_rate_bps;
  let p := p <| last_rate_adjust_ts := now |> <| user_rate_bps := new_rate_bps |> in
  m ← reweight m p old_weighted;
  '(m, p) ← redist.set_stake m p;
  '(bm, p) ← reconcile (t_bitmap t) m p art_before;
  Ok (mkTouch m p bm (t_ledger t)).

End position_ops.
