(* ===== verification/TouchEffect.v ===== *)
(** * The effect of one position touch

    What every position instruction does to the books, stated once: after the
    market has accrued, the position's contribution to each aggregate is replaced
    by its new one, its claim on the market does not grow faster than the market's
    own counters, and the token moves equal the change in the counters they back.
    The instructions' theorems and the system invariants are proved from it. *)

From S2P Require Import Prelude MachineInt FixedPoint Interest Redistribution SupplyTransition Cdp.
From S2P Require Import State Token Accrual Bucket PositionOps.

Open Scope Z_scope.

(** The collateral counters the vault backs, and the supply the debt counters back. *)
Definition tracked (m : Market) : Z :=
  total_collateral m + surplus_collateral m + total_coll_surplus m + protocol_collateral m.

Definition backed_by (m : Market) : Z := backed (agg_recorded_debt m) (unminted_interest m) (bad_debt m).

(** The accumulators and clock all positions refer to. *)
Record same_accumulators (m m' : Market) : Prop := {
  sa_ts : last_update_ts m' = last_update_ts m;
  sa_l_coll : l_coll m' = l_coll m;
  sa_l_art : l_art m' = l_art m;
  sa_coll_error : last_coll_redist_error m' = last_coll_redist_error m;
  sa_art_error : last_art_redist_error m' = last_art_redist_error m;
}.

Record same_identity (m m' : Market) : Prop := {
  si_mint : collateral_mint m' = collateral_mint m;
  si_vault : collateral_vault m' = collateral_vault m;
}.

Record local_effect (m : Market) (p : Position) (m' : Market) (p' : Position) : Prop := {
  le_acc : same_accumulators m m';
  le_id : same_identity m m';
  le_weight : agg_weighted_debt_sum m' = agg_weighted_debt_sum m - weight p + weight p';
  le_stakes : total_stakes m' = total_stakes m - stake p + stake p';
  le_debt : PRECISION * INTEREST_DENOM * agg_recorded_debt m - debt_share m p
    <= PRECISION * INTEREST_DENOM * agg_recorded_debt m' - debt_share m' p';
  le_coll : PRECISION * total_collateral m - coll_share m p
    <= PRECISION * total_collateral m' - coll_share m' p';
  le_surplus : total_coll_surplus m' - coll_surplus p' = total_coll_surplus m - coll_surplus p;
  le_market_ok : market_ok m';
  le_position_ok : position_ok m' p';
  le_owner : owner p' = owner p /\ pos_collateral_mint p' = pos_collateral_mint p;
}.

(** The instruction's own change, made on a realized position. *)
Record edited (m : Market) (p : Position) (m' : Market) (p' : Position) : Prop := {
  ed_acc : same_accumulators m m';
  ed_id : same_identity m m';
  ed_debt : agg_recorded_debt m' - recorded_debt p' = agg_recorded_debt m - recorded_debt p;
  ed_coll : total_collateral m' - ink p' = total_collateral m - ink p;
  ed_surplus : total_coll_surplus m' - coll_surplus p' = total_coll_surplus m - coll_surplus p;
  ed_weighted : agg_weighted_debt_sum m' = agg_weighted_debt_sum m;
  ed_stakes : total_stakes m' = total_stakes m;
  ed_stake : stake p' = stake p;
  ed_clock : last_debt_update p' = last_debt_update p;
  ed_snap_coll : redist_l_coll_snapshot p' = redist_l_coll_snapshot p;
  ed_snap_art : redist_l_art_snapshot p' = redist_l_art_snapshot p;
  ed_owner : owner p' = owner p /\ pos_collateral_mint p' = pos_collateral_mint p;
  ed_market_ok : market_ok m';
  ed_ink : u64 (ink p');
  ed_recorded : u128 (recorded_debt p');
  ed_rate : u16 (user_rate_bps p');
}.

Section touch.
Context {U : U256} {R : Runtime}.

Lemma market_ok_weighted m x : market_ok m -> u128 x -> market_ok (m <| agg_weighted_debt_sum := x |>).
Proof. intros [] ?. by constructor. Qed.

(** Realize, edit, reweight, set the stake: the position's books follow. *)
Lemma touch_books m p p1 m2 p2 m3 m4 p4 :
  market_ok m -> realized m p p1 -> edited m p1 m2 p2 ->
  reweight m2 p2 (weight p) = Ok m3 -> redist.set_stake m3 p2 = Ok (m4, p4) ->
  local_effect m p m4 p4 /\
  m4 = m2 <| agg_weighted_debt_sum := agg_weighted_debt_sum m4 |> <| total_stakes := total_stakes m4 |> /\
  p4 = p2 <| stake := stake p4 |>.
Proof.
  intros Hm Hr He Hw Hs. pose proof Hr as []. pose proof He as [].
  apply reweight_Ok in Hw as [-> Hw].
  apply set_stake_Ok in Hs as (s & -> & -> & Hsu & Hs0 & Hst);
    [|by apply market_ok_weighted | done].
  pose proof ed_acc0 as []. pose proof rz_ok as []. cbn in *.
  split; [|done]. constructor; cbn; try done.
  - destruct ed_id0. by constructor.
  - unfold weight in *. cbn. lia.
  - lia.
  - unfold debt_share, weight in *. cbn. rewrite sa_ts0, sa_l_art0, ed_clock0, ed_snap_art0, rz_clock, rz_snap_art.
    rewrite !Z.sub_diag, !Z.mul_0_r. lia.
  - unfold coll_share in *. cbn. rewrite sa_l_coll0, ed_snap_coll0, rz_snap_coll, Z.sub_diag. lia.
  - destruct rz_frame. lia.
  - destruct ed_market_ok0. by constructor.
  - constructor; cbn; try done; try congruence; rewrite ?sa_l_coll0, ?sa_l_art0, ?sa_ts0; try lia.
  - destruct rz_frame, ed_owner0. split; congruence.
Qed.

(** Fields the books do not read. *)
Lemma local_effect_cosmetic m p m' p' x y z b :
  local_effect m p m' p' ->
  local_effect m p (m' <| rl_accrued := x |> <| rl_last_update := y |>)
    (p' <| pos_reserve_lamports := z |> <| bucket := b |>).
Proof.
  intros [[] [] Hw Hs Hd Hc Hsp [] [] Ho]. constructor; try done; constructor; done.
Qed.

(** The whole touch. *)
Record touch_effect (now : Z) (t t' : Touch) : Prop := {
  te_books : exists m1 dI, accrued_to (t_market t) now m1 dI /\
    local_effect m1 (t_position t) (t_market t') (t_position t');
  te_ledger : moved (collateral_vault (t_market t)) fusd_mint (t_ledger t) (t_ledger t')
    (tracked (t_market t') - tracked (t_market t)) (backed_by (t_market t') - backed_by (t_market t));
  te_coupled : coupled (t_bitmap t');
  te_count : forall b, 0 <= b -> count_of (t_bitmap t') b = count_of (t_bitmap t) b
    - member (recorded_debt (t_position t)) (bucket (t_position t)) b
    + member (recorded_debt (t_position t')) (bucket (t_position t')) b;
  te_label : label_ok (t_position t');
}.

(** What a touch may start from. *)
Record touch_ok (now : Z) (t : Touch) : Prop := {
  to_market : market_ok (t_market t);
  to_position : position_ok (t_market t) (t_position t);
  to_now : timestamp now /\ last_update_ts (t_market t) <= now;
  to_coupled : coupled (t_bitmap t);
  to_label : label_ok (t_position t);
  to_vault : tok_owner (t_ledger t) (collateral_vault (t_market t))
    = market_pda (collateral_mint (t_market t));
}.

Lemma position_ok_accrued m now m1 dI p : last_update_ts m <= now -> accrued_to m now m1 dI ->
  position_ok m p -> position_ok m1 p.
Proof.
  intros Hle [] []. rewrite ac_rest. constructor; cbn; try done.
  intros Hd. specialize (pk_ts Hd). rewrite ac_ts. destruct (shutdown m); lia.
Qed.

(** [accrue] then [realize], from a well-formed touch. *)
Lemma accrue_realize now t m1 p1 : touch_ok now t ->
  accrue (t_market t) now = Ok m1 -> realize m1 (t_position t) now = Ok p1 ->
  exists dI, accrued_to (t_market t) now m1 dI /\ realized m1 (t_position t) p1 /\ market_ok m1.
Proof.
  intros [] Ha Hr. destruct to_now0. apply accrue_Ok in Ha as [dI Ha]; [|done..].
  pose proof (ac_ok _ _ _ _ Ha). exists dI. split; [done|]. split; [|done].
  eapply realize_Ok; [done | by eapply position_ok_accrued | done | by eapply accrued_synced | done].
Qed.

(** The closing reconciliation, from a position whose label the touch kept. *)
Lemma reconcile_touch bm m p debt0 label0 bm' p' :
  coupled bm -> market_ok m -> position_ok m p -> (0 < debt0 -> 0 <= label0 <= ZOMBIE_BUCKET) ->
  bucket p = label0 -> reconcile bm m p debt0 = Ok (bm', p') ->
  coupled bm' /\ label_ok p' /\ p' = p <| bucket := bucket p' |> /\
  forall b, 0 <= b -> count_of bm' b
    = count_of bm b - member debt0 label0 b + member (recorded_debt p') (bucket p') b.
Proof.
  intros Hc [] [] Hl <- H. apply reconcile_Ok in H as [Hc' Hp' Hcnt Hlab]; [|done||rlia..].
  split; [done|]. assert (recorded_debt p' = recorded_debt p) as Ed by (by rewrite Hp').
  split; [|split; [done|by rewrite Ed]]. intros Hd. apply Hlab. by rewrite <- Ed.
Qed.

End touch.
