(* ===== verification/PositionProofs.v ===== *)
(** * Each position instruction is a touch

    The effect of [deposit], [withdraw], [borrow], [repay] and [adjust_rate] on
    the books, the ledger and the redemption index, and what each guard
    guarantees when the instruction succeeds. *)

From S2P Require Import Prelude MachineInt FixedPoint Interest Redistribution SupplyTransition Cdp.
From S2P Require Import State Token Accrual Bucket PositionOps TouchEffect.

Open Scope Z_scope.

Section position_proofs.
Context {U : U256} {R : Runtime}.

Lemma accrued_same m now m1 dI : accrued_to m now m1 dI ->
  same_identity m m1 /\ tracked m1 = tracked m /\ backed_by m1 = backed_by m.
Proof.
  intros []. unfold tracked, backed_by, backed. rewrite ac_agg, ac_unminted.
  assert (bad_debt m1 = bad_debt m /\ total_collateral m1 = total_collateral m /\
    surplus_collateral m1 = surplus_collateral m /\ total_coll_surplus m1 = total_coll_surplus m /\
    protocol_collateral m1 = protocol_collateral m /\ collateral_mint m1 = collateral_mint m /\
    collateral_vault m1 = collateral_vault m) as (-> & -> & -> & -> & -> & ? & ?)
    by (rewrite ac_rest; done).
  split; [by constructor|]. lia.
Qed.

(** A user's token account is never the market's vault. *)
Lemma ata_not_vault l m ata mint signer u :
  tok_owner l (collateral_vault m) = market_pda (collateral_mint m) ->
  signer <> market_pda (collateral_mint m) ->
  ata_constraints l ata mint signer = Ok u -> bool_decide (collateral_vault m = ata) = false.
Proof.
  intros Hv Hs H. unfold ata_constraints in H. inv_ok H.
  apply bool_decide_eq_false. intros E. rewrite <- E in *. congruence.
Qed.

Lemma touch_ok_clock now t : touch_ok now t -> timestamp now.
Proof. intros []. tauto. Qed.

(** Assemble the effect from the books, the ledger and the reconciliation. *)
Lemma build_touch now t m1 dI m4 p4 l' bm' p5 m5 dv ds x y z :
  touch_ok now t -> accrued_to (t_market t) now m1 dI ->
  local_effect m1 (t_position t) m4 p4 ->
  m5 = m4 <| rl_accrued := x |> <| rl_last_update := y |> ->
  bucket p4 = bucket (t_position t) ->
  moved (collateral_vault (t_market t)) fusd_mint (t_ledger t) l' dv ds ->
  dv = tracked m4 - tracked (t_market t) -> ds = backed_by m4 - backed_by (t_market t) ->
  reconcile (t_bitmap t) m5 (p4 <| pos_reserve_lamports := z |>) (recorded_debt (t_position t))
    = Ok (bm', p5) ->
  touch_effect now t (mkTouch m5 p5 bm' l').
Proof.
  intros Hok Hacc Hle -> Hb Hmv -> -> Hrec.
  pose proof (local_effect_cosmetic _ _ _ _ x y z (bucket p4) Hle) as Hle1.
  assert (p4 <| pos_reserve_lamports := z |> <| bucket := bucket p4 |>
    = p4 <| pos_reserve_lamports := z |>) as E by (by destruct p4).
  rewrite E in Hle1. destruct Hok.
  eapply reconcile_touch in Hrec as (Hc & Hl & Ep & Hcnt);
    [|done | by destruct Hle1 | by destruct Hle1 | exact to_label | done].
  constructor; cbn; try done.
  exists m1, dI. split; [done|]. rewrite Ep.
  apply (local_effect_cosmetic _ _ _ _ x y z (bucket p5)) in Hle. exact Hle.
Qed.

Lemma eta_rl m : m = m <| rl_accrued := rl_accrued m |> <| rl_last_update := rl_last_update m |>.
Proof. by destruct m. Qed.

Lemma eta_reserve p : p = p <| pos_reserve_lamports := pos_reserve_lamports p |>.
Proof. by destruct p. Qed.

Lemma top_up_bond_Ok k m p l p' l' v f : top_up_bond k m p l = Ok (p', l') ->
  (exists z, p' = p <| pos_reserve_lamports := z |>) /\ moved v f l l' 0 0.
Proof.
  intros H. unfold top_up_bond in H. destruct (_ <? _).
  - inv_ok H. injection H as <- <-. apply (moved_lamports v f) in Hrun. eauto.
  - injection H as <- <-. split; [exists (pos_reserve_lamports p); apply eta_reserve | apply moved_refl].
Qed.

Lemma deposit_edit m p amount : market_ok m -> position_ok m p -> 0 <= amount ->
  u64 (ink p + amount) -> u128 (total_collateral m + amount) ->
  edited m p (m <| total_collateral := total_collateral m + amount |>) (set_ink p (ink p + amount)).
Proof. intros [] [] ? ? ?. rewrite set_ink_eq. constructor; cbn; try done; try lia; by constructor. Qed.

Lemma deposit_touch clk k t amount t' :
  touch_ok (unix_timestamp clk) t -> acc_signer k <> market_pda (collateral_mint (t_market t)) ->
  deposit clk k t amount = Ok t' -> touch_effect (unix_timestamp clk) t t'.
Proof.
  intros Hok Hsig H. unfold deposit in H. set (now := unix_timestamp clk) in *.
  bind H as ? Hvk. bind H as ? Hpk. bind H as ? Hata. bind H as ? Hamt. bind H as old Hold.
  bind H as l1 Hl1. bind H as m1 Hm1. bind H as p1 Hp1. bind H as ni Hni. bind H as tc Htc.
  bind H as m3 Hm3. bind H as [m4 p4] Hs. bind H as [p5 l2] Hbond. bind H as [bm p6] Hrec.
  bind H as ? Hsuf. injection H as <-.
  apply weighted_Ok in Hold as [-> _]. inv_ok Hvk. inv_ok Hni. inv_ok Htc. inv_ok Hl1. inv_ok Hamt.
  checked. destruct (accrue_realize now t m1 p1 Hok Hm1 Hp1) as (dI & Hacc & Hrz & Hm1ok).
  subst ni tc.
  eapply touch_books in Hs as (Hle & Em4 & Ep4);
    [|done|exact Hrz|apply deposit_edit; try done; [by destruct Hrz | lia]|done].
  apply (top_up_bond_Ok _ _ _ _ _ _ (collateral_vault (t_market t)) fusd_mint) in Hbond
    as [[z ->] Hmv2].
  pose proof (ata_not_vault _ _ _ _ _ _ (to_vault _ _ Hok) Hsig Hata) as Hne.
  apply (moved_transfer (collateral_vault (t_market t)) fusd_mint) in Hl1.
  rewrite Hvk, Hne, bool_decide_true in Hl1 by done.
  destruct (accrued_same _ _ _ _ Hacc) as (_ & Etr & Ebk).
  eapply build_touch; [exact Hok|exact Hacc|exact Hle|apply eta_rl| |
    eapply moved_trans; [exact Hl1|exact Hmv2]| | |exact Hrec].
  - rewrite Ep4, set_ink_eq. cbn. by destruct Hrz.
  - rewrite Em4, <- Etr. unfold tracked. cbn. lia.
  - rewrite Em4, <- Ebk. unfold backed_by, backed. cbn. lia.
Qed.

Lemma withdraw_edit m p amount : market_ok m -> position_ok m p ->
  0 <= amount <= ink p -> u128 (total_collateral m - amount) ->
  edited m p (m <| total_collateral := total_collateral m - amount |>) (set_ink p (ink p - amount)).
Proof.
  intros [] [] ? ?. rewrite set_ink_eq. constructor; cbn; try done; try rlia; by constructor.
Qed.

Lemma withdraw_touch clk k t amount t' :
  touch_ok (unix_timestamp clk) t -> acc_signer k <> market_pda (collateral_mint (t_market t)) ->
  withdraw clk k t amount = Ok t' -> touch_effect (unix_timestamp clk) t t'.
Proof.
  intros Hok Hsig H. unfold withdraw in H. set (now := unix_timestamp clk) in *.
  bind H as ? Hvk. bind H as ? Hpk. bind H as ? Hata. bind H as ? Hamt. bind H as old Hold.
  bind H as m1 Hm1. bind H as p1 Hp1. bind H as ? Hge. bind H as ? Hg. bind H as l1 Hl1.
  bind H as tc Htc. bind H as m3 Hm3. bind H as [m4 p4] Hs. bind H as [bm p6] Hrec.
  bind H as ? Hsuf. injection H as <-.
  apply weighted_Ok in Hold as [-> _]. inv_ok Hvk. inv_ok Hge. inv_ok Htc. inv_ok Hl1. inv_ok Hamt.
  checked. destruct (accrue_realize now t m1 p1 Hok Hm1 Hp1) as (dI & Hacc & Hrz & Hm1ok).
  subst tc.
  eapply touch_books in Hs as (Hle & Em4 & Ep4);
    [|done|exact Hrz|apply withdraw_edit; try done; [by destruct Hrz | lia]|done].
  pose proof (ata_not_vault _ _ _ _ _ _ (to_vault _ _ Hok) Hsig Hata) as Hne.
  apply (moved_transfer (collateral_vault (t_market t)) fusd_mint) in Hl1.
  rewrite Hvk, Hne, bool_decide_true in Hl1 by done.
  destruct (accrued_same _ _ _ _ Hacc) as (_ & Etr & Ebk).
  rewrite (eta_reserve p4) in Hrec.
  eapply build_touch; [exact Hok|exact Hacc|exact Hle|apply eta_rl| |exact Hl1| | |exact Hrec].
  - rewrite Ep4, set_ink_eq. cbn. by destruct Hrz.
  - rewrite Em4, <- Etr. unfold tracked. cbn. lia.
  - rewrite Em4, <- Ebk. unfold backed_by, backed. cbn. lia.
Qed.

Lemma borrow_edit m p d x y : market_ok m -> position_ok m p ->
  u128 (recorded_debt p + bd_debt_delta d) ->
  bd_new_agg d = agg_recorded_debt m + bd_debt_delta d -> u128 (bd_new_agg d) ->
  u128 (bd_new_unminted d) ->
  edited m p (m <| rl_accrued := x |> <| rl_last_update := y |>
                <| agg_recorded_debt := bd_new_agg d |> <| unminted_interest := bd_new_unminted d |>)
    (p <| recorded_debt := recorded_debt p + bd_debt_delta d |>).
Proof. intros [] [] ? ? ? ?. constructor; cbn; try done; try lia; by constructor. Qed.

Lemma consume_rate_limit_Ok m now amount m' : consume_rate_limit m now amount = Ok m' ->
  exists x y, m' = m <| rl_accrued := x |> <| rl_last_update := y |>.
Proof.
  intros H. unfold consume_rate_limit in H. destruct (0 <? rl_cap m).
  - inv_ok H. eauto.
  - injection H as <-. exists (rl_accrued m), (rl_last_update m). apply eta_rl.
Qed.

Lemma borrow_touch clk k t amount t' :
  touch_ok (unix_timestamp clk) t -> acc_signer k <> market_pda (collateral_mint (t_market t)) ->
  borrow clk k t amount = Ok t' -> touch_effect (unix_timestamp clk) t t'.
Proof.
  intros Hok Hsig H. unfold borrow in H. set (now := unix_timestamp clk) in *.
  bind H as ? Hpk. bind H as ? Hata. bind H as ? Hamt. bind H as old Hold.
  bind H as m1 Hm1. bind H as p1 Hp1. bind H as ? Hopen. bind H as fee Hfee. bind H as d Hd.
  bind H as nd Hnd. bind H as ? Hh. bind H as ? Hmin. bind H as ? Hceil. bind H as ? Hccr.
  bind H as m2 Hrl. bind H as m3 Hm3. bind H as [m4 p4] Hs. bind H as l1 Hl1.
  bind H as [bm p6] Hrec. injection H as <-.
  apply weighted_Ok in Hold as [-> _]. inv_ok Hd. inv_ok Hnd. inv_ok Hl1. checked. subst nd.
  apply supply_borrow_Ok in Hd as (Edelta & Eagg & Eum & Emint & ? & ? & ?).
  destruct (accrue_realize now t m1 p1 Hok Hm1 Hp1) as (dI & Hacc & Hrz & Hm1ok).
  apply consume_rate_limit_Ok in Hrl as (rx & ry & ->).
  eapply touch_books in Hs as (Hle & Em4 & Ep4);
    [|done|exact Hrz|apply borrow_edit; try done; [by destruct Hrz | lia]|done].
  pose proof (ata_not_vault _ _ _ _ _ _ (to_vault _ _ Hok) Hsig Hata) as Hne.
  apply (moved_mint_to (collateral_vault (t_market t)) fusd_mint) in Hl1. rewrite Hne in Hl1.
  destruct (accrued_same _ _ _ _ Hacc) as (_ & Etr & Ebk).
  rewrite (eta_reserve p4) in Hrec.
  eapply build_touch; [exact Hok|exact Hacc|exact Hle|apply eta_rl| |exact Hl1| | |exact Hrec].
  - rewrite Ep4. cbn. by destruct Hrz.
  - rewrite Em4, <- Etr. unfold tracked. cbn. lia.
  - rewrite Em4, <- Ebk. unfold backed_by, backed. cbn. lia.
Qed.

Lemma repay_edit m p d x : market_ok m -> position_ok m p ->
  rd_new_position_debt d = recorded_debt p - x -> rd_new_agg d = agg_recorded_debt m - x ->
  u128 (rd_new_position_debt d) -> u128 (rd_new_agg d) ->
  edited m p (m <| agg_recorded_debt := rd_new_agg d |>)
    (p <| recorded_debt := rd_new_position_debt d |>).
Proof. intros [] [] ? ? ? ?. constructor; cbn; try done; try lia; by constructor. Qed.

Lemma edited_refl m p : market_ok m -> position_ok m p -> edited m p m p.
Proof. intros Hm []. by constructor. Qed.

Lemma restore_rate_limit_eq m now x : exists a b,
  restore_rate_limit m now x = m <| rl_accrued := a |> <| rl_last_update := b |>.
Proof.
  unfold restore_rate_limit. destruct (0 <? rl_cap m); [eauto|].
  exists (rl_accrued m), (rl_last_update m). apply eta_rl.
Qed.

(** A position whose debt is zero after a realization had none before. *)
Lemma realized_zero m p p1 : position_ok m p -> realized m p p1 -> recorded_debt p1 = 0 ->
  recorded_debt p = 0.
Proof. intros [] [] E. rlia. Qed.

Lemma repay_touch clk k t amount t' :
  touch_ok (unix_timestamp clk) t -> acc_signer k <> market_pda (collateral_mint (t_market t)) ->
  u64 amount -> repay clk k t amount = Ok t' -> touch_effect (unix_timestamp clk) t t'.
Proof.
  intros Hok Hsig Hau H. unfold repay in H. set (now := unix_timestamp clk) in *.
  bind H as ? Hpk. bind H as ? Hata. bind H as ? Hamt. bind H as old Hold.
  bind H as m1 Hm1. bind H as p1 Hp1. apply weighted_Ok in Hold as [-> _].
  destruct (accrue_realize now t m1 p1 Hok Hm1 Hp1) as (dI & Hacc & Hrz & Hm1ok).
  destruct (accrued_same _ _ _ _ Hacc) as (_ & Etr & Ebk). pose proof (rz_ok _ _ _ Hrz) as Hp1ok.
  destruct (Z.eqb_spec (recorded_debt p1) 0) as [Ez|Hnz].
  - bind H as [m4 p4] Hs. injection H as <-.
    assert (recorded_debt (t_position t) = 0) as Ez0
      by (eapply realized_zero; [eapply position_ok_accrued; [|done|]|done|done]; apply Hok).
    assert (weight (t_position t) = 0 /\ weight p1 = 0) as [Ew Ew1]
      by (unfold weight; by rewrite Ez, Ez0).
    assert (reweight m1 p1 (weight (t_position t)) = Ok m1) as Hrw.
    { assert (weighted p1 = Ok 0) as E0 by (unfold weighted, weighted_debt; by rewrite Ez).
      pose proof (mo_weighted _ Hm1ok). unfold reweight. rewrite E0, Ew. step_ok.
      unfold math, fail_with, checked_add128, checked_sub128.
      rewrite Z.add_0_r, fit_in by rlia. step_ok. rewrite Z.sub_0_r, fit_in by rlia. step_ok.
      by destruct m1. }
    eapply touch_books in Hs as (Hle & Em4 & Ep4); [|done|exact Hrz|by apply edited_refl|done].
    constructor; cbn; [by exists m1, dI| |by destruct Hok| |].
    + eapply moved_eq; [apply moved_refl| |]; rewrite Em4, <- ?Etr, <- ?Ebk;
        unfold tracked, backed_by, backed; cbn; lia.
    + intros b Hb. unfold member. rewrite Ep4, Ez0. cbn. rewrite Ez. cbn. lia.
    + intros Hlt. rewrite Ep4 in Hlt. cbn in Hlt. lia.
  - bind H as d Hd. bind H as ? Hmin. bind H as l1 Hl1. bind H as m3 Hm3. bind H as [m4 p4] Hs.
    bind H as [bm p6] Hrec. injection H as <-. inv_ok Hd. inv_ok Hl1.
    apply supply_repay_Ok in Hd as (Eburn & Edebt & Eagg & ? & ?); [|rlia|destruct Hp1ok; rlia].
    assert (as_u64 (rd_burn d) = rd_burn d) as Eas.
    { apply Z.mod_small. destruct Hp1ok. rewrite Eburn. rlia. }
    rewrite Eas in *.
    eapply touch_books in Hs as (Hle & Em4 & Ep4);
      [|done|exact Hrz|by apply (repay_edit _ _ d (rd_burn d))|done].
    pose proof (ata_not_vault _ _ _ _ _ _ (to_vault _ _ Hok) Hsig Hata) as Hne.
    apply (moved_burn (collateral_vault (t_market t)) fusd_mint) in Hl1. rewrite Hne in Hl1.
    rewrite (eta_reserve p4) in Hrec.
    destruct (restore_rate_limit_eq m4 now (rd_burn d)) as (rx & ry & Erl).
    eapply build_touch; [exact Hok|exact Hacc|exact Hle|exact Erl| |exact Hl1| | |exact Hrec].
    + rewrite Ep4. cbn. by destruct Hrz.
    + rewrite Em4, <- Etr. unfold tracked. cbn. lia.
    + rewrite Em4, <- Ebk. unfold backed_by, backed. cbn. lia.
Qed.

(** The premature-adjustment fee enters the position, the aggregate and the unminted
    interest together. *)
Lemma charge_adjust_fee_Ok clk m p rate m' p' : market_ok m -> position_ok m p ->
  charge_adjust_fee clk m p rate = Ok (m', p') ->
  exists fee, p' = p <| recorded_debt := recorded_debt p + fee |> /\
    m' = m <| agg_recorded_debt := agg_recorded_debt m + fee |>
           <| unminted_interest := unminted_interest m + fee |> /\
    u128 (recorded_debt p + fee) /\ u128 (agg_recorded_debt m + fee) /\
    u128 (unminted_interest m + fee).
Proof.
  intros [] [] H. unfold charge_adjust_fee in H.
  destruct (_ && (0 <? recorded_debt p)).
  - bind H as fee Hfee. bind H as debt Hdebt. bind H as d Hd. inv_ok H. injection H as <- <-.
    inv_ok Hdebt. inv_ok Hd. checked. apply supply_book_Ok in Hd as (-> & -> & ? & ?). subst. by exists fee.
  - injection H as <- <-. exists 0. rewrite !Z.add_0_r. destruct m, p. done.
Qed.

Lemma adjust_edit m p fee ts rate : market_ok m -> position_ok m p -> u16 rate ->
  u128 (recorded_debt p + fee) -> u128 (agg_recorded_debt m + fee) ->
  u128 (unminted_interest m + fee) ->
  edited m p (m <| agg_recorded_debt := agg_recorded_debt m + fee |>
                <| unminted_interest := unminted_interest m + fee |>)
    (p <| recorded_debt := recorded_debt p + fee |> <| last_rate_adjust_ts := ts |>
       <| user_rate_bps := rate |>).
Proof. intros [] [] ? ? ? ?. constructor; cbn; try done; try lia; by constructor. Qed.

Lemma adjust_rate_touch clk k t rate t' :
  touch_ok (unix_timestamp clk) t -> adjust_rate clk k t rate = Ok t' ->
  touch_effect (unix_timestamp clk) t t'.
Proof.
  intros Hok H. unfold adjust_rate in H. set (now := unix_timestamp clk) in *.
  bind H as ? Hpk. bind H as ? Hsd. bind H as ? Hrate. bind H as old Hold. bind H as m1 Hm1.
  bind H as p1 Hp1. bind H as [m2 p2] Hfee. bind H as m3 Hm3. bind H as [m4 p4] Hs.
  bind H as [bm p6] Hrec. injection H as <-. apply weighted_Ok in Hold as [-> _].
  destruct (accrue_realize now t m1 p1 Hok Hm1 Hp1) as (dI & Hacc & Hrz & Hm1ok).
  destruct (accrued_same _ _ _ _ Hacc) as (_ & Etr & Ebk).
  apply charge_adjust_fee_Ok in Hfee as (fee & -> & -> & ? & ? & ?); [|done|by destruct Hrz].
  inv_ok Hrate.
  eapply touch_books in Hs as (Hle & Em4 & Ep4);
    [|done|exact Hrz|apply (adjust_edit m1 p1 fee now rate); try done; [by destruct Hrz|rlia]|done].
  rewrite (eta_reserve p4) in Hrec.
  eapply build_touch; [exact Hok|exact Hacc|exact Hle|apply eta_rl| |apply moved_refl| | |exact Hrec].
  - rewrite Ep4. cbn. by destruct Hrz.
  - rewrite Em4, <- Etr. unfold tracked. cbn. lia.
  - rewrite Em4, <- Ebk. unfold backed_by, backed. cbn. lia.
Qed.

End position_proofs.
