(* ===== verification/World.v ===== *)
(** * A market and all its positions

    The accounts of one collateral market, and the invariants of its books over
    the set of all open positions. *)

From S2P Require Import Prelude MachineInt FixedPoint Interest Redistribution SupplyTransition.
From S2P Require Import State Token Accrual Bucket PositionOps TouchEffect.

Open Scope Z_scope.

(** ** The books of a market *)

(** Every counter of the market over all its positions [ps]:
    - the weighted-debt sum and the total stake are the exact sums;
    - the aggregate debt covers every position's recorded debt, the interest it has
      not realized, and the redistributed debt still parked for it;
    - the total collateral covers every position's collateral and the redistributed
      collateral still parked for it;
    - the collateral owed to liquidated borrowers is the exact sum. *)
Record books (m : Market) (ps : gmap Pubkey Position) : Prop := {
  bk_market : market_ok m;
  bk_positions : map_Forall (fun _ p => position_ok m p) ps;
  bk_weight : agg_weighted_debt_sum m = msum weight ps;
  bk_stake : total_stakes m = msum stake ps;
  bk_debt : msum (debt_share m) ps + INTEREST_DENOM * last_art_redist_error m
    <= PRECISION * INTEREST_DENOM * agg_recorded_debt m;
  bk_coll : msum (coll_share m) ps + last_coll_redist_error m <= PRECISION * total_collateral m;
  bk_surplus : total_coll_surplus m = msum coll_surplus ps;
}.

(** The redemption index over all positions: every count is the number of positions
    with debt that carry that label, the words agree with the counts, and every
    position with debt carries a label. *)
Record indexed (bm : RedemptionBitmap) (ps : gmap Pubkey Position) : Prop := {
  ix_coupled : coupled bm;
  ix_count : forall b, 0 <= b -> count_of bm b = msum (fun p => member (recorded_debt p) (bucket p) b) ps;
  ix_labels : map_Forall (fun _ p => label_ok p) ps;
}.

Section books.
Context {U : U256}.

(** Accrual moves the clock all positions are measured against. *)
Lemma books_accrue m now m1 dI ps : last_update_ts m <= now -> accrued_to m now m1 dI ->
  books m ps -> books m1 ps.
Proof.
  intros Hle Hacc []. pose proof Hacc as []. constructor.
  - done.
  - intros k p Hk. eapply position_ok_accrued; [done|done|]. by eapply bk_positions0.
  - rewrite ac_rest. done.
  - rewrite ac_rest. done.
  - assert (msum (debt_share m1) ps = msum (debt_share m) ps
      + PRECISION * (last_update_ts m1 - last_update_ts m) * msum weight ps) as ->.
    { rewrite <- msum_scale, <- msum_add. apply msum_ext. intros p. unfold debt_share.
      rewrite ac_rest at 2. cbn. lia. }
    rewrite <- bk_weight0, ac_agg. rewrite ac_rest at 2. cbn. lia.
  - assert (msum (coll_share m1) ps = msum (coll_share m) ps) as ->
      by (apply msum_ext; intros p; unfold coll_share; rewrite ac_rest; done).
    rewrite ac_rest. done.
  - rewrite ac_rest. done.
Qed.

Lemma same_acc_shares m m' p : same_accumulators m m' ->
  debt_share m' p = debt_share m p /\ coll_share m' p = coll_share m p.
Proof.
  intros []. unfold debt_share, coll_share. by rewrite sa_ts, sa_l_art, sa_l_coll.
Qed.

Lemma same_acc_position m m' p : same_accumulators m m' -> position_ok m p -> position_ok m' p.
Proof. intros [] []. constructor; rewrite ?sa_ts, ?sa_l_art, ?sa_l_coll; done. Qed.

(** A local effect on one position keeps the books. *)
Lemma books_local m p m' p' ps k : ps !! k = Some p -> local_effect m p m' p' ->
  books m ps -> books m' (<[k := p']> ps).
Proof.
  intros Hk [Hacc Hid Hw Hs Hd Hc Hsp Hmok Hpok _] []. pose proof Hacc as []. constructor.
  - done.
  - apply map_Forall_insert_2; [done|]. intros k' q Hq.
    eapply same_acc_position; [done|]. by eapply bk_positions0.
  - rewrite (msum_update _ _ _ _ _ Hk), Hw. lia.
  - rewrite (msum_update _ _ _ _ _ Hk), Hs. lia.
  - rewrite (msum_update _ _ _ _ _ Hk).
    rewrite (msum_ext (debt_share m') (debt_share m)) by (intros; by apply same_acc_shares).
    destruct (same_acc_shares m m' p Hacc) as [-> _]. rewrite sa_art_error. lia.
  - rewrite (msum_update _ _ _ _ _ Hk).
    rewrite (msum_ext (coll_share m') (coll_share m)) by (intros; by apply same_acc_shares).
    destruct (same_acc_shares m m' p Hacc) as [_ ->]. rewrite sa_coll_error. lia.
  - rewrite (msum_update _ _ _ _ _ Hk). lia.
Qed.

(** Instructions that leave every counter of the books alone. *)
Record same_books (m m' : Market) : Prop := {
  sb_acc : same_accumulators m m';
  sb_id : same_identity m m';
  sb_weight : agg_weighted_debt_sum m' = agg_weighted_debt_sum m;
  sb_stakes : total_stakes m' = total_stakes m;
  sb_debt : agg_recorded_debt m' = agg_recorded_debt m;
  sb_coll : total_collateral m' = total_collateral m;
  sb_surplus : total_coll_surplus m' = total_coll_surplus m;
}.

Lemma books_same m m' ps : same_books m m' -> market_ok m' -> books m ps -> books m' ps.
Proof.
  intros [Hacc _ Hw Hs Hd Hc Hsp] Hok []. pose proof Hacc as []. constructor; try done; try congruence.
  - intros k p Hk. eapply same_acc_position; [done|]. by eapply bk_positions0.
  - rewrite (msum_ext (debt_share m') (debt_share m)) by (intros; by apply same_acc_shares).
    rewrite sa_art_error, Hd. done.
  - rewrite (msum_ext (coll_share m') (coll_share m)) by (intros; by apply same_acc_shares).
    rewrite sa_coll_error, Hc. done.
Qed.

(** An empty position has no share in any sum. *)
Lemma empty_shares m p : recorded_debt p = 0 -> ink p = 0 -> stake p = 0 ->
  weight p = 0 /\ debt_share m p = 0 /\ coll_share m p = 0.
Proof. intros Ed Ei Es. unfold debt_share, coll_share, weight. rewrite Ed, Ei, Es. lia. Qed.

(** Opening an empty position. *)
Lemma books_open m ps k p : ps !! k = None -> position_ok m p -> recorded_debt p = 0 -> ink p = 0 ->
  stake p = 0 -> coll_surplus p = 0 -> books m ps -> books m (<[k := p]> ps).
Proof.
  intros Hk Hp Ed Ei Es Ec []. destruct (empty_shares m p Ed Ei Es) as (? & ? & ?).
  constructor; try done; rewrite ?msum_insert by done; try lia. by apply map_Forall_insert_2.
Qed.

(** Closing an empty position. *)
Lemma books_close m ps k p : ps !! k = Some p -> recorded_debt p = 0 -> ink p = 0 -> coll_surplus p = 0 ->
  books m ps -> books m (delete k ps).
Proof.
  intros Hk Ed Ei Ec []. pose proof (bk_positions0 _ _ Hk) as [].
  assert (stake p = 0) as Es by (by apply pk_no_ink).
  destruct (empty_shares m p Ed Ei Es) as (? & ? & ?).
  pose proof (fun f => msum_delete f _ _ _ Hk) as Hdel.
  rewrite Hdel in bk_weight0. rewrite Hdel in bk_stake0. rewrite Hdel in bk_debt0.
  rewrite Hdel in bk_coll0. rewrite Hdel in bk_surplus0.
  constructor; try done; try lia. by apply map_Forall_delete.
Qed.

(** What the books promise: the aggregates dominate the positions. *)
Lemma debt_share_lower m p : position_ok m p ->
  PRECISION * INTEREST_DENOM * recorded_debt p <= debt_share m p.
Proof.
  intros []. unfold debt_share, weight.
  assert (0 <= recorded_debt p * user_rate_bps p * (last_update_ts m - last_debt_update p)).
  { destruct (Z.eq_dec (recorded_debt p) 0) as [->|]; [lia|].
    specialize (pk_ts ltac:(rlia)). apply Z.mul_nonneg_nonneg; [apply Z.mul_nonneg_nonneg|]; rlia. }
  assert (0 <= stake p * (l_art m - redist_l_art_snapshot p)) by (unfold u128 in *; nia). lia.
Qed.

Lemma coll_share_lower m p : position_ok m p -> PRECISION * ink p <= coll_share m p.
Proof.
  intros []. unfold coll_share.
  assert (0 <= stake p * (l_coll m - redist_l_coll_snapshot p)) by (unfold u128 in *; nia). lia.
Qed.

Lemma books_debt_covered m ps : books m ps -> msum recorded_debt ps <= agg_recorded_debt m.
Proof.
  intros []. destruct bk_market0.
  assert (PRECISION * INTEREST_DENOM * msum recorded_debt ps <= msum (debt_share m) ps).
  { rewrite <- msum_scale. apply msum_le. intros k p Hk. apply debt_share_lower. by eapply bk_positions0. }
  rlia.
Qed.

Lemma books_coll_covered m ps : books m ps -> msum ink ps <= total_collateral m.
Proof.
  intros []. destruct bk_market0.
  assert (PRECISION * msum ink ps <= msum (coll_share m) ps).
  { rewrite <- msum_scale. apply msum_le. intros k p Hk. apply coll_share_lower. by eapply bk_positions0. }
  rlia.
Qed.

(** ** The index *)

(** A count is positive exactly when it has a member. *)
Lemma member_sum ps b : 0 < msum (fun p => member (recorded_debt p) (bucket p) b) ps <->
  exists k p, ps !! k = Some p /\ 0 < recorded_debt p /\ bucket p = b.
Proof.
  split.
  - induction ps as [|k p ps Hk IH] using map_ind; [rewrite msum_empty; lia|].
    rewrite msum_insert by done. unfold member at 1.
    destruct ((0 <? recorded_debt p) && (bucket p =? b)) eqn:E.
    + intros _. propify. exists k, p. by rewrite lookup_insert_eq.
    + intros H. destruct (IH H) as (k' & q & Hq & ?). exists k', q.
      rewrite lookup_insert_ne by congruence. done.
  - intros (k & p & Hk & Hd & <-). eapply Z.lt_le_trans; [|apply (msum_lookup_le
      (fun p0 => member (recorded_debt p0) (bucket p0) (bucket p)) _ _ _
      (fun _ a _ => proj1 (member_range _ _ _)) Hk)].
    unfold member. rewrite (proj2 (Z.ltb_lt _ _)) by done. by rewrite Z.eqb_refl.
Qed.

Lemma indexed_update bm bm' ps k p p' : ps !! k = Some p ->
  coupled bm' -> label_ok p' ->
  (forall b, 0 <= b -> count_of bm' b = count_of bm b - member (recorded_debt p) (bucket p) b
     + member (recorded_debt p') (bucket p') b) ->
  indexed bm ps -> indexed bm' (<[k := p']> ps).
Proof.
  intros Hk Hc Hl Hcnt []. constructor; [done| |by apply map_Forall_insert_2].
  intros b Hb. rewrite (msum_update _ _ _ _ _ Hk), Hcnt, ix_count0 by done. lia.
Qed.

Lemma indexed_open bm ps k p : ps !! k = None -> recorded_debt p = 0 ->
  indexed bm ps -> indexed bm (<[k := p]> ps).
Proof.
  intros Hk Ed []. constructor; [done| |].
  - intros b Hb. rewrite msum_insert by done. rewrite ix_count0 by done. unfold member at 2. by rewrite Ed.
  - apply map_Forall_insert_2; [|done]. intros H. lia.
Qed.

Lemma indexed_close bm ps k p : ps !! k = Some p -> recorded_debt p = 0 ->
  indexed bm ps -> indexed bm (delete k ps).
Proof.
  intros Hk Ed []. constructor; [done| |by apply map_Forall_delete].
  intros b Hb. rewrite ix_count0 by done. rewrite (msum_delete _ _ _ _ Hk). unfold member at 1. by rewrite Ed.
Qed.

End books.
