(* ===== verification/Reactor.v ===== *)
(** * Reactor-Pool glue ([programs/fusd-core/src/reactor.rs]) *)

From S2P Require Import Prelude MachineInt FixedPoint ReactorMath State.

Open Scope Z_scope.

Module reactor.

Definition pool_state (r : ReactorPool) : PoolState :=
  mkPoolState (rp_p r) (rp_epoch r) (rp_scale r) (rp_total_deposits r) (rp_last_coll_error r)
    (rp_last_loss_error r).

Definition write_back (r : ReactorPool) (ps : PoolState) : ReactorPool :=
  r <| rp_p := ps_p ps |> <| rp_epoch := ps_epoch ps |> <| rp_scale := ps_scale ps |>
    <| rp_total_deposits := ps_total_deposits ps |>
    <| rp_last_coll_error := ps_last_coll_error ps |>
    <| rp_last_loss_error := ps_last_loss_error ps |>.

Definition snapshot_of (dep : ReactorDeposit) : Snapshot :=
  mkSnapshot (snapshot_p dep) (snapshot_s dep) (snapshot_scale dep) (snapshot_epoch dep).

Definition map_reactor_err (e : ReactorError.t) : Error :=
  Fusd match e with
       | ReactorError.NoDeposits | ReactorError.DebtExceedsDeposits => FusdError.ReactorPoolTooSmall
       | ReactorError.ScaleOverflow | ReactorError.EpochOverflow => FusdError.ReactorGridExhausted
       | ReactorError.Math => FusdError.MathOverflow
       end.

Definition realize {U : U256} (ps : PoolState) (dep : ReactorDeposit) (grid : list Z)
    : result Error (ReactorDeposit * Z) :=
  let snap := snapshot_of dep in
  let initial := deposited_fusd dep in
  compounded ← no_panic (compounded_deposit ps initial snap);
  gain ← map_err map_reactor_err (collateral_gain grid REACTOR_MAX_SCALES initial snap);
  gain_u64 ← math (try_u64 gain);
  pending ← math (checked_add64 (pending_collateral_gain dep) gain_u64);
  Ok (dep <| pending_collateral_gain := pending |>, compounded).

Definition set_snapshot (dep : ReactorDeposit) (ps : PoolState) (grid : list Z) : ReactorDeposit :=
  let snap := ReactorMath.snapshot ps grid REACTOR_MAX_SCALES in
  dep <| snapshot_p := sn_p snap |> <| snapshot_s := sn_s snap |>
      <| snapshot_scale := sn_scale snap |> <| snapshot_epoch := sn_epoch snap |>.

End reactor.
