(* ===== verification/ReactorShares.v ===== *)
(** * The Reactor Pool's deposits as shares

    What each deposit is worth in the pool, as a real number, and the invariant that the
    deposits together are never worth more than the pool's deposits (up to the residual the
    offsets carry): kept by an offset, and by a depositor who realizes, adds or takes out.
    The rounding of the shipped arithmetic only loses value. *)

From Stdlib Require Import Reals Lra.
From S2P Require Import Prelude MachineInt FixedPoint ReactorMath State Reactor.

Open Scope Z_scope.

(** ** Real sums over a finite map *)

Section real_sums.
Context {A : Type}.
Implicit Types (f g : A -> R) (m : gmap Z A).

Definition rsum f m : R := map_fold (fun _ a n => f a + n)%R 0%R m.

Lemma rsum_empty f : rsum f ∅ = 0%R.
Proof. apply map_fold_empty. Qed.

Lemma rsum_insert f m k a : m !! k = None -> rsum f (<[k := a]> m) = (f a + rsum f m)%R.
Proof. intros. unfold rsum. rewrite map_fold_insert_L; [done | intros; lra | done]. Qed.

Lemma rsum_update f m k a b : m !! k = Some a -> rsum f (<[k := b]> m) = (rsum f m - f a + f b)%R.
Proof.
  intros Hk. rewrite <- (insert_delete_id m k a Hk) at 2. rewrite <- insert_delete_eq.
  rewrite !rsum_insert by apply lookup_delete_eq. lra.
Qed.

Lemma rsum_scale_le c f g m : (forall k a, m !! k = Some a -> f a <= g a * c)%R -> (rsum f m <= rsum g m * c)%R.
Proof.
  induction m as [|k a m Hk IH] using map_ind; intros Hle; [rewrite !rsum_empty; lra|].
  rewrite !rsum_insert by done.
  assert (f a <= g a * c)%R by (apply (Hle k); apply lookup_insert_eq).
  assert (rsum f m <= rsum g m * c)%R; [|lra].
  apply IH. intros k' a' Hk'. apply (Hle k'). rewrite lookup_insert_ne; [done | congruence].
Qed.

Lemma msum_rsum_le (h : A -> Z) f m : (forall k a, m !! k = Some a -> IZR (h a) <= f a)%R ->
  (IZR (msum h m) <= rsum f m)%R.
Proof.
  induction m as [|k a m Hk IH] using map_ind; intros Hle; [rewrite msum_empty, rsum_empty; lra|].
  rewrite msum_insert, rsum_insert, plus_IZR by done.
  assert (IZR (h a) <= f a)%R by (apply (Hle k); apply lookup_insert_eq).
  assert (IZR (msum h m) <= rsum f m)%R; [|lra].
  apply IH. intros k' a' Hk'. apply (Hle k'). rewrite lookup_insert_ne; [done | congruence].
Qed.

End real_sums.

(** ** The worth of a deposit *)

Section shares.
Context {U : U256}.

(** The product a deposit entered at, at the pool's scale. *)
Definition entry_product (ps : PoolState) (d : ReactorDeposit) : Z :=
  snapshot_p d * SCALE_FACTOR ^ (ps_scale ps - snapshot_scale d).

Definition worth (ps : PoolState) (d : ReactorDeposit) : R :=
  if snapshot_epoch d =? ps_epoch ps
  then (IZR (deposited_fusd d) * IZR (ps_p ps) / IZR (entry_product ps d))%R else 0%R.

Record dep_ok (ps : PoolState) (d : ReactorDeposit) : Prop := {
  do_amount : u64 (deposited_fusd d);
  do_product : product_ok (snapshot_p d);
  do_before : snap_before (reactor.snapshot_of d) ps;
}.

Definition compounded_of (ps : PoolState) (d : ReactorDeposit) : Z :=
  default 0 (compounded_deposit ps (deposited_fusd d) (reactor.snapshot_of d)).

Lemma entry_product_pos ps d : pool_ok ps -> dep_ok ps d -> snapshot_epoch d = ps_epoch ps ->
  0 < entry_product ps d.
Proof.
  intros _ [_ Hp Hb] He. unfold entry_product. destruct Hb as [Hb|[_ Hb]]; cbn in Hb; [lia|].
  assert (0 < SCALE_FACTOR ^ (ps_scale ps - snapshot_scale d)) by (apply Z.pow_pos_nonneg; lia).
  unfold product_ok in Hp. nia.
Qed.

Lemma worth_nonneg ps d : pool_ok ps -> dep_ok ps d -> (0 <= worth ps d)%R.
Proof.
  intros Hok Hd. unfold worth. destruct (Z.eqb_spec (snapshot_epoch d) (ps_epoch ps)); [|lra].
  pose proof (entry_product_pos ps d Hok Hd ltac:(done)) as He. pose proof (do_amount _ _ Hd). pose proof (po_p _ Hok).
  unfold product_ok, u64 in *. apply Rle_mult_inv_pos; [|by apply IZR_lt].
  rewrite <- mult_IZR. apply IZR_le. nia.
Qed.

(** What a depositor can take out is computable and no more than the deposit's worth. *)
Lemma compounded_worth ps d : pool_ok ps -> dep_ok ps d ->
  exists c, compounded_deposit ps (deposited_fusd d) (reactor.snapshot_of d) = Some c /\ 0 <= c /\
    (IZR c <= worth ps d)%R.
Proof.
  intros Hok Hd. pose proof Hd as [Ha Hp Hb].
  destruct (compounded_bound ps (deposited_fusd d) (reactor.snapshot_of d) Hok Hp) as (c & E & Hc & Hz & Hle);
    [unfold u64, u128 in *; lia|done|].
  exists c. split; [done|]. split; [done|]. unfold worth. cbn in Hz, Hle.
  destruct (Z.eqb_spec (snapshot_epoch d) (ps_epoch ps)) as [He|He].
  - specialize (Hle He). fold (entry_product ps d) in Hle. pose proof (entry_product_pos ps d Hok Hd He) as Hpos.
    apply (Rmult_le_reg_r (IZR (entry_product ps d))); [by apply IZR_lt|].
    unfold Rdiv. rewrite Rmult_assoc, Rinv_l, Rmult_1_r by (apply not_0_IZR; lia).
    rewrite <- !mult_IZR. by apply IZR_le.
  - rewrite Hz; [lra|]. destruct Hb as [Hb|[Hb _]]; cbn in Hb; lia.
Qed.

(** ** The invariant *)

Definition covered (M : Z) (ps : PoolState) (total : R) : Prop :=
  (total * IZR DECIMAL_PRECISION
   <= IZR (ps_total_deposits ps * DECIMAL_PRECISION - ps_last_loss_error ps + M))%R.

(** [M] bounds the pool's deposits, now and at every earlier offset. *)
Record shares_ok (M : Z) (ps : PoolState) (deps : gmap Z ReactorDeposit) : Prop := {
  so_pool : pool_ok ps;
  so_deps k d : deps !! k = Some d -> dep_ok ps d;
  so_total : ps_total_deposits ps <= M;
  so_error : ps_last_loss_error ps <= M;
  so_worth : covered M ps (rsum (worth ps) deps);
}.

(** The payable deposits add up to at most the pool, and a residual below one unit per
    [10^18] units of the bound. *)
Lemma shares_payable M ps deps : shares_ok M ps deps ->
  msum (compounded_of ps) deps <= ps_total_deposits ps + M / DECIMAL_PRECISION /\
  forall k d, deps !! k = Some d ->
    is_Some (compounded_deposit ps (deposited_fusd d) (reactor.snapshot_of d)).
Proof.
  intros [Hok Hd Ht He Hw]. split.
  - assert (IZR (msum (compounded_of ps) deps) <= rsum (worth ps) deps)%R as Hle.
    { apply msum_rsum_le. intros k d Hk. destruct (compounded_worth ps d Hok (Hd _ _ Hk)) as (c & E & _ & Hc).
      unfold compounded_of. by rewrite E. }
    unfold covered in Hw.
    assert (msum (compounded_of ps) deps * DECIMAL_PRECISION
      <= ps_total_deposits ps * DECIMAL_PRECISION - ps_last_loss_error ps + M) as HZ.
    { apply le_IZR. rewrite mult_IZR. etransitivity; [|exact Hw]. apply Rmult_le_compat_r; [apply IZR_le; lia|done]. }
    pose proof (po_loss_error _ Hok) as Hl. unfold u128 in Hl.
    assert (msum (compounded_of ps) deps - ps_total_deposits ps <= M / DECIMAL_PRECISION); [|lia].
    apply Z.div_le_lower_bound; lia.
  - intros k d Hk. destruct (compounded_worth ps d Hok (Hd _ _ Hk)) as (c & E & _). by exists c.
Qed.

(** ** An offset *)

(** After a roll of the epoch every earlier deposit is gone. *)
Lemma worth_rolled ps ps' d : dep_ok ps d -> ps_epoch ps < ps_epoch ps' -> worth ps' d = 0%R.
Proof.
  intros [_ _ Hb] He. unfold worth. destruct (Z.eqb_spec (snapshot_epoch d) (ps_epoch ps')); [|done].
  destruct Hb as [Hb|[Hb _]]; cbn in Hb; lia.
Qed.

(** Otherwise it falls with the product, or further. *)
Lemma worth_scaled ps ps' d f : pool_ok ps -> dep_ok ps d -> ps_epoch ps' = ps_epoch ps ->
  ps_scale ps <= ps_scale ps' ->
  ps_p ps' * DECIMAL_PRECISION <= ps_p ps * f * SCALE_FACTOR ^ (ps_scale ps' - ps_scale ps) ->
  (worth ps' d <= worth ps d * (IZR f / IZR DECIMAL_PRECISION))%R.
Proof.
  intros Hok Hd Ee Hs Hp. unfold worth. rewrite Ee.
  destruct (Z.eqb_spec (snapshot_epoch d) (ps_epoch ps)) as [E|E]; [|lra].
  pose proof (entry_product_pos ps d Hok Hd E) as Hq. pose proof (do_amount _ _ Hd) as Ha. unfold u64 in Ha.
  set (b := SCALE_FACTOR ^ (ps_scale ps' - ps_scale ps)) in *.
  assert (0 < b) as Hb by (apply Z.pow_pos_nonneg; lia).
  assert (entry_product ps' d = entry_product ps d * b) as Eq.
  { unfold entry_product, b. rewrite <- Z.mul_assoc, <- Z.pow_add_r; [do 2 f_equal; lia| |lia].
    destruct (do_before _ _ Hd) as [H|[_ H]]; cbn in H; lia. }
  rewrite Eq, mult_IZR. set (q := entry_product ps d) in *. clearbody q b.
  assert (0 < IZR q)%R by (by apply IZR_lt). assert (0 < IZR b)%R by (by apply IZR_lt).
  assert (0 <= IZR (deposited_fusd d))%R by (apply IZR_le; lia).
  apply IZR_le in Hp. rewrite !mult_IZR in Hp.
  assert (IZR (ps_p ps') <= IZR (ps_p ps) * IZR f * IZR b / IZR DECIMAL_PRECISION)%R as Hp'.
  { apply (Rmult_le_reg_r (IZR DECIMAL_PRECISION)); [apply IZR_lt; lia|]. unfold Rdiv.
    rewrite Rmult_assoc, Rinv_l, Rmult_1_r by (apply not_0_IZR; lia). exact Hp. }
  replace (IZR (deposited_fusd d) * IZR (ps_p ps) / IZR q * (IZR f / IZR DECIMAL_PRECISION))%R
    with (IZR (deposited_fusd d) * (IZR (ps_p ps) * IZR f * IZR b / IZR DECIMAL_PRECISION) / (IZR q * IZR b))%R
    by (field; repeat split; try lra; apply not_0_IZR; lia).
  apply Rmult_le_compat_r; [apply Rlt_le, Rinv_0_lt_compat; nra|]. apply Rmult_le_compat_l; done.
Qed.

Lemma covered_rolled M ps ps' (deps : gmap Z ReactorDeposit) : (forall k d, deps !! k = Some d -> dep_ok ps d) ->
  ps_epoch ps < ps_epoch ps' -> 0 <= ps_total_deposits ps' -> ps_last_loss_error ps' <= M ->
  covered M ps' (rsum (worth ps') deps).
Proof.
  intros Hd He Ht Hl. unfold covered.
  assert (rsum (worth ps') deps <= rsum (worth ps') deps * 0)%R as H0.
  { apply rsum_scale_le. intros k d Hk. rewrite (worth_rolled ps ps' d) by eauto. lra. }
  transitivity (0 * IZR DECIMAL_PRECISION)%R; [apply Rmult_le_compat_r; [apply IZR_le; lia|lra]|].
  rewrite Rmult_0_l. apply IZR_le. lia.
Qed.

Lemma covered_scaled M ps ps' total total' f : 0 <= f < DECIMAL_PRECISION -> ps_last_loss_error ps <= M ->
  f * ps_total_deposits ps = ps_total_deposits ps' * DECIMAL_PRECISION + ps_last_loss_error ps - ps_last_loss_error ps' ->
  (total' <= total * (IZR f / IZR DECIMAL_PRECISION))%R -> covered M ps total -> covered M ps' total'.
Proof.
  intros Hf He Ef Ht Hc. unfold covered in *.
  set (X := ps_total_deposits ps * DECIMAL_PRECISION - ps_last_loss_error ps + M) in *.
  set (Y := ps_total_deposits ps' * DECIMAL_PRECISION - ps_last_loss_error ps' + M) in *.
  assert (X * f <= Y * DECIMAL_PRECISION) as HXY.
  { subst X Y. assert (f * (M - ps_last_loss_error ps) <= DECIMAL_PRECISION * (M - ps_last_loss_error ps))
      by (apply Z.mul_le_mono_nonneg_r; lia). nia. }
  apply IZR_le in HXY. rewrite !mult_IZR in HXY. set (D := IZR DECIMAL_PRECISION) in *.
  assert (0 < D)%R as HD by (apply IZR_lt; lia). assert (0 <= IZR f)%R as Hf0 by (apply IZR_le; lia).
  apply (Rmult_le_reg_r D); [done|]. transitivity (total * IZR f * D)%R.
  - replace (total * IZR f * D)%R with (total * (IZR f / D) * D * D)%R by (field; lra).
    apply Rmult_le_compat_r; [lra|]. apply Rmult_le_compat_r; [lra|done].
  - transitivity (IZR X * IZR f)%R; [|done].
    replace (total * IZR f * D)%R with (total * D * IZR f)%R by ring. by apply Rmult_le_compat_r.
Qed.

Lemma shares_offset M ps deps g stride debt coll ps' g' : shares_ok M ps deps -> 0 <= debt -> u128 coll ->
  offset ps g stride debt coll = Ok (ps', g') -> shares_ok M ps' deps.
Proof.
  intros [Hok Hd Ht He Hw] Hdebt Hcoll H. apply offset_Ok in H; [|done..]. destruct H.
  pose proof (po_total _ oe_ok) as Ht'. unfold u128 in Ht'. destruct oe_forward as [Hf1 Hf2].
  constructor; [done| |lia|lia|].
  - intros k d Hk. destruct (Hd _ _ Hk) as [H1 H2 H3]. constructor; [done..|].
    destruct H3 as [H3|[H3 H4]]; unfold snap_before; cbn in *; [left; lia|].
    destruct (Z.eq_dec (ps_epoch ps') (ps_epoch ps)) as [E|E]; [right; specialize (Hf2 E); lia|left; lia].
  - destruct (Z.eq_dec debt (ps_total_deposits ps)) as [E|E].
    + eapply covered_rolled; [exact Hd|destruct (oe_full E); lia|lia|lia].
    + destruct (oe_loss ltac:(lia)) as (f & Hf & Ef & [Hroll|(Ee & Hs & Hp)]).
      * eapply covered_rolled; [exact Hd|lia..].
      * eapply covered_scaled; [exact Hf|exact He|exact Ef| |exact Hw].
        apply rsum_scale_le. intros k d Hk. apply worth_scaled; eauto.
Qed.

(** ** A depositor *)

(** A deposit whose worth changed by at most what the pool's deposits did. *)
Lemma shares_update M ps deps k d d' delta total' : shares_ok M ps deps -> deps !! k = Some d ->
  u128 total' -> total' = ps_total_deposits ps + delta -> total' <= M ->
  dep_ok ps d' -> (worth ps d' <= worth ps d + IZR delta)%R ->
  shares_ok M (ps <| ps_total_deposits := total' |>) (<[k := d']> deps).
Proof.
  intros [Hok Hd Ht He Hw] Hk Hu -> Hm Hd' Hle. destruct Hok. constructor; cbn; try done.
  - intros k' d0 H. destruct (decide (k' = k)) as [->|Hne].
    + rewrite lookup_insert_eq in H. injection H as <-. by destruct Hd'.
    + rewrite lookup_insert_ne in H by done. by destruct (Hd _ _ H).
  - change (covered M (ps <| ps_total_deposits := ps_total_deposits ps + delta |>) (rsum (worth ps) (<[k := d']> deps))).
    unfold covered in *. rewrite (rsum_update _ _ _ _ _ Hk).
    match goal with |- (_ <= IZR ?x)%R => replace x
      with ((ps_total_deposits ps * DECIMAL_PRECISION - ps_last_loss_error ps + M) + delta * DECIMAL_PRECISION) by (cbn; ring) end.
    rewrite plus_IZR, (mult_IZR delta). set (D := IZR DECIMAL_PRECISION) in *.
    assert (0 < D)%R by (apply IZR_lt; lia).
    assert ((rsum (worth ps) deps - worth ps d + worth ps d') * D <= (rsum (worth ps) deps + IZR delta) * D)%R
      by (apply Rmult_le_compat_r; lra).
    lra.
Qed.

(** A deposit snapshotted now is worth its amount. *)
Lemma worth_now ps grid d n : pool_ok ps -> u64 n ->
  let d' := (reactor.set_snapshot d ps grid) <| deposited_fusd := n |> in
  dep_ok ps d' /\ worth ps d' = IZR n.
Proof.
  intros Hok Hn d'. pose proof (po_p _ Hok) as Hp. pose proof (po_scale _ Hok) as Hs. split.
  - constructor; [done|done|]. right. cbn. unfold u64 in Hs. lia.
  - unfold worth, entry_product. cbn. rewrite Z.eqb_refl, Z.sub_diag, Z.pow_0_r, Z.mul_1_r. field.
    apply not_0_IZR. unfold product_ok in Hp. lia.
Qed.

(** A new deposit is worth nothing. *)
Lemma shares_open M ps deps k owner pool : shares_ok M ps deps -> deps !! k = None -> reactor.pool_state pool = ps ->
  forall d, deposited_fusd d = 0 -> snapshot_p d = rp_p pool -> snapshot_scale d = rp_scale pool ->
  snapshot_epoch d = rp_epoch pool -> owner = dep_owner d -> shares_ok M ps (<[k := d]> deps).
Proof.
  intros [Hok Hd Ht He Hw] Hk <- d E1 E2 E3 E4 _. constructor; try done.
  - intros k' d0 H. destruct (decide (k' = k)) as [->|Hne]; [|rewrite lookup_insert_ne in H by done; eauto].
    rewrite lookup_insert_eq in H. injection H as <-. constructor; [rewrite E1; unfold u64; lia|rewrite E2; apply Hok|].
    right. cbn. rewrite E3, E4. pose proof (po_scale _ Hok) as Hs. unfold u64 in Hs. cbn in Hs. lia.
  - rewrite rsum_insert by done. replace (worth _ d) with 0%R; [by rewrite Rplus_0_l|].
    unfold worth. rewrite E1. destruct (_ =? _); [|done]. unfold Rdiv. by rewrite !Rmult_0_l.
Qed.

End shares.
