(* ===== verification/Liquidate.v ===== *)
(** * Liquidation ([programs/fusd-core/src/instructions/liquidate.rs])

    The permissionless liquidation of an under-collateralised position through
    the loss-absorption waterfall, one definition per phase of the handler, and
    the draw cap of the global backstop ([global_backstop.rs]). *)

From S2P Require Import Prelude MachineInt FixedPoint Interest Redistribution ReactorMath Recovery.
From S2P Require Import SupplyTransition Cdp State Token Accrual Bucket Reactor PositionOps.

Open Scope Z_scope.

(** [global_backstop.rs] *)
Definition draw_available (reserve : GlobalBackstopReserve) (market_global_contributed
    market_global_drawn market_debt reserve_balance : Z) : Z :=
  let contribution_arm := sat_add128 (draw_base_allowance reserve)
    (sat_mul128 market_global_contributed (draw_k_bps reserve) / 10000) in
  let ceiling_arm := sat_mul128 reserve_balance (draw_ceiling_share_bps reserve) / 10000 in
  let debt_arm := sat_mul128 market_debt (draw_debt_share_bps reserve) / 10000 in
  let cap := Z.min (Z.min contribution_arm ceiling_arm) debt_arm in
  Z.min (sat_sub cap market_global_drawn) reserve_balance.

Section liquidate.
Context {U : U256} {R : Runtime}.

Record LiqAccounts := mkLiqAccounts {
  lk_liquidator : Pubkey;
  lk_position : Pubkey;
  lk_coll_ata : Pubkey;
  lk_backstop_vault : option Pubkey;
}.

Record Liq := mkLiq {
  lq_market : Market;
  lq_position : Position;
  lq_pool : ReactorPool;
  lq_grid : list Z;
  lq_bitmap : RedemptionBitmap;
  lq_buffer : InsuranceBuffer;
  lq_backstop : option GlobalBackstopReserve;
  lq_ledger : ledger;
}.

#[export] Instance Liq_fields : Fields Liq := fun x =>
  mkLiq (lq_market x) (lq_position x) (lq_pool x) (lq_grid x) (lq_bitmap x) (lq_buffer x)
    (lq_backstop x) (lq_ledger x).

(** Liquidation prices off the HIGH price, on a fresh oracle, outside the grace and
    divergence windows. *)
Definition liq_price_guards (clk : Clock) (m : Market) : result Error unit :=
  _ ← check ((0 <? spot m) && (0 <? debt_spot m)) FusdError.OracleUnavailable;
  _ ← check (fresh_price clk m) FusdError.StalePrice;
  _ ← check (liq_grace_until m <=? slot clk) FusdError.LiquidationGracePeriod;
  check (liq_divergence_until m <=? slot clk) FusdError.OracleDivergent.

(** Remove the victim from the aggregates and split its collateral by the collar. *)
Definition liq_remove_victim (m : Market) (p : Position)
    : result Error (Market * Position * Z) :=
  let debt := recorded_debt p in
  ts ← math (checked_sub128 (total_stakes m) (stake p));
  let m := m <| total_stakes := ts |> in
  tc ← math (checked_sub128 (total_collateral m) (ink p));
  let m := m <| total_collateral := tc |> in
  '(seize_coll, surplus_coll) ← math (seize_collateral (ink p) debt (debt_spot m) (liq_bonus_bps m));
  if 0 <? surplus_coll then
    cs ← math (checked_add64 (coll_surplus p) surplus_coll);
    tcs ← math (checked_add64 (total_coll_surplus m) surplus_coll);
    Ok (m <| total_coll_surplus := tcs |>, p <| coll_surplus := cs |>, seize_coll)
  else Ok (m, p, seize_coll).

(** What the backstop may contribute: 0 unless both of its accounts are given. *)
Definition liq_global_available (k : LiqAccounts) (m : Market) (bs : option GlobalBackstopReserve)
    (l : ledger) : result Error Z :=
  match bs, lk_backstop_vault k with
  | Some bs, Some vault =>
      _ ← check (bool_decide (vault = bs_fusd_vault bs)) FusdError.InvalidRecipient;
      Ok (draw_available bs (global_contributed m) (global_drawn m) (agg_recorded_debt m)
            (tok_amount l vault))
  | _, _ => Ok 0
  end.

(** Tier 1: offset against the Reactor Pool. *)
Definition liq_reactor (x : Liq) (offset_present coll_sp : Z) : result Error Liq :=
  if 0 <? offset_present then
    let m := lq_market x in
    let pool := lq_pool x in
    '(ps, grid) ← map_err reactor.map_reactor_err
      (offset (reactor.pool_state pool) (lq_grid x) REACTOR_MAX_SCALES offset_present coll_sp);
    offset_u64 ← math (try_u64 offset_present);
    l ← cpi (token_burn (lq_ledger x) fusd_mint (rp_fusd_vault pool)
              (reactor_pda (collateral_mint m)) offset_u64);
    l ← (if 0 <? coll_sp then
           coll_sp_u64 ← math (try_u64 coll_sp);
           cpi (token_transfer l (collateral_vault m) (rp_coll_vault pool)
                  (market_pda (collateral_mint m)) coll_sp_u64)
         else Ok l);
    Ok (x <| lq_pool := reactor.write_back pool ps |> <| lq_grid := grid |> <| lq_ledger := l |>)
  else Ok x.

(** Tier 2: redistribute the remainder to the other positions. *)
Definition liq_redistribute (m : Market) (redist_debt coll_r : Z) : result Error Market :=
  rs ← map_err redist.map_redist_err (redistribute (redist.state m) (total_stakes m) coll_r redist_debt);
  let m := redist.write_state m rs in
  tc ← math (checked_add128 (total_collateral m) coll_r);
  Ok (m <| total_collateral := tc |>).

(** Tier 3: the local buffer burns its own fUSD. *)
Definition liq_buffer (x : Liq) (amount : Z) : result Error Liq :=
  if 0 <? amount then
    let buf := lq_buffer x in
    buf_u64 ← math (try_u64 amount);
    l ← cpi (token_burn (lq_ledger x) fusd_mint (ib_fusd_vault buf)
              (buffer_pda (collateral_mint (lq_market x))) buf_u64);
    absorbed ← math (checked_add128 (ib_total_absorbed buf) amount);
    Ok (x <| lq_ledger := l |> <| lq_buffer := buf <| ib_total_absorbed := absorbed |> |>)
  else Ok x.

(** Tier 3.5: the backstop burns its own fUSD, within its draw cap. *)
Definition liq_backstop (k : LiqAccounts) (x : Liq) (amount : Z) : result Error Liq :=
  if 0 <? amount then
    glob_u64 ← math (try_u64 amount);
    bs ← no_panic (lq_backstop x);
    vault ← no_panic (lk_backstop_vault k);
    l ← cpi (token_burn (lq_ledger x) fusd_mint vault backstop_pda glob_u64);
    drawn ← math (checked_add128 (global_drawn (lq_market x)) amount);
    absorbed ← math (checked_add128 (bs_total_absorbed bs) amount);
    Ok (x <| lq_ledger := l |> <| lq_market := (lq_market x) <| global_drawn := drawn |> |>
          <| lq_backstop := Some (bs <| bs_total_absorbed := absorbed |>) |>)
  else Ok x.

(** Tier 4: un-homed debt shuts the market down, first reason wins. *)
Definition liq_unhomed (m : Market) (amount : Z) : Market :=
  if 0 <? amount then
    let m := if shutdown_reason m =? SHUTDOWN_REASON_NONE
             then m <| shutdown_reason := SHUTDOWN_REASON_UNHOMED_BAD_DEBT |> else m in
    if negb (shutdown m) then m <| shutdown := true |> else m
  else m.

(** The remainder after the pool: redistribution, or the protocol tiers. *)
Definition liq_remainder (k : LiqAccounts) (x : Liq) (split : Absorption) (coll_r : Z)
    : result Error Liq :=
  if 0 <? ab_redist split then
    m ← liq_redistribute (lq_market x) (ab_redist split) coll_r;
    Ok (x <| lq_market := m |>)
  else if (0 <? ab_buffer split) || (0 <? ab_global split) || (0 <? ab_unhomed split) then
    coll_r_u64 ← math (try_u64 coll_r);
    pc ← math (checked_add64 (protocol_collateral (lq_market x)) coll_r_u64);
    let x := x <| lq_market := (lq_market x) <| protocol_collateral := pc |> |> in
    x ← liq_buffer x (ab_buffer split);
    x ← liq_backstop k x (ab_global split);
    Ok (x <| lq_market := liq_unhomed (lq_market x) (ab_unhomed split) |>)
  else Ok x.

(** The system snapshots of the stake formula. *)
Definition liq_snapshots (m : Market) : Market :=
  m <| total_stakes_snapshot := total_stakes m |>
    <| total_collateral_snapshot := if total_stakes m =? 0 then 0 else total_collateral m |>.

(** Pay the SOL bond and zero the victim. *)
Definition liq_close_victim (k : LiqAccounts) (m : Market) (p : Position) (l : ledger)
    : result Error (Position * ledger) :=
  let bond := pos_reserve_lamports p in
  l ← (if 0 <? bond then cpi (lamport_transfer l (lk_position k) (lk_liquidator k) bond) else Ok l);
  let p := p <| recorded_debt := 0 |> in
  let p := set_ink p 0 in
  Ok (p <| stake := 0 |> <| pos_reserve_lamports := 0 |>
        <| redist_l_coll_snapshot := l_coll m |> <| redist_l_art_snapshot := l_art m |>, l).

(** [has_one = collateral_mint], [token::mint], [token::authority = liquidator] *)
Definition liq_constraints (k : LiqAccounts) (x : Liq) : result Error unit :=
  _ ← constraint (bool_decide (pos_collateral_mint (lq_position x) = collateral_mint (lq_market x)));
  ata_constraints (lq_ledger x) (lk_coll_ata k) (collateral_mint (lq_market x)) (lk_liquidator k).

Definition liquidate (clk : Clock) (k : LiqAccounts) (x : Liq) : result Error Liq :=
  _ ← liq_constraints k x;
  let now := unix_timestamp clk in
  let vault := collateral_vault (lq_market x) in
  m ← accrue (lq_market x) now;
  _ ← liq_price_guards clk m;
  let art_before := recorded_debt (lq_position x) in
  old_weighted ← weighted (lq_position x);
  p ← realize m (lq_position x) now;
  let debt := recorded_debt p in
  _ ← check (0 <? debt) FusdError.PositionHealthy;
  _ ← check (negb (is_healthy (ink p) debt (debt_spot m) (mcr_bps m))) FusdError.PositionHealthy;
  '(m, p, seize_coll) ← liq_remove_victim m p;
  gas ← math (checked_mul128 seize_coll (liq_gas_comp_bps m));
  let gas_comp := gas / 10000 in
  distributable ← no_panic (checked_sub128 seize_coll gas_comp);
  global_available ← liq_global_available k m (lq_backstop x) (lq_ledger x);
  let split := absorb debt (rp_total_deposits (lq_pool x)) (0 <? total_stakes m)
                 (tok_amount (lq_ledger x) (ib_fusd_vault (lq_buffer x))) global_available in
  sd ← math (supply_liquidate (agg_recorded_debt m) (bad_debt m) (ab_reactor split) (ab_redist split)
               (ab_buffer split) (ab_global split) (ab_unhomed split));
  let m := m <| agg_recorded_debt := ld_new_agg sd |> <| bad_debt := ld_new_bad sd |> in
  coll_sp ← math (mul_div_floor distributable (ab_reactor split) debt);
  coll_r ← no_panic (checked_sub128 distributable coll_sp);
  l ← (if 0 <? gas_comp then
         gas_comp_u64 ← math (try_u64 gas_comp);
         cpi (token_transfer (lq_ledger x) vault (lk_coll_ata k) (market_pda (collateral_mint m))
                gas_comp_u64)
       else Ok (lq_ledger x));
  let x := x <| lq_market := m |> <| lq_position := p |> <| lq_ledger := l |> in
  x ← liq_reactor x (ab_reactor split) coll_sp;
  x ← liq_remainder k x split coll_r;
  let m := liq_snapshots (lq_market x) in
  '(p, l) ← liq_close_victim k m (lq_position x) (lq_ledger x);
  m ← reweight m p old_weighted;
  '(bm, p) ← reconcile (lq_bitmap x) m p art_before;
  _ ← assert_collateral_vault_sufficiency l vault m;
  Ok (x <| lq_market := m |> <| lq_position := p |> <| lq_bitmap := bm |> <| lq_ledger := l |>).

End liquidate.
