(* ===== verification/LiquidateProofs.v ===== *)
(** * Liquidation keeps the books

    The effect of a successful liquidation on the market, the victim, the ledger
    and every other position. *)

From S2P Require Import Prelude MachineInt FixedPoint Interest Redistribution ReactorMath Recovery.
From S2P Require Import SupplyTransition Cdp State Token Accrual Bucket Reactor PositionOps.
From S2P Require Import TouchEffect PositionProofs World Liquidate.

Open Scope Z_scope.

(** The victim leaves the books; what is redistributed (debt [rd], collateral [rc]) is
    parked in the accumulators for the positions that stay. *)
Record liquidated (m : Market) (p p1 : Position) (m' : Market) (p' : Position) (rd rc : Z) : Prop := {
  lz_ts : last_update_ts m' = last_update_ts m;
  lz_id : same_identity m m';
  lz_market : market_ok m';
  lz_stakes : total_stakes m' = total_stakes m - stake p;
  lz_agg : agg_recorded_debt m' = agg_recorded_debt m - recorded_debt p1 + rd;
  lz_coll : total_collateral m' = total_collateral m - ink p1 + rc;
  lz_weight : agg_weighted_debt_sum m' = agg_weighted_debt_sum m - weight p;
  lz_l_art : l_art m <= l_art m' /\ total_stakes m' * (l_art m' - l_art m) + last_art_redist_error m'
    = rd * PRECISION + last_art_redist_error m;
  lz_l_coll : l_coll m <= l_coll m' /\ total_stakes m' * (l_coll m' - l_coll m) + last_coll_redist_error m'
    = rc * PRECISION + last_coll_redist_error m;
  lz_surplus : total_coll_surplus m' - coll_surplus p' = total_coll_surplus m - coll_surplus p;
  lz_victim : recorded_debt p' = 0 /\ ink p' = 0 /\ stake p' = 0;
  lz_position : position_ok m' p';
}.

Lemma books_liquidate m p p1 m' p' rd rc ps k : ps !! k = Some p ->
  realized m p p1 -> liquidated m p p1 m' p' rd rc -> books m ps -> books m' (<[k := p']> ps).
Proof.
  intros Hk Hrz [] []. destruct lz_victim0 as (Ed & Ei & Es).
  destruct (empty_shares m' p' Ed Ei Es) as (Ew & Edd & Ecc).
  pose proof (fun f => msum_delete f _ _ _ Hk) as Hdel.
  assert (forall f, msum f (<[k := p']> ps) = f p' + msum f (delete k ps)) as Hins.
  { intros f. rewrite <- insert_delete_eq. by rewrite msum_insert by apply lookup_delete_eq. }
  rewrite Hdel in bk_weight. rewrite Hdel in bk_stake. rewrite Hdel in bk_debt.
  rewrite Hdel in bk_coll. rewrite Hdel in bk_surplus.
  pose proof (rz_debt_share _ _ _ Hrz). pose proof (rz_coll_share _ _ _ Hrz).
  constructor.
  - done.
  - apply map_Forall_insert_2; [done|]. intros k' q Hq. destruct (bk_positions _ _ Hq).
    constructor; try done; lia.
  - rewrite Hins. lia.
  - rewrite Hins. lia.
  - assert (msum (debt_share m') (delete k ps) = msum (debt_share m) (delete k ps)
      + INTEREST_DENOM * (l_art m' - l_art m) * msum stake (delete k ps)) as E.
    { rewrite <- msum_scale, <- msum_add. apply msum_ext. intros q. unfold debt_share.
      rewrite lz_ts0. lia. }
    rewrite Hins, E. replace (msum stake (delete k ps)) with (total_stakes m') by lia. lia.
  - assert (msum (coll_share m') (delete k ps) = msum (coll_share m) (delete k ps)
      + (l_coll m' - l_coll m) * msum stake (delete k ps)) as E.
    { rewrite <- msum_scale, <- msum_add. apply msum_ext. intros q. unfold coll_share. lia. }
    rewrite Hins, E. replace (msum stake (delete k ps)) with (total_stakes m') by lia. lia.
  - rewrite Hins. lia.
Qed.

Lemma liquidated_bucket m p p1 m' p' rd rc b : liquidated m p p1 m' p' rd rc ->
  liquidated m p p1 m' (p' <| bucket := b |>) rd rc.
Proof. intros []. constructor; try done. destruct lz_position0. by constructor. Qed.

Section liquidate_proofs.
Context {U : U256} {R : Runtime}.

(** ** The phases *)

Lemma remove_victim_Ok m p m' p' seize : market_ok m -> position_ok m p ->
  liq_remove_victim m p = Ok (m', p', seize) ->
  exists sp, seize_collateral (ink p) (recorded_debt p) (debt_spot m) (liq_bonus_bps m) = Some (seize, sp) /\
    seize + sp = ink p /\ 0 <= seize /\ 0 <= sp /\
    m' = m <| total_stakes := total_stakes m - stake p |>
           <| total_collateral := total_collateral m - ink p |>
           <| total_coll_surplus := total_coll_surplus m + sp |> /\
    p' = p <| coll_surplus := coll_surplus p + sp |> /\
    u128 (total_stakes m - stake p) /\ u128 (total_collateral m - ink p) /\
    u64 (total_coll_surplus m + sp).
Proof.
  intros [] [] H. unfold liq_remove_victim in H.
  bind H as ts Hts. bind H as tc Htc. bind H as [s sp] Hsz. inv_ok Hts. inv_ok Htc. inv_ok Hsz.
  checked. cbn in *. subst. pose proof Hsz as Hsz0.
  apply seize_collateral_Some in Hsz as (E & ? & ? & _); [|done..].
  exists sp. destruct (Z.ltb_spec 0 sp).
  - bind H as cs Hcs. bind H as tcs Htcs. injection H as <- <- <-. inv_ok Hcs. inv_ok Htcs.
    checked. cbn in *. subst. repeat split; done || lia.
  - injection H as <- <- <-. assert (sp = 0) as -> by lia. rewrite !Z.add_0_r.
    destruct m, p. repeat split; done || rlia.
Qed.

Record same_accounts (x x' : Liq) : Prop := {
  sx_position : lq_position x' = lq_position x;
  sx_bitmap : lq_bitmap x' = lq_bitmap x;
  sx_coll_vault : rp_coll_vault (lq_pool x') = rp_coll_vault (lq_pool x);
  sx_deposits : u128 (rp_total_deposits (lq_pool x)) -> u128 (rp_total_deposits (lq_pool x'));
}.

Lemma offset_total st g stride debt coll st' g' : offset st g stride debt coll = Ok (st', g') ->
  ps_total_deposits st' = ps_total_deposits st - debt /\ debt <= ps_total_deposits st.
Proof.
  intros H. unfold offset in H. destruct (_ =? 0); [done|].
  destruct (Z.ltb_spec (ps_total_deposits st) debt); [done|].
  bind H as num Hn. bind H as [le pf] Hl. bind H as mg Hmg. bind H as i Hi. bind H as c Hc. bind H as c2 Hc2.
  bind H as st2 Hst. by injection H as <- <-.
Qed.

Lemma reactor_phase x amt coll x' : 0 <= amt -> 0 <= coll -> (amt = 0 -> coll = 0) ->
  let vault := collateral_vault (lq_market x) in
  tok_mint (lq_ledger x) vault <> fusd_mint -> rp_coll_vault (lq_pool x) <> vault ->
  liq_reactor x amt coll = Ok x' ->
  lq_market x' = lq_market x /\ same_accounts x x' /\
  lq_buffer x' = lq_buffer x /\ lq_backstop x' = lq_backstop x /\
  moved vault fusd_mint (lq_ledger x) (lq_ledger x') (- coll) (- amt).
Proof.
  intros Ha Hc Hz vault Hv Hne H. unfold liq_reactor in H. fold vault in H.
  destruct (Z.ltb_spec 0 amt).
  - bind H as [ps grid] Hoff. bind H as u Hu. bind H as l1 Hl1. bind H as l2 Hl2. injection H as <-.
    inv_ok Hu. inv_ok Hl1. inv_ok Hoff. apply offset_total in Hoff as [Eps Hps]. checked. subst. cbn.
    split; [done|]. split; [constructor; cbn; try done; rewrite Eps; cbn in *; rlia|]. do 2 (split; [done|]).
    pose proof (burn_elsewhere _ _ _ _ _ _ _ Hv Hl1) as Hm1. destruct (Z.ltb_spec 0 coll).
    + bind Hl2 as c Hcu. inv_ok Hcu. inv_ok Hl2. checked. subst.
      apply (moved_transfer vault fusd_mint) in Hl2.
      rewrite bool_decide_false, bool_decide_true in Hl2 by congruence.
      eapply moved_eq; [eapply moved_trans; [exact Hm1 | exact Hl2]|lia|lia].
    + injection Hl2 as <-. eapply moved_eq; [exact Hm1 | lia | lia].
  - injection H as <-. specialize (Hz ltac:(lia)).
    do 4 (split; [done|]). eapply moved_eq; [apply moved_refl | lia | lia].
Qed.

Lemma buffer_phase x amt x' : 0 <= amt ->
  let vault := collateral_vault (lq_market x) in tok_mint (lq_ledger x) vault <> fusd_mint ->
  liq_buffer x amt = Ok x' ->
  lq_market x' = lq_market x /\ same_accounts x x' /\
  moved vault fusd_mint (lq_ledger x) (lq_ledger x') 0 (- amt).
Proof.
  intros Ha vault Hv H. unfold liq_buffer in H. destruct (Z.ltb_spec 0 amt).
  - bind H as u Hu. bind H as l1 Hl1. bind H as ab Hab. injection H as <-. inv_ok Hu. inv_ok Hl1.
    checked. subst. cbn. split; [done|]. split; [done|]. by eapply burn_elsewhere.
  - injection H as <-. do 2 (split; [done|]). eapply moved_eq; [apply moved_refl | lia | lia].
Qed.

Lemma backstop_phase k x amt x' : 0 <= amt ->
  let vault := collateral_vault (lq_market x) in tok_mint (lq_ledger x) vault <> fusd_mint ->
  liq_backstop k x amt = Ok x' ->
  (exists d, lq_market x' = (lq_market x) <| global_drawn := d |>) /\ same_accounts x x' /\
  moved vault fusd_mint (lq_ledger x) (lq_ledger x') 0 (- amt).
Proof.
  intros Ha vault Hv H. unfold liq_backstop in H. destruct (Z.ltb_spec 0 amt).
  - bind H as u Hu. bind H as bs Hbs. bind H as v Hvk. bind H as l1 Hl1. bind H as dr Hdr.
    bind H as ab Hab. injection H as <-. inv_ok Hu. inv_ok Hl1. checked. subst. cbn.
    split; [by exists dr|]. split; [done|]. by eapply burn_elsewhere.
  - injection H as <-. split; [exists (global_drawn (lq_market x)); by destruct (lq_market x)|].
    split; [done|]. eapply moved_eq; [apply moved_refl | lia | lia].
Qed.

(** Where the un-offset debt and collateral went: [rd] and [rc] to the other
    positions, or the collateral to the protocol's account. *)
Record remainder (m m' : Market) (rd rc pc : Z) : Prop := {
  rm_ts : last_update_ts m' = last_update_ts m;
  rm_id : same_identity m m';
  rm_market : market_ok m';
  rm_stakes : total_stakes m' = total_stakes m;
  rm_weight : agg_weighted_debt_sum m' = agg_weighted_debt_sum m;
  rm_debt : agg_recorded_debt m' = agg_recorded_debt m /\ unminted_interest m' = unminted_interest m /\
    bad_debt m' = bad_debt m;
  rm_coll : total_collateral m' = total_collateral m + rc;
  rm_protocol : protocol_collateral m' = protocol_collateral m + pc;
  rm_surplus : surplus_collateral m' = surplus_collateral m /\
    total_coll_surplus m' = total_coll_surplus m;
  rm_l_art : l_art m <= l_art m' /\ total_stakes m' * (l_art m' - l_art m) + last_art_redist_error m'
    = rd * PRECISION + last_art_redist_error m;
  rm_l_coll : l_coll m <= l_coll m' /\ total_stakes m' * (l_coll m' - l_coll m) + last_coll_redist_error m'
    = rc * PRECISION + last_coll_redist_error m;
}.

Lemma redistribute_phase m rd rc m' : market_ok m -> u128 rd -> u128 rc ->
  liq_redistribute m rd rc = Ok m' -> remainder m m' rd rc 0.
Proof.
  intros [] Hrd Hrc H. unfold liq_redistribute in H. bind H as st Hst. bind H as tc Htc.
  injection H as <-. inv_ok Hst. inv_ok Htc. checked. cbn in *. subst.
  apply redistribute_Ok in Hst as (Hts & (? & ? & ? & ?) & (? & ? & ? & ?)); [|done..]. cbn in *.
  constructor; cbn; try done; try lia. constructor; cbn; try done; rlia.
Qed.

(** The protocol tiers change only fields the books do not read. *)
Lemma remainder_protocol m pc d s b : market_ok m -> u64 (protocol_collateral m + pc) ->
  remainder m (m <| protocol_collateral := protocol_collateral m + pc |> <| global_drawn := d |>
                 <| shutdown_reason := s |> <| shutdown := b |>) 0 0 pc.
Proof. intros [] ?. constructor; cbn; try done; lia. Qed.

Lemma unhomed_shape m amt : exists s b, liq_unhomed m amt = m <| shutdown_reason := s |> <| shutdown := b |>.
Proof.
  unfold liq_unhomed. destruct m. cbn. destruct (_ <? _); [|by eexists _, _].
  destruct (_ =? _); cbn; destruct (negb _); by eexists _, _.
Qed.

Lemma remainder_phase k x a coll_r x' : market_ok (lq_market x) ->
  u128 (ab_redist a) -> 0 <= ab_buffer a -> 0 <= ab_global a -> 0 <= ab_unhomed a -> u128 coll_r ->
  (0 < ab_redist a -> ab_buffer a = 0 /\ ab_global a = 0) ->
  (ab_redist a + ab_buffer a + ab_global a + ab_unhomed a = 0 -> coll_r = 0) ->
  let vault := collateral_vault (lq_market x) in tok_mint (lq_ledger x) vault <> fusd_mint ->
  liq_remainder k x a coll_r = Ok x' ->
  same_accounts x x' /\
  (exists rc, remainder (lq_market x) (lq_market x') (ab_redist a) rc (coll_r - rc)) /\
  moved vault fusd_mint (lq_ledger x) (lq_ledger x') 0 (- (ab_buffer a + ab_global a)).
Proof.
  intros Hm Hr Hb Hg Hu Hc Hex Hnone vault Hv H. unfold liq_remainder in H.
  destruct (Z.ltb_spec 0 (ab_redist a)) as [Hr0|Hr0].
  - bind H as m Hm'. injection H as <-. apply redistribute_phase in Hm'; [|done..].
    split; [done|]. split; [exists coll_r; by rewrite Z.sub_diag|].
    destruct (Hex Hr0) as [-> ->]. apply moved_refl.
  - assert (ab_redist a = 0) as -> by rlia.
    destruct ((0 <? ab_buffer a) || (0 <? ab_global a) || (0 <? ab_unhomed a)) eqn:E.
    + bind H as cu Hcu. bind H as pc Hpc. bind H as x1 Hx1. bind H as x2 Hx2. injection H as <-.
      inv_ok Hcu. inv_ok Hpc. checked. subst.
      apply buffer_phase in Hx1 as (Em1 & [Ep1 Eb1 Ev1 Ed1] & Hmv1); [|done|done]. cbn in *.
      apply backstop_phase in Hx2 as ([d Em2] & [Ep2 Eb2 Ev2 Ed2] & Hmv2); [|done|].
      2:{ rewrite Em1. cbn. destruct Hmv1. by rewrite mv_mint. }
      rewrite Em1 in *. cbn in *.
      destruct (unhomed_shape (lq_market x2) (ab_unhomed a)) as (s & b & ->). rewrite Em2.
      split; [constructor; cbn; [congruence..|tauto]|]. split.
      * exists 0. rewrite Z.sub_0_r. by apply remainder_protocol.
      * eapply moved_eq; [eapply moved_trans; [exact Hmv1|exact Hmv2]|lia|lia].
    + injection H as <-. rewrite !orb_false_iff in E. destruct E as [[? ?] ?]. propify.
      assert (ab_buffer a = 0) as Eb by lia. assert (ab_global a = 0) as Eg by lia. rewrite Eb, Eg in *.
      specialize (Hnone ltac:(rlia)). subst coll_r. split; [done|]. split; [|apply moved_refl].
      exists 0. pose proof (remainder_protocol (lq_market x) 0 (global_drawn (lq_market x))
        (shutdown_reason (lq_market x)) (shutdown (lq_market x)) Hm) as Hrem.
      rewrite Z.add_0_r in Hrem. specialize (Hrem ltac:(by destruct Hm)). destruct (lq_market x). exact Hrem.
Qed.

(** Gas compensation, pool and remainder, in the handler's order. *)
Lemma waterfall_phase k x l1 gas debt dist a sp cr x4 x5 :
  let m := lq_market x in let vault := collateral_vault m in
  market_ok m -> 0 <= gas -> 0 < debt -> u128 debt -> u128 dist ->
  tok_mint (lq_ledger x) vault <> fusd_mint -> rp_coll_vault (lq_pool x) <> vault ->
  bool_decide (vault = lk_coll_ata k) = false ->
  (exists rc h bb ga, a = absorb debt rc h bb ga /\ u128 rc /\ u128 bb /\ u128 ga) ->
  mul_div_floor dist (ab_reactor a) debt = Some sp -> checked_sub128 dist sp = Some cr ->
  (if 0 <? gas then
     g ← math (try_u64 gas);
     cpi (token_transfer (lq_ledger x) vault (lk_coll_ata k) (market_pda (collateral_mint m)) g)
   else Ok (lq_ledger x)) = Ok l1 ->
  liq_reactor (x <| lq_ledger := l1 |>) (ab_reactor a) sp = Ok x4 ->
  liq_remainder k x4 a cr = Ok x5 ->
  same_accounts x x5 /\
  (exists rc, remainder m (lq_market x5) (ab_redist a) rc (cr - rc)) /\
  moved vault fusd_mint (lq_ledger x) (lq_ledger x5) (- (gas + sp))
    (- (ab_reactor a + ab_buffer a + ab_global a)).
Proof.
  intros m vault Hm Hgas Hd0 Hd Hdist Hv Hpool Hata (rc & h & bb & ga & Ea & Hrc & Hbb & Hga) Hsp Hcr
    Hl1 Hx4 Hx5.
  destruct (absorb_spec debt rc h bb ga) as (Ur & Ud & Ub & Ug & Uu & Et & _ & _ & _ & _); [done..|].
  rewrite <- Ea in *. unfold ab_total in Et.
  apply mul_div_floor_Some in Hsp as (_ & Esp & Usp); [|done..].
  assert (0 <= sp) by (rewrite Esp; apply Z.div_pos; rlia).
  assert (ab_reactor a = 0 -> sp = 0) as Hz by (intros E; rewrite Esp, E, Z.mul_0_r; by apply Z.div_0_l; lia).
  assert (ab_reactor a = debt -> sp = dist) as Hall by (intros E; rewrite Esp, E, Z.div_mul; lia).
  checked.
  assert (moved vault fusd_mint (lq_ledger x) l1 (- gas) 0) as Hmv1.
  { destruct (Z.ltb_spec 0 gas).
    - inv_ok Hl1. checked. subst. apply (moved_transfer vault fusd_mint) in Hl1.
      eapply moved_eq; [exact Hl1| |done].
      repeat case_bool_decide; done || lia.
    - injection Hl1 as <-. eapply moved_eq; [apply moved_refl|lia|lia]. }
  apply reactor_phase in Hx4 as (Em4 & [Ep4 Eb4 Ev4 Ed4] & _ & _ & Hmv4); [|rlia|lia|done| |done].
  2:{ cbn. destruct Hmv1. by rewrite mv_mint. }
  cbn in Em4, Ep4, Eb4, Ev4, Ed4, Hmv4.
  apply remainder_phase in Hx5 as ([Ep5 Eb5 Ev5 Ed5] & [rc5 Hrem] & Hmv5).
  - rewrite Em4 in Hrem. fold m in Em4, Hmv4. rewrite Em4 in Hmv5. fold m vault in Hmv4, Hmv5.
    split; [constructor; [congruence..|tauto]|]. split; [by exists rc5|].
    eapply moved_eq; [eapply moved_trans; [exact Hmv1|eapply moved_trans; [exact Hmv4|exact Hmv5]]|lia|lia].
  - by rewrite Em4.
  - done.
  - rlia.
  - rlia.
  - rlia.
  - rlia.
  - rewrite Ea. unfold absorb. cbn. destruct h; rlia.
  - intros E. rewrite Hall in Hcr by rlia. lia.
  - rewrite Em4. destruct Hmv1 as [_ _ _ E1], Hmv4 as [_ _ _ E4]. rewrite E4. by rewrite E1.
Qed.

(** ** The whole liquidation *)

(** What a liquidation may start from. *)
Record liq_ok (now : Z) (x : Liq) : Prop := {
  lo_market : market_ok (lq_market x);
  lo_position : position_ok (lq_market x) (lq_position x);
  lo_now : timestamp now /\ last_update_ts (lq_market x) <= now;
  lo_coupled : coupled (lq_bitmap x);
  lo_label : label_ok (lq_position x);
  lo_vault : tok_owner (lq_ledger x) (collateral_vault (lq_market x))
    = market_pda (collateral_mint (lq_market x));
  lo_vault_mint : tok_mint (lq_ledger x) (collateral_vault (lq_market x)) <> fusd_mint;
  lo_pool_vault : rp_coll_vault (lq_pool x) <> collateral_vault (lq_market x);
  lo_deposits : u128 (rp_total_deposits (lq_pool x));
}.

Record liq_effect (now : Z) (x x' : Liq) : Prop := {
  lf_books : exists m1 dI p1 rd rc, accrued_to (lq_market x) now m1 dI /\
    realized m1 (lq_position x) p1 /\
    liquidated m1 (lq_position x) p1 (lq_market x') (lq_position x') rd rc;
  lf_ledger : moved (collateral_vault (lq_market x)) fusd_mint (lq_ledger x) (lq_ledger x')
    (tracked (lq_market x') - tracked (lq_market x)) (backed_by (lq_market x') - backed_by (lq_market x));
  lf_coupled : coupled (lq_bitmap x');
  lf_count : forall b, 0 <= b -> count_of (lq_bitmap x') b = count_of (lq_bitmap x) b
    - member (recorded_debt (lq_position x)) (bucket (lq_position x)) b
    + member (recorded_debt (lq_position x')) (bucket (lq_position x')) b;
  lf_label : label_ok (lq_position x');
  lf_pool : rp_coll_vault (lq_pool x') = rp_coll_vault (lq_pool x) /\ u128 (rp_total_deposits (lq_pool x'));
}.

Lemma global_available_range k m bs l ga : liq_global_available k m bs l = Ok ga -> u128 ga.
Proof.
  intros H. unfold liq_global_available in H. destruct bs as [bs|]; [|injection H as <-; rlia].
  destruct (lk_backstop_vault k) as [v|]; [|injection H as <-; rlia].
  bind H as ? Hv. injection H as <-. unfold draw_available. pose proof (tok_amount_range l v). rlia.
Qed.

Lemma close_victim_Ok k m p l p' l' v f : liq_close_victim k m p l = Ok (p', l') ->
  moved v f l l' 0 0 /\ exists n r,
  p' = mkPosition (owner p) (pos_collateral_mint p) 0 0 (user_rate_bps p) (last_debt_update p) 0
         (l_coll m) (l_art m) r (bucket p) (coll_surplus p) (last_rate_adjust_ts p) n.
Proof.
  intros H. unfold liq_close_victim in H. bind H as l1 Hl1. rewrite set_ink_eq in H.
  injection H as <- <-. split; [|by eexists _, _]. destruct (_ <? _).
  - inv_ok Hl1. by eapply moved_lamports.
  - injection Hl1 as <-. apply moved_refl.
Qed.

(** Snapshots, closing and re-weighting, from the market the waterfall left. *)
Lemma finish_phase k m0 p p1 sp agg bad m5 rd rc pc l5 p6 l6 m7 :
  market_ok m0 -> realized m0 p p1 ->
  remainder (m0 <| total_stakes := total_stakes m0 - stake p1 |>
     <| total_collateral := total_collateral m0 - ink p1 |>
     <| total_coll_surplus := total_coll_surplus m0 + sp |>
     <| agg_recorded_debt := agg |> <| bad_debt := bad |>) m5 rd rc pc ->
  agg = agg_recorded_debt m0 - recorded_debt p1 + rd ->
  liq_close_victim k (liq_snapshots m5) (p1 <| coll_surplus := coll_surplus p1 + sp |>) l5 = Ok (p6, l6) ->
  reweight (liq_snapshots m5) p6 (weight p) = Ok m7 ->
  liquidated m0 p p1 m7 p6 rd rc /\ bucket p6 = bucket p /\
  coll_surplus p6 = coll_surplus p + sp /\ bad_debt m7 = bad /\ shutdown m7 = shutdown m5 /\
  tracked m7 = tracked m0 - ink p1 + sp + rc + pc /\
  backed_by m7 = backed agg (unminted_interest m0) bad.
Proof.
  intros Hm Hrz Hrem Eagg Hcl Hw. pose proof Hrz as []. pose proof rz_ok as [].
  destruct rz_frame as [_ _ Esurp]. pose proof Hm as [].
  destruct Hrem as [Ets [Emint Evault] Hm5 Est Ew (Ea & Eu & Eb) Ec Epc [Es1 Es2] Hla Hlc].
  apply (close_victim_Ok _ _ _ _ _ _ 0 0) in Hcl as [_ (n & r & ->)].
  apply reweight_Ok in Hw as [-> Hwu]. cbn in *.
  replace (weight _) with 0 in * by (unfold weight; cbn; lia).
  split; [|split; [done|split; [lia|split; [done|split; [done|]]]]].
  - destruct Hm5. constructor; cbn; try done; try lia.
    + constructor; cbn; try done. destruct (_ =? _); rlia.
    + constructor; cbn; try done; rlia.
  - unfold tracked, backed_by. cbn. rewrite Ea, Eu, Eb. lia.
Qed.

(** The intermediate states of a successful liquidation. *)
Record liq_trace (clk : Clock) (k : LiqAccounts) (x x' : Liq) (m1 : Market) (p1 : Position)
    (m2 : Market) (p2 : Position) (seize gas dist ga sp cr : Z) (sd : LiquidateDelta Z) (l1 : ledger)
    (x4 x5 : Liq) (p6 : Position) (l6 : ledger) (m7 : Market) (split : Absorption) : Prop := {
  lt_constraints : liq_constraints k x = Ok tt;
  lt_accrue : accrue (lq_market x) (unix_timestamp clk) = Ok m1;
  lt_guards : liq_price_guards clk m1 = Ok tt;
  lt_realize : realize m1 (lq_position x) (unix_timestamp clk) = Ok p1;
  lt_debt : 0 < recorded_debt p1;
  lt_unhealthy : is_healthy (ink p1) (recorded_debt p1) (debt_spot m1) (mcr_bps m1) = false;
  lt_victim : liq_remove_victim m1 p1 = Ok (m2, p2, seize);
  lt_gas : checked_mul128 seize (liq_gas_comp_bps m2) = Some gas;
  lt_dist : checked_sub128 seize (gas / 10000) = Some dist;
  lt_global : liq_global_available k m2 (lq_backstop x) (lq_ledger x) = Ok ga;
  lt_split : split = absorb (recorded_debt p1) (rp_total_deposits (lq_pool x)) (0 <? total_stakes m2)
    (tok_amount (lq_ledger x) (ib_fusd_vault (lq_buffer x))) ga;
  lt_supply : supply_liquidate (agg_recorded_debt m2) (bad_debt m2) (ab_reactor split) (ab_redist split)
    (ab_buffer split) (ab_global split) (ab_unhomed split) = Some sd;
  lt_sp : mul_div_floor dist (ab_reactor split) (recorded_debt p1) = Some sp;
  lt_cr : checked_sub128 dist sp = Some cr;
  lt_gas_paid : (if 0 <? gas / 10000 then
     g ← math (try_u64 (gas / 10000));
     cpi (token_transfer (lq_ledger x) (collateral_vault (lq_market x)) (lk_coll_ata k)
            (market_pda (collateral_mint m2)) g)
     else Ok (lq_ledger x)) = Ok l1;
  lt_pool : liq_reactor (x <| lq_market := m2 <| agg_recorded_debt := ld_new_agg sd |> <| bad_debt := ld_new_bad sd |> |>
     <| lq_position := p2 |> <| lq_ledger := l1 |>) (ab_reactor split) sp = Ok x4;
  lt_rest : liq_remainder k x4 split cr = Ok x5;
  lt_close : liq_close_victim k (liq_snapshots (lq_market x5)) (lq_position x5) (lq_ledger x5) = Ok (p6, l6);
  lt_reweight : reweight (liq_snapshots (lq_market x5)) p6 (weight (lq_position x)) = Ok m7;
  lt_reconcile : reconcile (lq_bitmap x5) m7 p6 (recorded_debt (lq_position x))
    = Ok (lq_bitmap x', lq_position x');
  lt_result : lq_market x' = m7 /\ lq_ledger x' = l6 /\ lq_pool x' = lq_pool x5;
  lt_backstop : lq_backstop x' = lq_backstop x5;
  lt_buffer : lq_buffer x' = lq_buffer x5;
  lt_grid : lq_grid x' = lq_grid x5;
}.

Lemma liquidate_run clk k x x' : liquidate clk k x = Ok x' ->
  exists m1 p1 m2 p2 seize gas dist ga sp cr sd l1 x4 x5 p6 l6 m7 split,
  liq_trace clk k x x' m1 p1 m2 p2 seize gas dist ga sp cr sd l1 x4 x5 p6 l6 m7 split.
Proof.
  intros H. unfold liquidate in H. bind H as [] Hk. bind H as m1 Hm1. bind H as [] Hg. bind H as old Hold.
  bind H as p1 Hp1. bind H as ? Hd0. bind H as ? Hun. bind H as [[m2 p2] seize] Hrm. bind H as gas Hgas.
  bind H as dist Hdist. bind H as ga Hga. bind H as sd Hsd. bind H as sp Hcsp. bind H as cr Hcr.
  bind H as l1 Hl1. bind H as x4 Hx4. bind H as x5 Hx5. bind H as [p6 l6] Hcl. bind H as m7 Hw.
  bind H as [bm p8] Hrec. bind H as ? Hsuf. apply (inj Ok) in H. subst x'.
  apply weighted_Ok in Hold as [-> _]. inv_ok Hd0. inv_ok Hun. apply math_Ok in Hgas, Hsd, Hcsp.
  apply no_panic_Ok in Hdist, Hcr.
  exists m1, p1, m2, p2, seize, gas, dist, ga, sp, cr, sd, l1, x4, x5, p6, l6, m7. eexists. by constructor.
Qed.

Section trace.
Context (clk : Clock) (k : LiqAccounts) (x x' : Liq).
Let now := unix_timestamp clk.
Context (Hok : liq_ok now x) (Hsig : lk_liquidator k <> market_pda (collateral_mint (lq_market x))).

Lemma trace_realized m1 p1 : accrue (lq_market x) now = Ok m1 -> realize m1 (lq_position x) now = Ok p1 ->
  exists dI, accrued_to (lq_market x) now m1 dI /\ realized m1 (lq_position x) p1 /\ market_ok m1.
Proof using Hok.
  destruct Hok as [Hm Hp [Hn Hle] _ _ _ _ _ _]. intros Ha Hr. apply accrue_Ok in Ha as [dI Ha]; [|done..].
  pose proof (ac_ok _ _ _ _ Ha) as Hm1. exists dI. split; [done|]. split; [|done].
  exact (realize_Ok _ _ _ _ Hm1 (position_ok_accrued _ _ _ _ _ Hle Ha Hp) Hn (accrued_synced _ _ _ _ Ha Hle) Hr).
Qed.

(** The parts of the split add up to the debt, and each is a [u128]. *)
Lemma trace_split debt h ga : u128 debt -> u128 ga ->
  let bal := tok_amount (lq_ledger x) (ib_fusd_vault (lq_buffer x)) in
  u128 bal /\ ab_total (absorb debt (rp_total_deposits (lq_pool x)) h bal ga) = debt.
Proof using Hok.
  intros Hd Hga bal. assert (u128 bal) as Hb by (pose proof (tok_amount_range (lq_ledger x)
    (ib_fusd_vault (lq_buffer x))); subst bal; rlia).
  split; [done|]. destruct Hok. by apply absorb_spec.
Qed.

(** What the trace amounts to, before the index is reconciled. *)
Record liq_outcome (m1 : Market) (p1 : Position) (seize : Z) (x5 : Liq) (p6 : Position) (l6 : ledger)
    (m7 : Market) (a : Absorption) : Prop := {
  oc_accrued : exists dI, accrued_to (lq_market x) now m1 dI;
  oc_realized : realized m1 (lq_position x) p1;
  oc_surplus : exists sp, seize_collateral (ink p1) (recorded_debt p1) (debt_spot m1) (liq_bonus_bps m1)
    = Some (seize, sp) /\ coll_surplus p6 = coll_surplus (lq_position x) + sp;
  oc_liquidated : exists rc, liquidated m1 (lq_position x) p1 m7 p6 (ab_redist a) rc;
  oc_total : ab_total a = recorded_debt p1;
  oc_bad : bad_debt m7 = bad_debt m1 + ab_unhomed a;
  oc_shutdown : shutdown m7 = shutdown (lq_market x5);
  oc_ledger : moved (collateral_vault (lq_market x)) fusd_mint (lq_ledger x) l6
    (tracked m7 - tracked (lq_market x)) (backed_by m7 - backed_by (lq_market x));
  oc_same : lq_bitmap x5 = lq_bitmap x /\ bucket p6 = bucket (lq_position x);
  oc_pool : rp_coll_vault (lq_pool x5) = rp_coll_vault (lq_pool x) /\ u128 (rp_total_deposits (lq_pool x5));
}.

Lemma trace_outcome m1 p1 m2 p2 seize gas dist ga coll_sp coll_r sd l1 x4 x5 p6 l6 m7 a :
  liq_trace clk k x x' m1 p1 m2 p2 seize gas dist ga coll_sp coll_r sd l1 x4 x5 p6 l6 m7 a ->
  liq_outcome m1 p1 seize x5 p6 l6 m7 a.
Proof using Hok Hsig.
  intros []. pose proof Hok as []. fold now in lt_accrue0, lt_realize0.
  unfold liq_constraints in lt_constraints0. bind lt_constraints0 as ? Hmint.
  pose proof (ata_not_vault _ _ _ _ _ _ lo_vault0 Hsig lt_constraints0) as Hata.
  destruct (trace_realized _ _ lt_accrue0 lt_realize0) as (dI & Hacc & Hrz & Hm1ok).
  destruct (accrued_same _ _ _ _ Hacc) as ([Emi Eva] & Etr & Ebk).
  pose proof (rz_ok _ _ _ Hrz) as Hp1ok. pose proof Hp1ok as [].
  apply remove_victim_Ok in lt_victim0 as (sp & Hsz & Esz & ? & ? & -> & -> & ? & ? & ?); [|done..].
  apply global_available_range in lt_global0. cbn in *.
  destruct (trace_split (recorded_debt p1) (0 <? total_stakes m1 - stake p1) ga) as [Hbal Et]; [done..|].
  rewrite <- lt_split0 in Et. pose proof Et as Et'. unfold ab_total in Et'. checked.
  apply (supply_liquidate_Ok _ _ _ (ab_redist a)) in lt_supply0 as (_ & Eagg & Ebad & ? & ?).
  assert (0 <= gas / 10000) by (apply Z.div_pos; [|done]; destruct Hm1ok; rlia).
  set (m3 := m1 <| total_stakes := total_stakes m1 - stake p1 |>
     <| total_collateral := total_collateral m1 - ink p1 |>
     <| total_coll_surplus := total_coll_surplus m1 + sp |>
     <| agg_recorded_debt := ld_new_agg sd |> <| bad_debt := ld_new_bad sd |>) in *.
  set (p3 := p1 <| coll_surplus := coll_surplus p1 + sp |>) in *.
  destruct (waterfall_phase k (x <| lq_market := m3 |> <| lq_position := p3 |>) l1 (gas / 10000)
    (recorded_debt p1) dist a coll_sp coll_r x4 x5) as ([Ep5 Eb5 Ev5 Ed5] & [rc Hrem] & Hmv); cbn; rewrite ?Eva; try done.
  { destruct Hm1ok. constructor; cbn; try done; rlia. }
  { rlia. }
  { eexists _, _, _, ga. split; [exact lt_split0|]. done. }
  { apply fit_Some. lia. }
  cbn in Ep5, Eb5, Ev5, Ed5, Hmv. rewrite Ep5, Eva in *.
  destruct (close_victim_Ok _ _ _ _ _ _ (collateral_vault (lq_market x)) fusd_mint lt_close0) as [Hmv6 _].
  destruct (finish_phase k m1 (lq_position x) p1 sp _ _ _ _ _ _ (lq_ledger x5) p6 l6 m7 Hm1ok Hrz Hrem)
    as (Hlz & Ebu & Esp & Ebd & Esh & Etr7 & Ebk7); [lia|done|done|].
  constructor; try done; [by exists dI|by exists sp|by exists rc|lia| |by split; [|apply Ed5]].
  eapply moved_eq; [eapply moved_trans; [exact Hmv|exact Hmv6]| |].
  - rewrite Etr7, <- Etr. lia.
  - rewrite Ebk7, <- Ebk. unfold backed_by, backed. lia.
Qed.

Lemma liquidate_effect : liquidate clk k x = Ok x' -> liq_effect now x x'.
Proof using Hok Hsig.
  intros H. apply liquidate_run in H as (m1 & p1 & m2 & p2 & seize & gas & dist & ga & coll_sp & coll_r & sd & l1 &
    x4 & x5 & p6 & l6 & m7 & a & Htr).
  destruct (trace_outcome _ _ _ _ _ _ _ _ _ _ _ _ _ _ _ _ _ _ Htr)
    as [[dI Hacc] Hrz _ [rc Hlz] _ _ _ Hmv [Eb5 Ebu] Hpool]. destruct Htr. pose proof Hok as [].
  destruct lt_result0 as (E1 & E2 & E3). rewrite Eb5 in lt_reconcile0.
  eapply reconcile_touch in lt_reconcile0 as (Hc & Hl & Ep & Hcnt);
    [|done | by destruct Hlz | by destruct Hlz | exact lo_label0 | done].
  constructor; cbn; rewrite ?E1, ?E2, ?E3; try done.
  exists m1, dI, p1, (ab_redist a), rc. split; [done|]. split; [done|].
  rewrite Ep. by apply liquidated_bucket.
Qed.

End trace.

End liquidate_proofs.
