(* ===== verification/Redeem.v ===== *)
(** * Redemption ([programs/fusd-core/src/instructions/redeem.rs], [urgent_redeem.rs])

    [redeem] drains the lowest non-empty rate bucket at face value, the riskiest
    submitted candidate first; [urgent_redeem] is the unordered wind-down of a
    shut-down market. The candidates are the instruction's remaining accounts, by
    key: the positions of the market are [rd_positions], and [rd_others] holds the
    keys of the program's other accounts. A key in neither is a closed account. *)

From S2P Require Import Prelude MachineInt FixedPoint Interest RateBucket RedemptionRate.
From S2P Require Import SupplyTransition State Token Accrual Bucket PositionOps.

Open Scope Z_scope.

Section redeem.
Context {U : U256} {R : Runtime}.

Record RedeemAccounts := mkRedeemAccounts {
  rk_redeemer : Pubkey;
  rk_fusd_ata : Pubkey;
  rk_coll_ata : Pubkey;
  rk_vault : Pubkey;
  rk_candidates : list Pubkey;
}.

Record Redemption := mkRedemption {
  rd_market : Market;
  rd_positions : gmap Pubkey Position;
  rd_others : gset Pubkey;
  rd_bitmap : RedemptionBitmap;
  rd_ledger : ledger;
}.

Definition redeem_constraints (k : RedeemAccounts) (m : Market) (l : ledger) : result Error unit :=
  _ ← constraint (bool_decide (rk_vault k = collateral_vault m));
  _ ← ata_constraints l (rk_fusd_ata k) fusd_mint (rk_redeemer k);
  ata_constraints l (rk_coll_ata k) (collateral_mint m) (rk_redeemer k).

(** The price a redemption pays at: the middle of the two conservative legs. *)
Definition mid_price (m : Market) : result Error Z :=
  _ ← check ((0 <? spot m) && (0 <? debt_spot m)) FusdError.OracleUnavailable;
  sum ← math (checked_add128 (spot m) (debt_spot m));
  Ok (sum / 2).

(** [Account::<Position>::try_from] behind the closed-candidate skip. *)
Definition load_candidate (ps : gmap Pubkey Position) (others : gset Pubkey) (key : Pubkey)
    : result Error (option Position) :=
  match ps !! key with
  | Some p => Ok (Some p)
  | None => if bool_decide (key ∈ others) then Err ConstraintViolated else Ok None
  end.

(** ** The validation pass *)

Record Scan := mkScan {
  sc_market : Market;
  sc_positions : gmap Pubkey Position;
  sc_seen : list Pubkey;
  sc_order : list (Pubkey * Z * Z);
}.

(** A candidate with debt in the lowest normal bucket, or in the pen. *)
Definition redeemable (lowest_normal : option Z) (p : Position) : bool :=
  (0 <? recorded_debt p)
  && ((bucket p =? ZOMBIE_BUCKET) || bool_decide (Some (bucket p) = lowest_normal)).

Definition validate_one (now : Z) (lowest_normal : option Z) (others : gset Pubkey) (s : Scan)
    (key : Pubkey) : result Error Scan :=
  pos ← load_candidate (sc_positions s) others key;
  match pos with
  | None => Ok s
  | Some p =>
      _ ← check (bool_decide (pos_collateral_mint p = collateral_mint (sc_market s)))
            FusdError.Unauthorized;
      _ ← check (negb (bool_decide (key ∈ sc_seen s))) FusdError.DuplicateRedemptionTarget;
      let seen := sc_seen s ++ [key] in
      if negb (redeemable lowest_normal p) then Ok (mkScan (sc_market s) (sc_positions s) seen (sc_order s))
      else
        old_weighted ← weighted p;
        p ← realize (sc_market s) p now;
        m ← reweight (sc_market s) p old_weighted;
        '(m, p) ← redist.set_stake m p;
        Ok (mkScan m (<[key := p]> (sc_positions s)) seen
              (sc_order s ++ [(key, ink p, recorded_debt p)]))
  end.

Fixpoint validate (now : Z) (lowest_normal : option Z) (others : gset Pubkey) (s : Scan)
    (keys : list Pubkey) : result Error Scan :=
  match keys with
  | [] => Ok s
  | key :: keys =>
      s ← validate_one now lowest_normal others s key;
      validate now lowest_normal others s keys
  end.

(** ** [order.sort_by]: the stable sort by collateral ratio *)

Definition ratio_le (a b : Pubkey * Z * Z) : bool :=
  match cmp_collateral_ratio a.1.2 a.2 b.1.2 b.2 with Gt => false | _ => true end.

Fixpoint insert_by_ratio (x : Pubkey * Z * Z) (l : list (Pubkey * Z * Z)) : list (Pubkey * Z * Z) :=
  match l with
  | [] => [x]
  | y :: l => if ratio_le x y then x :: y :: l else y :: insert_by_ratio x l
  end.

Definition sort_by_ratio (l : list (Pubkey * Z * Z)) : list (Pubkey * Z * Z) :=
  foldr insert_by_ratio [] l.

(** ** The redeem pass *)

Record Drain := mkDrain {
  dr_market : Market;
  dr_positions : gmap Pubkey Position;
  dr_bitmap : RedemptionBitmap;
  dr_remaining : Z;
  dr_drawn : Z;
}.

(** What one redemption takes from a position: the fUSD, capped by its debt and by the
    value of its collateral, and the collateral at face value. *)
Definition redeem_amounts (mid remaining : Z) (p : Position) : result Error (option (Z * Z)) :=
  coll_value ← math (ray_mul (ink p) mid);
  let redeem_amt := Z.min (Z.min remaining (recorded_debt p)) coll_value in
  if redeem_amt =? 0 then Ok None
  else
    c ← math (mul_div_floor redeem_amt RAY mid);
    Ok (Some (redeem_amt, Z.min c (ink p))).

(** Take [redeem_amt] of debt and [coll_total] of collateral off a realized position. *)
Definition redeem_apply (m : Market) (p : Position) (bm : RedemptionBitmap) (redeem_amt coll_total
    old_weighted art_before : Z) : result Error (Market * Position * RedemptionBitmap * Z) :=
  d ← math (supply_redeem_step (agg_recorded_debt m) redeem_amt);
  debt ← no_panic (checked_sub128 (recorded_debt p) redeem_amt);
  let p := p <| recorded_debt := debt |> in
  new_ink ← no_panic (checked_sub64 (ink p) (as_u64 coll_total));
  let p := set_ink p new_ink in
  let m := m <| agg_recorded_debt := rs_new_agg d |> in
  tc ← math (checked_sub128 (total_collateral m) coll_total);
  let m := m <| total_collateral := tc |> in
  m ← reweight m p old_weighted;
  '(m, p) ← redist.set_stake m p;
  '(bm, p) ← reconcile bm m p art_before;
  Ok (m, p, bm, rs_burned d).

Definition redeem_one (mid : Z) (s : Drain) (key : Pubkey) : result Error Drain :=
  match dr_positions s !! key with
  | None => Err ConstraintViolated
  | Some p =>
      amounts ← redeem_amounts mid (dr_remaining s) p;
      match amounts with
      | None => Ok s
      | Some (redeem_amt, coll_total) =>
          let debt := recorded_debt p in
          old_weighted ← weighted p;
          '(m, p, bm, burned) ← redeem_apply (dr_market s) p (dr_bitmap s) redeem_amt coll_total
                                  old_weighted debt;
          drawn ← math (checked_add128 (dr_drawn s) coll_total);
          remaining ← no_panic (checked_sub128 (dr_remaining s) burned);
          Ok (mkDrain m (<[key := p]> (dr_positions s)) bm remaining drawn)
      end
  end.

Fixpoint redeem_loop (mid : Z) (s : Drain) (keys : list Pubkey) : result Error Drain :=
  match keys with
  | [] => Ok s
  | key :: keys =>
      if dr_remaining s =? 0 then Ok s
      else s ← redeem_one mid s key; redeem_loop mid s keys
  end.

(** ** The fee *)

(** The base rate decayed to now, bumped by this redemption's volume, and the fee. *)
Definition redeem_fee (now : Z) (m : Market) (decayed redeemed total_debt_before : Z) : Market * Z :=
  let max_bps := redemption_base_rate_max_bps m in
  let new_base_rate :=
    if 0 <? max_bps then bump_base_rate decayed redeemed total_debt_before else 0 in
  let m :=
    if 0 <? max_bps then
      let m := m <| redemption_base_rate := new_base_rate |> in
      if 60 <=? sat_sub_i64 now (redemption_base_rate_ts m)
      then m <| redemption_base_rate_ts := now |> else m
    else m in
  (m, effective_fee_bps new_base_rate (redemption_fee_bps m) max_bps MAX_REDEMPTION_FEE_BPS).

Definition decayed_base_rate (now : Z) (m : Market) : Z :=
  if 0 <? redemption_base_rate_max_bps m
  then decay_base_rate (redemption_base_rate m) (sat_sub_i64 now (redemption_base_rate_ts m))
  else 0.

(** Burn the redeemed fUSD and pay the collateral out. *)
Definition redeem_settle (k : RedeemAccounts) (m : Market) (l : ledger) (redeemed paid : Z)
    : result Error ledger :=
  l ← cpi (token_burn l fusd_mint (rk_fusd_ata k) (rk_redeemer k) (as_u64 redeemed));
  if 0 <? paid then
    cpi (token_transfer l (rk_vault k) (rk_coll_ata k) (market_pda (collateral_mint m)) (as_u64 paid))
  else Ok l.

(** ** [redeem.rs] *)

Definition redeem (clk : Clock) (k : RedeemAccounts) (x : Redemption) (amount : Z)
    : result Error Redemption :=
  _ ← redeem_constraints k (rd_market x) (rd_ledger x);
  _ ← check (0 <? amount) FusdError.ZeroAmount;
  _ ← check (Z.of_nat (length (rk_candidates k)) <=? MAX_REDEMPTION_CANDIDATES)
        FusdError.TooManyRedemptionCandidates;
  _ ← check (negb (shutdown (rd_market x))) FusdError.MarketShutdown;
  let now := unix_timestamp clk in
  m ← accrue (rd_market x) now;
  mid ← mid_price m;
  let total_debt_before := agg_recorded_debt m in
  let decayed := decayed_base_rate now m in
  _ ← check (fresh_price clk m) FusdError.StalePrice;
  let lowest_normal := first_set (words (rd_bitmap x)) in
  let has_zombies := 0 <? zombie_count (rd_bitmap x) in
  _ ← check (bool_decide (is_Some lowest_normal) || has_zombies) FusdError.NothingToRedeem;
  s ← validate now lowest_normal (rd_others x) (mkScan m (rd_positions x) [] []) (rk_candidates k);
  _ ← check (negb (bool_decide (sc_order s = []))) FusdError.NothingToRedeem;
  d ← redeem_loop mid (mkDrain (sc_market s) (sc_positions s) (rd_bitmap x) amount 0)
        ((fun e => e.1.1) <$> sort_by_ratio (sc_order s));
  redeemed ← no_panic (checked_sub128 amount (dr_remaining d));
  _ ← check (0 <? redeemed) FusdError.NothingToRedeem;
  let '(m, fee_bps) := redeem_fee now (dr_market d) decayed redeemed total_debt_before in
  fee ← math (checked_mul128 (dr_drawn d) fee_bps);
  let fee_coll := fee / 10000 in
  paid ← no_panic (checked_sub128 (dr_drawn d) fee_coll);
  surplus ← math (checked_add64 (surplus_collateral m) (as_u64 fee_coll));
  let m := m <| surplus_collateral := surplus |> in
  l ← redeem_settle k m (rd_ledger x) redeemed paid;
  _ ← assert_collateral_vault_sufficiency l (rk_vault k) m;
  Ok (mkRedemption m (dr_positions d) (rd_others x) (dr_bitmap d) l).

(** ** [urgent_redeem.rs] *)

Record Wind := mkWind { wd_drain : Drain; wd_seen : list Pubkey }.

Definition urgent_one (now mid : Z) (others : gset Pubkey) (w : Wind) (key : Pubkey)
    : result Error Wind :=
  let s := wd_drain w in
  pos ← load_candidate (dr_positions s) others key;
  match pos with
  | None => Ok w
  | Some p =>
      _ ← check (negb (bool_decide (key ∈ wd_seen w))) FusdError.DuplicateRedemptionTarget;
      let seen := wd_seen w ++ [key] in
      _ ← check (bool_decide (pos_collateral_mint p = collateral_mint (dr_market s)))
            FusdError.Unauthorized;
      old_weighted ← weighted p;
      let art_before := recorded_debt p in
      p ← realize (dr_market s) p now;
      amounts ← redeem_amounts mid (dr_remaining s) p;
      match amounts with
      | None =>
          m ← reweight (dr_market s) p old_weighted;
          '(m, p) ← redist.set_stake m p;
          '(bm, p) ← reconcile (dr_bitmap s) m p art_before;
          Ok (mkWind (mkDrain m (<[key := p]> (dr_positions s)) bm (dr_remaining s) (dr_drawn s)) seen)
      | Some (redeem_amt, coll_total) =>
          '(m, p, bm, burned) ← redeem_apply (dr_market s) p (dr_bitmap s) redeem_amt coll_total
                                  old_weighted art_before;
          drawn ← math (checked_add128 (dr_drawn s) coll_total);
          remaining ← no_panic (checked_sub128 (dr_remaining s) burned);
          Ok (mkWind (mkDrain m (<[key := p]> (dr_positions s)) bm remaining drawn) seen)
      end
  end.

Fixpoint urgent_loop (now mid : Z) (others : gset Pubkey) (w : Wind) (keys : list Pubkey)
    : result Error Wind :=
  match keys with
  | [] => Ok w
  | key :: keys =>
      if dr_remaining (wd_drain w) =? 0 then Ok w
      else w ← urgent_one now mid others w key; urgent_loop now mid others w keys
  end.

Definition urgent_redeem (clk : Clock) (k : RedeemAccounts) (x : Redemption) (amount : Z)
    : result Error Redemption :=
  _ ← redeem_constraints k (rd_market x) (rd_ledger x);
  _ ← check (0 <? amount) FusdError.ZeroAmount;
  _ ← check (shutdown (rd_market x)) FusdError.MarketNotShutdown;
  _ ← check (Z.of_nat (length (rk_candidates k)) <=? MAX_REDEMPTION_CANDIDATES)
        FusdError.TooManyRedemptionCandidates;
  let now := unix_timestamp clk in
  m ← accrue (rd_market x) now;
  mid ← mid_price m;
  w ← urgent_loop now mid (rd_others x)
        (mkWind (mkDrain m (rd_positions x) (rd_bitmap x) amount 0) []) (rk_candidates k);
  let d := wd_drain w in
  redeemed ← no_panic (checked_sub128 amount (dr_remaining d));
  _ ← check (0 <? redeemed) FusdError.NothingToRedeem;
  l ← redeem_settle k (dr_market d) (rd_ledger x) redeemed (dr_drawn d);
  _ ← assert_collateral_vault_sufficiency l (rk_vault k) (dr_market d);
  Ok (mkRedemption (dr_market d) (dr_positions d) (rd_others x) (dr_bitmap d) l).

End redeem.
