(* ===== verification/RedeemProofs.v ===== *)
(** * Redemption keeps the books

    The effect of [redeem] and [urgent_redeem] on the market, its positions, the
    index and the ledger, and which positions a redemption may touch. *)

From S2P Require Import Prelude MachineInt FixedPoint Interest Redistribution RateBucket.
From S2P Require Import RedemptionRate SupplyTransition Cdp State Token Accrual Bucket PositionOps.
From S2P Require Import TouchEffect PositionProofs World Redeem.

Open Scope Z_scope.

(** What the passes over the candidates did to the market's counters. *)
Record progress (m m' : Market) (burned drawn : Z) : Prop := {
  pg_acc : same_accumulators m m';
  pg_id : same_identity m m';
  pg_shutdown : shutdown m' = shutdown m /\ shutdown_reason m' = shutdown_reason m;
  pg_debt : agg_recorded_debt m' = agg_recorded_debt m - burned;
  pg_counters : unminted_interest m' = unminted_interest m /\ bad_debt m' = bad_debt m;
  pg_coll : total_collateral m' = total_collateral m - drawn;
  pg_surplus : surplus_collateral m' = surplus_collateral m /\
    total_coll_surplus m' = total_coll_surplus m /\ protocol_collateral m' = protocol_collateral m;
}.

Lemma progress_refl m : progress m m 0 0.
Proof. constructor; done || lia. Qed.

Lemma progress_trans m1 m2 m3 b1 b2 d1 d2 :
  progress m1 m2 b1 d1 -> progress m2 m3 b2 d2 -> progress m1 m3 (b1 + b2) (d1 + d2).
Proof.
  intros [[] [] [] ? [] ? (? & ? & ?)] [[] [] [] ? [] ? (? & ? & ?)].
  constructor; try lia; repeat split; congruence.
Qed.

(** A position whose interest and redistribution are folded in. *)
Record current (m : Market) (p : Position) : Prop := {
  cu_clock : last_debt_update p = last_update_ts m;
  cu_coll : redist_l_coll_snapshot p = l_coll m;
  cu_art : redist_l_art_snapshot p = l_art m;
}.

Lemma current_same m m' p : same_accumulators m m' -> current m p -> current m' p.
Proof. intros [] []. constructor; congruence. Qed.

Section redeem_proofs.
Context {U : U256} {R : Runtime}.

Lemma realized_self m p : position_ok m p -> current m p -> realized m p p.
Proof.
  intros Hp []. constructor; try done; try lia.
  - unfold debt_share. rewrite cu_clock0, cu_art0. lia.
  - unfold coll_share. rewrite cu_coll0. lia.
Qed.

Lemma realized_edited m p p1 : realized m p p1 -> market_ok m -> edited m p1 m p1.
Proof. intros [] ?. destruct rz_ok. by constructor. Qed.

(** ** One candidate *)

(** Bringing a position current, without any other change. *)
Lemma refresh_position m p p1 m2 m3 p3 : market_ok m -> realized m p p1 ->
  reweight m p1 (weight p) = Ok m2 -> redist.set_stake m2 p1 = Ok (m3, p3) ->
  local_effect m p m3 p3 /\ progress m m3 0 0 /\ current m3 p3 /\ p3 = p1 <| stake := stake p3 |>.
Proof.
  intros Hm Hr Hw Hs.
  eapply touch_books in Hs as (Hle & Em & Ep); [|done|exact Hr|exact (realized_edited _ _ _ Hr Hm)|done].
  split; [done|]. split; [rewrite Em; constructor; done || (cbn; lia)|]. split; [|done].
  rewrite Em, Ep. destruct Hr. by constructor.
Qed.

Lemma amounts_Ok m p mid rem amt c : market_ok m -> position_ok m p -> u128 rem -> 0 < mid <= U128_MAX ->
  redeem_amounts mid rem p = Ok (Some (amt, c)) ->
  0 < amt <= rem /\ amt <= recorded_debt p /\ 0 <= c <= ink p /\
  RAY * amt <= ink p * mid /\ c * mid <= RAY * amt.
Proof.
  intros Hm [] Hr Hmid H. unfold redeem_amounts in H. bind H as cv Hcv. inv_ok Hcv.
  unfold ray_mul in Hcv. apply mul_div_floor_Some in Hcv as (_ & Ecv & _); [|rlia..].
  assert (RAY * cv <= ink p * mid) by (rewrite Ecv; apply Z.mul_div_le; lia).
  assert (0 <= cv) by (rewrite Ecv; apply Z.div_pos; [apply Z.mul_nonneg_nonneg|]; rlia).
  destruct (Z.eqb_spec (Z.min (Z.min rem (recorded_debt p)) cv) 0); [done|].
  bind H as x Hx. apply math_Ok in Hx. injection H as <- <-.
  apply mul_div_floor_Some in Hx as (_ & Ex & _); [|rlia..].
  assert (mid * x <= Z.min (Z.min rem (recorded_debt p)) cv * RAY) by (rewrite Ex; apply Z.mul_div_le; lia).
  assert (0 <= x) by (rewrite Ex; apply Z.div_pos; [apply Z.mul_nonneg_nonneg|]; rlia).
  assert (Z.min x (ink p) * mid <= x * mid) by (apply Z.mul_le_mono_nonneg_r; lia). rlia.
Qed.

Lemma redeem_edit m p amt c : market_ok m -> position_ok m p ->
  0 <= amt <= recorded_debt p -> 0 <= c <= ink p ->
  u128 (agg_recorded_debt m - amt) -> u128 (total_collateral m - c) ->
  edited m p (m <| agg_recorded_debt := agg_recorded_debt m - amt |>
                <| total_collateral := total_collateral m - c |>)
    (set_ink (p <| recorded_debt := recorded_debt p - amt |>) (ink p - c)).
Proof.
  intros [] [] ? ? ? ?. rewrite set_ink_eq. constructor; cbn; try done; rlia.
Qed.

(** Redeeming against a position that has been brought current. *)
Lemma redeem_apply_Ok m p p1 bm amt c art_before m' p' bm' burned :
  market_ok m -> realized m p p1 -> coupled bm -> label_ok p ->
  0 <= amt <= recorded_debt p1 -> 0 <= c <= ink p1 -> art_before = recorded_debt p ->
  redeem_apply m p1 bm amt c (weight p) art_before = Ok (m', p', bm', burned) ->
  burned = amt /\ local_effect m p m' p' /\ progress m m' amt c /\ current m' p' /\
  coupled bm' /\ label_ok p' /\
  recorded_debt p' = recorded_debt p1 - amt /\ ink p' = ink p1 - c /\
  (forall b, 0 <= b -> count_of bm' b = count_of bm b - member (recorded_debt p) (bucket p) b
     + member (recorded_debt p') (bucket p') b).
Proof.
  intros Hm Hrz Hbm Hlab Hamt Hc -> H. pose proof Hrz as []. pose proof rz_ok as [].
  unfold redeem_apply in H. bind H as d Hd. bind H as nd Hnd. bind H as ni Hni. bind H as tc Htc.
  bind H as m3 Hw. bind H as [m4 p4] Hs. bind H as [bm5 p5] Hrec. injection H as <- <- <- <-.
  inv_ok Hd. inv_ok Hnd. inv_ok Hni. inv_ok Htc. apply supply_redeem_Ok in Hd as (-> & Ea & ?).
  cbn in Hni. unfold as_u64 in Hni. rewrite Z.mod_small in Hni by rlia.
  checked. cbn in *. subst. rewrite Ea in *.
  eapply touch_books in Hs as (Hle & Em4 & Ep4); [|done|exact Hrz|by apply redeem_edit|exact Hw].
  rewrite set_ink_eq in Ep4.
  assert (local_effect m p m4 p5 /\ p5 = p4 <| bucket := bucket p5 |> /\ coupled bm5 /\ label_ok p5 /\
    (forall b, 0 <= b -> count_of bm5 b = count_of bm b - member (recorded_debt p) (bucket p) b
     + member (recorded_debt p5) (bucket p5) b)) as (Hle5 & Ep5 & Hc5 & Hl5 & Hcnt).
  { eapply reconcile_touch in Hrec as (? & ? & Ep & ?);
      [|done|by destruct Hle|by destruct Hle|exact Hlab|by rewrite Ep4].
    split; [|done]. rewrite Ep. pose proof (local_effect_cosmetic _ _ _ _ (rl_accrued m4)
      (rl_last_update m4) (pos_reserve_lamports p4) (bucket p5) Hle) as Hle5.
    destruct m4, p4. exact Hle5. }
  split; [done|]. split; [done|]. split; [rewrite Em4; constructor; done|].
  split; [rewrite Em4, Ep5, Ep4; by constructor|]. split; [done|]. split; [done|].
  split; [by rewrite Ep5, Ep4|]. split; [by rewrite Ep5, Ep4|done].
Qed.

(** ** The passes *)

Record standing (now : Z) (m : Market) (ps : gmap Pubkey Position) (bm : RedemptionBitmap) : Prop := {
  st_books : books m ps;
  st_indexed : indexed bm ps;
  st_synced : synced m now;
}.

Lemma standing_touch now m ps bm k p m' p' bm' : standing now m ps bm -> ps !! k = Some p ->
  local_effect m p m' p' -> shutdown m' = shutdown m -> coupled bm' -> label_ok p' ->
  (forall b, 0 <= b -> count_of bm' b = count_of bm b - member (recorded_debt p) (bucket p) b
     + member (recorded_debt p') (bucket p') b) ->
  standing now m' (<[k := p']> ps) bm'.
Proof.
  intros [Hb Hi Hs] Hk Hle Esh Hc Hl Hcnt. constructor.
  - by eapply books_local.
  - by eapply indexed_update.
  - intros E. rewrite Esh in E. destruct Hle as [[] _ _ _ _ _ _ _ _ _]. rewrite sa_ts. by apply Hs.
Qed.

(** What the validation pass knows about the order it builds, against the positions
    [ps] it started from. *)
Record scanned (ps : gmap Pubkey Position) (lowest : option Z) (s : Scan) : Prop := {
  sn_seen : forall k, k ∈ (fun e => e.1.1) <$> sc_order s -> k ∈ sc_seen s;
  sn_redeemable : forall k, k ∈ (fun e => e.1.1) <$> sc_order s ->
    (exists p, ps !! k = Some p /\ redeemable lowest p = true) /\
    (exists p, sc_positions s !! k = Some p /\ current (sc_market s) p);
  sn_rest : forall k, k ∉ (fun e => e.1.1) <$> sc_order s -> sc_positions s !! k = ps !! k;
}.

Lemma scanned_skip ps lowest s seen : scanned ps lowest s -> sc_seen s ⊆ seen ->
  scanned ps lowest (mkScan (sc_market s) (sc_positions s) seen (sc_order s)).
Proof. intros [] Hsub. constructor; cbn; try done. intros k Hk. apply Hsub. by apply sn_seen0. Qed.

Lemma scanned_push ps lowest s key p e m' p' seen : scanned ps lowest s -> ps !! key = Some p ->
  key ∉ sc_seen s -> redeemable lowest p = true -> same_accumulators (sc_market s) m' ->
  current m' p' -> e.1.1 = key -> seen = sc_seen s ++ [key] ->
  scanned ps lowest (mkScan m' (<[key := p']> (sc_positions s)) seen (sc_order s ++ [e])).
Proof.
  intros [Hseen Hred Hrest] Hp Hnew Hr Hacc Hc He ->. constructor; cbn; rewrite fmap_app; cbn; rewrite He.
  - intros k Hk. apply elem_of_app in Hk as [Hk|Hk]; apply elem_of_app; [left|right]; [by apply Hseen|done].
  - intros k Hk. destruct (decide (k = key)) as [->|Hne].
    + split; [by exists p|]. exists p'. by rewrite lookup_insert_eq.
    + rewrite lookup_insert_ne by done. apply elem_of_app in Hk as [Hk|Hk]; [|set_solver].
      destruct (Hred k Hk) as [? (q & ? & ?)]. split; [done|]. exists q. split; [done|].
      by eapply current_same.
  - intros k Hk. rewrite lookup_insert_ne by (intros ->; set_solver). apply Hrest. set_solver.
Qed.

Lemma validate_one_Ok now ps lowest others bm s key s' : timestamp now ->
  standing now (sc_market s) (sc_positions s) bm -> scanned ps lowest s ->
  validate_one now lowest others s key = Ok s' ->
  standing now (sc_market s') (sc_positions s') bm /\ scanned ps lowest s' /\
  progress (sc_market s) (sc_market s') 0 0.
Proof.
  intros Hnow Hst Hsc H. unfold validate_one, load_candidate in H.
  destruct (sc_positions s !! key) as [p|] eqn:Hp; cbn [mbind result_bind] in H.
  2:{ destruct (bool_decide (key ∈ others)); [done|]. injection H as <-. split; [done|]. split; [done|]. apply progress_refl. }
  bind H as ? Hmint. bind H as ? Hdup. inv_ok Hdup.
  destruct (redeemable lowest p) eqn:Hr; cbn in H.
  2:{ injection H as <-. split; [done|]. split; [|apply progress_refl]. apply scanned_skip; set_solver. }
  bind H as old Hold. bind H as p1 Hp1. bind H as m2 Hw. bind H as [m3 p3] Hs. injection H as <-. cbn.
  apply weighted_Ok in Hold as [-> _]. pose proof Hst as [[] [] Hsync].
  pose proof (bk_positions _ _ Hp) as Hpok. pose proof (ix_labels _ _ Hp) as Hlab.
  pose proof (realize_Ok _ _ _ _ bk_market Hpok Hnow Hsync Hp1) as Hrz.
  eapply refresh_position in Hs as (Hle & Hpg & Hcur & Ep3); [|done|exact Hrz|done].
  assert (recorded_debt p3 = recorded_debt p1 /\ bucket p3 = bucket p) as [Ed3 Eb3].
  { rewrite Ep3. by destruct Hrz. }
  assert (0 < recorded_debt p) as Hd.
  { unfold redeemable in Hr. apply andb_true_iff in Hr as [? _]. by propify. }
  assert (0 < recorded_debt p3) as Hd3 by (destruct Hrz; lia).
  split; [|split; [|done]].
  - eapply standing_touch; [done..|by destruct Hpg as [_ _ [] _ _ _ _]|done| |].
    + intros _. rewrite Eb3. by apply Hlab.
    + intros b Hb. rewrite Eb3. unfold member. rewrite !(proj2 (Z.ltb_lt _ _)) by done. lia.
  - eapply scanned_push; [done| |exact Hdup|done|by destruct Hpg|done|done|done].
    destruct Hsc. rewrite <- sn_rest0; [done|]. intros Hk. by apply sn_seen0 in Hk.
Qed.

Lemma validate_Ok now ps lowest others bm keys : forall s s', timestamp now ->
  standing now (sc_market s) (sc_positions s) bm -> scanned ps lowest s ->
  validate now lowest others s keys = Ok s' ->
  standing now (sc_market s') (sc_positions s') bm /\ scanned ps lowest s' /\
  progress (sc_market s) (sc_market s') 0 0.
Proof.
  induction keys as [|key keys IH]; intros s s' Hnow Hst Hsc H.
  - injection H as <-. split; [done|]. split; [done|]. apply progress_refl.
  - cbn in H. bind H as s1 H1. eapply validate_one_Ok in H1 as (Hst1 & Hsc1 & Hpg1); [|done..].
    eapply IH in H as (? & ? & Hpg); [|done..]. split; [done|]. split; [done|].
    exact (progress_trans _ _ _ _ _ _ _ Hpg1 Hpg).
Qed.

(** The sort only permutes. *)
Lemma insert_by_ratio_perm x l : insert_by_ratio x l ≡ₚ x :: l.
Proof.
  induction l as [|y l IH]; [done|]. cbn. destruct (ratio_le x y); [done|].
  rewrite IH. apply Permutation_swap.
Qed.

Lemma sort_by_ratio_perm l : sort_by_ratio l ≡ₚ l.
Proof. induction l as [|x l IH]; [done|]. cbn. by rewrite insert_by_ratio_perm, IH. Qed.

Definition all_current (m : Market) (ps : gmap Pubkey Position) (keys : list Pubkey) : Prop :=
  Forall (fun k => exists p, ps !! k = Some p /\ current m p) keys.

Lemma all_current_touch m m' ps k p keys : all_current m ps keys -> same_accumulators m m' ->
  current m' p -> all_current m' (<[k := p]> ps) keys.
Proof.
  intros H Hacc Hc. eapply Forall_impl; [exact H|]. intros k' (q & Hq & Hcq). cbn.
  destruct (decide (k' = k)) as [->|]; [exists p; by rewrite lookup_insert_eq|].
  exists q. rewrite lookup_insert_ne by done. split; [done|]. by eapply current_same.
Qed.

(** What draining candidates did: fUSD taken off the debt, collateral drawn for it at
    no more than face value, and only the named positions touched. *)
Record drained (now mid : Z) (s s' : Drain) (keys : list Pubkey) : Prop := {
  dn_standing : standing now (dr_market s') (dr_positions s') (dr_bitmap s');
  dn_progress : progress (dr_market s) (dr_market s') (dr_remaining s - dr_remaining s')
    (dr_drawn s' - dr_drawn s);
  dn_remaining : 0 <= dr_remaining s' <= dr_remaining s;
  dn_drawn : dr_drawn s <= dr_drawn s';
  dn_face : (dr_drawn s' - dr_drawn s) * mid <= RAY * (dr_remaining s - dr_remaining s');
  dn_rest : forall k, k ∉ keys -> dr_positions s' !! k = dr_positions s !! k;
}.

Lemma drained_refl now mid s keys : standing now (dr_market s) (dr_positions s) (dr_bitmap s) ->
  0 <= dr_remaining s -> drained now mid s s keys.
Proof.
  intros Hst Hr. constructor; try done; try lia. rewrite !Z.sub_diag. apply progress_refl.
Qed.

Lemma drained_cons now mid s s1 s2 key keys : drained now mid s s1 [key] -> drained now mid s1 s2 keys ->
  drained now mid s s2 (key :: keys).
Proof.
  intros [_ Hpg1 ? ? ? Hr1] [Hst Hpg2 ? ? ? Hr2]. constructor; try done; try lia.
  - pose proof (progress_trans _ _ _ _ _ _ _ Hpg1 Hpg2) as Hpg.
    eapply (eq_ind _ (fun x => progress _ _ x _)); [eapply (eq_ind _ (fun x => progress _ _ _ x)); [exact Hpg|lia]|lia].
  - intros k Hk. rewrite Hr2 by set_solver. apply Hr1. set_solver.
Qed.

(** One application, recorded. *)
Lemma drained_apply now mid s key p p1 amt c m' p' bm' :
  standing now (dr_market s) (dr_positions s) (dr_bitmap s) -> dr_positions s !! key = Some p ->
  realized (dr_market s) p p1 -> 0 <= amt <= dr_remaining s -> amt <= recorded_debt p1 ->
  0 <= c <= ink p1 -> c * mid <= RAY * amt ->
  redeem_apply (dr_market s) p1 (dr_bitmap s) amt c (weight p) (recorded_debt p) = Ok (m', p', bm', amt) ->
  drained now mid s (mkDrain m' (<[key := p']> (dr_positions s)) bm' (dr_remaining s - amt) (dr_drawn s + c)) [key] /\
  current m' p'.
Proof.
  intros Hst Hp Hrz Hamt Hd Hc Hface H. pose proof Hst as [[] [] _].
  eapply redeem_apply_Ok in H as (_ & Hle & Hpg & Hcur & Hc' & Hl & _ & _ & Hcnt);
    [|done|done|done|by eapply ix_labels|lia|done|done].
  split; [|done]. constructor; cbn; try lia.
  - eapply standing_touch; try done. by destruct Hpg as [_ _ [] _ _ _ _].
  - replace (dr_remaining s - (dr_remaining s - amt)) with amt by lia.
    by replace (dr_drawn s + c - dr_drawn s) with c by lia.
  - intros k Hk. apply lookup_insert_ne. set_solver.
Qed.

Lemma redeem_one_Ok now mid s key s' keys :
  standing now (dr_market s) (dr_positions s) (dr_bitmap s) -> u128 (dr_remaining s) ->
  0 < mid <= U128_MAX -> all_current (dr_market s) (dr_positions s) (key :: keys) ->
  redeem_one mid s key = Ok s' ->
  drained now mid s s' [key] /\ all_current (dr_market s') (dr_positions s') keys.
Proof.
  intros Hst Hr Hmid Hall H. pose proof Hst as [[] [] _]. apply Forall_cons in Hall as [(p & Hp & Hcur) Hall].
  unfold redeem_one in H. rewrite Hp in H. pose proof (bk_positions _ _ Hp) as Hpok.
  bind H as am Ham. destruct am as [[amt c]|].
  2:{ injection H as <-. split; [apply drained_refl; [done|rlia]|done]. }
  apply (amounts_Ok _ _ _ _ _ _ bk_market Hpok Hr Hmid) in Ham as (Hamt & Hd & Hc & _ & Hface).
  bind H as old Hold. apply weighted_Ok in Hold as [-> _].
  bind H as [[[m' p'] bm'] burned] Happ. bind H as dr Hdr. bind H as rem Hrem. injection H as <-.
  inv_ok Hdr. inv_ok Hrem. checked. subst.
  pose proof (realized_self _ _ Hpok Hcur) as Hrz.
  assert (burned = amt) as ->.
  { eapply redeem_apply_Ok in Happ; [|done|exact Hrz|done|by eapply ix_labels|lia|done|done]. tauto. }
  eapply drained_apply in Happ as [Hdn Hcur']; [|done|done|exact Hrz|lia|lia|done|exact Hface].
  split; [done|]. eapply all_current_touch; [done| |done]. by destruct Hdn as [_ [] _ _ _ _].
Qed.

Lemma redeem_loop_Ok now mid keys : forall s s',
  standing now (dr_market s) (dr_positions s) (dr_bitmap s) -> u128 (dr_remaining s) ->
  0 < mid <= U128_MAX -> all_current (dr_market s) (dr_positions s) keys ->
  redeem_loop mid s keys = Ok s' -> drained now mid s s' keys.
Proof.
  induction keys as [|key keys IH]; intros s s' Hst Hr Hmid Hall H; cbn in H.
  - injection H as <-. apply drained_refl; [done|rlia].
  - destruct (_ =? _); [injection H as <-; apply drained_refl; [done|rlia]|]. bind H as s1 H1.
    eapply redeem_one_Ok in H1 as [Hd1 Hall1]; [|done..]. pose proof Hd1 as [].
    eapply IH in H; [|done|rlia|done|done]. by eapply drained_cons.
Qed.

(** ** The whole redemption *)

Record redemption_ok (now : Z) (x : Redemption) : Prop := {
  ro_books : books (rd_market x) (rd_positions x);
  ro_indexed : indexed (rd_bitmap x) (rd_positions x);
  ro_now : timestamp now /\ last_update_ts (rd_market x) <= now;
  ro_vault : tok_owner (rd_ledger x) (collateral_vault (rd_market x))
    = market_pda (collateral_mint (rd_market x));
  ro_vault_mint : tok_mint (rd_ledger x) (collateral_vault (rd_market x)) <> fusd_mint;
  ro_coll : total_collateral (rd_market x) <= U64_MAX;
}.

Record redemption_effect (now : Z) (x x' : Redemption) : Prop := {
  re_books : books (rd_market x') (rd_positions x');
  re_indexed : indexed (rd_bitmap x') (rd_positions x');
  re_id : same_identity (rd_market x) (rd_market x');
  re_ts : last_update_ts (rd_market x') <= now;
  re_ledger : moved (collateral_vault (rd_market x)) fusd_mint (rd_ledger x) (rd_ledger x')
    (tracked (rd_market x') - tracked (rd_market x)) (backed_by (rd_market x') - backed_by (rd_market x));
}.

Lemma mid_price_range m mid : market_ok m -> mid_price m = Ok mid -> 0 < mid <= U128_MAX.
Proof.
  intros [] H. unfold mid_price in H. inv_ok H. checked. subst.
  pose proof (Z.div_mod (spot m + debt_spot m) 2 ltac:(lia)).
  pose proof (Z.mod_pos_bound (spot m + debt_spot m) 2 ltac:(lia)). rlia.
Qed.

Lemma settle_Ok k m l redeemed paid l' vault u :
  redeem_constraints k m l = Ok u -> vault = collateral_vault m ->
  tok_owner l vault = market_pda (collateral_mint m) -> tok_mint l vault <> fusd_mint ->
  rk_redeemer k <> market_pda (collateral_mint m) -> u64 redeemed -> u64 paid ->
  (forall m', collateral_mint m' = collateral_mint m -> redeem_settle k m' l redeemed paid = Ok l' ->
   moved vault fusd_mint l l' (- paid) (- redeemed)).
Proof.
  intros Hk -> Hv Hvm Hs Hr Hp m' _ H. unfold redeem_constraints in Hk. bind Hk as ? Hvk. bind Hk as ? Hf.
  apply (ata_not_vault _ _ _ _ _ _ Hv Hs) in Hk. inv_ok Hvk. unfold redeem_settle in H. bind H as l1 Hb.
  inv_ok Hb. unfold as_u64 in *. rewrite Z.mod_small in Hb by rlia. rewrite Z.mod_small in H by rlia.
  apply (burn_elsewhere (collateral_vault m) fusd_mint) in Hb; [|done]. destruct (Z.ltb_spec 0 paid).
  - inv_ok H. apply (moved_transfer (collateral_vault m) fusd_mint) in H.
    eapply moved_eq; [eapply moved_trans; [exact Hb|exact H]| |lia]. rewrite Hvk.
    repeat case_bool_decide; try done; lia.
  - injection H as <-. eapply moved_eq; [exact Hb|rlia|lia].
Qed.

Lemma accrue_standing now x m : redemption_ok now x -> accrue (rd_market x) now = Ok m ->
  (exists dI, accrued_to (rd_market x) now m dI) /\ standing now m (rd_positions x) (rd_bitmap x) /\
  same_identity (rd_market x) m /\ tracked m = tracked (rd_market x) /\
  backed_by m = backed_by (rd_market x) /\ total_collateral m = total_collateral (rd_market x) /\
  last_update_ts m <= now.
Proof.
  intros [] H. destruct ro_now0 as [Hn Hle]. pose proof ro_books0 as [].
  apply accrue_Ok in H as [dI Hacc]; [|done..]. destruct (accrued_same _ _ _ _ Hacc) as (? & ? & ?).
  split; [by exists dI|]. split; [|split; [done|split; [done|split; [done|]]]].
  - constructor; [by eapply books_accrue|done|by eapply accrued_synced].
  - destruct Hacc. split; [by rewrite ac_rest|]. rewrite ac_ts. destruct (shutdown _); lia.
Qed.

(** The intermediate states of a successful redemption. *)
Record redeem_trace (clk : Clock) (k : RedeemAccounts) (x : Redemption) (amount : Z) (x' : Redemption)
    (m1 : Market) (mid : Z) (s : Scan) (d : Drain) (fee paid : Z) : Prop := {
  tr_open : shutdown (rd_market x) = false;
  tr_accrue : accrue (rd_market x) (unix_timestamp clk) = Ok m1;
  tr_mid : mid_price m1 = Ok mid;
  tr_fresh : fresh_price clk m1 = true;
  tr_scan : validate (unix_timestamp clk) (first_set (words (rd_bitmap x))) (rd_others x)
    (mkScan m1 (rd_positions x) [] []) (rk_candidates k) = Ok s;
  tr_drain : redeem_loop mid (mkDrain (sc_market s) (sc_positions s) (rd_bitmap x) amount 0)
    ((fun e => e.1.1) <$> sort_by_ratio (sc_order s)) = Ok d;
  tr_redeemed : 0 < amount - dr_remaining d;
  tr_fee : 0 <= paid /\ fee + paid = dr_drawn d /\ exists bps, fee = dr_drawn d * bps / 10000 /\ 0 <= bps;
  tr_market : exists br ts sp, rd_market x' = (dr_market d) <| redemption_base_rate := br |>
    <| redemption_base_rate_ts := ts |> <| surplus_collateral := sp |> /\
    sp = surplus_collateral (dr_market d) + as_u64 fee /\ u64 sp;
  tr_positions : rd_positions x' = dr_positions d /\ rd_bitmap x' = dr_bitmap d;
  tr_constraints : redeem_constraints k (rd_market x) (rd_ledger x) = Ok tt;
  tr_settle : exists m', collateral_mint m' = collateral_mint (dr_market d) /\
    redeem_settle k m' (rd_ledger x) (amount - dr_remaining d) paid = Ok (rd_ledger x');
}.

Lemma redeem_fee_shape now m dec red tot : exists br ts bps, 0 <= bps /\
  redeem_fee now m dec red tot = (m <| redemption_base_rate := br |> <| redemption_base_rate_ts := ts |>, bps).
Proof.
  unfold redeem_fee, effective_fee_bps, as_u16. destruct m. cbn.
  destruct (_ <? _); [destruct (_ <=? _)|]; eexists _, _, _; (split; [|reflexivity]);
    by apply Z.mod_pos_bound.
Qed.

Lemma redeem_run clk k x amount x' : redeem clk k x amount = Ok x' ->
  exists m1 mid s d fee paid, redeem_trace clk k x amount x' m1 mid s d fee paid.
Proof.
  intros H. unfold redeem in H. bind H as [] Hk. bind H as ? Ha. bind H as ? Hlen. bind H as ? Hsh.
  bind H as m1 Hacc. bind H as mid Hmid. bind H as ? Hfr. bind H as ? Hany. bind H as s Hscan.
  bind H as ? Hne. bind H as d Hd. bind H as red Hred. bind H as ? Hpos.
  destruct (redeem_fee_shape (unix_timestamp clk) (dr_market d) (decayed_base_rate (unix_timestamp clk) m1)
    red (agg_recorded_debt m1)) as (br & ts & bps & Hbps & Efee).
  rewrite Efee in H. bind H as f Hf. bind H as paid Hp. bind H as sp Hsp. bind H as l Hl.
  bind H as ? Hsuf. injection H as <-. inv_ok Hsh. inv_ok Hfr. inv_ok Hpos. inv_ok Hred. inv_ok Hf.
  inv_ok Hp. apply math_Ok in Hsp. checked. cbn in *.
  exists m1, mid, s, d, (f / 10000), paid. constructor; cbn; try done; try lia.
  - subst f. split; [lia|]. split; [lia|]. by exists bps.
  - exists br, ts, sp. split; [done|]. split; [done|]. rlia.
  - eexists _. split; [|rewrite <- Hred; exact Hl]. done.
Qed.

Lemma trace_drained clk k x amount x' m1 mid s d fee paid : let now := unix_timestamp clk in
  redemption_ok now x -> u64 amount -> redeem_trace clk k x amount x' m1 mid s d fee paid ->
  scanned (rd_positions x) (first_set (words (rd_bitmap x))) s /\
  drained now mid (mkDrain (sc_market s) (sc_positions s) (rd_bitmap x) amount 0) d
    ((fun e => e.1.1) <$> sort_by_ratio (sc_order s)) /\
  progress m1 (dr_market d) (amount - dr_remaining d) (dr_drawn d).
Proof.
  intros now Hok Ha []. pose proof Hok as [_ _ [Hn _] _ _ _].
  destruct (accrue_standing _ _ _ Hok tr_accrue0) as (_ & Hst & _).
  assert (market_ok m1) as Hm1 by (by destruct Hst as [[] _ _]).
  assert (scanned (rd_positions x) (first_set (words (rd_bitmap x))) (mkScan m1 (rd_positions x) [] [])) as Hs0.
  { constructor; cbn; try done; intros k' Hk'; by apply elem_of_nil in Hk'. }
  eapply (validate_Ok now _ _ _ (rd_bitmap x)) in tr_scan0 as (Hst1 & Hsc & Hpg); [|done..]. cbn in Hpg.
  split; [done|].
  assert (drained now mid (mkDrain (sc_market s) (sc_positions s) (rd_bitmap x) amount 0) d
    ((fun e => e.1.1) <$> sort_by_ratio (sc_order s))) as Hdn.
  { apply redeem_loop_Ok; [done|cbn; rlia|by eapply mid_price_range| |done]. cbn.
    apply Forall_forall. intros k' Hk'. apply sn_redeemable with (k := k') in Hsc as [_ Hc]; [done|].
    by rewrite sort_by_ratio_perm in Hk'. }
  split; [done|]. destruct Hdn as [_ Hp _ _ _ _]. cbn in Hp.
  rewrite Z.sub_0_r in Hp. exact (progress_trans _ _ _ _ _ _ _ Hpg Hp).
Qed.

Lemma progress_totals m m' b dr sp br ts : progress m m' b dr ->
  let m2 := m' <| redemption_base_rate := br |> <| redemption_base_rate_ts := ts |>
    <| surplus_collateral := surplus_collateral m' + sp |> in
  tracked m2 = tracked m - dr + sp /\ backed_by m2 = backed_by m - b /\ same_books m' m2 /\
  same_identity m m2 /\ last_update_ts m2 = last_update_ts m.
Proof.
  intros [[] [] ? ? [] ? (? & ? & ?)]. cbn. unfold tracked, backed_by, backed. cbn.
  split; [lia|]. split; [lia|]. split; [by constructor|]. split; [by constructor|]. done.
Qed.

(** The amounts drawn fit the token program's integers, and are what moves. *)
Lemma trace_moved clk k x amount x' m1 mid s d fee paid : let now := unix_timestamp clk in
  redemption_ok now x -> u64 amount -> rk_redeemer k <> market_pda (collateral_mint (rd_market x)) ->
  redeem_trace clk k x amount x' m1 mid s d fee paid ->
  moved (collateral_vault (rd_market x)) fusd_mint (rd_ledger x) (rd_ledger x')
    (- paid) (- (amount - dr_remaining d)) /\ as_u64 fee = fee /\ 0 <= fee.
Proof.
  intros now Hok Ha Hsig Htr. destruct (trace_drained _ _ _ _ _ _ _ _ _ _ _ Hok Ha Htr) as (_ & Hdn & Hpg).
  pose proof Hok as []. pose proof Htr as [].
  destruct (accrue_standing _ _ _ Hok tr_accrue0) as (_ & _ & [Emi _] & _ & _ & Etc & _).
  destruct tr_settle0 as (ms & Ems & Hset), tr_fee0 as (Hpaid & Esum & bps & Efee & Hbps).
  destruct Hdn as [[Hb _ _] _ Hrem Hdr _ _]. cbn in Hrem, Hdr.
  assert (0 <= fee) by (rewrite Efee; apply Z.div_pos; lia).
  destruct Hpg as [_ [Emid _] _ _ _ Hc _]. destruct Hb as [[] _ _ _ _ _ _].
  split; [|split; [apply Z.mod_small; rlia|done]].
  refine (settle_Ok _ _ _ _ _ _ _ _ tr_constraints0 eq_refl ro_vault0 ro_vault_mint0 Hsig _ _ ms _ Hset);
    [rlia|rlia|congruence].
Qed.

Lemma redeem_effect clk k x amount x' : let now := unix_timestamp clk in
  redemption_ok now x -> u64 amount -> rk_redeemer k <> market_pda (collateral_mint (rd_market x)) ->
  redeem clk k x amount = Ok x' -> redemption_effect now x x'.
Proof.
  intros now Hok Ha Hsig H. apply redeem_run in H as (m1 & mid & s & d & fee & paid & Htr).
  destruct (trace_drained _ _ _ _ _ _ _ _ _ _ _ Hok Ha Htr) as (_ & Hdn & Hpg).
  destruct (trace_moved _ _ _ _ _ _ _ _ _ _ _ Hok Ha Hsig Htr) as (Hmv & Ef & Hf0). pose proof Htr as [].
  destruct (accrue_standing _ _ _ Hok tr_accrue0) as (_ & _ & [Emi Eva] & Etr & Ebk & Etc & Hts).
  destruct tr_market0 as (br & ts & sp & Em & -> & Hsp), tr_positions0 as [Eps Ebm], tr_fee0 as (Hpaid & Esum & _).
  rewrite Ef in *. destruct (progress_totals _ _ _ _ fee br ts Hpg) as (Et & Eb & Hsb & [Emi' Eva'] & Ets).
  destruct Hdn as [[Hb Hi _] _ _ _ _ _]. rewrite <- Em in *. constructor.
  - rewrite Eps. eapply books_same; [exact Hsb| |exact Hb]. destruct Hb as [[] _ _ _ _ _ _].
    rewrite Em. by constructor.
  - by rewrite Eps, Ebm.
  - constructor; congruence.
  - lia.
  - eapply moved_eq; [exact Hmv|lia|lia].
Qed.

(** ** The wind-down *)

Lemma urgent_one_Ok now mid others w key w' : timestamp now ->
  standing now (dr_market (wd_drain w)) (dr_positions (wd_drain w)) (dr_bitmap (wd_drain w)) ->
  u128 (dr_remaining (wd_drain w)) -> 0 < mid <= U128_MAX ->
  urgent_one now mid others w key = Ok w' -> drained now mid (wd_drain w) (wd_drain w') [key].
Proof.
  destruct w as [s seen]. cbn. intros Hnow Hst Hr Hmid H. pose proof Hst as [[] [] Hsync].
  unfold urgent_one, load_candidate in H. cbn [wd_drain wd_seen] in H.
  destruct (dr_positions s !! key) as [p|] eqn:Hp.
  2:{ destruct (bool_decide (key ∈ others)); [done|]. injection H as <-. apply drained_refl; [done|cbn; rlia]. }
  cbn [mbind result_bind] in H. bind H as ? Hdup. bind H as ? Hmint. bind H as old Hold.
  apply weighted_Ok in Hold as [-> _]. bind H as p1 Hp1.
  pose proof (bk_positions _ _ Hp) as Hpok. pose proof (ix_labels _ _ Hp) as Hlab.
  pose proof (realize_Ok _ _ _ _ bk_market Hpok Hnow Hsync Hp1) as Hrz.
  bind H as am Ham. destruct am as [[amt c]|].
  - apply (amounts_Ok _ _ _ _ _ _ bk_market (rz_ok _ _ _ Hrz) Hr Hmid) in Ham as (Hamt & Hd & Hc & _ & Hface).
    bind H as [[[m' p'] bm'] burned] Happ. bind H as dr Hdr. bind H as rem Hrem. injection H as <-.
    inv_ok Hdr. inv_ok Hrem. checked. subst.
    assert (burned = amt) as ->.
    { eapply redeem_apply_Ok in Happ; [|done|exact Hrz|done|done|lia|done|done]. tauto. }
    eapply drained_apply in Happ as [Hdn _]; [|done|done|exact Hrz|lia|lia|done|exact Hface]. done.
  - bind H as m2 Hw. bind H as [m3 p3] Hs. bind H as [bm p4] Hrec. injection H as <-. cbn.
    eapply refresh_position in Hs as (Hle & Hpg & _ & Ep3); [|done|exact Hrz|done].
    eapply reconcile_touch in Hrec as (? & ? & Ep & ?); [|done|by destruct Hle|by destruct Hle|exact Hlab|].
    2:{ rewrite Ep3. by destruct Hrz. }
    assert (local_effect (dr_market s) p m3 p4) as Hle4.
    { rewrite Ep. pose proof (local_effect_cosmetic _ _ _ _ (rl_accrued m3)
      (rl_last_update m3) (pos_reserve_lamports p3) (bucket p4) Hle) as Hle4. destruct m3, p3. exact Hle4. }
    constructor; cbn; try lia; rewrite ?Z.sub_diag; try done; [|rlia|].
    + eapply standing_touch; try done. by destruct Hpg as [_ _ [] _ _ _ _].
    + intros k Hk. apply lookup_insert_ne. set_solver.
Qed.

Lemma urgent_loop_Ok now mid others keys : forall w w', timestamp now ->
  standing now (dr_market (wd_drain w)) (dr_positions (wd_drain w)) (dr_bitmap (wd_drain w)) ->
  u128 (dr_remaining (wd_drain w)) -> 0 < mid <= U128_MAX ->
  urgent_loop now mid others w keys = Ok w' -> drained now mid (wd_drain w) (wd_drain w') keys.
Proof.
  induction keys as [|key keys IH]; intros w w' Hnow Hst Hr Hmid H; cbn in H.
  - injection H as <-. apply drained_refl; [done|rlia].
  - destruct (_ =? _); [injection H as <-; apply drained_refl; [done|rlia]|]. bind H as w1 H1.
    eapply urgent_one_Ok in H1 as Hd1; [|done..]. pose proof Hd1 as [].
    eapply IH in H; [|done|done|rlia|done]. by eapply drained_cons.
Qed.

Lemma urgent_run clk k x amount x' : let now := unix_timestamp clk in
  redemption_ok now x -> u64 amount -> urgent_redeem clk k x amount = Ok x' ->
  exists m1 mid d, accrue (rd_market x) now = Ok m1 /\ mid_price m1 = Ok mid /\
    drained now mid (mkDrain m1 (rd_positions x) (rd_bitmap x) amount 0) d (rk_candidates k) /\
    0 < amount - dr_remaining d /\ redeem_constraints k (rd_market x) (rd_ledger x) = Ok tt /\
    redeem_settle k (dr_market d) (rd_ledger x) (amount - dr_remaining d) (dr_drawn d) = Ok (rd_ledger x') /\
    rd_market x' = dr_market d /\ rd_positions x' = dr_positions d /\ rd_bitmap x' = dr_bitmap d /\
    shutdown (rd_market x) = true.
Proof.
  intros now Hok Ha H. unfold urgent_redeem in H. fold now in H. bind H as [] Hk. bind H as ? Hpos.
  bind H as ? Hsh. bind H as ? Hlen. bind H as m1 Hacc. bind H as mid Hmid. bind H as w Hw.
  bind H as red Hred. bind H as ? Hr0. bind H as l Hl. bind H as ? Hsuf. injection H as <-.
  inv_ok Hred. inv_ok Hr0. inv_ok Hsh. checked. subst.
  destruct (accrue_standing _ _ _ Hok Hacc) as (_ & Hst & _).
  assert (market_ok m1) as Hm1 by (by destruct Hst as [[] _ _]).
  exists m1, mid, (wd_drain w). do 2 (split; [done|]). split; [|done].
  apply (urgent_loop_Ok now mid) in Hw; [done|by destruct Hok as [_ _ [? _] _ _ _]|done|cbn; rlia|].
  by eapply mid_price_range.
Qed.

(** What an urgent redemption moves. *)
Lemma urgent_moved clk k x amount x' m1 mid d : let now := unix_timestamp clk in
  redemption_ok now x -> rk_redeemer k <> market_pda (collateral_mint (rd_market x)) -> u64 amount ->
  accrue (rd_market x) now = Ok m1 ->
  drained now mid (mkDrain m1 (rd_positions x) (rd_bitmap x) amount 0) d (rk_candidates k) ->
  0 < amount - dr_remaining d -> redeem_constraints k (rd_market x) (rd_ledger x) = Ok tt ->
  redeem_settle k (dr_market d) (rd_ledger x) (amount - dr_remaining d) (dr_drawn d) = Ok (rd_ledger x') ->
  moved (collateral_vault (rd_market x)) fusd_mint (rd_ledger x) (rd_ledger x')
    (- dr_drawn d) (- (amount - dr_remaining d)).
Proof.
  intros now Hok Hsig Ha Hacc [[Hb _ _] Hpg Hrem Hdr _ _] Hr0 Hk Hset. pose proof Hok as []. cbn in *.
  destruct (accrue_standing _ _ _ Hok Hacc) as (_ & _ & [Emi _] & _ & _ & Etc & _).
  destruct Hpg as [_ [Emid _] _ _ _ Hc _]. destruct Hb as [[] _ _ _ _ _ _].
  refine (settle_Ok _ _ _ _ _ _ _ _ Hk eq_refl ro_vault0 ro_vault_mint0 Hsig _ _ (dr_market d) _ Hset);
    [rlia|rlia|congruence].
Qed.

Lemma urgent_effect clk k x amount x' : let now := unix_timestamp clk in
  redemption_ok now x -> u64 amount -> rk_redeemer k <> market_pda (collateral_mint (rd_market x)) ->
  urgent_redeem clk k x amount = Ok x' -> redemption_effect now x x'.
Proof.
  intros now Hok Ha Hsig H. apply urgent_run in H as
    (m1 & mid & d & Hacc & Hmid & Hdn & Hr0 & Hk & Hset & Em & Eps & Ebm & _); [|done..].
  pose proof (urgent_moved _ _ _ _ _ _ _ _ Hok Hsig Ha Hacc Hdn Hr0 Hk Hset) as Hmv.
  destruct (accrue_standing _ _ _ Hok Hacc) as (_ & _ & [Emi Eva] & Etr & Ebk & Etc & Hts).
  destruct Hdn as [[Hb Hi _] Hpg Hrem Hdr _ _]. cbn in Hpg. rewrite Z.sub_0_r in Hpg.
  pose proof Hpg as [[] [Emi' Eva'] _ Hagg [Hum Hbad] Hcoll (Hs1 & Hs2 & Hs3)].
  constructor; rewrite ?Em, ?Eps, ?Ebm; try done.
  - constructor; congruence.
  - lia.
  - eapply moved_eq; [exact Hmv| |].
    + rewrite <- Etr. unfold tracked. lia.
    + rewrite <- Ebk. unfold backed_by, backed. lia.
Qed.

(** ** Who is redeemed, and at what price *)

(** The lowest set bit bounds every position with debt outside the pen. *)
Lemma lowest_bounds bm ps k q b : indexed bm ps -> ps !! k = Some q -> 0 < recorded_debt q ->
  bucket q <> ZOMBIE_BUCKET -> first_set (words bm) = Some b -> b <= bucket q.
Proof.
  intros [[] Hcnt Hlab] Hk Hd Hz Hf. pose proof (Hlab _ _ Hk Hd) as Hr. cbn in Hr.
  pose proof (first_set_lowest (words bm) cp_words) as Hlow. rewrite Hf in Hlow.
  destruct Hlow as (_ & _ & Hmin). destruct (Z.le_gt_cases b (bucket q)); [done|].
  specialize (Hmin (bucket q) ltac:(lia)). rewrite cp_bit, Hcnt in Hmin by lia.
  apply Z.ltb_ge in Hmin. assert (0 < msum (fun p => member (recorded_debt p) (bucket p) (bucket q)) ps); [|lia].
  apply member_sum. by exists k, q.
Qed.

End redeem_proofs.
