(* ===== verification/MarketOps.v ===== *)
(** * Market instructions ([programs/fusd-core/src/instructions/])

    [refresh_market], [settle_bad_debt], [shutdown], [fund_buffer],
    [claim_coll_surplus], [withdraw_surplus], [sweep_protocol_collateral],
    [guardian_derisk] and [dev_set_price]. *)

From S2P Require Import Prelude MachineInt FixedPoint Interest SupplyTransition Cdp State Token.
From S2P Require Import Accrual PositionOps.

Open Scope Z_scope.

Section market_ops.
Context {U : U256} {R : Runtime}.

(** ** [refresh_market.rs] *)

Record RefreshAccounts := mkRefreshAccounts {
  fk_cranker_ata : option Pubkey;
  fk_backstop_vault : option Pubkey;
}.

Record Refresh := mkRefresh {
  rf_market : Market;
  rf_buffer : InsuranceBuffer;
  rf_backstop : option GlobalBackstopReserve;
  rf_ledger : ledger;
}.

(** The effective backstop cut and the reserve's headroom. *)
Definition refresh_backstop (bs : option GlobalBackstopReserve) (vault : option Pubkey) (l : ledger)
    : result Error (Z * Z) :=
  match bs, vault with
  | Some bs, Some vault =>
      _ ← check (bool_decide (vault = bs_fusd_vault bs)) FusdError.InvalidRecipient;
      Ok (cut_bps bs, sat_sub (reserve_cap bs) (tok_amount l vault))
  | _, _ => Ok (0, 0)
  end.

(** Mint when there is something to mint. *)
Definition mint_some (l : ledger) (dst : Pubkey) (amount : Z) : result Error ledger :=
  if 0 <? amount then cpi (token_mint_to l fusd_mint dst (as_u64 amount)) else Ok l.

(** The backstop's share: minted to its vault and recorded on both sides. *)
Definition refresh_mint_backstop (k : RefreshAccounts) (m : Market) (bs : option GlobalBackstopReserve)
    (l : ledger) (cut : Z) : result Error (Market * option GlobalBackstopReserve * ledger) :=
  if 0 <? cut then
    vault ← no_panic (fk_backstop_vault k);
    l ← cpi (token_mint_to l fusd_mint vault (as_u64 cut));
    gc ← math (checked_add128 (global_contributed m) cut);
    bs ← no_panic bs;
    tc ← math (checked_add128 (bs_total_contributed bs) cut);
    Ok (m <| global_contributed := gc |>, Some (bs <| bs_total_contributed := tc |>), l)
  else Ok (m, bs, l).

(** [cranker_fusd_ata: token::mint = fusd_mint] *)
Definition refresh_constraints (k : RefreshAccounts) (l : ledger) : result Error unit :=
  match fk_cranker_ata k with
  | Some ata => constraint (bool_decide (tok_mint l ata = fusd_mint))
  | None => Ok tt
  end.

Definition refresh_market (clk : Clock) (k : RefreshAccounts) (x : Refresh) : result Error Refresh :=
  _ ← refresh_constraints k (rf_ledger x);
  m ← accrue (rf_market x) (unix_timestamp clk);
  let pending := unminted_interest m in
  if pending =? 0 then Ok (mkRefresh m (rf_buffer x) (rf_backstop x) (rf_ledger x))
  else
    let keeper_bps := match fk_cranker_ata k with Some _ => keeper_reward_bps m | None => 0 end in
    '(cut_bps, headroom) ← refresh_backstop (rf_backstop x) (fk_backstop_vault k) (rf_ledger x);
    d ← math (supply_refresh pending (bad_debt m) keeper_bps (bad_debt_paydown_bps m) cut_bps headroom);
    l ← mint_some (rf_ledger x) (ib_fusd_vault (rf_buffer x)) (rf_buffer_amount d);
    l ← (if 0 <? rf_keeper_cut d then
           ata ← no_panic (fk_cranker_ata k);
           cpi (token_mint_to l fusd_mint ata (as_u64 (rf_keeper_cut d)))
         else Ok l);
    '(m, bs, l) ← refresh_mint_backstop k m (rf_backstop x) l (rf_backstop_cut d);
    let m := m <| bad_debt := rf_new_bad d |> <| unminted_interest := rf_new_unminted d |> in
    funded ← math (checked_add128 (ib_total_funded (rf_buffer x)) (rf_buffer_amount d));
    Ok (mkRefresh m ((rf_buffer x) <| ib_total_funded := funded |>) bs l).

(** ** [settle_bad_debt.rs] *)

Definition settle_bad_debt (gate : GovernanceGate) (authority ata : Pubkey) (m : Market) (l : ledger)
    (amount : Z) : result Error (Market * ledger) :=
  _ ← ata_constraints l ata fusd_mint authority;
  _ ← check (bool_decide (authority = inbound_authority gate)) FusdError.Unauthorized;
  _ ← check (0 <? amount) FusdError.ZeroAmount;
  _ ← check (amount <=? bad_debt m) FusdError.InsufficientProtocolCollateral;
  l ← cpi (token_burn l fusd_mint ata authority amount);
  bad ← math (supply_settle_bad_debt (bad_debt m) amount);
  Ok (m <| bad_debt := bad |>, l).

(** ** [shutdown.rs] *)

Definition oracle_failed (clk : Clock) (m : Market) : bool :=
  (0 <? spot m) && (SHUTDOWN_ORACLE_STALENESS_SLOTS <? sat_sub (slot clk) (spot_updated_slot m)).

Definition tcr_breach (clk : Clock) (m : Market) : bool :=
  (0 <? spot m) && (sat_sub (slot clk) (spot_updated_slot m) <=? MAX_PRICE_STALENESS_SLOTS)
  && tcr_below (total_collateral m) (agg_recorded_debt m) (spot m) (scr_bps m).

Definition shutdown_market (clk : Clock) (m : Market) : result Error Market :=
  _ ← check (negb (shutdown m)) FusdError.MarketShutdown;
  m ← accrue m (unix_timestamp clk);
  _ ← check (oracle_failed clk m || tcr_breach clk m) FusdError.ShutdownConditionNotMet;
  let reason := if oracle_failed clk m then SHUTDOWN_REASON_ORACLE_FAILURE else SHUTDOWN_REASON_SCR in
  Ok (m <| shutdown := true |> <| shutdown_reason := reason |>).

(** ** [fund_buffer.rs] *)

Definition fund_buffer (funder ata : Pubkey) (buf : InsuranceBuffer) (l : ledger) (amount : Z)
    : result Error (InsuranceBuffer * ledger) :=
  _ ← ata_constraints l ata fusd_mint funder;
  _ ← check (0 <? amount) FusdError.ZeroAmount;
  l ← cpi (token_transfer l ata (ib_fusd_vault buf) funder amount);
  funded ← math (checked_add128 (ib_total_funded buf) amount);
  Ok (buf <| ib_total_funded := funded |>, l).

(** ** [claim_coll_surplus.rs] *)

Definition claim_coll_surplus (k : Accounts) (m : Market) (p : Position) (l : ledger)
    : result Error (Market * Position * ledger) :=
  _ ← constraint (bool_decide (acc_vault k = collateral_vault m));
  _ ← position_constraints k m p;
  _ ← ata_constraints l (acc_coll_ata k) (collateral_mint m) (acc_signer k);
  let amount := coll_surplus p in
  _ ← check (0 <? amount) FusdError.NoCollateralSurplus;
  l ← cpi (token_transfer l (acc_vault k) (acc_coll_ata k) (market_pda (collateral_mint m)) amount);
  let p := p <| coll_surplus := 0 |> in
  tcs ← math (checked_sub64 (total_coll_surplus m) amount);
  let m := m <| total_coll_surplus := tcs |> in
  _ ← assert_collateral_vault_sufficiency l (acc_vault k) m;
  Ok (m, p, l).

(** ** [withdraw_surplus.rs], [sweep_protocol_collateral.rs] *)

Record GovAccounts := mkGovAccounts {
  gk_authority : Pubkey;
  gk_vault : Pubkey;
  gk_recipient : Pubkey;
}.

(** [address = market.collateral_vault], [token::mint], [recipient != collateral_vault] *)
Definition recipient_constraints (k : GovAccounts) (m : Market) (l : ledger) : result Error unit :=
  _ ← constraint (bool_decide (gk_vault k = collateral_vault m));
  _ ← constraint (bool_decide (tok_mint l (gk_recipient k) = collateral_mint m));
  check (negb (bool_decide (gk_recipient k = collateral_vault m))) FusdError.InvalidRecipient.

Definition withdraw_surplus (gate : GovernanceGate) (k : GovAccounts) (m : Market) (l : ledger)
    (amount : Z) : result Error (Market * ledger) :=
  _ ← recipient_constraints k m l;
  _ ← check (bool_decide (gk_authority k = inbound_authority gate)) FusdError.Unauthorized;
  _ ← check (0 <? amount) FusdError.ZeroAmount;
  _ ← check (amount <=? surplus_collateral m) FusdError.InsufficientProtocolCollateral;
  sc ← no_panic (checked_sub64 (surplus_collateral m) amount);
  let m := m <| surplus_collateral := sc |> in
  l ← cpi (token_transfer l (gk_vault k) (gk_recipient k) (market_pda (collateral_mint m)) amount);
  _ ← assert_collateral_vault_sufficiency l (gk_vault k) m;
  Ok (m, l).

Definition sweep_protocol_collateral (gate : GovernanceGate) (k : GovAccounts) (m : Market) (l : ledger)
    (amount : Z) : result Error (Market * ledger) :=
  _ ← recipient_constraints k m l;
  _ ← check (bool_decide (gk_authority k = inbound_authority gate)) FusdError.Unauthorized;
  _ ← check (0 <? amount) FusdError.ZeroAmount;
  _ ← check (amount <=? protocol_collateral m) FusdError.InsufficientProtocolCollateral;
  pc ← no_panic (checked_sub64 (protocol_collateral m) amount);
  let m := m <| protocol_collateral := pc |> in
  l ← cpi (token_transfer l (gk_vault k) (gk_recipient k) (market_pda (collateral_mint m)) amount);
  _ ← assert_collateral_vault_sufficiency l (gk_vault k) m;
  Ok (m, l).

End market_ops.

(** ** [guardian_derisk.rs] *)

Definition guardian_derisk (clk : Clock) (cfg : ProtocolConfig) (signer : Pubkey) (m : Market)
    (pause_secs : Z) : result Error Market :=
  _ ← check (bool_decide (signer = guardian cfg)) FusdError.Unauthorized;
  _ ← check ((0 <=? pause_secs) && (pause_secs <=? GUARDIAN_MAX_PAUSE_SECS)) FusdError.ParamOutOfBounds;
  Ok (m <| guardian_paused_until := sat_add_i64 (unix_timestamp clk) pause_secs |>).

(** ** [dev_set_price.rs] *)

Definition dev_set_price (clk : Clock) (cfg : ProtocolConfig) (authority : Pubkey) (m : Market)
    (new_spot : Z) : result Error Market :=
  _ ← check (bool_decide (authority = gov_authority cfg)) FusdError.Unauthorized;
  Ok ((commit_fresh_spot m new_spot new_spot (slot clk)) <| mint_frozen := false |>).
