(* ===== verification/ReactorOps.v ===== *)
(** * Reactor-Pool instructions ([programs/fusd-core/src/instructions/])

    [open_reactor_deposit], [provide_to_reactor], [withdraw_from_reactor] and
    [claim_reactor_gains]. *)

From S2P Require Import Prelude MachineInt FixedPoint ReactorMath State Token Reactor PositionOps.

Open Scope Z_scope.

Section reactor_ops.
Context {U : U256} {R : Runtime}.

Record DepositAccounts := mkDepositAccounts {
  dk_owner : Pubkey;
  dk_fusd_ata : Pubkey;
  dk_coll_ata : Pubkey;
}.

Record Depositing := mkDepositing {
  dp_pool : ReactorPool;
  dp_deposit : ReactorDeposit;
  dp_ledger : ledger;
}.

Definition open_reactor_deposit (owner : Pubkey) (pool : ReactorPool) : ReactorDeposit :=
  {| dep_owner := owner; dep_reactor_pool := reactor_pda (rp_collateral_mint pool);
     deposited_fusd := 0; snapshot_p := rp_p pool; snapshot_s := 0;
     snapshot_scale := rp_scale pool; snapshot_epoch := rp_epoch pool;
     pending_collateral_gain := 0 |}.

(** [has_one = owner] on the deposit. *)
Definition deposit_constraints (k : DepositAccounts) (x : Depositing) : result Error unit :=
  constraint (bool_decide (dep_owner (dp_deposit x) = dk_owner k)).

(** Realize the gain, then re-snapshot at the pool's current point. *)
Definition realize_and_snapshot (pool : ReactorPool) (grid : list Z) (dep : ReactorDeposit)
    : result Error (ReactorDeposit * Z) :=
  let ps := reactor.pool_state pool in
  '(dep, compounded) ← reactor.realize ps dep grid;
  Ok (reactor.set_snapshot dep ps grid, compounded).

Definition provide_to_reactor (k : DepositAccounts) (grid : list Z) (x : Depositing) (amount : Z)
    : result Error Depositing :=
  _ ← deposit_constraints k x;
  _ ← ata_constraints (dp_ledger x) (dk_fusd_ata k) fusd_mint (dk_owner k);
  _ ← check (0 <? amount) FusdError.ZeroAmount;
  let pool := dp_pool x in
  '(dep, compounded) ← realize_and_snapshot pool grid (dp_deposit x);
  new_deposited ← math (s ← checked_add128 compounded amount; try_u64 s);
  l ← cpi (token_transfer (dp_ledger x) (dk_fusd_ata k) (rp_fusd_vault pool) (dk_owner k) amount);
  total ← math (checked_add128 (rp_total_deposits pool) amount);
  Ok (mkDepositing (pool <| rp_total_deposits := total |>)
        (dep <| deposited_fusd := new_deposited |>) l).

Definition withdraw_from_reactor (k : DepositAccounts) (grid : list Z) (x : Depositing) (amount : Z)
    : result Error Depositing :=
  _ ← deposit_constraints k x;
  _ ← ata_constraints (dp_ledger x) (dk_fusd_ata k) fusd_mint (dk_owner k);
  _ ← check (0 <? amount) FusdError.ZeroAmount;
  let pool := dp_pool x in
  '(dep, compounded) ← realize_and_snapshot pool grid (dp_deposit x);
  let withdraw_amt := as_u64 (Z.min amount compounded) in
  l ← (if 0 <? withdraw_amt then
         cpi (token_transfer (dp_ledger x) (rp_fusd_vault pool) (dk_fusd_ata k)
                (reactor_pda (rp_collateral_mint pool)) withdraw_amt)
       else Ok (dp_ledger x));
  total ← math (checked_sub128 (rp_total_deposits pool) withdraw_amt);
  rest ← no_panic (checked_sub128 compounded withdraw_amt);
  remaining ← math (try_u64 rest);
  Ok (mkDepositing (pool <| rp_total_deposits := total |>)
        (dep <| deposited_fusd := remaining |>) l).

Definition claim_reactor_gains (k : DepositAccounts) (grid : list Z) (x : Depositing)
    : result Error Depositing :=
  let pool := dp_pool x in
  _ ← deposit_constraints k x;
  _ ← ata_constraints (dp_ledger x) (dk_coll_ata k) (rp_collateral_mint pool) (dk_owner k);
  '(dep, compounded) ← realize_and_snapshot pool grid (dp_deposit x);
  deposited ← math (try_u64 compounded);
  let dep := dep <| deposited_fusd := deposited |> in
  let amount := pending_collateral_gain dep in
  if 0 <? amount then
    l ← cpi (token_transfer (dp_ledger x) (rp_coll_vault pool) (dk_coll_ata k)
               (reactor_pda (rp_collateral_mint pool)) amount);
    Ok (mkDepositing pool (dep <| pending_collateral_gain := 0 |>) l)
  else Ok (mkDepositing pool dep (dp_ledger x)).

End reactor_ops.
