(* ===== verification/Init.v ===== *)
(** * Creating a market ([programs/fusd-core/src/instructions/])

    [init_market] with the joint parameter bounds of [governance.rs],
    [init_reactor_pool], [init_insurance_buffer] and [init_protocol]. Anchor's [init] creates the
    accounts and the token vaults; the handlers fill them in. *)

From S2P Require Import Prelude MachineInt ReactorMath State Token Bucket.

Open Scope Z_scope.

Abbreviation DEFAULT_SCR_BPS := 11000.
Abbreviation MIN_MCR_BPS := 10000.
Abbreviation MAX_MCR_BPS := 30000.
Abbreviation MAX_RESERVE_LAMPORTS := 1000000000.
Abbreviation MAX_LIQ_GAS_COMP_BPS := 1000.
Abbreviation MAX_LIQ_BONUS_BPS := 2000.
Abbreviation MIN_BUCKET_WIDTH_BPS := 1.
Abbreviation MAX_BUCKET_WIDTH_BPS := 100.
Abbreviation LIQ_INFRA_GATED := 1.
Abbreviation LIQ_INFRA_REACTOR_POOL := 2.
Abbreviation LIQ_INFRA_INSURANCE_BUFFER := 4.
Abbreviation REACTOR_GRID_LEN := 512.

Record InitMarketArgs := mkInitMarketArgs {
  ia_mcr_bps : Z;
  ia_debt_ceiling : Z;
  ia_reserve_lamports : Z;
  ia_liq_gas_comp_bps : Z;
  ia_liq_bonus_bps : Z;
  ia_bucket_width_bps : Z;
  ia_redemption_fee_bps : Z;
}.

(** The collateral mint account: its key, decimals and freeze authority. *)
Record MintInfo := mkMintInfo {
  mi_key : Pubkey;
  mi_decimals : Z;
  mi_freeze_authority : option Pubkey;
}.

(** [governance.rs]: the bounds that tie the liquidation parameters together. The
    arguments are [u16] values widened to [u64]: nothing overflows. *)
Definition validate_market_config (mcr_bps scr_bps liq_bonus_bps liq_gas_comp_bps : Z)
    : result Error unit :=
  _ ← check ((liq_bonus_bps =? 0) || (10000 + liq_bonus_bps <=? mcr_bps)) FusdError.CollarExceedsMcr;
  let seizable_bps :=
    if liq_bonus_bps =? 0 then mcr_bps else Z.min (10000 + liq_bonus_bps) mcr_bps in
  _ ← check (100000000 <=? seizable_bps * sat_sub 10000 liq_gas_comp_bps)
        FusdError.ParamCombinationInvalid;
  check (scr_bps <=? mcr_bps) FusdError.ParamCombinationInvalid.

Definition init_market (clk : Clock) (cfg : ProtocolConfig) (authority : Pubkey) (mint : MintInfo)
    (vault : Pubkey) (args : InitMarketArgs) : result Error (Market * RedemptionBitmap) :=
  _ ← check (bool_decide (authority = gov_authority cfg)) FusdError.Unauthorized;
  _ ← check (bool_decide (mi_freeze_authority mint = None)) FusdError.CollateralHasFreezeAuthority;
  _ ← check ((MIN_MCR_BPS <=? ia_mcr_bps args) && (ia_mcr_bps args <=? MAX_MCR_BPS))
        FusdError.ParamOutOfBounds;
  _ ← check (ia_reserve_lamports args <=? MAX_RESERVE_LAMPORTS) FusdError.ParamOutOfBounds;
  _ ← check (ia_liq_gas_comp_bps args <=? MAX_LIQ_GAS_COMP_BPS) FusdError.ParamOutOfBounds;
  _ ← check (ia_liq_bonus_bps args <=? MAX_LIQ_BONUS_BPS) FusdError.ParamOutOfBounds;
  _ ← validate_market_config (ia_mcr_bps args) DEFAULT_SCR_BPS (ia_liq_bonus_bps args)
        (ia_liq_gas_comp_bps args);
  _ ← check ((MIN_BUCKET_WIDTH_BPS <=? ia_bucket_width_bps args)
             && (ia_bucket_width_bps args <=? MAX_BUCKET_WIDTH_BPS)) FusdError.ParamOutOfBounds;
  _ ← check (MAX_USER_RATE_BPS <=? ia_bucket_width_bps args * NUM_RATE_BUCKETS)
        FusdError.ParamOutOfBounds;
  _ ← check (ia_redemption_fee_bps args <=? MAX_REDEMPTION_FEE_BPS) FusdError.ParamOutOfBounds;
  let now := unix_timestamp clk in
  Ok ({|
    collateral_mint := mi_key mint; collateral_vault := vault;
    agg_recorded_debt := 0; agg_weighted_debt_sum := 0; unminted_interest := 0;
    last_update_ts := now; spot := 0; spot_updated_slot := 0; debt_spot := 0;
    mcr_bps := ia_mcr_bps args; debt_ceiling := ia_debt_ceiling args;
    collateral_decimals := mi_decimals mint;
    l_coll := 0; l_art := 0; last_coll_redist_error := 0; last_art_redist_error := 0;
    total_stakes := 0; total_collateral := 0; total_stakes_snapshot := 0;
    total_collateral_snapshot := 0; reserve_lamports := ia_reserve_lamports args;
    liq_gas_comp_bps := ia_liq_gas_comp_bps args; liq_bonus_bps := ia_liq_bonus_bps args;
    total_coll_surplus := 0; bucket_width_bps := ia_bucket_width_bps args;
    redemption_fee_bps := ia_redemption_fee_bps args; surplus_collateral := 0;
    mint_frozen := true; guardian_paused_until := 0; shutdown := false;
    scr_bps := DEFAULT_SCR_BPS; rl_cap := 0; rl_accrued := 0; rl_last_update := 0; ccr_bps := 0;
    liq_grace_until := 0; liq_divergence_until := 0; bad_debt := 0;
    shutdown_reason := SHUTDOWN_REASON_NONE; min_debt := 0; rate_adjust_cooldown_secs := 0;
    keeper_reward_bps := 0; borrow_fee_bps := 0; bad_debt_paydown_bps := 0;
    redemption_base_rate := 0; redemption_base_rate_ts := now; redemption_base_rate_max_bps := 0;
    protocol_collateral := 0; global_contributed := 0; global_drawn := 0;
    liq_infra_flags := LIQ_INFRA_GATED |}, empty_bitmap).

Definition init_reactor_pool (cfg : ProtocolConfig) (authority : Pubkey) (m : Market)
    (fusd_vault coll_vault grid_key : Pubkey) : result Error (Market * ReactorPool * list Z) :=
  _ ← check (bool_decide (authority = gov_authority cfg)) FusdError.Unauthorized;
  let m := m <| liq_infra_flags := Z.lor (liq_infra_flags m) LIQ_INFRA_REACTOR_POOL |> in
  Ok (m, {| rp_collateral_mint := collateral_mint m; rp_fusd_vault := fusd_vault;
            rp_coll_vault := coll_vault; rp_epoch_to_scale_to_sum := grid_key;
            rp_p := DECIMAL_PRECISION; rp_epoch := 0; rp_scale := 0; rp_total_deposits := 0;
            rp_last_coll_error := 0; rp_last_loss_error := 0 |},
      replicate (Z.to_nat REACTOR_GRID_LEN) 0).

Definition init_insurance_buffer (cfg : ProtocolConfig) (authority : Pubkey) (m : Market)
    (fusd_vault : Pubkey) : result Error (Market * InsuranceBuffer) :=
  _ ← check (bool_decide (authority = gov_authority cfg)) FusdError.Unauthorized;
  let m := m <| liq_infra_flags := Z.lor (liq_infra_flags m) LIQ_INFRA_INSURANCE_BUFFER |> in
  Ok (m, mkInsuranceBuffer (collateral_mint m) fusd_vault 0 0).

(** ** [init_protocol.rs] *)

Abbreviation PYTH_RECEIVER_PROGRAM_ID :=
  58504232022665923907795126820372624783498091875227969331492745617211634923276.
Abbreviation PYTH_RECEIVER_PROGRAM_ID_UPGRADED :=
  61195456058891649685105531261112885039314910245329509359720535596424938261489.
Abbreviation SWITCHBOARD_ON_DEMAND_PROGRAM_ID :=
  52194512079131905617976832412304674292769732290592521105695375324431072981766.

Record InitProtocolArgs := mkInitProtocolArgs {
  pa_gov_authority : Pubkey;
  pa_guardian : Pubkey;
}.

(** [upgrade_authority] is the field of the program's [ProgramData] account; the mint is
    created at its program address, with a program address as its authority. *)
Definition init_protocol {R : Runtime} (upgrade_authority : option Pubkey) (payer : Pubkey)
    (args : InitProtocolArgs) : result Error ProtocolConfig :=
  _ ← check (bool_decide (upgrade_authority = Some payer)) FusdError.Unauthorized;
  _ ← check (negb (pa_gov_authority args =? 0)) FusdError.ParamOutOfBounds;
  Ok {| gov_authority := pa_gov_authority args; guardian := pa_guardian args; deployer := payer;
        cfg_fusd_mint := fusd_mint; pending_gov_authority := 0;
        pyth_receiver_program_id := PYTH_RECEIVER_PROGRAM_ID;
        pyth_receiver_program_id_alt := PYTH_RECEIVER_PROGRAM_ID_UPGRADED;
        switchboard_program_id := SWITCHBOARD_ON_DEMAND_PROGRAM_ID |}.
