(* ===== verification/Governance.v ===== *)
(** * Governance ([state/governance.rs], [instructions/governance.rs])

    The parameter lane of a market: the gate's authority queues a change, anyone
    executes it once the timelock has passed, the authority may cancel it. A value is
    checked when queued and again, against the live market, when executed. The two-step
    handoffs of the gate's authority, of the protocol's governance authority
    ([migrate_gov_authority.rs]) and the guardian's rotation ([set_guardian.rs]). *)

From S2P Require Import Prelude MachineInt State Token Init.

Open Scope Z_scope.

Abbreviation MCR_RAISE_GRACE_SLOTS := 9000.
Abbreviation MIN_GOV_TIMELOCK_SECS := 0.
Abbreviation MAX_GOV_TIMELOCK_SECS := 2592000.
Abbreviation MIN_SCR_BPS := 10500.
Abbreviation MAX_SCR_BPS := 15000.
Abbreviation MIN_CCR_BPS := 10000.
Abbreviation MAX_CCR_BPS := 30000.
Abbreviation MAX_REDEMPTION_BASE_RATE_BPS := 500.
Abbreviation MAX_BORROW_FEE_BPS := 500.
Abbreviation MAX_BAD_DEBT_PAYDOWN_BPS := 10000.
Abbreviation MAX_MIN_DEBT := 10000000000.
Abbreviation MAX_RATE_ADJUST_COOLDOWN_SECS := 2592000.
Abbreviation MAX_KEEPER_REWARD_BPS := 1000.
Abbreviation MAX_ORACLE_CONF_BPS := 500.
Abbreviation MAX_ORACLE_DEVIATION_BPS := 500.
Abbreviation MAX_TWAP_DIVERGENCE_BPS := 1000.
Abbreviation MAX_ORACLE_MAX_AGE_SECS := 3600.
Abbreviation MIN_ORACLE_K_BPS := 10000.
Abbreviation MAX_ORACLE_K_BPS := 30000.
Abbreviation MAX_TWAP_STALENESS_SECS := 3600.
Abbreviation MAX_LIQ_DIVERGENCE_BPS := 10000.

Module MarketParam.
Inductive t :=
  | Mcr | DebtCeiling | RedemptionFee | LiqGasComp | RateLimitCap | Ccr | LiqBonus | MinDebt
  | RateAdjustCooldown | KeeperReward | BorrowFee | BadDebtPaydown | RedemptionBaseRateMax
  | OracleMaxConf | OracleMaxDeviation | OracleTwapDivergence | OracleLiqDivergence
  | OracleMaxAge | OracleK | OracleTwapStaleness | Scr.
End MarketParam.

#[export] Instance MarketParam_eq_dec : EqDecision MarketParam.t.
Proof. solve_decision. Defined.

Record TimelockedParam := mkTimelockedParam {
  op_nonce : Z;
  op_eta : Z;
  op_market : Pubkey;
  op_param : MarketParam.t;
  op_value : Z;
}.

(** The clamp of each parameter. *)
Definition param_in_bounds (param : MarketParam.t) (value : Z) : bool :=
  match param with
  | MarketParam.Mcr => (MIN_MCR_BPS <=? value) && (value <=? MAX_MCR_BPS)
  | MarketParam.DebtCeiling => true
  | MarketParam.RedemptionFee => value <=? MAX_REDEMPTION_FEE_BPS
  | MarketParam.LiqGasComp => value <=? MAX_LIQ_GAS_COMP_BPS
  | MarketParam.RateLimitCap => true
  | MarketParam.Ccr => (value =? 0) || ((MIN_CCR_BPS <=? value) && (value <=? MAX_CCR_BPS))
  | MarketParam.LiqBonus => value <=? MAX_LIQ_BONUS_BPS
  | MarketParam.MinDebt => value <=? MAX_MIN_DEBT
  | MarketParam.RateAdjustCooldown => value <=? MAX_RATE_ADJUST_COOLDOWN_SECS
  | MarketParam.KeeperReward => value <=? MAX_KEEPER_REWARD_BPS
  | MarketParam.BorrowFee => value <=? MAX_BORROW_FEE_BPS
  | MarketParam.BadDebtPaydown => value <=? MAX_BAD_DEBT_PAYDOWN_BPS
  | MarketParam.RedemptionBaseRateMax => value <=? MAX_REDEMPTION_BASE_RATE_BPS
  | MarketParam.OracleMaxConf => (0 <? value) && (value <=? MAX_ORACLE_CONF_BPS)
  | MarketParam.OracleMaxDeviation => (0 <? value) && (value <=? MAX_ORACLE_DEVIATION_BPS)
  | MarketParam.OracleTwapDivergence => (0 <? value) && (value <=? MAX_TWAP_DIVERGENCE_BPS)
  | MarketParam.OracleLiqDivergence => value <=? MAX_LIQ_DIVERGENCE_BPS
  | MarketParam.OracleMaxAge => (0 <? value) && (value <=? MAX_ORACLE_MAX_AGE_SECS)
  | MarketParam.OracleK => (MIN_ORACLE_K_BPS <=? value) && (value <=? MAX_ORACLE_K_BPS)
  | MarketParam.OracleTwapStaleness => (0 <? value) && (value <=? MAX_TWAP_STALENESS_SECS)
  | MarketParam.Scr => (MIN_SCR_BPS <=? value) && (value <=? MAX_SCR_BPS)
  end.

Definition validate_param (param : MarketParam.t) (value : Z) : result Error unit :=
  check (param_in_bounds param value) FusdError.ParamOutOfBounds.

Definition param_targets_oracle (param : MarketParam.t) : bool :=
  match param with
  | MarketParam.OracleMaxConf | MarketParam.OracleMaxDeviation | MarketParam.OracleTwapDivergence
  | MarketParam.OracleLiqDivergence | MarketParam.OracleMaxAge | MarketParam.OracleK
  | MarketParam.OracleTwapStaleness => true
  | _ => false
  end.

(** [oracle.map_or(d, f)] *)
Definition map_or {A} (o : option A) (d : Z) (f : A -> Z) : Z :=
  match o with Some a => f a | None => d end.

Definition current_param (m : Market) (oracle : option MarketOracle) (param : MarketParam.t) : Z :=
  match param with
  | MarketParam.Mcr => mcr_bps m
  | MarketParam.DebtCeiling => debt_ceiling m
  | MarketParam.RedemptionFee => redemption_fee_bps m
  | MarketParam.LiqGasComp => liq_gas_comp_bps m
  | MarketParam.RateLimitCap => rl_cap m
  | MarketParam.Ccr => ccr_bps m
  | MarketParam.LiqBonus => liq_bonus_bps m
  | MarketParam.MinDebt => min_debt m
  | MarketParam.RateAdjustCooldown => as_u64 (rate_adjust_cooldown_secs m)
  | MarketParam.KeeperReward => keeper_reward_bps m
  | MarketParam.BorrowFee => borrow_fee_bps m
  | MarketParam.BadDebtPaydown => bad_debt_paydown_bps m
  | MarketParam.RedemptionBaseRateMax => redemption_base_rate_max_bps m
  | MarketParam.Scr => scr_bps m
  | MarketParam.OracleMaxConf => map_or oracle 0 max_conf_bps
  | MarketParam.OracleMaxDeviation => map_or oracle 0 max_deviation_bps
  | MarketParam.OracleTwapDivergence => map_or oracle 0 twap_max_divergence_bps
  | MarketParam.OracleLiqDivergence => map_or oracle 0 liq_max_divergence_bps
  | MarketParam.OracleMaxAge => map_or oracle 0 (fun o => as_u64 (max_age_secs o))
  | MarketParam.OracleK => map_or oracle 0 k_bps
  | MarketParam.OracleTwapStaleness => map_or oracle 0 (fun o => as_u64 (twap_max_staleness_secs o))
  end.

(** The liquidation parameters with the candidate value laid over the live ones. *)
Definition overlay (m : Market) (param : MarketParam.t) (value : Z) : Z * Z * Z * Z :=
  let at_param q live := if bool_decide (param = q) then value else live in
  (at_param MarketParam.Mcr (mcr_bps m), at_param MarketParam.Scr (scr_bps m),
   at_param MarketParam.LiqBonus (liq_bonus_bps m), at_param MarketParam.LiqGasComp (liq_gas_comp_bps m)).

Definition validate_param_for_market (m : Market) (oracle : option MarketOracle) (param : MarketParam.t)
    (value : Z) : result Error unit :=
  _ ← validate_param param value;
  _ ← (if param_targets_oracle param
       then check (bool_decide (is_Some oracle)) FusdError.ParamCombinationInvalid else Ok tt);
  match param with
  | MarketParam.Mcr | MarketParam.LiqBonus | MarketParam.LiqGasComp | MarketParam.Scr =>
      let '(mcr, scr, bonus, gas) := overlay m param value in
      validate_market_config mcr scr bonus gas
  | MarketParam.OracleTwapDivergence | MarketParam.OracleMaxDeviation =>
      let liq := map_or oracle U64_MAX liq_max_divergence_bps in
      check ((liq =? 0) || (value <=? liq)) FusdError.ParamCombinationInvalid
  | MarketParam.OracleLiqDivergence =>
      let twap := map_or oracle 0 twap_max_divergence_bps in
      let dev := map_or oracle 0 max_deviation_bps in
      check ((value =? 0) || ((twap <=? value) && (dev <=? value))) FusdError.ParamCombinationInvalid
  | _ => Ok tt
  end.

Definition apply_param (m : Market) (oracle : option MarketOracle) (param : MarketParam.t) (value : Z)
    : Market * option MarketOracle :=
  let on_oracle f := (m, f <$> oracle) in
  match param with
  | MarketParam.Mcr => (m <| mcr_bps := as_u16 value |>, oracle)
  | MarketParam.DebtCeiling => (m <| debt_ceiling := value |>, oracle)
  | MarketParam.RedemptionFee => (m <| redemption_fee_bps := as_u16 value |>, oracle)
  | MarketParam.LiqGasComp => (m <| liq_gas_comp_bps := as_u16 value |>, oracle)
  | MarketParam.RateLimitCap =>
      (m <| rl_cap := value |> <| rl_accrued := Z.min (rl_accrued m) value |>, oracle)
  | MarketParam.Ccr => (m <| ccr_bps := as_u16 value |>, oracle)
  | MarketParam.LiqBonus => (m <| liq_bonus_bps := as_u16 value |>, oracle)
  | MarketParam.MinDebt => (m <| min_debt := value |>, oracle)
  | MarketParam.RateAdjustCooldown => (m <| rate_adjust_cooldown_secs := as_i64 value |>, oracle)
  | MarketParam.KeeperReward => (m <| keeper_reward_bps := as_u16 value |>, oracle)
  | MarketParam.BorrowFee => (m <| borrow_fee_bps := as_u16 value |>, oracle)
  | MarketParam.BadDebtPaydown => (m <| bad_debt_paydown_bps := as_u16 value |>, oracle)
  | MarketParam.RedemptionBaseRateMax => (m <| redemption_base_rate_max_bps := as_u16 value |>, oracle)
  | MarketParam.Scr => (m <| scr_bps := as_u16 value |>, oracle)
  | MarketParam.OracleMaxConf => on_oracle (fun o => o <| max_conf_bps := as_u16 value |>)
  | MarketParam.OracleMaxDeviation => on_oracle (fun o => o <| max_deviation_bps := as_u16 value |>)
  | MarketParam.OracleTwapDivergence => on_oracle (fun o => o <| twap_max_divergence_bps := as_u16 value |>)
  | MarketParam.OracleLiqDivergence => on_oracle (fun o => o <| liq_max_divergence_bps := as_u16 value |>)
  | MarketParam.OracleMaxAge => on_oracle (fun o => o <| max_age_secs := as_i64 value |>)
  | MarketParam.OracleK => on_oracle (fun o => o <| k_bps := as_u16 value |>)
  | MarketParam.OracleTwapStaleness => on_oracle (fun o => o <| twap_max_staleness_secs := as_i64 value |>)
  end.

(** [init_governance_gate] *)
Definition init_gate (cfg : ProtocolConfig) (authority new_inbound : Pubkey) (timelock : Z)
    : result Error GovernanceGate :=
  _ ← check (bool_decide (authority = gov_authority cfg)) FusdError.Unauthorized;
  _ ← check (negb (new_inbound =? 0)) FusdError.ParamOutOfBounds;
  _ ← check ((MIN_GOV_TIMELOCK_SECS <=? timelock) && (timelock <=? MAX_GOV_TIMELOCK_SECS))
        FusdError.ParamOutOfBounds;
  Ok (mkGovernanceGate new_inbound 0 timelock 0).

(** [migrate_inbound_authority], [accept_inbound_authority] *)
Definition migrate_authority (g : GovernanceGate) (authority new_authority : Pubkey)
    : result Error GovernanceGate :=
  _ ← check (bool_decide (authority = inbound_authority g)) FusdError.Unauthorized;
  Ok (g <| pending_inbound_authority := new_authority |>).

Definition accept_authority (g : GovernanceGate) (new_authority : Pubkey) : result Error GovernanceGate :=
  _ ← check (negb (pending_inbound_authority g =? 0)) FusdError.NoPendingAuthority;
  _ ← check (bool_decide (new_authority = pending_inbound_authority g)) FusdError.Unauthorized;
  Ok (g <| inbound_authority := pending_inbound_authority g |> <| pending_inbound_authority := 0 |>).

Section lane.
Context {R : Runtime}.

(** [queue_param_change]: the new operation and the gate with its counter advanced. *)
Definition queue_param (clk : Clock) (g : GovernanceGate) (authority : Pubkey) (m : Market)
    (oracle : option MarketOracle) (param : MarketParam.t) (value : Z)
    : result Error (GovernanceGate * TimelockedParam) :=
  _ ← check (bool_decide (authority = inbound_authority g)) FusdError.Unauthorized;
  _ ← validate_param_for_market m oracle param value;
  let op := {| op_nonce := queue_nonce g;
               op_eta := sat_add_i64 (unix_timestamp clk) (timelock_secs g);
               op_market := market_pda (collateral_mint m); op_param := param; op_value := value |} in
  nonce ← math (checked_add64 (queue_nonce g) 1);
  Ok (g <| queue_nonce := nonce |>, op).

(** An executed raise of the minimum ratio arms the liquidation grace. *)
Definition arm_mcr_grace (clk : Clock) (m : Market) (param : MarketParam.t) (value : Z) : Market :=
  if bool_decide (param = MarketParam.Mcr) && (mcr_bps m <? as_u16 value)
  then m <| liq_grace_until :=
         Z.max (liq_grace_until m) (sat_add64 (slot clk) MCR_RAISE_GRACE_SLOTS) |>
  else m.

(** [execute_param_change]; Anchor then closes the operation. *)
Definition execute_param (clk : Clock) (op : TimelockedParam) (m : Market) (oracle : option MarketOracle)
    : result Error (Market * option MarketOracle) :=
  _ ← check (bool_decide (market_pda (collateral_mint m) = op_market op)) FusdError.TimelockMarketMismatch;
  _ ← check (op_eta op <=? unix_timestamp clk) FusdError.TimelockNotElapsed;
  _ ← validate_param_for_market m oracle (op_param op) (op_value op);
  Ok (apply_param (arm_mcr_grace clk m (op_param op) (op_value op)) oracle (op_param op) (op_value op)).

End lane.

(** [cancel_param_change]; Anchor closes the operation, nothing is applied. *)
Definition cancel_param (g : GovernanceGate) (authority : Pubkey) : result Error unit :=
  check (bool_decide (authority = inbound_authority g)) FusdError.Unauthorized.

(** [migrate_gov_authority], [accept_gov_authority], [set_guardian] *)
Definition migrate_gov (cfg : ProtocolConfig) (authority new_authority : Pubkey) : result Error ProtocolConfig :=
  _ ← check (bool_decide (authority = gov_authority cfg)) FusdError.Unauthorized;
  Ok (cfg <| pending_gov_authority := new_authority |>).

Definition accept_gov (cfg : ProtocolConfig) (new_authority : Pubkey) : result Error ProtocolConfig :=
  _ ← check (negb (pending_gov_authority cfg =? 0)) FusdError.NoPendingAuthority;
  _ ← check (bool_decide (new_authority = pending_gov_authority cfg)) FusdError.Unauthorized;
  Ok (cfg <| gov_authority := pending_gov_authority cfg |> <| pending_gov_authority := 0 |>).

Definition set_guardian (cfg : ProtocolConfig) (authority new_guardian : Pubkey) : result Error ProtocolConfig :=
  _ ← check (bool_decide (authority = gov_authority cfg)) FusdError.Unauthorized;
  Ok (cfg <| guardian := new_guardian |>).
