(* ===== verification/CeilingLine.v ===== *)
(** * The debt-ceiling auto-line ([state/debt_ceiling_line.rs], [instructions/debt_ceiling_line.rs])

    A market that has this account lets its ceiling follow its debt: governance sets the
    hard [line], the step [gap] and the pace [ttl], and anyone may move the live ceiling to
    the smaller of the line and the current debt plus the step, once per [ttl]. *)

From S2P Require Import Prelude MachineInt FixedPoint State Token Accrual.

Open Scope Z_scope.

Record DebtCeilingLine := mkDebtCeilingLine {
  dl_collateral_mint : Pubkey;
  line : Z;
  gap : Z;
  ttl : Z;
  last_bump_ts : Z;
}.

#[export] Instance DebtCeilingLine_fields : Fields DebtCeilingLine := fun d =>
  mkDebtCeilingLine (dl_collateral_mint d) (line d) (gap d) (ttl d) (last_bump_ts d).

(** [u64::try_from(x).unwrap_or(u64::MAX)] of an unsigned [x] *)
Definition cap_u64 (x : Z) : Z := if x <=? U64_MAX then x else U64_MAX.

(** The ceiling the line asks for ([apply_and_emit]). *)
Definition line_target (line gap : Z) (m : Market) : Z :=
  Z.min line (sat_add64 (cap_u64 (agg_recorded_debt m)) gap).
Definition apply_line (line gap : Z) (m : Market) : Market := m <| debt_ceiling := line_target line gap m |>.

Section ceiling_line.
Context {U : U256}.

(** [init_debt_ceiling_line] *)
Definition init_line (clk : Clock) (cfg : ProtocolConfig) (authority : Pubkey) (m : Market)
    (line gap ttl : Z) : result Error (Market * DebtCeilingLine) :=
  _ ← check (bool_decide (authority = gov_authority cfg)) FusdError.Unauthorized;
  _ ← check (0 <=? ttl) FusdError.ParamOutOfBounds;
  m ← accrue m (unix_timestamp clk);
  Ok (apply_line line gap m, mkDebtCeilingLine (collateral_mint m) line gap ttl (unix_timestamp clk)).

(** [set_debt_ceiling_line] *)
Definition set_line (clk : Clock) (cfg : ProtocolConfig) (authority : Pubkey) (m : Market)
    (dl : DebtCeilingLine) (new_line new_gap new_ttl : Z) : result Error (Market * DebtCeilingLine) :=
  _ ← check (bool_decide (authority = gov_authority cfg)) FusdError.Unauthorized;
  _ ← check (0 <=? new_ttl) FusdError.ParamOutOfBounds;
  m ← accrue m (unix_timestamp clk);
  let dl := dl <| line := new_line |> <| gap := new_gap |> <| ttl := new_ttl |>
               <| last_bump_ts := unix_timestamp clk |> in
  Ok (apply_line new_line new_gap m, dl).

(** [bump_debt_ceiling] *)
Definition bump_line (clk : Clock) (m : Market) (dl : DebtCeilingLine) : result Error (Market * DebtCeilingLine) :=
  _ ← check (sat_add_i64 (last_bump_ts dl) (ttl dl) <=? unix_timestamp clk) FusdError.RateLimitExceeded;
  m ← accrue m (unix_timestamp clk);
  let dl := dl <| last_bump_ts := unix_timestamp clk |> in
  Ok (apply_line (line dl) (gap dl) m, dl).

End ceiling_line.
