(* ===== verification/Backstop.v ===== *)
(** * The global backstop reserve ([instructions/global_backstop.rs], [state/governance.rs])

    Creating the reserve, funding it, withdrawing what it holds above its cap, and the
    timelocked lane of its parameters. The draw of a liquidation is in [Liquidate], the
    funding cut of interest in [MarketOps]. *)

From S2P Require Import Prelude MachineInt State Token PositionOps.

Open Scope Z_scope.

Abbreviation MAX_BACKSTOP_CUT_BPS := 3000.
Abbreviation MAX_BACKSTOP_DRAW_K_BPS := 100000.
Abbreviation MAX_BACKSTOP_DRAW_CEILING_SHARE_BPS := 10000.
Abbreviation MAX_BACKSTOP_DRAW_DEBT_SHARE_BPS := 10000.

Module GlobalParam.
Inductive t := Cut | ReserveCap | DrawBase | DrawK | DrawCeilingShare | DrawDebtShare.
End GlobalParam.

#[export] Instance GlobalParam_eq_dec : EqDecision GlobalParam.t.
Proof. solve_decision. Defined.

Record TimelockedGlobalParam := mkTimelockedGlobalParam {
  gop_nonce : Z;
  gop_eta : Z;
  gop_param : GlobalParam.t;
  gop_value : Z;
}.

(** The clamp of each parameter. *)
Definition global_in_bounds (param : GlobalParam.t) (value : Z) : bool :=
  match param with
  | GlobalParam.Cut => value <=? MAX_BACKSTOP_CUT_BPS
  | GlobalParam.ReserveCap => true
  | GlobalParam.DrawBase => true
  | GlobalParam.DrawK => value <=? MAX_BACKSTOP_DRAW_K_BPS
  | GlobalParam.DrawCeilingShare => value <=? MAX_BACKSTOP_DRAW_CEILING_SHARE_BPS
  | GlobalParam.DrawDebtShare => value <=? MAX_BACKSTOP_DRAW_DEBT_SHARE_BPS
  end.

Definition validate_global_param (param : GlobalParam.t) (value : Z) : result Error unit :=
  check (global_in_bounds param value) FusdError.ParamOutOfBounds.

Definition current_global_param (b : GlobalBackstopReserve) (param : GlobalParam.t) : Z :=
  match param with
  | GlobalParam.Cut => cut_bps b
  | GlobalParam.ReserveCap => reserve_cap b
  | GlobalParam.DrawBase => draw_base_allowance b
  | GlobalParam.DrawK => draw_k_bps b
  | GlobalParam.DrawCeilingShare => draw_ceiling_share_bps b
  | GlobalParam.DrawDebtShare => draw_debt_share_bps b
  end.

Definition apply_global_param (b : GlobalBackstopReserve) (param : GlobalParam.t) (value : Z)
    : GlobalBackstopReserve :=
  match param with
  | GlobalParam.Cut => b <| cut_bps := as_u16 value |>
  | GlobalParam.ReserveCap => b <| reserve_cap := value |>
  | GlobalParam.DrawBase => b <| draw_base_allowance := value |>
  | GlobalParam.DrawK => b <| draw_k_bps := value |>
  | GlobalParam.DrawCeilingShare => b <| draw_ceiling_share_bps := as_u16 value |>
  | GlobalParam.DrawDebtShare => b <| draw_debt_share_bps := as_u16 value |>
  end.

(** [init_global_backstop]: every parameter starts off. *)
Definition init_backstop (cfg : ProtocolConfig) (authority vault : Pubkey) : result Error GlobalBackstopReserve :=
  _ ← check (bool_decide (authority = gov_authority cfg)) FusdError.Unauthorized;
  Ok (mkGlobalBackstopReserve vault 0 0 0 0 0 0 0 0 0).

Section reserve.
Context {R : Runtime}.

(** [fund_backstop] *)
Definition fund_backstop (funder ata : Pubkey) (b : GlobalBackstopReserve) (l : ledger) (amount : Z)
    : result Error (GlobalBackstopReserve * ledger) :=
  _ ← ata_constraints l ata fusd_mint funder;
  _ ← check (0 <? amount) FusdError.ZeroAmount;
  l ← cpi (token_transfer l ata (bs_fusd_vault b) funder amount);
  contributed ← math (checked_add128 (bs_total_contributed b) amount);
  Ok (b <| bs_total_contributed := contributed |>, l).

(** [withdraw_backstop_excess] *)
Definition withdraw_excess (gate : GovernanceGate) (authority recipient : Pubkey) (b : GlobalBackstopReserve)
    (l : ledger) (amount : Z) : result Error (GlobalBackstopReserve * ledger) :=
  _ ← constraint (bool_decide (tok_mint l recipient = fusd_mint));
  _ ← check (bool_decide (authority = inbound_authority gate)) FusdError.Unauthorized;
  _ ← check (0 <? amount) FusdError.ZeroAmount;
  _ ← check (negb (bool_decide (recipient = bs_fusd_vault b))) FusdError.InvalidRecipient;
  let excess := sat_sub (tok_amount l (bs_fusd_vault b)) (reserve_cap b) in
  _ ← check (amount <=? excess) FusdError.InsufficientBackstopExcess;
  l ← cpi (token_transfer l (bs_fusd_vault b) recipient backstop_pda amount);
  withdrawn ← math (checked_add128 (bs_total_withdrawn b) amount);
  Ok (b <| bs_total_withdrawn := withdrawn |>, l).

End reserve.

(** [queue_global_param_change]: the operation and the gate with its counter advanced. *)
Definition queue_global (clk : Clock) (g : GovernanceGate) (authority : Pubkey) (param : GlobalParam.t)
    (value : Z) : result Error (GovernanceGate * TimelockedGlobalParam) :=
  _ ← check (bool_decide (authority = inbound_authority g)) FusdError.Unauthorized;
  _ ← validate_global_param param value;
  let op := mkTimelockedGlobalParam (queue_nonce g)
              (sat_add_i64 (unix_timestamp clk) (timelock_secs g)) param value in
  nonce ← math (checked_add64 (queue_nonce g) 1);
  Ok (g <| queue_nonce := nonce |>, op).

(** [execute_global_param_change]; Anchor then closes the operation. *)
Definition execute_global (clk : Clock) (op : TimelockedGlobalParam) (b : GlobalBackstopReserve)
    : result Error GlobalBackstopReserve :=
  _ ← check (gop_eta op <=? unix_timestamp clk) FusdError.TimelockNotElapsed;
  _ ← validate_global_param (gop_param op) (gop_value op);
  Ok (apply_global_param b (gop_param op) (gop_value op)).

(** [cancel_global_param_change] *)
Definition cancel_global (g : GovernanceGate) (authority : Pubkey) : result Error unit :=
  check (bool_decide (authority = inbound_authority g)) FusdError.Unauthorized.
