(* ===== verification/SupplyRecon.v ===== *)
(** * Supply reconciliation ([state/supply_reconciliation.rs], [instructions/supply_reconciliation.rs])

    The proof of reserves: a crank sums the markets it is given and compares what they
    back with the live fUSD supply. *)

From S2P Require Import Prelude MachineInt State Token.

Open Scope Z_scope.

Abbreviation MAX_RECONCILE_MARKETS := 24%nat.
Abbreviation I128_MAX := 170141183460469231731687303715884105727.
Abbreviation I128_MIN := (-170141183460469231731687303715884105728).

(** [x as i128] and [saturating_sub] of [i128] *)
Definition as_i128 (x : Z) : Z := (x - I128_MIN) mod 340282366920938463463374607431768211456 + I128_MIN.
Definition sat_sub_i128 (a b : Z) : Z := Z.max I128_MIN (Z.min I128_MAX (a - b)).

Record SupplyReconciliation := mkSupplyReconciliation {
  last_ts : Z;
  last_market_count : Z;
  last_mint_supply : Z;
  last_backing : Z;
  last_residual : Z;
}.

(** [init_supply_reconciliation] *)
Definition init_supply_recon (cfg : ProtocolConfig) (authority : Pubkey) : result Error SupplyReconciliation :=
  _ ← check (bool_decide (authority = gov_authority cfg)) FusdError.Unauthorized;
  Ok (mkSupplyReconciliation 0 0 0 0 0).

(** A submitted account: its key, its owner program, and the market it decodes to, if its
    discriminator and its data are those of one. *)
Record MarketInfo := mkMarketInfo {
  mk_key : Pubkey;
  mk_owner : Pubkey;
  mk_market : option Market;
}.

Section reconcile.
Context {R : Runtime}.

(** The loop over the submitted accounts: the sums so far and the keys seen. *)
Fixpoint sum_markets (program_id : Pubkey) (accounts : list MarketInfo) (seen : list Pubkey)
    (agg_plus_bad unminted : Z) : result Error (Z * Z) :=
  match accounts with
  | [] => Ok (agg_plus_bad, unminted)
  | a :: rest =>
      _ ← check (bool_decide (mk_owner a = program_id)) FusdError.InvalidRecipient;
      _ ← check (negb (bool_decide (mk_key a ∈ seen))) FusdError.DuplicateRedemptionTarget;
      m ← ok_or (mk_market a) ConstraintViolated;
      s ← math (checked_add128 agg_plus_bad (agg_recorded_debt m));
      s ← math (checked_add128 s (bad_debt m));
      u ← math (checked_add128 unminted (unminted_interest m));
      sum_markets program_id rest (seen ++ [mk_key a]) s u
  end.

(** [reconcile_supply] *)
Definition reconcile_supply (program_id : Pubkey) (clk : Clock) (l : ledger) (accounts : list MarketInfo)
    : result Error SupplyReconciliation :=
  _ ← check (bool_decide (length accounts <= MAX_RECONCILE_MARKETS)%nat) FusdError.TooManyRedemptionCandidates;
  '(agg_plus_bad, unminted) ← sum_markets program_id accounts [] 0 0;
  let backing := sat_sub agg_plus_bad unminted in
  let supply := mint_supply l fusd_mint in
  let residual := sat_sub_i128 (as_i128 backing) (as_i128 supply) in
  Ok (mkSupplyReconciliation (unix_timestamp clk) (Z.of_nat (length accounts)) supply backing residual).

End reconcile.
