(* ===== verification/OracleAdmin.v ===== *)
(** * Oracle configuration ([instructions/init_market_oracle.rs], [oracle_admin.rs])

    Binding a market to its feeds and thresholds, rebinding the feeds, and moving the
    oracle program ids. *)

From S2P Require Import Prelude MachineInt Twap State Init Governance.

Open Scope Z_scope.

Abbreviation TWAP_RING_CAPACITY := 64.
Abbreviation MIN_TWAP_WINDOW_SECS := 300.
Abbreviation MAX_TWAP_WINDOW_SECS := 86400.
Abbreviation MIN_TWAP_MIN_SAMPLES := 3.
Abbreviation MIN_PRICE_BAND_RATIO := 4.
Abbreviation MAX_LIQUIDITY_HAIRCUT_BPS := 2000.

(** The 32 bytes of the shared SOL/USD feed id. *)
Abbreviation PYTH_SOL_USD_FEED_ID :=
  6959351485434278636326695724392391178989984734204430081894928763238541364719.

Record InitMarketOracleArgs := mkInitMarketOracleArgs {
  oa_pyth_feed_id : Z;
  oa_switchboard_feed : Pubkey;
  oa_orca_pool : Pubkey;
  oa_raydium_pool : Pubkey;
  oa_max_conf_bps : Z;
  oa_max_deviation_bps : Z;
  oa_twap_max_divergence_bps : Z;
  oa_max_age_secs : Z;
  oa_k_bps : Z;
  oa_twap_window_secs : Z;
  oa_twap_min_samples : Z;
  oa_twap_max_staleness_secs : Z;
  oa_price_band_lower_ray : Z;
  oa_price_band_upper_ray : Z;
  oa_liq_max_divergence_bps : Z;
  oa_lst_stake_pool : Pubkey;
  oa_canonical_primary : bool;
  oa_liquidity_haircut_bps : Z;
}.

(** [value > 0 && value <= max] *)
Definition positive_to (max value : Z) : result Error unit :=
  check ((0 <? value) && (value <=? max)) FusdError.ParamOutOfBounds.

Definition between (lo hi value : Z) : result Error unit :=
  check ((lo <=? value) && (value <=? hi)) FusdError.ParamOutOfBounds.

(** The feed bindings, by oracle mode. *)
Definition validate_bindings (args : InitMarketOracleArgs) (collateral quote : Pubkey) : result Error unit :=
  let bad := FusdError.ParamOutOfBounds in
  let no_orca := oa_orca_pool args =? 0 in
  let no_raydium := oa_raydium_pool args =? 0 in
  _ ← check (negb (oa_pyth_feed_id args =? 0)) bad;
  _ ← check (negb (oa_switchboard_feed args =? 0)) bad;
  _ ← (if oa_canonical_primary args then
         _ ← check (oa_pyth_feed_id args =? PYTH_SOL_USD_FEED_ID) bad;
         _ ← check (negb (oa_lst_stake_pool args =? 0)) bad;
         _ ← check (no_orca && no_raydium) bad;
         positive_to MAX_LIQUIDITY_HAIRCUT_BPS (oa_liquidity_haircut_bps args)
       else
         _ ← check (negb no_orca || negb no_raydium) bad;
         check (oa_liquidity_haircut_bps args =? 0) bad);
  _ ← check (no_orca || no_raydium || negb (oa_orca_pool args =? oa_raydium_pool args)) bad;
  check (negb (quote =? collateral)) bad.

(** The thresholds. *)
Definition validate_thresholds (args : InitMarketOracleArgs) (decimals : Z) : result Error unit :=
  let bad := FusdError.ParamOutOfBounds in
  _ ← positive_to MAX_ORACLE_CONF_BPS (oa_max_conf_bps args);
  _ ← positive_to MAX_ORACLE_DEVIATION_BPS (oa_max_deviation_bps args);
  _ ← positive_to MAX_TWAP_DIVERGENCE_BPS (oa_twap_max_divergence_bps args);
  _ ← positive_to MAX_ORACLE_MAX_AGE_SECS (oa_max_age_secs args);
  _ ← between MIN_ORACLE_K_BPS MAX_ORACLE_K_BPS (oa_k_bps args);
  _ ← between MIN_TWAP_WINDOW_SECS MAX_TWAP_WINDOW_SECS (oa_twap_window_secs args);
  _ ← between MIN_TWAP_MIN_SAMPLES TWAP_RING_CAPACITY (oa_twap_min_samples args);
  _ ← positive_to MAX_TWAP_STALENESS_SECS (oa_twap_max_staleness_secs args);
  _ ← (if negb (oa_price_band_lower_ray args =? 0) && negb (oa_price_band_upper_ray args =? 0) then
         min_upper ← math (checked_mul128 (oa_price_band_lower_ray args) MIN_PRICE_BAND_RATIO);
         check (min_upper <=? oa_price_band_upper_ray args) bad
       else Ok tt);
  _ ← check (oa_liq_max_divergence_bps args <=? MAX_LIQ_DIVERGENCE_BPS) bad;
  _ ← check ((oa_liq_max_divergence_bps args =? 0)
             || ((oa_twap_max_divergence_bps args <=? oa_liq_max_divergence_bps args)
                 && (oa_max_deviation_bps args <=? oa_liq_max_divergence_bps args))) bad;
  if negb (oa_lst_stake_pool args =? 0) then check (decimals =? 9) bad else Ok tt.

(** The empty ring: all zeroes. *)
Definition empty_ring : ObservationRing :=
  mkObservationRing (replicate (Z.to_nat TWAP_RING_CAPACITY) 0) (replicate (Z.to_nat TWAP_RING_CAPACITY) 0) 0 0.

Definition init_market_oracle (cfg : ProtocolConfig) (authority : Pubkey) (collateral quote : MintInfo)
    (args : InitMarketOracleArgs) : result Error (MarketOracle * ObservationRing) :=
  _ ← check (bool_decide (authority = gov_authority cfg)) FusdError.Unauthorized;
  _ ← validate_bindings args (mi_key collateral) (mi_key quote);
  _ ← validate_thresholds args (mi_decimals collateral);
  Ok ({| ora_collateral_mint := mi_key collateral; pyth_feed_id := oa_pyth_feed_id args;
         switchboard_feed := oa_switchboard_feed args; orca_pool := oa_orca_pool args;
         raydium_pool := oa_raydium_pool args; ora_collateral_decimals := mi_decimals collateral;
         quote_mint := mi_key quote; quote_decimals := mi_decimals quote;
         max_conf_bps := oa_max_conf_bps args; max_deviation_bps := oa_max_deviation_bps args;
         twap_max_divergence_bps := oa_twap_max_divergence_bps args;
         max_age_secs := oa_max_age_secs args; k_bps := oa_k_bps args;
         twap_window_secs := oa_twap_window_secs args; twap_min_samples := oa_twap_min_samples args;
         twap_max_staleness_secs := oa_twap_max_staleness_secs args;
         price_band_lower_ray := oa_price_band_lower_ray args;
         price_band_upper_ray := oa_price_band_upper_ray args;
         liq_max_divergence_bps := oa_liq_max_divergence_bps args;
         lst_stake_pool := oa_lst_stake_pool args;
         canonical_primary := if oa_canonical_primary args then 1 else 0;
         liquidity_haircut_bps := oa_liquidity_haircut_bps args;
         last_canonical_rate_ray := 0 |}, empty_ring).

Record RebindOracleFeedsArgs := mkRebindOracleFeedsArgs {
  rb_pyth_feed_id : Z;
  rb_switchboard_feed : Pubkey;
  rb_orca_pool : Pubkey;
  rb_raydium_pool : Pubkey;
}.

(** [rebind_market_oracle_feeds]: the cached price is aged past the staleness bound. *)
Definition rebind_feeds (clk : Clock) (cfg : ProtocolConfig) (authority : Pubkey) (m : Market)
    (o : MarketOracle) (args : RebindOracleFeedsArgs) : result Error (Market * MarketOracle) :=
  let bad := FusdError.ParamOutOfBounds in
  let no_orca := rb_orca_pool args =? 0 in
  let no_raydium := rb_raydium_pool args =? 0 in
  _ ← check (bool_decide (authority = gov_authority cfg)) FusdError.Unauthorized;
  _ ← check (negb (rb_pyth_feed_id args =? 0)) bad;
  _ ← check (negb (rb_switchboard_feed args =? 0)) bad;
  _ ← check (negb no_orca || negb no_raydium) bad;
  _ ← check (no_orca || no_raydium || negb (rb_orca_pool args =? rb_raydium_pool args)) bad;
  let o := o <| pyth_feed_id := rb_pyth_feed_id args |> <| switchboard_feed := rb_switchboard_feed args |>
             <| orca_pool := rb_orca_pool args |> <| raydium_pool := rb_raydium_pool args |> in
  Ok (m <| spot_updated_slot := sat_sub (slot clk) (MAX_PRICE_STALENESS_SLOTS + 1) |>, o).

(** [set_oracle_program_ids] *)
Definition set_program_ids (cfg : ProtocolConfig) (authority : Pubkey)
    (new_pyth new_alt new_switchboard : option Pubkey) : result Error ProtocolConfig :=
  _ ← check (bool_decide (authority = gov_authority cfg)) FusdError.Unauthorized;
  cfg ← (match new_pyth with
         | Some p =>
             _ ← check (negb (p =? 0)) FusdError.ParamOutOfBounds;
             Ok (cfg <| pyth_receiver_program_id := p |>)
         | None => Ok cfg
         end);
  let cfg := match new_alt with Some a => cfg <| pyth_receiver_program_id_alt := a |> | None => cfg end in
  match new_switchboard with
  | Some s =>
      _ ← check (negb (s =? 0)) FusdError.ParamOutOfBounds;
      Ok (cfg <| switchboard_program_id := s |>)
  | None => Ok cfg
  end.

(** Rebinding the feeds does not keep the bindings of the canonical-primary mode. A
    market created in that mode is bound to the SOL/USD feed and to no DEX pool; a rebind
    is accepted only with a pool, so every successful one leaves the market in the mode
    with a pool bound, which [init_market_oracle] refuses, and the feed may be any other:
    its price would be multiplied by the pool's rate as if it were SOL's. *)
Theorem rebind_leaves_canonical_mode (cfg cfg' : ProtocolConfig) (a a' : Pubkey) (mint quote : MintInfo)
    (args : InitMarketOracleArgs) (o o' : MarketOracle) (ring : ObservationRing) (clk : Clock) (m m' : Market)
    (rargs : RebindOracleFeedsArgs)
    (Hinit : init_market_oracle cfg a mint quote args = Ok (o, ring)) (Hmode : oa_canonical_primary args = true)
    (Hre : rebind_feeds clk cfg' a' m o rargs = Ok (m', o')) :
  (canonical_primary o = 1 /\ pyth_feed_id o = PYTH_SOL_USD_FEED_ID /\ orca_pool o = 0 /\ raydium_pool o = 0) /\
  canonical_primary o' = 1 /\ (orca_pool o' <> 0 \/ raydium_pool o' <> 0) /\ pyth_feed_id o' = rb_pyth_feed_id rargs.
Proof.
  unfold init_market_oracle in Hinit. bind Hinit as u1 H1. bind Hinit as u2 Hbind. bind Hinit as u3 H3.
  unfold validate_bindings in Hbind. rewrite Hmode in Hbind. cbv zeta in Hbind. bind Hbind as u4 H4. bind Hbind as u5 H5.
  bind Hbind as u6 Hm. bind Hm as u7 Hfeed. bind Hm as u8 Hlst. bind Hm as u9 Hpools. apply check_Ok in Hfeed, Hpools.
  injection Hinit as <- _. rewrite Hmode. cbn. propify.
  unfold rebind_feeds in Hre. cbv zeta in Hre. do 3 (bind Hre as ? Hs; clear Hs). bind Hre as u10 Hp. bind Hre as u11 Hd.
  apply check_Ok in Hp. injection Hre as _ <-. cbn. rewrite Hmode. split; [done|]. split; [done|]. split; [|done].
  apply orb_true_iff in Hp as [Hp|Hp]; propify; auto.
Qed.

(** A fuSOL market rebound to feed 1234. *)
Definition demo_market : Market :=
  mkMarket 1 10 0 0 0 0 0 0 0 11000 0 9 0 0 0 0 0 0 0 0 0 0 0 0 10 0 0 true 0 false 11000
    0 0 0 0 0 0 0 0 0 0 0 0 0 0 0 0 0 0 0 0.

