(* ===== verification/UpdatePrice.v ===== *)
(** * The oracle cranks ([instructions/update_price.rs], [sample_twap.rs])

    [update_price] reads the feeds, aggregates them and commits the market's price;
    [sample_twap] appends an observation of a DEX pool to the ring. The account formats
    of Pyth and Switchboard and the epoch schedule are third-party code: the class
    [OracleSdk] holds what the cranks use of them. *)

From S2P Require Import Prelude MachineInt FixedPoint OracleScale Oracle Twap State AccountBytes.
From S2P Require Import Init Governance OracleAdmin.

Open Scope Z_scope.

Abbreviation LIQ_DIVERGENCE_GRACE_SLOTS := 750.
Abbreviation MAX_STAKE_POOL_EPOCH_LAG := 2.
Abbreviation POOL_UPDATE_GRACE_DIVISOR := 16.
Abbreviation FUSD_DECIMALS := 6.

(** The program ids, as the integers their base58 strings denote. *)
Abbreviation ORCA_WHIRLPOOL_PROGRAM_ID :=
  76655489289326701707528209922026882990122210892313098509650376377679724675854.
Abbreviation RAYDIUM_CLMM_PROGRAM_ID :=
  13683682604976703740344639738092640804383757108029828145798290711002032559525.
Abbreviation SPL_STAKE_POOL_PROGRAM_ID :=
  36223904449479582474603794791269658683629910810954195563681985345166097940742.
Abbreviation FUSION_STAKE_POOL_PROGRAM_ID :=
  76724777186995376826505497019058807631490176375456550422772324384998981100841.

(** An unchecked account: its key, its owner program and its bytes. *)
Record AccountInfo := mkAccountInfo {
  ai_key : Pubkey;
  ai_owner : Pubkey;
  ai_data : list Z;
}.

(** A price of the Pyth receiver and the fields the crank reads of a Switchboard feed. *)
Record PythPrice := mkPythPrice {
  py_price : Z;
  py_conf : Z;
  py_exponent : Z;
  py_publish_time : Z;
}.

Record PullFeed := mkPullFeed {
  pf_value : Z;
  pf_std_dev : Z;
  pf_slot : Z;
  pf_last_update_timestamp : Z;
  pf_num_samples : Z;
  pf_min_responses : Z;
}.

(** [PriceUpdateV2::try_deserialize], its verification level and the price of a feed;
    [PullFeedAccountData::parse]; the epoch schedule. The fields have their types. *)
Class OracleSdk := {
  PriceUpdateV2 : Type;
  price_update_deserialize : list Z -> option PriceUpdateV2;
  verified_full : PriceUpdateV2 -> bool;
  get_price_unchecked : PriceUpdateV2 -> Z -> option PythPrice;
  pull_feed_parse : list Z -> option PullFeed;
  get_first_slot_in_epoch : Z -> Z;
  get_slots_in_epoch : Z -> Z;

  pyth_price_typed u id p : get_price_unchecked u id = Some p ->
    i64 (py_price p) /\ u64 (py_conf p) /\ i64 (py_publish_time p);
  pull_feed_typed d f : pull_feed_parse d = Some f ->
    pf_value f <= U128_MAX / 2 /\ pf_std_dev f <= U128_MAX / 2 /\ i64 (pf_last_update_timestamp f);
}.

Section cranks.
Context {U : U256} {K : OracleSdk}.

(** ** [update_price.rs] *)

Definition parse_pyth (acc : AccountInfo) (feed_id pyth_program_id pyth_program_id_alt : Z)
    : result Error PriceView :=
  let bad := FusdError.InvalidPriceUpdate in
  let owner := ai_owner acc in
  _ ← check ((owner =? pyth_program_id)
             || (negb (pyth_program_id_alt =? 0) && (owner =? pyth_program_id_alt))) bad;
  pu ← fail_with (price_update_deserialize (ai_data acc)) bad;
  _ ← check (verified_full pu) bad;
  price ← fail_with (get_price_unchecked pu feed_id) bad;
  _ ← check (0 <? py_price price) bad;
  price_ray ← math (px_to_ray (py_price price) (py_exponent price));
  conf_ray ← math (px_to_ray (py_conf price) (py_exponent price));
  Ok (mkPriceView price_ray conf_ray 0 (py_publish_time price)).

Definition parse_switchboard (acc : AccountInfo) (expected_key sb_program_id : Pubkey)
    : result Error (option PriceView) :=
  let bad := FusdError.InvalidSwitchboardFeed in
  _ ← check (ai_owner acc =? sb_program_id) bad;
  _ ← check (ai_key acc =? expected_key) bad;
  feed ← fail_with (pull_feed_parse (ai_data acc)) bad;
  if (pf_slot feed =? 0) || (pf_value feed <=? 0) then Ok None
  else if pf_num_samples feed <? Z.max (pf_min_responses feed) 1 then Ok None
  else
    match px_to_ray (pf_value feed) (-18), px_to_ray (Z.max (pf_std_dev feed) 0) (-18) with
    | Some p, Some c => Ok (Some (mkPriceView p c 0 (pf_last_update_timestamp feed)))
    | _, _ => Ok None
    end.

Definition parse_bound_stake_pool (stake_pool_acc : option AccountInfo) (expected_stake_pool expected_owner
    collateral : Pubkey) (current_epoch : Z) : result Error (option StakePoolSample) :=
  match stake_pool_acc with
  | None => Ok None
  | Some sp =>
      _ ← check (ai_owner sp =? expected_owner) FusdError.InvalidStakePool;
      _ ← check (ai_key sp =? expected_stake_pool) FusdError.InvalidStakePool;
      match stake_pool_parse (ai_data sp) with
      | Err _ => Ok None
      | Ok sample =>
          if MAX_STAKE_POOL_EPOCH_LAG <? sat_sub current_epoch (sp_last_update_epoch sample) then Ok None
          else if negb (sp_pool_mint sample =? collateral) then Ok None
          else Ok (Some sample)
      end
  end.

Definition scale_view (v : PriceView) (total_lamports pool_token_supply : Z) : option PriceView :=
  if (total_lamports =? 0) || (pool_token_supply =? 0) then None
  else
    price ← mul_div_floor (pv_price v) total_lamports pool_token_supply;
    conf ← mul_div_floor (pv_conf v) total_lamports pool_token_supply;
    Some (mkPriceView price conf (pv_expo v) (pv_publish_ts v)).

Definition within_pool_update_grace (last_update_epoch : Z) (clk : Clock) : bool :=
  if epoch clk <=? last_update_epoch then true
  else if negb (sat_add64 last_update_epoch 1 =? epoch clk) then false
  else
    let slots_into_epoch := sat_sub (slot clk) (get_first_slot_in_epoch (epoch clk)) in
    slots_into_epoch <=? get_slots_in_epoch (epoch clk) / POOL_UPDATE_GRACE_DIVISOR.

Definition compute_canonical (sol_usd_acc stake_pool_acc : option AccountInfo) (expected_stake_pool
    collateral pyth_program_id pyth_program_id_alt : Pubkey) (now max_age current_epoch : Z)
    : result Error (option Z) :=
  match sol_usd_acc with
  | None => Ok None
  | Some sol_acc =>
      sol_pv ← parse_pyth sol_acc PYTH_SOL_USD_FEED_ID pyth_program_id pyth_program_id_alt;
      if is_stale sol_pv now max_age then Ok None
      else
        sample ← parse_bound_stake_pool stake_pool_acc expected_stake_pool SPL_STAKE_POOL_PROGRAM_ID
                   collateral current_epoch;
        match sample with
        | None => Ok None
        | Some s => Ok (mul_div_floor (pv_price sol_pv) (sp_total_lamports s) (sp_pool_token_supply s))
        end
  end.

(** The thresholds of a market's oracle. *)
Definition oracle_config (o : MarketOracle) : OracleConfig := {|
  oc_max_conf_bps := max_conf_bps o;
  oc_max_deviation_bps := max_deviation_bps o;
  oc_twap_max_divergence_bps := twap_max_divergence_bps o;
  oc_max_age_secs := max_age_secs o;
  oc_k_bps := k_bps o;
  oc_band_lower_ray := price_band_lower_ray o;
  oc_band_upper_ray := price_band_upper_ray o;
  oc_liq_max_divergence_bps := liq_max_divergence_bps o;
  oc_canonical_required := (canonical_primary o =? 0) && negb (lst_stake_pool o =? 0);
  oc_twap_corridor_optional := negb (canonical_primary o =? 0) |}.

Record PriceAccounts := mkPriceAccounts {
  pk_pyth : AccountInfo;
  pk_switchboard : option AccountInfo;
  pk_sol_usd : option AccountInfo;
  pk_stake_pool : option AccountInfo;
}.

(** The views, composed with the pool's rate in the canonical-primary mode: the rate and
    both views scaled by it, or [None] when the rate is not available. *)
Definition compose_views (clk : Clock) (k : PriceAccounts) (m : Market) (o : MarketOracle)
    (pyth_pv : PriceView) (sb_pv : option PriceView)
    : result Error (option (option Z * PriceView * option PriceView)) :=
  if canonical_primary o =? 0 then Ok (Some (None, pyth_pv, sb_pv))
  else
    rate ← parse_bound_stake_pool (pk_stake_pool k) (lst_stake_pool o) FUSION_STAKE_POOL_PROGRAM_ID
             (collateral_mint m) (epoch clk);
    let rate := match rate with
                | Some s => if within_pool_update_grace (sp_last_update_epoch s) clk then Some s else None
                | None => None
                end in
    match rate with
    | None => Ok None
    | Some s =>
        let lamports := sp_total_lamports s in
        let supply := sp_pool_token_supply s in
        rate_ray ← math (mul_div_floor RAY lamports supply);
        pyth_pv ← math (scale_view pyth_pv lamports supply);
        sb_pv ← (match sb_pv with
                 | Some v => v ← math (scale_view v lamports supply); Ok (Some v)
                 | None => Ok None
                 end);
        Ok (Some (Some rate_ray, pyth_pv, sb_pv))
    end.

(** Commit the aggregate: the mode, the divergence pause, and the price when it is fresh,
    plausible and not zero. *)
Definition commit_divergence (clk : Clock) (m : Market) (r : OracleResult) : Market :=
  let m := m <| mint_frozen := match or_mode r with OracleMode.Ok => false | OracleMode.MintFrozen => true end |> in
  if or_liq_divergent r
  then m <| liq_divergence_until :=
         Z.max (liq_divergence_until m) (sat_add64 (slot clk) LIQ_DIVERGENCE_GRACE_SLOTS) |>
  else m.

(** A committed rate below the last one grants the liquidation grace. *)
Definition commit_rate (clk : Clock) (m : Market) (o : MarketOracle) (rate : option Z) : Market * MarketOracle :=
  match rate with
  | None => (m, o)
  | Some new_rate =>
      (if (0 <? last_canonical_rate_ray o) && (new_rate <? last_canonical_rate_ray o)
       then m <| liq_grace_until := Z.max (liq_grace_until m) (sat_add64 (slot clk) LIQ_RESUME_GRACE_SLOTS) |>
       else m,
       o <| last_canonical_rate_ray := new_rate |>)
  end.

Definition collateral_ray (o : MarketOracle) (r : OracleResult) : result Error Z :=
  if negb (canonical_primary o =? 0) && (0 <? liquidity_haircut_bps o) then
    kept ← no_panic (checked_sub128 BPS (liquidity_haircut_bps o));
    math (mul_div_floor (or_collateral_price r) kept BPS)
  else Ok (or_collateral_price r).

Definition commit_price (clk : Clock) (m : Market) (o : MarketOracle) (r : OracleResult) (rate : option Z)
    : result Error (Market * MarketOracle) :=
  let m := commit_divergence clk m r in
  if or_fresh r && or_plausible r then
    coll_ray ← collateral_ray o r;
    new_spot ← math (usd_ray_to_spot coll_ray (collateral_decimals m) FUSD_DECIMALS);
    new_debt_spot ← math (usd_ray_to_spot (or_debt_price r) (collateral_decimals m) FUSD_DECIMALS);
    if 0 <? new_spot
    then Ok (commit_rate clk (commit_fresh_spot m new_spot new_debt_spot (slot clk)) o rate)
    else Ok (m, o)
  else Ok (m, o).

Definition update_price (clk : Clock) (cfg : ProtocolConfig) (k : PriceAccounts) (m : Market)
    (o : MarketOracle) (ring : ObservationRing) : result Error (Market * MarketOracle) :=
  let now := unix_timestamp clk in
  let pyth_id := pyth_receiver_program_id cfg in
  let pyth_alt := pyth_receiver_program_id_alt cfg in
  pyth_pv ← parse_pyth (pk_pyth k) (pyth_feed_id o) pyth_id pyth_alt;
  sb_pv ← (match pk_switchboard k with
           | Some sb => parse_switchboard sb (switchboard_feed o) (switchboard_program_id cfg)
           | None => Ok None
           end);
  views ← compose_views clk k m o pyth_pv sb_pv;
  match views with
  | None => Ok (m <| mint_frozen := true |>, o)
  | Some (rate, pyth_pv, sb_pv) =>
      let twap := twap ring now (twap_window_secs o)
                    (mkTwapConfig (twap_min_samples o) (twap_max_staleness_secs o)) in
      canonical ← (if (canonical_primary o =? 0) && negb (lst_stake_pool o =? 0)
                   then compute_canonical (pk_sol_usd k) (pk_stake_pool k) (lst_stake_pool o)
                          (collateral_mint m) pyth_id pyth_alt now (max_age_secs o) (epoch clk)
                   else Ok None);
      commit_price clk m o (aggregate pyth_pv sb_pv twap canonical now (oracle_config o)) rate
  end.

(** ** [sample_twap.rs] *)

Definition checked_i64 (z : Z) : result Error Z :=
  no_panic (if (I64_MIN <=? z) && (z <=? I64_MAX) then Some z else None).

(** The configured pool an account is, with the program that must own it. *)
Definition pool_venue (o : MarketOracle) (pool_key : Pubkey) : option (Venue * Pubkey) :=
  if negb (orca_pool o =? 0) && (pool_key =? orca_pool o) then Some (Orca, ORCA_WHIRLPOOL_PROGRAM_ID)
  else if negb (raydium_pool o =? 0) && (pool_key =? raydium_pool o)
       then Some (Raydium, RAYDIUM_CLMM_PROGRAM_ID)
  else None.

(** The price a pool quotes: quote tokens per collateral token, RAY-scaled. *)
Definition pool_price (o : MarketOracle) (sample : PoolSample) : result Error Z :=
  let bad := FusdError.InvalidClmmPool in
  let coll := ora_collateral_mint o in
  let is_pair a b := (sm_mint_a sample =? a) && (sm_mint_b sample =? b) in
  _ ← check (is_pair coll (quote_mint o) || is_pair (quote_mint o) coll) bad;
  let collateral_is_a := sm_mint_a sample =? coll in
  let cfg_a := if collateral_is_a then ora_collateral_decimals o else quote_decimals o in
  let cfg_b := if collateral_is_a then quote_decimals o else ora_collateral_decimals o in
  '(dec_a, dec_b) ← (match sm_dec_a sample, sm_dec_b sample with
                     | Some da, Some db =>
                         _ ← check ((da =? cfg_a) && (db =? cfg_b)) bad;
                         Ok (da, db)
                     | _, _ => Ok (cfg_a, cfg_b)
                     end);
  price_ba ← math (sqrt_price_q64_to_ray (sm_sqrt_price sample) dec_a dec_b);
  usd_ray ← (if collateral_is_a then Ok price_ba else math (ray_div RAY price_ba));
  _ ← check (0 <? usd_ray) bad;
  Ok usd_ray.

(** The anti-flood spacing: [ceil(window / (N - 1))] seconds. *)
Definition min_interval (window : Z) : Z :=
  let gaps := Z.max (TWAP_RING_CAPACITY - 1) 1 in
  Z.quot (window + gaps - 1) gaps.

Definition push_error (e : TwapError.t) : Error :=
  match e with
  | TwapError.NonMonotonicTs => Fusd FusdError.TwapSampleRejected
  | TwapError.IndexPanic => Panicked
  end.

Definition sample_twap (clk : Clock) (o : MarketOracle) (ring : ObservationRing) (pool : AccountInfo)
    : result Error ObservationRing :=
  let now := unix_timestamp clk in
  let bad := FusdError.InvalidClmmPool in
  '(venue, venue_program) ← fail_with (pool_venue o (ai_key pool)) bad;
  _ ← check (ai_owner pool =? venue_program) bad;
  sample ← map_err (fun _ => Fusd bad) (clmm_parse venue (ai_data pool));
  usd_ray ← pool_price o sample;
  _ ← (match ring_last ring with
       | Some last =>
           elapsed ← checked_i64 (now - ob_ts last);
           check (min_interval (twap_window_secs o) <=? elapsed) FusdError.TwapSampleRejected
       | None => Ok tt
       end);
  map_err push_error (push ring usd_ray now).

End cranks.

(** An instance: a Pyth update is its six numbers (feed id, price, confidence, exponent,
    publish time, verification), a Switchboard feed its six fields, and an epoch lasts
    432000 slots. It shows that the laws can hold and lets the cranks compute. *)
Module PlainSdk.

Definition in_i64 (z : Z) : bool := (I64_MIN <=? z) && (z <=? I64_MAX).

Definition update_of (d : list Z) : option (list Z) := if (length d =? 6)%nat then Some d else None.

Definition price_of (u : list Z) (id : Z) : option PythPrice :=
  match u with
  | [f; p; c; e; t; _] =>
      if (f =? id) && in_i64 p && (0 <=? c) && (c <=? U64_MAX) && in_i64 t
      then Some (mkPythPrice p c e t) else None
  | _ => None
  end.

Definition feed_of (d : list Z) : option PullFeed :=
  match d with
  | [v; s; sl; t; n; r] =>
      if (v <=? U128_MAX / 2) && (s <=? U128_MAX / 2) && in_i64 t
      then Some (mkPullFeed v s sl t n r) else None
  | _ => None
  end.

#[refine] Instance sdk : OracleSdk := {
  PriceUpdateV2 := list Z;
  price_update_deserialize := update_of;
  verified_full u := nth 5 u 0 =? 1;
  get_price_unchecked := price_of;
  pull_feed_parse := feed_of;
  get_first_slot_in_epoch e := e * 432000;
  get_slots_in_epoch _ := 432000;
}.
Proof.
  - intros u id p H. do 7 (destruct u as [|? u]; [try discriminate H|]); [|discriminate H].
    unfold price_of, in_i64 in H. apply if_Some_l in H as [H [= <-]]. propify. cbn. rlia.
  - intros d f H. do 7 (destruct d as [|? d]; [try discriminate H|]); [|discriminate H].
    unfold feed_of, in_i64 in H. apply if_Some_l in H as [H [= <-]]. propify. cbn. rlia.
Defined.

End PlainSdk.
