(* ===== verification/System.v ===== *)
(** * The market as a system

    All the accounts of one collateral market, the instructions of the program
    dispatched on them (the entry points of [programs/fusd-core/src/lib.rs]), and
    the runs of the system: instructions at non-decreasing times, interleaved with
    any activity elsewhere, of users, programs and the other markets, on the accounts
    that are shared. *)

From S2P Require Import Prelude MachineInt FixedPoint Interest RateBucket Redistribution.
From S2P Require Import ReactorMath SupplyTransition Cdp State Token Accrual Bucket PositionOps.
From S2P Require Import TouchEffect World Reactor Liquidate Redeem MarketOps ReactorOps Init.
From S2P Require Import Twap Governance CeilingLine Backstop OracleAdmin UpdatePrice.

Open Scope Z_scope.

Section system.
Context {U : U256} {R : Runtime} {K : OracleSdk}.

(** Which of the accounts that belong to a market exist: the Reactor Pool with its grid,
    the insurance buffer, the oracle with its ring. Each has its own init instruction, in
    any order and at any time after [init_market]. *)
Record Created := mkCreated { has_pool : bool; has_buffer : bool; has_oracle : bool }.

#[export] Instance Created_fields : Fields Created := fun c =>
  mkCreated (has_pool c) (has_buffer c) (has_oracle c).

(** The fields of an account that does not exist yet are never read. *)
Record World := mkWorld {
  w_market : Market;
  w_positions : gmap Pubkey Position;
  w_others : gset Pubkey;
  w_bitmap : RedemptionBitmap;
  w_pool : ReactorPool;
  w_grid : list Z;
  w_deposits : gmap Pubkey ReactorDeposit;
  w_buffer : InsuranceBuffer;
  w_backstop : option GlobalBackstopReserve;
  w_gate : GovernanceGate;
  w_config : ProtocolConfig;
  w_oracle : MarketOracle;
  w_ring : ObservationRing;
  w_line : option DebtCeilingLine;
  w_queue : gmap Z TimelockedParam;
  w_gqueue : gmap Z TimelockedGlobalParam;
  w_ledger : ledger;
  w_now : Z;
  w_created : Created;
}.

#[export] Instance World_fields : Fields World := fun w =>
  mkWorld (w_market w) (w_positions w) (w_others w) (w_bitmap w) (w_pool w) (w_grid w)
    (w_deposits w) (w_buffer w) (w_backstop w) (w_gate w) (w_config w) (w_oracle w)
    (w_ring w) (w_line w) (w_queue w) (w_gqueue w) (w_ledger w) (w_now w) (w_created w).

(** What a market shares with the rest of the chain: the protocol's own accounts, the
    position accounts of other markets, the token ledger and the clock. *)
Record Shared := mkShared {
  sh_others : gset Pubkey;
  sh_backstop : option GlobalBackstopReserve;
  sh_gate : GovernanceGate;
  sh_config : ProtocolConfig;
  sh_queue : gmap Z TimelockedParam;
  sh_gqueue : gmap Z TimelockedGlobalParam;
  sh_ledger : ledger;
  sh_now : Z;
}.

#[export] Instance Shared_fields : Fields Shared := fun s =>
  mkShared (sh_others s) (sh_backstop s) (sh_gate s) (sh_config s) (sh_queue s) (sh_gqueue s) (sh_ledger s) (sh_now s).

Definition share (w : World) : Shared :=
  mkShared (w_others w) (w_backstop w) (w_gate w) (w_config w) (w_queue w) (w_gqueue w) (w_ledger w) (w_now w).

Definition with_shared (w : World) (s : Shared) : World :=
  mkWorld (w_market w) (w_positions w) (sh_others s) (w_bitmap w) (w_pool w) (w_grid w)
    (w_deposits w) (w_buffer w) (sh_backstop s) (sh_gate s) (sh_config s) (w_oracle w)
    (w_ring w) (w_line w) (sh_queue s) (sh_gqueue s) (sh_ledger s) (sh_now s) (w_created w).

(** The instructions, with their arguments and the accounts the caller names. The flag
    of [LiquidateI] and [RefreshMarketI] says whether the optional backstop is passed, that
    of the parameter lane whether the optional oracle account is. *)
Inductive Instr :=
  | OpenPositionI (k : Accounts) (rate_bps : Z)
  | ClosePositionI (k : Accounts)
  | DepositI (k : Accounts) (amount : Z)
  | WithdrawI (k : Accounts) (amount : Z)
  | BorrowI (k : Accounts) (amount : Z)
  | RepayI (k : Accounts) (amount : Z)
  | AdjustRateI (k : Accounts) (new_rate_bps : Z)
  | ClaimCollSurplusI (k : Accounts)
  | LiquidateI (k : LiqAccounts) (with_backstop : bool)
  | RedeemI (k : RedeemAccounts) (amount : Z)
  | UrgentRedeemI (k : RedeemAccounts) (amount : Z)
  | RefreshMarketI (k : RefreshAccounts) (with_backstop : bool)
  | SettleBadDebtI (authority ata : Pubkey) (amount : Z)
  | ShutdownI
  | FundBufferI (funder ata : Pubkey) (amount : Z)
  | WithdrawSurplusI (k : GovAccounts) (amount : Z)
  | SweepProtocolCollateralI (k : GovAccounts) (amount : Z)
  | GuardianDeriskI (signer : Pubkey) (pause_secs : Z)
  | DevSetPriceI (authority : Pubkey) (new_spot : Z)
  | OpenReactorDepositI (owner : Pubkey)
  | ProvideToReactorI (k : DepositAccounts) (amount : Z)
  | WithdrawFromReactorI (k : DepositAccounts) (amount : Z)
  | ClaimReactorGainsI (k : DepositAccounts)
  | UpdatePriceI (k : PriceAccounts)
  | SampleTwapI (pool : AccountInfo)
  | QueueParamI (authority : Pubkey) (with_oracle : bool) (param : MarketParam.t) (value : Z)
  | ExecuteParamI (nonce : Z) (with_oracle : bool)
  | CancelParamI (authority : Pubkey) (nonce : Z)
  | MigrateInboundAuthorityI (authority new_authority : Pubkey)
  | AcceptInboundAuthorityI (new_authority : Pubkey)
  | MigrateGovAuthorityI (authority new_authority : Pubkey)
  | AcceptGovAuthorityI (new_authority : Pubkey)
  | SetGuardianI (authority new_guardian : Pubkey)
  | RebindFeedsI (authority : Pubkey) (args : RebindOracleFeedsArgs)
  | SetOracleProgramIdsI (authority : Pubkey) (pyth alt switchboard : option Pubkey)
  | InitCeilingLineI (authority : Pubkey) (line gap ttl : Z)
  | SetCeilingLineI (authority : Pubkey) (line gap ttl : Z)
  | BumpCeilingI
  | InitBackstopI (authority vault : Pubkey)
  | FundBackstopI (funder ata : Pubkey) (amount : Z)
  | WithdrawBackstopI (authority recipient : Pubkey) (amount : Z)
  | QueueGlobalI (authority : Pubkey) (param : GlobalParam.t) (value : Z)
  | ExecuteGlobalI (nonce : Z)
  | CancelGlobalI (authority : Pubkey) (nonce : Z)
  | InitReactorPoolI (authority fusd_vault coll_vault grid : Pubkey)
  | InitInsuranceBufferI (authority fusd_vault : Pubkey)
  | InitMarketOracleI (authority : Pubkey) (collateral quote : MintInfo) (args : InitMarketOracleArgs).

(** The accounts an instruction loads must exist, those it creates must not. *)
Definition loads (i : Instr) (c : Created) : bool :=
  match i with
  | OpenReactorDepositI _ | ProvideToReactorI _ _ | WithdrawFromReactorI _ _ | ClaimReactorGainsI _ => has_pool c
  | LiquidateI _ _ => has_pool c && has_buffer c
  | RefreshMarketI _ _ | FundBufferI _ _ _ => has_buffer c
  | UpdatePriceI _ | SampleTwapI _ | RebindFeedsI _ _ => has_oracle c
  | QueueParamI _ passed _ _ | ExecuteParamI _ passed => implb passed (has_oracle c)
  | InitReactorPoolI _ _ _ _ => negb (has_pool c)
  | InitInsuranceBufferI _ _ => negb (has_buffer c)
  | InitMarketOracleI _ _ _ _ => negb (has_oracle c)
  | _ => true
  end.

(** Load the position account an instruction names; one that is not there is refused. *)
Definition load_position (w : World) (key : Pubkey) : result Error Position :=
  ok_or (w_positions w !! key) ConstraintViolated.

Definition touch_world (w : World) (key : Pubkey) (f : Touch -> result Error Touch)
    : result Error World :=
  p ← load_position w key;
  t ← f (mkTouch (w_market w) p (w_bitmap w) (w_ledger w));
  Ok (w <| w_market := t_market t |> <| w_positions := <[key := t_position t]> (w_positions w) |>
        <| w_bitmap := t_bitmap t |> <| w_ledger := t_ledger t |>).

Definition redeem_world (w : World) (f : Redemption -> result Error Redemption) : result Error World :=
  x ← f (mkRedemption (w_market w) (w_positions w) (w_others w) (w_bitmap w) (w_ledger w));
  Ok (w <| w_market := rd_market x |> <| w_positions := rd_positions x |>
        <| w_bitmap := rd_bitmap x |> <| w_ledger := rd_ledger x |>).

Definition liquidate_world (clk : Clock) (w : World) (k : LiqAccounts) (with_backstop : bool)
    : result Error World :=
  p ← load_position w (lk_position k);
  x ← liquidate clk k (mkLiq (w_market w) p (w_pool w) (w_grid w) (w_bitmap w) (w_buffer w)
        (if with_backstop then w_backstop w else None) (w_ledger w));
  Ok (w <| w_market := lq_market x |>
        <| w_positions := <[lk_position k := lq_position x]> (w_positions w) |>
        <| w_bitmap := lq_bitmap x |> <| w_pool := lq_pool x |> <| w_grid := lq_grid x |>
        <| w_buffer := lq_buffer x |>
        <| w_backstop := if with_backstop then lq_backstop x else w_backstop w |>
        <| w_ledger := lq_ledger x |>).

Definition deposit_world (w : World) (owner : Pubkey) (f : Depositing -> result Error Depositing)
    : result Error World :=
  dep ← ok_or (w_deposits w !! owner) ConstraintViolated;
  x ← f (mkDepositing (w_pool w) dep (w_ledger w));
  Ok (w <| w_pool := dp_pool x |> <| w_deposits := <[owner := dp_deposit x]> (w_deposits w) |>
        <| w_ledger := dp_ledger x |>).

Definition market_world (w : World) (r : result Error (Market * ledger)) : result Error World :=
  '(m, l) ← r; Ok (w <| w_market := m |> <| w_ledger := l |>).

(** The optional oracle account, written back when it was passed. *)
Definition oracle_account (w : World) (passed : bool) : option MarketOracle :=
  if passed then Some (w_oracle w) else None.

Definition queue_world (clk : Clock) (w : World) (authority : Pubkey) (with_oracle : bool)
    (param : MarketParam.t) (value : Z) : result Error World :=
  _ ← constraint (bool_decide (w_queue w !! queue_nonce (w_gate w) = None));
  '(g, op) ← queue_param clk (w_gate w) authority (w_market w) (oracle_account w with_oracle) param value;
  Ok (w <| w_gate := g |> <| w_queue := <[op_nonce op := op]> (w_queue w) |>).

Definition execute_world (clk : Clock) (w : World) (nonce : Z) (with_oracle : bool) : result Error World :=
  op ← ok_or (w_queue w !! nonce) ConstraintViolated;
  '(m, o) ← execute_param clk op (w_market w) (oracle_account w with_oracle);
  Ok (w <| w_market := m |> <| w_oracle := default (w_oracle w) o |>
        <| w_queue := delete nonce (w_queue w) |>).

Definition cancel_world (w : World) (authority nonce : Pubkey) : result Error World :=
  _ ← ok_or (w_queue w !! nonce) ConstraintViolated;
  _ ← cancel_param (w_gate w) authority;
  Ok (w <| w_queue := delete nonce (w_queue w) |>).

Definition gate_world (w : World) (r : result Error GovernanceGate) : result Error World :=
  g ← r; Ok (w <| w_gate := g |>).
Definition config_world (w : World) (r : result Error ProtocolConfig) : result Error World :=
  c ← r; Ok (w <| w_config := c |>).
Definition price_world (w : World) (r : result Error (Market * MarketOracle)) : result Error World :=
  '(m, o) ← r; Ok (w <| w_market := m |> <| w_oracle := o |>).

(** The market's auto-line. *)
Definition line_world (w : World) (r : result Error (Market * DebtCeilingLine)) : result Error World :=
  '(m, dl) ← r; Ok (w <| w_market := m |> <| w_line := Some dl |>).
Definition load_line (w : World) : result Error DebtCeilingLine := ok_or (w_line w) ConstraintViolated.

(** A token account Anchor creates: empty, of the given mint and owner. *)
Definition new_vault (l : ledger) (vault mint owner : Pubkey) : result Error unit :=
  constraint (bool_decide (tok_owner l vault = owner) && bool_decide (tok_mint l vault = mint)
              && (tok_amount l vault =? 0)).

(** The reserve, and the vault created with it. *)
Definition load_backstop (w : World) : result Error GlobalBackstopReserve := ok_or (w_backstop w) ConstraintViolated.
Definition reserve_world (w : World) (r : result Error (GlobalBackstopReserve * ledger)) : result Error World :=
  '(b, l) ← r; Ok (w <| w_backstop := Some b |> <| w_ledger := l |>).
Definition new_reserve_vault (l : ledger) (vault : Pubkey) : result Error unit :=
  new_vault l vault fusd_mint backstop_pda.

Definition queue_global_world (clk : Clock) (w : World) (authority : Pubkey) (param : GlobalParam.t)
    (value : Z) : result Error World :=
  _ ← constraint (bool_decide (w_gqueue w !! queue_nonce (w_gate w) = None));
  '(g, op) ← queue_global clk (w_gate w) authority param value;
  Ok (w <| w_gate := g |> <| w_gqueue := <[gop_nonce op := op]> (w_gqueue w) |>).

Definition execute_global_world (clk : Clock) (w : World) (nonce : Z) : result Error World :=
  op ← ok_or (w_gqueue w !! nonce) ConstraintViolated;
  b ← load_backstop w;
  b ← execute_global clk op b;
  Ok (w <| w_backstop := Some b |> <| w_gqueue := delete nonce (w_gqueue w) |>).

Definition cancel_global_world (w : World) (authority : Pubkey) (nonce : Z) : result Error World :=
  _ ← ok_or (w_gqueue w !! nonce) ConstraintViolated;
  _ ← cancel_global (w_gate w) authority;
  Ok (w <| w_gqueue := delete nonce (w_gqueue w) |>).

Definition handle (clk : Clock) (i : Instr) (w : World) : result Error World :=
  let m := w_market w in
  let l := w_ledger w in
  match i with
  | OpenPositionI k rate =>
      _ ← constraint (bool_decide (w_positions w !! acc_position k = None));
      _ ← constraint (bool_decide (acc_position k ∉ w_others w));
      '(p, l) ← open_position clk k m l rate;
      Ok (w <| w_positions := <[acc_position k := p]> (w_positions w) |> <| w_ledger := l |>)
  | ClosePositionI k =>
      p ← load_position w (acc_position k);
      l ← close_position k m p l;
      Ok (w <| w_positions := delete (acc_position k) (w_positions w) |> <| w_ledger := l |>)
  | DepositI k amount => touch_world w (acc_position k) (fun t => deposit clk k t amount)
  | WithdrawI k amount => touch_world w (acc_position k) (fun t => withdraw clk k t amount)
  | BorrowI k amount => touch_world w (acc_position k) (fun t => borrow clk k t amount)
  | RepayI k amount => touch_world w (acc_position k) (fun t => repay clk k t amount)
  | AdjustRateI k rate => touch_world w (acc_position k) (fun t => adjust_rate clk k t rate)
  | ClaimCollSurplusI k =>
      p ← load_position w (acc_position k);
      '(m, p, l) ← claim_coll_surplus k m p l;
      Ok (w <| w_market := m |> <| w_positions := <[acc_position k := p]> (w_positions w) |>
            <| w_ledger := l |>)
  | LiquidateI k b => liquidate_world clk w k b
  | RedeemI k amount => redeem_world w (fun x => redeem clk k x amount)
  | UrgentRedeemI k amount => redeem_world w (fun x => urgent_redeem clk k x amount)
  | RefreshMarketI k b =>
      x ← refresh_market clk k (mkRefresh m (w_buffer w) (if b then w_backstop w else None) l);
      Ok (w <| w_market := rf_market x |> <| w_buffer := rf_buffer x |>
            <| w_backstop := if b then rf_backstop x else w_backstop w |>
            <| w_ledger := rf_ledger x |>)
  | SettleBadDebtI authority ata amount =>
      market_world w (settle_bad_debt (w_gate w) authority ata m l amount)
  | ShutdownI => m ← shutdown_market clk m; Ok (w <| w_market := m |>)
  | FundBufferI funder ata amount =>
      '(b, l) ← fund_buffer funder ata (w_buffer w) l amount;
      Ok (w <| w_buffer := b |> <| w_ledger := l |>)
  | WithdrawSurplusI k amount => market_world w (withdraw_surplus (w_gate w) k m l amount)
  | SweepProtocolCollateralI k amount =>
      market_world w (sweep_protocol_collateral (w_gate w) k m l amount)
  | GuardianDeriskI signer secs =>
      m ← guardian_derisk clk (w_config w) signer m secs; Ok (w <| w_market := m |>)
  | DevSetPriceI authority s =>
      m ← dev_set_price clk (w_config w) authority m s; Ok (w <| w_market := m |>)
  | OpenReactorDepositI owner =>
      _ ← constraint (bool_decide (w_deposits w !! owner = None));
      Ok (w <| w_deposits := <[owner := open_reactor_deposit owner (w_pool w)]> (w_deposits w) |>)
  | ProvideToReactorI k amount =>
      deposit_world w (dk_owner k) (fun x => provide_to_reactor k (w_grid w) x amount)
  | WithdrawFromReactorI k amount =>
      deposit_world w (dk_owner k) (fun x => withdraw_from_reactor k (w_grid w) x amount)
  | ClaimReactorGainsI k =>
      deposit_world w (dk_owner k) (fun x => claim_reactor_gains k (w_grid w) x)
  | UpdatePriceI k => price_world w (update_price clk (w_config w) k m (w_oracle w) (w_ring w))
  | SampleTwapI pool =>
      ring ← sample_twap clk (w_oracle w) (w_ring w) pool; Ok (w <| w_ring := ring |>)
  | QueueParamI authority b param value => queue_world clk w authority b param value
  | ExecuteParamI nonce b => execute_world clk w nonce b
  | CancelParamI authority nonce => cancel_world w authority nonce
  | MigrateInboundAuthorityI a a' => gate_world w (migrate_authority (w_gate w) a a')
  | AcceptInboundAuthorityI a => gate_world w (accept_authority (w_gate w) a)
  | MigrateGovAuthorityI a a' => config_world w (migrate_gov (w_config w) a a')
  | AcceptGovAuthorityI a => config_world w (accept_gov (w_config w) a)
  | SetGuardianI a g => config_world w (set_guardian (w_config w) a g)
  | RebindFeedsI a args => price_world w (rebind_feeds clk (w_config w) a m (w_oracle w) args)
  | SetOracleProgramIdsI a p q s => config_world w (set_program_ids (w_config w) a p q s)
  | InitCeilingLineI a line gap ttl =>
      _ ← constraint (bool_decide (w_line w = None));
      line_world w (init_line clk (w_config w) a m line gap ttl)
  | SetCeilingLineI a line gap ttl =>
      dl ← load_line w; line_world w (set_line clk (w_config w) a m dl line gap ttl)
  | BumpCeilingI => dl ← load_line w; line_world w (bump_line clk m dl)
  | InitBackstopI a vault =>
      _ ← constraint (bool_decide (w_backstop w = None));
      _ ← new_reserve_vault l vault;
      b ← init_backstop (w_config w) a vault; Ok (w <| w_backstop := Some b |>)
  | FundBackstopI funder ata amount =>
      b ← load_backstop w; reserve_world w (fund_backstop funder ata b l amount)
  | WithdrawBackstopI a recipient amount =>
      b ← load_backstop w; reserve_world w (withdraw_excess (w_gate w) a recipient b l amount)
  | QueueGlobalI a param value => queue_global_world clk w a param value
  | ExecuteGlobalI nonce => execute_global_world clk w nonce
  | CancelGlobalI a nonce => cancel_global_world w a nonce
  | InitReactorPoolI a fusd_vault coll_vault grid_key =>
      _ ← new_vault l fusd_vault fusd_mint (reactor_pda (collateral_mint m));
      _ ← new_vault l coll_vault (collateral_mint m) (reactor_pda (collateral_mint m));
      '(m, pool, grid) ← init_reactor_pool (w_config w) a m fusd_vault coll_vault grid_key;
      Ok (w <| w_market := m |> <| w_pool := pool |> <| w_grid := grid |>
            <| w_created := (w_created w) <| has_pool := true |> |>)
  | InitInsuranceBufferI a fusd_vault =>
      _ ← new_vault l fusd_vault fusd_mint (buffer_pda (collateral_mint m));
      '(m, buffer) ← init_insurance_buffer (w_config w) a m fusd_vault;
      Ok (w <| w_market := m |> <| w_buffer := buffer |>
            <| w_created := (w_created w) <| has_buffer := true |> |>)
  | InitMarketOracleI a collateral quote args =>
      _ ← constraint (bool_decide (mi_key collateral = collateral_mint m));
      '(oracle, ring) ← init_market_oracle (w_config w) a collateral quote args;
      Ok (w <| w_oracle := oracle |> <| w_ring := ring |>
            <| w_created := (w_created w) <| has_oracle := true |> |>)
  end.

Definition exec (clk : Clock) (i : Instr) (w : World) : result Error World :=
  _ ← constraint (loads i (w_created w));
  handle clk i w.

Lemma exec_Ok clk i w w' : exec clk i w = Ok w' -> loads i (w_created w) = true /\ handle clk i w = Ok w'.
Proof. unfold exec. intros H. bind H as ? Hl. by inv_ok Hl. Qed.

(** The signer whose authority moves tokens, and the integer argument of the instruction. *)
Definition signer (i : Instr) : option Pubkey :=
  match i with
  | OpenPositionI k _ | ClosePositionI k | DepositI k _ | WithdrawI k _ | BorrowI k _ | RepayI k _
  | AdjustRateI k _ | ClaimCollSurplusI k => Some (acc_signer k)
  | LiquidateI k _ => Some (lk_liquidator k)
  | RedeemI k _ | UrgentRedeemI k _ => Some (rk_redeemer k)
  | SettleBadDebtI a _ _ => Some a
  | FundBufferI f _ _ => Some f
  | WithdrawSurplusI k _ | SweepProtocolCollateralI k _ => Some (gk_authority k)
  | GuardianDeriskI s _ => Some s
  | DevSetPriceI a _ => Some a
  | OpenReactorDepositI o => Some o
  | ProvideToReactorI k _ | WithdrawFromReactorI k _ | ClaimReactorGainsI k => Some (dk_owner k)
  | QueueParamI a _ _ _ | CancelParamI a _ | MigrateInboundAuthorityI a _ | AcceptInboundAuthorityI a
  | MigrateGovAuthorityI a _ | AcceptGovAuthorityI a | SetGuardianI a _ | RebindFeedsI a _
  | SetOracleProgramIdsI a _ _ _ => Some a
  | InitCeilingLineI a _ _ _ | SetCeilingLineI a _ _ _ | InitBackstopI a _ | FundBackstopI a _ _
  | WithdrawBackstopI a _ _ | QueueGlobalI a _ _ | CancelGlobalI a _ | InitReactorPoolI a _ _ _
  | InitInsuranceBufferI a _ | InitMarketOracleI a _ _ _ => Some a
  | RefreshMarketI _ _ | ShutdownI | UpdatePriceI _ | SampleTwapI _ | ExecuteParamI _ _ | BumpCeilingI
  | ExecuteGlobalI _ => None
  end.

Definition arg_ok (i : Instr) : Prop :=
  match i with
  | DepositI _ n | WithdrawI _ n | BorrowI _ n | RepayI _ n | RedeemI _ n | UrgentRedeemI _ n
  | SettleBadDebtI _ _ n | FundBufferI _ _ n | WithdrawSurplusI _ n | SweepProtocolCollateralI _ n
  | ProvideToReactorI _ n | WithdrawFromReactorI _ n | QueueParamI _ _ _ n
  | FundBackstopI _ _ n | WithdrawBackstopI _ _ n | QueueGlobalI _ _ n => u64 n
  | InitCeilingLineI _ line gap _ | SetCeilingLineI _ line gap _ => u64 line /\ u64 gap
  | OpenPositionI _ r | AdjustRateI _ r => u16 r
  | DevSetPriceI _ s => u128 s
  | InitMarketOracleI _ _ _ args => u16 (oa_liq_max_divergence_bps args)
  | _ => True
  end.

(** What the runtime guarantees of any transaction: its clock is a valid time not before
    the last one, its arguments have their types, and no address of the program signs. *)
Record admissible (clk : Clock) (i : Instr) (w : World) : Prop := {
  ad_time : timestamp (unix_timestamp clk);
  ad_monotone : w_now w <= unix_timestamp clk;
  ad_args : arg_ok i;
  ad_signer a : signer i = Some a -> own_pda a = false;
}.

(** An address through which the market of [c] owns its vaults. *)
Definition market_owned (c k : Pubkey) : Prop := k = market_pda c \/ k = reactor_pda c \/ k = buffer_pda c.

(** What activity elsewhere may do to what the market [w] shares: put [dv] into its
    collateral vault and change the fUSD supply by [ds] (the other markets, users' burns).
    It takes nothing from the vaults of this market, whose addresses sign only in this
    market's instructions, it does not put changes for this market into the queue, and the
    clock and the timelock do not go back. *)
Record elsewhere (w : World) (s : Shared) (dv ds : Z) : Prop := {
  el_vault : tok_amount (sh_ledger s) (collateral_vault (w_market w))
    = tok_amount (w_ledger w) (collateral_vault (w_market w)) + dv;
  el_supply : mint_supply (sh_ledger s) fusd_mint = mint_supply (w_ledger w) fusd_mint + ds;
  el_owned a : market_owned (collateral_mint (w_market w)) (tok_owner (w_ledger w) a) ->
    tok_owner (sh_ledger s) a = tok_owner (w_ledger w) a /\ tok_mint (sh_ledger s) a = tok_mint (w_ledger w) a /\
    tok_amount (w_ledger w) a <= tok_amount (sh_ledger s) a;
  el_time : w_now w <= sh_now s;
  el_timelock : timelock_secs (sh_gate s) = timelock_secs (w_gate w);
  el_queue n op : sh_queue s !! n = Some op -> w_queue w !! n = Some op \/
    (op_market op <> market_pda (collateral_mint (w_market w)) /\ u64 (op_value op));
}.

(** [run w donated outside w']: from [w], instructions and activity elsewhere lead to [w'];
    what came from elsewhere put [donated] into the collateral vault and changed the fUSD
    supply by [outside]. *)
Inductive run : World -> Z -> Z -> World -> Prop :=
  | run_refl w : run w 0 0 w
  | run_instr w d o w1 clk i w2 : run w d o w1 -> admissible clk i w1 -> exec clk i w1 = Ok w2 ->
      run w d o (w2 <| w_now := unix_timestamp clk |>)
  | run_outside w d o w1 s dv ds : run w d o w1 -> elsewhere w1 s dv ds ->
      run w (d + dv) (o + ds) (with_shared w1 s).

(** A market as [init_market] leaves it. Operations already in the queue are for other
    markets: one for this market needs its account. *)
Record genesis (w : World) : Prop := {
  gn_market : exists clk a mint args,
    init_market clk (w_config w) a mint (collateral_vault (w_market w)) args = Ok (w_market w, w_bitmap w) /\
    timestamp (unix_timestamp clk) /\ unix_timestamp clk = w_now w /\
    Forall u16 [ia_mcr_bps args; ia_liq_gas_comp_bps args; ia_liq_bonus_bps args; ia_bucket_width_bps args];
  gn_created : w_created w = mkCreated false false false;
  gn_queue : map_Forall (fun _ op => op_market op <> market_pda (collateral_mint (w_market w)) /\
    u64 (op_value op)) (w_queue w);
  gn_timelock : 0 <= timelock_secs (w_gate w);
  gn_empty : w_positions w = ∅ /\ w_deposits w = ∅ /\ w_line w = None;
  gn_vault : tok_owner (w_ledger w) (collateral_vault (w_market w))
    = market_pda (collateral_mint (w_market w)) /\
    tok_mint (w_ledger w) (collateral_vault (w_market w)) = collateral_mint (w_market w) /\
    tok_amount (w_ledger w) (collateral_vault (w_market w)) = 0;
  gn_mint : collateral_mint (w_market w) <> fusd_mint;
}.

End system.
