(* ===== verification/Events.v ===== *)
(** * The event stream ([programs/fusd-core/src/events.rs])

    The events of the program, one constructor per struct of the source with its fields in
    order, and what each instruction emits. An instruction emits from its own local values:
    [emits] recomputes them from the state before, with the definitions the handler itself
    is made of, and reads the rest from the state after. *)

From S2P Require Import Prelude MachineInt FixedPoint Interest RateBucket Redistribution.
From S2P Require Import ReactorMath Recovery SupplyTransition Cdp State Token AccountBytes Accrual Bucket PositionOps.
From S2P Require Import Reactor Liquidate Redeem MarketOps ReactorOps Init Oracle Twap.
From S2P Require Import Governance CeilingLine Backstop SupplyRecon OracleAdmin UpdatePrice System.

Open Scope Z_scope.

(** The tags of [PositionUpdated] and [ReactorDepositUpdated]. *)
Abbreviation POSITION_OP_OPEN := 0.
Abbreviation POSITION_OP_DEPOSIT := 1.
Abbreviation POSITION_OP_WITHDRAW := 2.
Abbreviation POSITION_OP_BORROW := 3.
Abbreviation POSITION_OP_REPAY := 4.
Abbreviation POSITION_OP_ADJUST_RATE := 5.
Abbreviation POSITION_OP_CLOSE := 6.
Abbreviation REACTOR_OP_PROVIDE := 0.
Abbreviation REACTOR_OP_WITHDRAW := 1.
Abbreviation REACTOR_OP_CLAIM := 2.

(** Markets, positions and the pool. *)
Inductive MarketEvent :=
  | ProtocolInitialized (gov_authority guardian fusd_mint : Pubkey)
  | MarketInitialized (collateral_mint : Pubkey) (mcr_bps debt_ceiling bucket_width_bps liq_bonus_bps : Z)
  | PositionUpdated (collateral_mint owner : Pubkey) (op amount ink recorded_debt user_rate_bps bucket : Z)
  | LiquidationEvent (collateral_mint position owner liquidator : Pubkey)
      (debt seized_collateral gas_comp coll_surplus reactor_offset redistributed buffer_absorbed
       backstop_absorbed unhomed spot : Z)
  | BadDebtEvent (collateral_mint position : Pubkey) (amount total_bad_debt : Z)
  | ShutdownEvent (collateral_mint : Pubkey) (reason : Z)
  | RedemptionEvent (collateral_mint redeemer : Pubkey)
      (fusd_burned collateral_paid fee_collateral bucket candidates : Z)
  | UrgentRedemptionEvent (collateral_mint redeemer : Pubkey) (fusd_burned collateral_paid : Z)
  | ReactorDepositUpdated (collateral_mint owner : Pubkey) (op fusd_amount collateral_paid deposited_fusd : Z)
  | CollSurplusClaimed (collateral_mint owner : Pubkey) (amount : Z)
  | InterestMinted (collateral_mint : Pubkey)
      (amount to_buffer to_backstop to_bad_debt_paydown keeper_cut unminted_remaining : Z)
  | BufferFunded (collateral_mint funder : Pubkey) (amount total_funded : Z).

(** The oracle and the mint's metadata. *)
Inductive OracleEvent :=
  | PriceCommitted (collateral_mint : Pubkey) (spot slot : Z) (mint_frozen fresh plausible : bool)
  | OracleProgramIdsUpdated (old_pyth new_pyth old_pyth_alt new_pyth_alt old_switchboard new_switchboard : Pubkey)
  | OracleFeedsRebound (collateral_mint : Pubkey) (pyth_feed_id : Z) (switchboard_feed orca_pool raydium_pool : Pubkey)
  | FusdMetadataCreated (metadata update_authority : Pubkey) (name symbol uri : list Z)
  | TwapSampled (collateral_mint : Pubkey) (usd_ray ts : Z).

(** Governance, the guardian, the backstop and the protocol's collateral. *)
Inductive GovernanceEvent :=
  | ParamChangeQueued (market : Pubkey) (nonce : Z) (param : MarketParam.t) (value eta : Z)
  | ParamChangeExecuted (market : Pubkey) (nonce : Z) (param : MarketParam.t) (prev_value value : Z)
  | ParamChangeCanceled (nonce : Z)
  | BackstopInitialized (fusd_vault : Pubkey)
  | BackstopFunded (funder : Pubkey) (amount total_contributed : Z)
  | BackstopWithdrawn (recipient : Pubkey) (amount total_withdrawn : Z)
  | BackstopDrawn (collateral_mint : Pubkey) (amount total_absorbed : Z)
  | GlobalParamChangeQueued (nonce : Z) (param : GlobalParam.t) (value eta : Z)
  | GlobalParamChangeExecuted (nonce : Z) (param : GlobalParam.t) (prev_value value : Z)
  | GlobalParamChangeCanceled (nonce : Z)
  | InboundAuthorityProposed (current pending : Pubkey)
  | InboundAuthorityMigrated (previous new_authority : Pubkey)
  | GovAuthorityProposed (current pending : Pubkey)
  | GovAuthorityMigrated (previous new_authority : Pubkey)
  | McrRaiseGraceArmed (collateral_mint : Pubkey) (old_mcr_bps new_mcr_bps grace_until_slot : Z)
  | GuardianDerisked (collateral_mint guardian : Pubkey) (paused_until : Z)
  | GuardianRotated (previous new_guardian : Pubkey)
  | SurplusWithdrawn (collateral_mint recipient : Pubkey) (amount surplus_remaining : Z)
  | ProtocolCollateralSwept (collateral_mint recipient : Pubkey) (amount protocol_collateral_remaining bad_debt : Z)
  | BadDebtSettled (collateral_mint : Pubkey) (amount bad_debt_remaining : Z)
  | SupplyReconciled (market_count mint_supply backing residual : Z)
  | DebtCeilingLineBumped (collateral_mint : Pubkey) (debt_ceiling line gap ttl agg_recorded_debt : Z).

Inductive Event :=
  | OfMarket (e : MarketEvent)
  | OfOracle (e : OracleEvent)
  | OfGovernance (e : GovernanceEvent).

Section emission.
Context {U : U256} {R : Runtime} {K : OracleSdk}.

(** The seven call sites of [PositionUpdated] report the position as it is. *)
Definition position_updated (c : Pubkey) (op amount : Z) (p : Position) : Event :=
  OfMarket (PositionUpdated c (owner p) op amount (ink p) (recorded_debt p) (user_rate_bps p) (bucket p)).

(** [repay]: nothing when there is no debt to repay. *)
Definition repay_events (clk : Clock) (t : Touch) (c amount : Z) (p' : Position) : result Error (list Event) :=
  m ← accrue (t_market t) (unix_timestamp clk);
  p ← realize m (t_position t) (unix_timestamp clk);
  let current_debt := recorded_debt p in
  if current_debt =? 0 then Ok []
  else
    d ← math (supply_repay (agg_recorded_debt m) current_debt amount);
    let repay_amount := as_u64 (rd_burn d) in
    Ok [position_updated c POSITION_OP_REPAY repay_amount p'].

(** What the tiers after the pool announce; [bs'] is the reserve after the draw. *)
Definition tier_events (c position : Pubkey) (m : Market) (split : Absorption) (new_bad : Z)
    (bs' : option GlobalBackstopReserve) : list Event :=
  if 0 <? ab_redist split then []
  else
    (if 0 <? ab_global split then
       [OfGovernance (BackstopDrawn c (ab_global split) (from_option bs_total_absorbed 0 bs'))]
     else []) ++
    (if 0 <? ab_unhomed split then
       let reason := if shutdown_reason m =? SHUTDOWN_REASON_NONE then SHUTDOWN_REASON_UNHOMED_BAD_DEBT
                     else shutdown_reason m in
       (if negb (shutdown m) then [OfMarket (ShutdownEvent c reason)] else []) ++
       [OfMarket (BadDebtEvent c position (ab_unhomed split) new_bad)]
     else []).

Definition liquidate_events (clk : Clock) (k : LiqAccounts) (x : Liq) (bs' : option GlobalBackstopReserve)
    : result Error (list Event) :=
  let c := collateral_mint (lq_market x) in
  m ← accrue (lq_market x) (unix_timestamp clk);
  p ← realize m (lq_position x) (unix_timestamp clk);
  let debt := recorded_debt p in
  let liq_spot := debt_spot m in
  '(seize_coll, surplus_coll) ← math (seize_collateral (ink p) debt liq_spot (liq_bonus_bps m));
  '(m, p, _) ← liq_remove_victim m p;
  gas ← math (checked_mul128 seize_coll (liq_gas_comp_bps m));
  let gas_comp := gas / 10000 in
  global_available ← liq_global_available k m (lq_backstop x) (lq_ledger x);
  let split := absorb debt (rp_total_deposits (lq_pool x)) (0 <? total_stakes m)
                 (tok_amount (lq_ledger x) (ib_fusd_vault (lq_buffer x))) global_available in
  sd ← math (supply_liquidate (agg_recorded_debt m) (bad_debt m) (ab_reactor split) (ab_redist split)
               (ab_buffer split) (ab_global split) (ab_unhomed split));
  Ok (tier_events c (lk_position k) m split (ld_new_bad sd) bs' ++
      [OfMarket (LiquidationEvent c (lk_position k) (owner p) (lk_liquidator k) debt seize_coll
         (as_u64 gas_comp) surplus_coll (ab_reactor split) (ab_redist split) (ab_buffer split)
         (ab_global split) (ab_unhomed split) liq_spot)]).

(** [redeem]: the totals of the batch. *)
Definition redeem_events (clk : Clock) (k : RedeemAccounts) (x : Redemption) (amount : Z)
    : result Error (list Event) :=
  let now := unix_timestamp clk in
  m ← accrue (rd_market x) now;
  mid ← mid_price m;
  let total_debt_before := agg_recorded_debt m in
  let decayed := decayed_base_rate now m in
  let lowest_normal := first_set (words (rd_bitmap x)) in
  s ← validate now lowest_normal (rd_others x) (mkScan m (rd_positions x) [] []) (rk_candidates k);
  let order := sort_by_ratio (sc_order s) in
  d ← redeem_loop mid (mkDrain (sc_market s) (sc_positions s) (rd_bitmap x) amount 0) ((fun e => e.1.1) <$> order);
  redeemed ← no_panic (checked_sub128 amount (dr_remaining d));
  let '(_, fee_bps) := redeem_fee now (dr_market d) decayed redeemed total_debt_before in
  fee ← math (checked_mul128 (dr_drawn d) fee_bps);
  let fee_coll := fee / 10000 in
  paid ← no_panic (checked_sub128 (dr_drawn d) fee_coll);
  Ok [OfMarket (RedemptionEvent (collateral_mint (rd_market x)) (rk_redeemer k) (as_u64 redeemed)
        (as_u64 paid) (as_u64 fee_coll) (as_u16 (default ZOMBIE_BUCKET lowest_normal))
        (Z.of_nat (length order) mod 256))].

Definition urgent_events (clk : Clock) (k : RedeemAccounts) (x : Redemption) (amount : Z)
    : result Error (list Event) :=
  let now := unix_timestamp clk in
  m ← accrue (rd_market x) now;
  mid ← mid_price m;
  w ← urgent_loop now mid (rd_others x)
        (mkWind (mkDrain m (rd_positions x) (rd_bitmap x) amount 0) []) (rk_candidates k);
  redeemed ← no_panic (checked_sub128 amount (dr_remaining (wd_drain w)));
  Ok [OfMarket (UrgentRedemptionEvent (collateral_mint (rd_market x)) (rk_redeemer k) (as_u64 redeemed)
        (as_u64 (dr_drawn (wd_drain w))))].

(** [refresh_market]: nothing when no interest is pending. *)
Definition refresh_events (clk : Clock) (k : RefreshAccounts) (x : Refresh) : result Error (list Event) :=
  m ← accrue (rf_market x) (unix_timestamp clk);
  let pending := unminted_interest m in
  if pending =? 0 then Ok []
  else
    let keeper_bps := match fk_cranker_ata k with Some _ => keeper_reward_bps m | None => 0 end in
    '(cut_bps, headroom) ← refresh_backstop (rf_backstop x) (fk_backstop_vault k) (rf_ledger x);
    d ← math (supply_refresh pending (bad_debt m) keeper_bps (bad_debt_paydown_bps m) cut_bps headroom);
    Ok [OfMarket (InterestMinted (collateral_mint m) (as_u64 (rf_amount d)) (as_u64 (rf_buffer_amount d))
          (as_u64 (rf_backstop_cut d)) (as_u64 (rf_paydown d)) (as_u64 (rf_keeper_cut d)) (rf_new_unminted d))].

Definition shutdown_events (clk : Clock) (m : Market) : result Error (list Event) :=
  m ← accrue m (unix_timestamp clk);
  let reason := if oracle_failed clk m then SHUTDOWN_REASON_ORACLE_FAILURE else SHUTDOWN_REASON_SCR in
  Ok [OfMarket (ShutdownEvent (collateral_mint m) reason)].

(** [withdraw_from_reactor], [claim_reactor_gains] *)
Definition withdraw_reactor_events (c : Pubkey) (k : DepositAccounts) (grid : list Z) (x : Depositing)
    (amount : Z) (dep' : ReactorDeposit) : result Error (list Event) :=
  '(_, compounded) ← realize_and_snapshot (dp_pool x) grid (dp_deposit x);
  let withdraw_amt := as_u64 (Z.min amount compounded) in
  Ok [OfMarket (ReactorDepositUpdated c (dk_owner k) REACTOR_OP_WITHDRAW withdraw_amt 0 (deposited_fusd dep'))].

Definition claim_reactor_events (c : Pubkey) (k : DepositAccounts) (grid : list Z) (x : Depositing)
    (dep' : ReactorDeposit) : result Error (list Event) :=
  '(dep, _) ← realize_and_snapshot (dp_pool x) grid (dp_deposit x);
  Ok [OfMarket (ReactorDepositUpdated c (dk_owner k) REACTOR_OP_CLAIM 0 (pending_collateral_gain dep)
        (deposited_fusd dep'))].

(** [update_price]: the aggregate it committed or withheld, none when the pool rate that is
    the price is missing. *)
Definition price_result (clk : Clock) (cfg : ProtocolConfig) (k : PriceAccounts) (m : Market)
    (o : MarketOracle) (ring : ObservationRing) : result Error (option OracleResult) :=
  let now := unix_timestamp clk in
  let pyth_id := pyth_receiver_program_id cfg in
  let pyth_alt := pyth_receiver_program_id_alt cfg in
  pyth_pv ← parse_pyth (pk_pyth k) (pyth_feed_id o) pyth_id pyth_alt;
  sb_pv ← (match pk_switchboard k with
           | Some sb => parse_switchboard sb (switchboard_feed o) (switchboard_program_id cfg)
           | None => Ok None
           end);
  views ← compose_views clk k m o pyth_pv sb_pv;
  match views with
  | None => Ok None
  | Some (_, pyth_pv, sb_pv) =>
      let twap := twap ring now (twap_window_secs o)
                    (mkTwapConfig (twap_min_samples o) (twap_max_staleness_secs o)) in
      canonical ← (if (canonical_primary o =? 0) && negb (lst_stake_pool o =? 0)
                   then compute_canonical (pk_sol_usd k) (pk_stake_pool k) (lst_stake_pool o)
                          (collateral_mint m) pyth_id pyth_alt now (max_age_secs o) (epoch clk)
                   else Ok None);
      Ok (Some (aggregate pyth_pv sb_pv twap canonical now (oracle_config o)))
  end.

Definition price_events (clk : Clock) (cfg : ProtocolConfig) (k : PriceAccounts) (m : Market)
    (o : MarketOracle) (ring : ObservationRing) (m' : Market) : result Error (list Event) :=
  r ← price_result clk cfg k m o ring;
  Ok [OfOracle (match r with
                | None => PriceCommitted (collateral_mint m) (spot m') (slot clk) true false true
                | Some r => PriceCommitted (collateral_mint m) (spot m') (slot clk) (mint_frozen m')
                              (or_fresh r) (or_plausible r)
                end)].

Definition sample_events (clk : Clock) (c : Pubkey) (o : MarketOracle) (pool : AccountInfo)
    : result Error (list Event) :=
  let bad := FusdError.InvalidClmmPool in
  '(venue, _) ← fail_with (pool_venue o (ai_key pool)) bad;
  sample ← map_err (fun _ => Fusd bad) (clmm_parse venue (ai_data pool));
  usd_ray ← pool_price o sample;
  Ok [OfOracle (TwapSampled c usd_ray (unix_timestamp clk))].

(** [execute_param_change]: a raise of the minimum ratio announces the grace it arms. *)
Definition execute_events (clk : Clock) (op : TimelockedParam) (m : Market) (oracle : option MarketOracle)
    : list Event :=
  let armed := arm_mcr_grace clk m (op_param op) (op_value op) in
  (if bool_decide (op_param op = MarketParam.Mcr) && (mcr_bps m <? as_u16 (op_value op)) then
     [OfGovernance (McrRaiseGraceArmed (collateral_mint m) (mcr_bps m) (as_u16 (op_value op)) (liq_grace_until armed))]
   else []) ++
  [OfGovernance (ParamChangeExecuted (market_pda (collateral_mint m)) (op_nonce op) (op_param op)
     (current_param armed oracle (op_param op)) (op_value op))].

Definition line_events (c : Pubkey) (line gap ttl : Z) (m' : Market) : list Event :=
  [OfGovernance (DebtCeilingLineBumped c (debt_ceiling m') line gap ttl (agg_recorded_debt m'))].

(** What the instruction [i] emits as it takes [w] to [w']. Creating an account of a market
    emits nothing, and neither does [dev_set_price]. *)
Definition emits (clk : Clock) (i : Instr) (w w' : World) : result Error (list Event) :=
  let m := w_market w in let m' := w_market w' in
  let c := collateral_mint m in
  let g := w_gate w in let cfg := w_config w in let cfg' := w_config w' in
  let touched op key amount := p' ← load_position w' key; Ok [position_updated c op amount p'] in
  match i with
  | OpenPositionI k rate => Ok [OfMarket (PositionUpdated c (acc_signer k) POSITION_OP_OPEN 0 0 0 rate 0)]
  | ClosePositionI k => p ← load_position w (acc_position k); Ok [position_updated c POSITION_OP_CLOSE 0 p]
  | DepositI k amount => touched POSITION_OP_DEPOSIT (acc_position k) amount
  | WithdrawI k amount => touched POSITION_OP_WITHDRAW (acc_position k) amount
  | BorrowI k amount => touched POSITION_OP_BORROW (acc_position k) amount
  | RepayI k amount =>
      p ← load_position w (acc_position k);
      p' ← load_position w' (acc_position k);
      repay_events clk (mkTouch m p (w_bitmap w) (w_ledger w)) c amount p'
  | AdjustRateI k rate => touched POSITION_OP_ADJUST_RATE (acc_position k) rate
  | ClaimCollSurplusI k =>
      p ← load_position w (acc_position k);
      Ok [OfMarket (CollSurplusClaimed c (acc_signer k) (coll_surplus p))]
  | LiquidateI k b =>
      p ← load_position w (lk_position k);
      liquidate_events clk k (mkLiq m p (w_pool w) (w_grid w) (w_bitmap w) (w_buffer w)
        (if b then w_backstop w else None) (w_ledger w)) (w_backstop w')
  | RedeemI k amount =>
      redeem_events clk k (mkRedemption m (w_positions w) (w_others w) (w_bitmap w) (w_ledger w)) amount
  | UrgentRedeemI k amount =>
      urgent_events clk k (mkRedemption m (w_positions w) (w_others w) (w_bitmap w) (w_ledger w)) amount
  | RefreshMarketI k b =>
      refresh_events clk k (mkRefresh m (w_buffer w) (if b then w_backstop w else None) (w_ledger w))
  | SettleBadDebtI _ _ amount => Ok [OfGovernance (BadDebtSettled c amount (bad_debt m'))]
  | ShutdownI => shutdown_events clk m
  | FundBufferI funder _ amount =>
      Ok [OfMarket (BufferFunded c funder amount (ib_total_funded (w_buffer w')))]
  | WithdrawSurplusI k amount =>
      Ok [OfGovernance (SurplusWithdrawn c (gk_recipient k) amount (surplus_collateral m'))]
  | SweepProtocolCollateralI k amount =>
      Ok [OfGovernance (ProtocolCollateralSwept c (gk_recipient k) amount (protocol_collateral m') (bad_debt m'))]
  | GuardianDeriskI signer _ => Ok [OfGovernance (GuardianDerisked c signer (guardian_paused_until m'))]
  | ProvideToReactorI k amount =>
      dep' ← ok_or (w_deposits w' !! dk_owner k) ConstraintViolated;
      Ok [OfMarket (ReactorDepositUpdated c (dk_owner k) REACTOR_OP_PROVIDE amount 0 (deposited_fusd dep'))]
  | WithdrawFromReactorI k amount =>
      dep ← ok_or (w_deposits w !! dk_owner k) ConstraintViolated;
      dep' ← ok_or (w_deposits w' !! dk_owner k) ConstraintViolated;
      withdraw_reactor_events c k (w_grid w) (mkDepositing (w_pool w) dep (w_ledger w)) amount dep'
  | ClaimReactorGainsI k =>
      dep ← ok_or (w_deposits w !! dk_owner k) ConstraintViolated;
      dep' ← ok_or (w_deposits w' !! dk_owner k) ConstraintViolated;
      claim_reactor_events c k (w_grid w) (mkDepositing (w_pool w) dep (w_ledger w)) dep'
  | UpdatePriceI k => price_events clk cfg k m (w_oracle w) (w_ring w) m'
  | SampleTwapI pool => sample_events clk c (w_oracle w) pool
  | QueueParamI _ _ param value =>
      op ← ok_or (w_queue w' !! queue_nonce g) ConstraintViolated;
      Ok [OfGovernance (ParamChangeQueued (market_pda c) (queue_nonce g) param value (op_eta op))]
  | ExecuteParamI nonce b =>
      op ← ok_or (w_queue w !! nonce) ConstraintViolated; Ok (execute_events clk op m (oracle_account w b))
  | CancelParamI _ nonce =>
      op ← ok_or (w_queue w !! nonce) ConstraintViolated; Ok [OfGovernance (ParamChangeCanceled (op_nonce op))]
  | MigrateInboundAuthorityI _ a => Ok [OfGovernance (InboundAuthorityProposed (inbound_authority (w_gate w')) a)]
  | AcceptInboundAuthorityI _ =>
      Ok [OfGovernance (InboundAuthorityMigrated (inbound_authority g) (inbound_authority (w_gate w')))]
  | MigrateGovAuthorityI _ a => Ok [OfGovernance (GovAuthorityProposed (gov_authority cfg') a)]
  | AcceptGovAuthorityI _ => Ok [OfGovernance (GovAuthorityMigrated (gov_authority cfg) (gov_authority cfg'))]
  | SetGuardianI _ new_guardian => Ok [OfGovernance (GuardianRotated (guardian cfg) new_guardian)]
  | RebindFeedsI _ args =>
      Ok [OfOracle (OracleFeedsRebound c (rb_pyth_feed_id args) (rb_switchboard_feed args) (rb_orca_pool args)
            (rb_raydium_pool args))]
  | SetOracleProgramIdsI _ _ _ _ =>
      Ok [OfOracle (OracleProgramIdsUpdated
            (pyth_receiver_program_id cfg) (pyth_receiver_program_id cfg')
            (pyth_receiver_program_id_alt cfg) (pyth_receiver_program_id_alt cfg')
            (switchboard_program_id cfg) (switchboard_program_id cfg'))]
  | InitCeilingLineI _ line gap ttl | SetCeilingLineI _ line gap ttl => Ok (line_events c line gap ttl m')
  | BumpCeilingI => dl ← load_line w; Ok (line_events c (line dl) (gap dl) (ttl dl) m')
  | InitBackstopI _ vault => Ok [OfGovernance (BackstopInitialized vault)]
  | FundBackstopI funder _ amount =>
      b' ← load_backstop w'; Ok [OfGovernance (BackstopFunded funder amount (bs_total_contributed b'))]
  | WithdrawBackstopI _ recipient amount =>
      b' ← load_backstop w'; Ok [OfGovernance (BackstopWithdrawn recipient amount (bs_total_withdrawn b'))]
  | QueueGlobalI _ param value =>
      op ← ok_or (w_gqueue w' !! queue_nonce g) ConstraintViolated;
      Ok [OfGovernance (GlobalParamChangeQueued (queue_nonce g) param value (gop_eta op))]
  | ExecuteGlobalI nonce =>
      op ← ok_or (w_gqueue w !! nonce) ConstraintViolated;
      b ← load_backstop w;
      Ok [OfGovernance (GlobalParamChangeExecuted (gop_nonce op) (gop_param op)
            (current_global_param b (gop_param op)) (gop_value op))]
  | CancelGlobalI _ nonce =>
      op ← ok_or (w_gqueue w !! nonce) ConstraintViolated; Ok [OfGovernance (GlobalParamChangeCanceled (gop_nonce op))]
  | DevSetPriceI _ _ | OpenReactorDepositI _ | InitReactorPoolI _ _ _ _ | InitInsuranceBufferI _ _
  | InitMarketOracleI _ _ _ _ => Ok []
  end.

(** The instructions outside a market. *)
Definition init_protocol_event (args : InitProtocolArgs) : Event :=
  OfMarket (ProtocolInitialized (pa_gov_authority args) (pa_guardian args) fusd_mint).

Definition init_market_event (m : Market) (args : InitMarketArgs) : Event :=
  OfMarket (MarketInitialized (collateral_mint m) (ia_mcr_bps args) (ia_debt_ceiling args)
    (ia_bucket_width_bps args) (ia_liq_bonus_bps args)).

Definition metadata_event (metadata authority : Pubkey) (name symbol uri : list Z) : Event :=
  OfOracle (FusdMetadataCreated metadata authority name symbol uri).

Definition reconcile_event (accounts : list MarketInfo) (r : SupplyReconciliation) : Event :=
  OfGovernance (SupplyReconciled (Z.of_nat (length accounts) mod 4294967296) (last_mint_supply r)
    (last_backing r) (last_residual r)).

End emission.
