(* ===== verification/Frames.v ===== *)
(** * What only governance may change

    A frame for the whole program: an instruction other than the execution of a queued
    parameter change or a step of the ceiling's auto-line leaves every governed parameter
    alone, never shortens the liquidation grace, never reopens a market that is shut down
    and keeps the market's collateral and its record of the accounts liquidation needs. The
    handlers are walked with a small Hoare logic over successful results. *)

From S2P Require Import Prelude MachineInt FixedPoint Interest RateBucket Redistribution.
From S2P Require Import ReactorMath SupplyTransition Cdp State Token Accrual Bucket PositionOps.
From S2P Require Import Reactor Liquidate Redeem MarketOps ReactorOps Init OracleScale Oracle Twap.
From S2P Require Import Governance OracleAdmin UpdatePrice System.

Open Scope Z_scope.

(** ** Postconditions of a successful run *)

Definition post {E A} (P : A -> Prop) (r : result E A) : Prop := forall a, r = Ok a -> P a.

Lemma post_bind {E A B} (Q : A -> Prop) (P : B -> Prop) (r : result E A) (f : A -> result E B) :
  post Q r -> (forall a, Q a -> post P (f a)) -> post P (r ≫= f).
Proof. intros Hr Hf b H. apply bind_Ok in H as (a & Ha & H). eapply Hf; [by apply Hr|exact H]. Qed.

Lemma post_any {E A B} (P : B -> Prop) (r : result E A) (f : A -> result E B) :
  (forall a, post P (f a)) -> post P (r ≫= f).
Proof. intros Hf b H. apply bind_Ok in H as (a & Ha & H). by eapply Hf. Qed.

Lemma post_ok {E A} (P : A -> Prop) (a : A) : P a -> post P (Ok a : result E A).
Proof. intros Ha b [= <-]. exact Ha. Qed.

Lemma post_err {E A} (P : A -> Prop) (e : E) : post P (Err e : result E A).
Proof. by intros b H. Qed.

(** ** The frame *)

Record steady (m m' : Market) : Prop := {
  st_params o p : current_param m' o p = current_param m o p;
  st_grace : liq_grace_until m <= liq_grace_until m';
  st_shutdown : shutdown m = true -> shutdown m' = true;
  st_mint : collateral_mint m' = collateral_mint m;
  st_infra : liq_infra_flags m' = liq_infra_flags m;
}.

#[export] Instance steady_preorder : PreOrder steady.
Proof.
  split.
  - intros m. by split.
  - intros m1 m2 m3 [] []. split; [congruence|lia|auto|congruence|congruence].
Qed.

Create HintDb frames.

(** One update of a field outside the frame, or upwards. *)
Ltac steady_field := split; [intros ? []; reflexivity|cbn; lia|by cbn|reflexivity|reflexivity].

(** The market component of an updated liquidation state. *)
Ltac read_market :=
  repeat match goal with
  | |- context [lq_market (update lq_market ?m ?x)] => change (lq_market (update lq_market m x)) with m
  | |- context [lq_market (update ?f ?v ?x)] => change (lq_market (update f v x)) with (lq_market x)
  | H : context [lq_market (update lq_market ?m ?x)] |- _ => change (lq_market (update lq_market m x)) with m in H
  | H : context [lq_market (update ?f ?v ?x)] |- _ => change (lq_market (update f v x)) with (lq_market x) in H
  end.

Ltac steady_chain :=
  read_market; repeat
    first
      [ reflexivity | eassumption
      | progress cbn [t_market lq_market rd_market rf_market dr_market sc_market wd_drain fst snd]
      | match goal with
        | H : steady ?a ?b |- steady _ ?b => transitivity a; [|exact H]
        | |- steady _ (update _ _ ?m) => transitivity m; [|steady_field]
        | |- steady _ (if ?b then _ else _) => destruct b
        | |- steady _ (liq_unhomed ?m _) => transitivity m; [|solve [auto with frames nocore]]
        end ].

(** Walk a handler: known steps from the database, the others for any result; [chain] closes
    the leaves. *)
Ltac walk_with chain :=
  cbv beta zeta;
  lazymatch goal with
  | |- post _ (Ok _) => apply post_ok; chain
  | |- post _ (Err _) => apply post_err
  | |- post _ (_ ≫= _) =>
      first [eapply post_bind; [solve [auto with frames nocore]|let Hx := fresh in intros ? Hx; cbv beta in Hx] | apply post_any; intros ?]; walk_with chain
  | |- post _ (let '(_, _) := ?a in _) => first [is_var a; destruct a | destruct a eqn:?]; walk_with chain
  | |- post _ (if ?b then _ else _) => destruct b; walk_with chain
  | |- post _ (match ?o with Some _ => _ | None => _ end) => destruct o; walk_with chain
  | |- _ => try solve [auto with frames nocore]
  end.
Ltac walk := walk_with ltac:(steady_chain).

Section frames.
Context {U : U256} {R : Runtime} {K : OracleSdk}.

Lemma accrue_frame m now : post (steady m) (accrue m now).
Proof. unfold accrue. walk. Qed.
Lemma reweight_frame m p w : post (steady m) (reweight m p w).
Proof. unfold reweight. walk. Qed.
Lemma set_stake_steady m p : post (fun x => steady m x.1) (redist.set_stake m p).
Proof. unfold redist.set_stake. walk. Qed.
Lemma consume_frame m now a : post (steady m) (consume_rate_limit m now a).
Proof. unfold consume_rate_limit. walk. Qed.
#[local] Hint Resolve accrue_frame reweight_frame set_stake_steady consume_frame : frames.

Lemma charge_frame clk m p r : post (fun x => steady m x.1) (charge_adjust_fee clk m p r).
Proof. unfold charge_adjust_fee. walk. Qed.
#[local] Hint Resolve charge_frame : frames.

Lemma deposit_frame clk k t a : post (fun t' => steady (t_market t) (t_market t')) (deposit clk k t a).
Proof. unfold deposit. walk. Qed.
Lemma withdraw_frame clk k t a : post (fun t' => steady (t_market t) (t_market t')) (withdraw clk k t a).
Proof. unfold withdraw. walk. Qed.
Lemma borrow_frame clk k t a : post (fun t' => steady (t_market t) (t_market t')) (borrow clk k t a).
Proof. unfold borrow. walk. Qed.
Lemma repay_frame clk k t a : post (fun t' => steady (t_market t) (t_market t')) (repay clk k t a).
Proof. unfold repay, restore_rate_limit. walk. Qed.
Lemma adjust_frame clk k t r : post (fun t' => steady (t_market t) (t_market t')) (adjust_rate clk k t r).
Proof. unfold adjust_rate. walk. Qed.
Lemma claim_surplus_frame k m p l : post (fun x => steady m x.1.1) (claim_coll_surplus k m p l).
Proof. unfold claim_coll_surplus. walk. Qed.

(** ** Liquidation *)

Lemma remove_victim_frame m p : post (fun x => steady m x.1.1) (liq_remove_victim m p).
Proof. unfold liq_remove_victim. walk. Qed.
Lemma reactor_frame x a c : post (fun x' => steady (lq_market x) (lq_market x')) (liq_reactor x a c).
Proof. unfold liq_reactor. walk. Qed.
Lemma redistribute_frame m d c : post (steady m) (liq_redistribute m d c).
Proof. unfold liq_redistribute, redist.write_state. walk. Qed.
Lemma buffer_frame x a : post (fun x' => steady (lq_market x) (lq_market x')) (liq_buffer x a).
Proof. unfold liq_buffer. walk. Qed.
Lemma backstop_frame k x a : post (fun x' => steady (lq_market x) (lq_market x')) (liq_backstop k x a).
Proof. unfold liq_backstop. walk. Qed.
Lemma unhomed_frame m a : steady m (liq_unhomed m a).
Proof. unfold liq_unhomed. cbv zeta. steady_chain. Qed.
#[local] Hint Resolve unhomed_frame remove_victim_frame reactor_frame redistribute_frame buffer_frame backstop_frame : frames.

Lemma remainder_frame k x a c : post (fun x' => steady (lq_market x) (lq_market x')) (liq_remainder k x a c).
Proof. unfold liq_remainder. walk. Qed.
#[local] Hint Resolve remainder_frame : frames.

Lemma liquidate_frame clk k x : post (fun x' => steady (lq_market x) (lq_market x')) (liquidate clk k x).
Proof. unfold liquidate, liq_snapshots. walk. Qed.

(** ** Redemption *)

Lemma validate_one_frame now ln o s key :
  post (fun s' => steady (sc_market s) (sc_market s')) (validate_one now ln o s key).
Proof. unfold validate_one. walk. Qed.
#[local] Hint Resolve validate_one_frame : frames.

Lemma validate_frame now ln o keys : forall s,
  post (fun s' => steady (sc_market s) (sc_market s')) (validate now ln o s keys).
Proof.
  induction keys as [|key keys IH]; intros s; cbn [validate]; walk.
  intros s' Hs. etransitivity; [eassumption|by apply IH].
Qed.

Lemma redeem_apply_frame m p bm r c w b : post (fun x => steady m x.1.1.1) (redeem_apply m p bm r c w b).
Proof. unfold redeem_apply. walk. Qed.
#[local] Hint Resolve validate_frame redeem_apply_frame : frames.

Lemma redeem_one_frame mid s key : post (fun s' => steady (dr_market s) (dr_market s')) (redeem_one mid s key).
Proof. unfold redeem_one. walk. Qed.
#[local] Hint Resolve redeem_one_frame : frames.

Lemma redeem_loop_frame mid keys : forall s,
  post (fun s' => steady (dr_market s) (dr_market s')) (redeem_loop mid s keys).
Proof.
  induction keys as [|key keys IH]; intros s; cbn [redeem_loop]; walk.
  intros s' Hs. etransitivity; [eassumption|by apply IH].
Qed.

Lemma redeem_fee_frame now m d r t : steady m (redeem_fee now m d r t).1.
Proof. unfold redeem_fee. cbv zeta. cbn [fst]. steady_chain. Qed.
#[local] Hint Resolve redeem_loop_frame : frames.

Lemma redeem_frame clk k x a : post (fun x' => steady (rd_market x) (rd_market x')) (redeem clk k x a).
Proof.
  unfold redeem. walk. match goal with H : redeem_fee ?n ?m ?d ?r ?t = _ |- _ =>
    pose proof (redeem_fee_frame n m d r t) as Hf; rewrite H in Hf end. steady_chain.
Qed.

Lemma urgent_one_frame now mid o w key :
  post (fun w' => steady (dr_market (wd_drain w)) (dr_market (wd_drain w'))) (urgent_one now mid o w key).
Proof. unfold urgent_one. walk. Qed.
#[local] Hint Resolve urgent_one_frame : frames.

Lemma urgent_loop_frame now mid o keys : forall w,
  post (fun w' => steady (dr_market (wd_drain w)) (dr_market (wd_drain w'))) (urgent_loop now mid o w keys).
Proof.
  induction keys as [|key keys IH]; intros w; cbn [urgent_loop]; walk.
  intros w' Hw. etransitivity; [eassumption|by apply IH].
Qed.
#[local] Hint Resolve urgent_loop_frame : frames.

Lemma urgent_frame clk k x a : post (fun x' => steady (rd_market x) (rd_market x')) (urgent_redeem clk k x a).
Proof. unfold urgent_redeem. walk. Qed.

(** ** Market instructions and the price crank *)

Lemma refresh_mint_frame k m bs l c : post (fun x => steady m x.1.1) (refresh_mint_backstop k m bs l c).
Proof. unfold refresh_mint_backstop. walk. Qed.
#[local] Hint Resolve refresh_mint_frame : frames.

Lemma refresh_frame clk k x : post (fun x' => steady (rf_market x) (rf_market x')) (refresh_market clk k x).
Proof. unfold refresh_market. walk. Qed.
Lemma settle_frame g a t m l n : post (fun x => steady m x.1) (settle_bad_debt g a t m l n).
Proof. unfold settle_bad_debt. walk. Qed.
Lemma shutdown_frame clk m : post (steady m) (shutdown_market clk m).
Proof. unfold shutdown_market. walk. Qed.
Lemma withdraw_surplus_frame g k m l n : post (fun x => steady m x.1) (withdraw_surplus g k m l n).
Proof. unfold withdraw_surplus. walk. Qed.
Lemma sweep_frame g k m l n : post (fun x => steady m x.1) (sweep_protocol_collateral g k m l n).
Proof. unfold sweep_protocol_collateral. walk. Qed.
Lemma derisk_frame clk cfg s m n : post (steady m) (guardian_derisk clk cfg s m n).
Proof. unfold guardian_derisk. walk. Qed.

Lemma commit_frame m s d sl : steady m (commit_fresh_spot m s d sl).
Proof. unfold commit_fresh_spot. cbv zeta. steady_chain. Qed.
Lemma dev_frame clk cfg a m s : post (steady m) (dev_set_price clk cfg a m s).
Proof. unfold dev_set_price. walk. apply commit_frame. Qed.

Lemma commit_rate_frame clk m o r : steady m (commit_rate clk m o r).1.
Proof. unfold commit_rate. destruct r; cbn [fst]; steady_chain. Qed.
Lemma divergence_frame clk m r : steady m (commit_divergence clk m r).
Proof. unfold commit_divergence. cbv zeta. steady_chain. Qed.
Lemma commit_price_frame clk m o r c : post (fun x => steady m x.1) (commit_price clk m o r c).
Proof.
  unfold commit_price. pose proof (divergence_frame clk m r). walk.
  etransitivity; [|apply commit_rate_frame]. etransitivity; [eassumption|apply commit_frame].
Qed.
#[local] Hint Resolve commit_price_frame : frames.

Lemma update_price_frame clk cfg k m o ring : post (fun x => steady m x.1) (update_price clk cfg k m o ring).
Proof. unfold update_price. walk. Qed.
Lemma rebind_frame clk cfg a m o args : post (fun x => steady m x.1) (rebind_feeds clk cfg a m o args).
Proof. unfold rebind_feeds. walk. Qed.

End frames.
