(* ===== verification/Confined.v ===== *)
(** * Whose tokens an instruction can take

    Every handler debits only token accounts that belong to its signer, to the addresses
    of its own market, or, through the two instructions that draw on it, to the backstop.
    The accounts of any other market are out of its reach, which is what makes markets
    independent of each other. *)

From S2P Require Import Prelude MachineInt FixedPoint Interest RateBucket Redistribution.
From S2P Require Import ReactorMath SupplyTransition Cdp State Token Accrual Bucket PositionOps.
From S2P Require Import Reactor Liquidate Redeem MarketOps ReactorOps Init OracleScale Oracle Twap.
From S2P Require Import Governance CeilingLine Backstop OracleAdmin UpdatePrice System Frames.

Open Scope Z_scope.

Section confined.
Context {R : Runtime}.

(** From [l] to [l'], only owners in [P] were debited; owners and mints stay. *)
Record confined (P : Pubkey -> Prop) (l l' : ledger) : Prop := {
  cf_owner a : tok_owner l' a = tok_owner l a;
  cf_mint a : tok_mint l' a = tok_mint l a;
  cf_amount a : ~ P (tok_owner l a) -> tok_amount l a <= tok_amount l' a;
}.

#[export] Instance confined_preorder P : PreOrder (confined P).
Proof.
  split.
  - intros l. by split.
  - intros l1 l2 l3 [] []. split; [intros a; congruence..|]. intros a Ha.
    specialize (cf_amount0 a Ha). rewrite <- cf_owner0 in Ha. specialize (cf_amount1 a Ha). lia.
Qed.

Lemma confined_mono (P Q : Pubkey -> Prop) l l' : (forall k, P k -> Q k) -> confined P l l' -> confined Q l l'.
Proof. intros HPQ []. split; auto. Qed.

Variable P : Pubkey -> Prop.

Lemma transfer_confined l src dst auth n : P auth -> post (confined P l) (cpi (token_transfer l src dst auth n)).
Proof.
  intros Ha l' H. apply ok_or_Ok, transfer_law in H as (Ho & _ & Hn & Ham & _ & Hs).
  split; [apply Hs..|]. intros a Hp. rewrite Ham. repeat case_bool_decide; subst; try done; lia.
Qed.

Lemma burn_confined l mint src auth n : P auth -> post (confined P l) (cpi (token_burn l mint src auth n)).
Proof.
  intros Ha l' H. apply ok_or_Ok, burn_law in H as (_ & Ho & Hn & Ham & _ & Hs).
  split; [apply Hs..|]. intros a Hp. rewrite Ham. repeat case_bool_decide; subst; try done; lia.
Qed.

Lemma mint_confined l mint dst n : post (confined P l) (cpi (token_mint_to l mint dst n)).
Proof.
  intros l' H. apply ok_or_Ok, mint_to_law in H as (_ & Hn & Ham & _ & Hs).
  split; [apply Hs..|]. intros a Hp. rewrite Ham. case_bool_decide; lia.
Qed.

Lemma lamport_confined l src dst n : post (confined P l) (cpi (lamport_transfer l src dst n)).
Proof.
  intros l' H. apply ok_or_Ok, lamport_law in H as (_ & _ & Hs & _).
  split; [apply Hs..|]. intros a Hp. destruct (Hs a) as [-> _]. lia.
Qed.

Lemma post_after {E} l l1 (r : result E ledger) : confined P l l1 -> post (confined P l1) r -> post (confined P l) r.
Proof. intros Hl Hr l' H. etransitivity; [exact Hl|by apply Hr]. Qed.

End confined.

(** What a phase of the liquidation keeps. *)
Definition liq_kept {R : Runtime} (P : Pubkey -> Prop) (x x' : Liq) : Prop :=
  steady (lq_market x) (lq_market x') /\ confined P (lq_ledger x) (lq_ledger x').

(** ** Walking a handler *)

Create HintDb confines.

(** An authority of the market, read back through the steps that keep its collateral. *)
Ltac mint_back :=
  repeat first
    [ progress cbn [t_market lq_market rd_market rf_market dr_market wd_drain sc_market fst snd]
    | progress read_market
    | match goal with
      | |- context [collateral_mint (update ?f ?v ?x)] =>
          change (collateral_mint (update f v x)) with (collateral_mint x)
      | H : steady ?a ?b |- context [collateral_mint ?b] => rewrite (st_mint _ _ H)
      end ].
Ltac authority := first [assumption | mint_back; assumption].

Ltac confined_chain :=
  cbn [t_ledger lq_ledger rd_ledger rf_ledger dp_ledger fst snd update];
  repeat first
    [ reflexivity | eassumption
    | match goal with
      | H : confined ?P ?a ?b |- confined ?P _ ?b => transitivity a; [|exact H]
      end ].

(** One step that returns a ledger. *)
Ltac ledger_step :=
  cbv beta zeta;
  lazymatch goal with
  | |- post _ (Ok _) => apply post_ok; confined_chain
  | |- post _ (Err _) => apply post_err
  | |- post _ (cpi (token_transfer _ _ _ _ _)) => apply transfer_confined; authority
  | |- post _ (cpi (token_burn _ _ _ _ _)) => apply burn_confined; authority
  | |- post _ (cpi (token_mint_to _ _ _ _)) => apply mint_confined
  | |- post _ (cpi (lamport_transfer _ _ _ _)) => apply lamport_confined
  | |- post _ (if ?b then _ else _) => destruct b; ledger_step
  | |- post _ (_ ≫= _) => apply post_any; intros ?; ledger_step
  end.

(** The fee step of a redemption keeps the market's collateral. *)
Ltac note_fee :=
  match goal with
  | H : redeem_fee ?n ?m ?d ?r ?t = _ |- _ =>
      let Hf := fresh "Hs" in pose proof (redeem_fee_frame n m d r t) as Hf; rewrite H in Hf; clear H
  end.

Ltac lwalk P :=
  cbv beta zeta;
  lazymatch goal with
  | |- post _ (Ok _) => apply post_ok; confined_chain
  | |- post _ (Err _) => apply post_err
  | |- post _ (?r ≫= _) =>
      first [ lazymatch type of r with result _ ledger => idtac end;
              eapply (post_bind (confined P _));
                [first [ledger_step|solve [eauto with confines nocore]]|let Hx := fresh "Hl" in intros ? Hx]
            | eapply post_bind; [solve [eauto with confines nocore]|let Hx := fresh "Hs" in intros ? Hx; cbv beta in Hx;
                           lazymatch type of Hx with _ /\ _ => destruct Hx | liq_kept _ _ _ => destruct Hx | _ => idtac end]
            | apply post_any; intros ? ]; lwalk P
  | |- post _ (let '(_, _) := ?a in _) => first [is_var a; destruct a | destruct a eqn:?]; try note_fee; cbn [fst snd] in *; lwalk P
  | |- post _ (if ?b then _ else _) => destruct b; lwalk P
  | |- post _ (match ?o with Some _ => _ | None => _ end) => destruct o; lwalk P
  | |- _ => first [ledger_step | eapply post_after; [eassumption|ledger_step] | solve [eauto with confines nocore] | idtac]
  end.

#[export] Hint Resolve accrue_frame reweight_frame set_stake_steady consume_frame charge_frame remove_victim_frame
  redistribute_frame unhomed_frame validate_frame redeem_loop_frame urgent_loop_frame : confines.

Lemma post_and {E A} (P Q : A -> Prop) (r : result E A) : post P r -> post Q r -> post (fun a => P a /\ Q a) r.
Proof. intros HP HQ a Ha. split; [by apply HP|by apply HQ]. Qed.

Section handlers.
Context {U : U256} {R : Runtime} {K : OracleSdk}.
Variable P : Pubkey -> Prop.

Lemma open_confined clk k m l r : post (fun x => confined P l x.2) (open_position clk k m l r).
Proof. unfold open_position. lwalk P. Qed.
Lemma close_confined k m p l : post (confined P l) (close_position k m p l).
Proof. unfold close_position. lwalk P. Qed.

Lemma top_up_confined k m p l : post (fun x => confined P l x.2) (top_up_bond k m p l).
Proof. unfold top_up_bond. lwalk P. Qed.
#[local] Hint Resolve top_up_confined : confines.

Lemma deposit_confined clk k t a : P (acc_signer k) ->
  post (fun t' => confined P (t_ledger t) (t_ledger t')) (deposit clk k t a).
Proof. intros Hs. unfold deposit. lwalk P. Qed.
Lemma withdraw_confined clk k t a : P (market_pda (collateral_mint (t_market t))) ->
  post (fun t' => confined P (t_ledger t) (t_ledger t')) (withdraw clk k t a).
Proof. intros Hs. unfold withdraw. lwalk P. Qed.
Lemma borrow_confined clk k t a : post (fun t' => confined P (t_ledger t) (t_ledger t')) (borrow clk k t a).
Proof. unfold borrow. lwalk P. Qed.
Lemma repay_confined clk k t a : P (acc_signer k) ->
  post (fun t' => confined P (t_ledger t) (t_ledger t')) (repay clk k t a).
Proof. intros Hs. unfold repay. lwalk P. Qed.
Lemma adjust_confined clk k t r : post (fun t' => confined P (t_ledger t) (t_ledger t')) (adjust_rate clk k t r).
Proof. unfold adjust_rate. lwalk P. Qed.
Lemma claim_surplus_confined k m p l : P (market_pda (collateral_mint m)) ->
  post (fun x => confined P l x.2) (claim_coll_surplus k m p l).
Proof. intros Hs. unfold claim_coll_surplus. lwalk P. Qed.

(** ** Liquidation *)

Lemma reactor_confined x a c : P (reactor_pda (collateral_mint (lq_market x))) ->
  P (market_pda (collateral_mint (lq_market x))) -> post (liq_kept P x) (liq_reactor x a c).
Proof. intros Hr Hm. apply post_and; [apply reactor_frame|]. unfold liq_reactor. lwalk P. Qed.
Lemma buffer_confined x a : P (buffer_pda (collateral_mint (lq_market x))) -> post (liq_kept P x) (liq_buffer x a).
Proof. intros Hr. apply post_and; [apply buffer_frame|]. unfold liq_buffer. lwalk P. Qed.
Lemma backstop_confined k x a : P backstop_pda -> post (liq_kept P x) (liq_backstop k x a).
Proof. intros Hb. apply post_and; [apply backstop_frame|]. unfold liq_backstop. lwalk P. Qed.
#[local] Hint Resolve reactor_confined buffer_confined backstop_confined : confines.
#[local] Hint Extern 0 (P _) => authority : confines.

Lemma remainder_confined k x a c : P (buffer_pda (collateral_mint (lq_market x))) -> P backstop_pda ->
  post (liq_kept P x) (liq_remainder k x a c).
Proof. intros Hb Hg. apply post_and; [apply remainder_frame|]. unfold liq_remainder. lwalk P. Qed.
Lemma close_victim_confined k m p l : post (fun x => confined P l x.2) (liq_close_victim k m p l).
Proof. unfold liq_close_victim. lwalk P. Qed.
#[local] Hint Resolve remainder_confined close_victim_confined : confines.

Lemma liquidate_confined clk k x (c := collateral_mint (lq_market x)) :
  P (market_pda c) -> P (reactor_pda c) -> P (buffer_pda c) -> P backstop_pda ->
  post (fun x' => confined P (lq_ledger x) (lq_ledger x')) (liquidate clk k x).
Proof. subst c. intros Hm Hr Hb Hg. unfold liquidate, liq_snapshots. lwalk P. Qed.

(** ** Redemption *)

Lemma settle_confined k m l r p : P (rk_redeemer k) -> P (market_pda (collateral_mint m)) ->
  post (confined P l) (redeem_settle k m l r p).
Proof. intros Hr Hm. unfold redeem_settle. lwalk P. Qed.
#[local] Hint Resolve settle_confined : confines.

Lemma redeem_confined clk k x a : P (rk_redeemer k) -> P (market_pda (collateral_mint (rd_market x))) ->
  post (fun x' => confined P (rd_ledger x) (rd_ledger x')) (redeem clk k x a).
Proof. intros Hr Hm. unfold redeem. lwalk P. Qed.
Lemma urgent_confined clk k x a : P (rk_redeemer k) -> P (market_pda (collateral_mint (rd_market x))) ->
  post (fun x' => confined P (rd_ledger x) (rd_ledger x')) (urgent_redeem clk k x a).
Proof. intros Hr Hm. unfold urgent_redeem. lwalk P. Qed.

(** ** Market, pool and reserve instructions *)

Lemma mint_some_confined l dst n : post (confined P l) (mint_some l dst n).
Proof. unfold mint_some. lwalk P. Qed.
Lemma refresh_mint_confined k m bs l c : post (fun x => confined P l x.2) (refresh_mint_backstop k m bs l c).
Proof. unfold refresh_mint_backstop. lwalk P. Qed.
#[local] Hint Resolve mint_some_confined refresh_mint_confined : confines.
Lemma refresh_confined clk k x : post (fun x' => confined P (rf_ledger x) (rf_ledger x')) (refresh_market clk k x).
Proof. unfold refresh_market. lwalk P. Qed.
Lemma settle_debt_confined g a t m l n : P a -> post (fun x => confined P l x.2) (settle_bad_debt g a t m l n).
Proof. intros Ha. unfold settle_bad_debt. lwalk P. Qed.
Lemma fund_buffer_confined a t b l n : P a -> post (fun x => confined P l x.2) (fund_buffer a t b l n).
Proof. intros Ha. unfold fund_buffer. lwalk P. Qed.
Lemma withdraw_surplus_confined g k m l n : P (market_pda (collateral_mint m)) ->
  post (fun x => confined P l x.2) (withdraw_surplus g k m l n).
Proof. intros Hm. unfold withdraw_surplus. lwalk P. Qed.
Lemma sweep_confined g k m l n : P (market_pda (collateral_mint m)) ->
  post (fun x => confined P l x.2) (sweep_protocol_collateral g k m l n).
Proof. intros Hm. unfold sweep_protocol_collateral. lwalk P. Qed.
Lemma provide_confined k g x n : P (dk_owner k) ->
  post (fun x' => confined P (dp_ledger x) (dp_ledger x')) (provide_to_reactor k g x n).
Proof. intros Ho. unfold provide_to_reactor. lwalk P. Qed.
Lemma withdraw_pool_confined k g x n : P (reactor_pda (rp_collateral_mint (dp_pool x))) ->
  post (fun x' => confined P (dp_ledger x) (dp_ledger x')) (withdraw_from_reactor k g x n).
Proof. intros Ho. unfold withdraw_from_reactor. lwalk P. Qed.
Lemma claim_gains_confined k g x : P (reactor_pda (rp_collateral_mint (dp_pool x))) ->
  post (fun x' => confined P (dp_ledger x) (dp_ledger x')) (claim_reactor_gains k g x).
Proof. intros Ho. unfold claim_reactor_gains. lwalk P. Qed.
Lemma fund_backstop_confined a t b l n : P a -> post (fun x => confined P l x.2) (fund_backstop a t b l n).
Proof. intros Ha. unfold fund_backstop. lwalk P. Qed.
Lemma withdraw_excess_confined g a t b l n : P backstop_pda -> post (fun x => confined P l x.2) (withdraw_excess g a t b l n).
Proof. intros Hb. unfold withdraw_excess. lwalk P. Qed.

(** ** Every instruction *)

(** The pool of a market, once it exists, is the pool of its collateral. *)
Definition pool_of_market (w : World) : Prop :=
  has_pool (w_created w) = true -> rp_collateral_mint (w_pool w) = collateral_mint (w_market w).

End handlers.

Ltac world_confined := apply post_ok; cbn [w_ledger update fst snd] in *; eassumption || reflexivity.

Section worlds.
Context {U : U256} {R : Runtime} {K : OracleSdk}.

(** An instruction acts on accounts that exist. *)
Lemma exec_loads Q clk i w : (loads i (w_created w) = true -> post Q (handle clk i w)) -> post Q (exec clk i w).
Proof. intros H w' [Hl Hw]%exec_Ok. by apply H. Qed.
Lemma exec_post Q clk i w : post Q (handle clk i w) -> post Q (exec clk i w).
Proof. intros H. by apply exec_loads. Qed.

Variable P : Pubkey -> Prop.

Lemma touch_world_confined w key f :
  (forall t, t_market t = w_market w -> post (fun t' => confined P (t_ledger t) (t_ledger t')) (f t)) ->
  post (fun w' => confined P (w_ledger w) (w_ledger w')) (touch_world w key f).
Proof.
  intros Hf. unfold touch_world. apply post_any. intros p. eapply post_bind; [by apply Hf|].
  intros t' Ht. world_confined.
Qed.

Lemma redeem_world_confined w f :
  (forall x, rd_market x = w_market w -> post (fun x' => confined P (rd_ledger x) (rd_ledger x')) (f x)) ->
  post (fun w' => confined P (w_ledger w) (w_ledger w')) (redeem_world w f).
Proof. intros Hf. unfold redeem_world. eapply post_bind; [by apply Hf|]. intros x Hx. world_confined. Qed.

Lemma deposit_world_confined w k f :
  (forall x, dp_pool x = w_pool w -> post (fun x' => confined P (dp_ledger x) (dp_ledger x')) (f x)) ->
  post (fun w' => confined P (w_ledger w) (w_ledger w')) (deposit_world w k f).
Proof.
  intros Hf. unfold deposit_world. apply post_any. intros d. eapply post_bind; [by apply Hf|]. intros x Hx. world_confined.
Qed.

Lemma market_world_confined w (r : result Error (Market * ledger)) : post (fun x => confined P (w_ledger w) x.2) r ->
  post (fun w' => confined P (w_ledger w) (w_ledger w')) (market_world w r).
Proof. intros Hr. unfold market_world. eapply post_bind; [exact Hr|]. intros [m l] Hx. world_confined. Qed.

Lemma reserve_world_confined w r : post (fun x => confined P (w_ledger w) x.2) r ->
  post (fun w' => confined P (w_ledger w) (w_ledger w')) (reserve_world w r).
Proof. intros Hr. unfold reserve_world. eapply post_bind; [exact Hr|]. intros [b l] Hx. world_confined. Qed.

End worlds.

(** Steps that do not touch the ledger. *)
Ltac no_ledger :=
  cbv beta zeta;
  lazymatch goal with
  | |- post _ (Ok _) => apply post_ok; reflexivity
  | |- post _ (_ ≫= _) => apply post_any; intros ?; no_ledger
  | |- post _ (let '(_, _) := ?a in _) => destruct a; no_ledger
  end.

Section instructions.
Context {U : U256} {R : Runtime} {K : OracleSdk}.

Definition draws_reserve (i : Instr) : bool :=
  match i with LiquidateI _ _ | WithdrawBackstopI _ _ _ => true | _ => false end.

(** Whose accounts the instruction [i] of the market of [c] may debit. *)
Definition may_debit (c : Pubkey) (i : Instr) (k : Pubkey) : Prop :=
  market_owned c k \/ signer i = Some k \/ (draws_reserve i = true /\ k = backstop_pda).

Definition draws_pool (i : Instr) : bool :=
  match i with LiquidateI _ _ | WithdrawFromReactorI _ _ | ClaimReactorGainsI _ => true | _ => false end.

Definition draws_buffer (i : Instr) : bool := match i with LiquidateI _ _ => true | _ => false end.

(** Any set of owners that has those the instruction acts for. *)
Section by_owners.
Variable P : Pubkey -> Prop.
Variables (i : Instr) (w : World).
Let c := collateral_mint (w_market w).
Hypothesis may_market : P (market_pda c).
Hypothesis may_signer : forall a, signer i = Some a -> P a.
Hypothesis may_reserve : draws_reserve i = true -> P backstop_pda.
Hypothesis may_reactor : draws_pool i = true -> P (reactor_pda c).
Hypothesis may_buffer : draws_buffer i = true -> P (buffer_pda c).

Lemma exec_confined_by clk : pool_of_market w ->
  post (fun w' => confined P (w_ledger w) (w_ledger w')) (exec clk i w).
Proof using may_market may_signer may_reserve may_reactor may_buffer.
  intros Hp. unfold c in *. clear c. apply exec_loads. intros Hload.
  destruct i; cbn [System.signer draws_reserve draws_pool draws_buffer] in *; cbn [handle];
    try (apply touch_world_confined; intros t Et); try (apply redeem_world_confined; intros x Ex);
    try (apply deposit_world_confined; intros x Ex; specialize (Hp Hload); rewrite <- Ex in Hp);
    try apply market_world_confined; rewrite ?Et, ?Ex;
    try solve [unfold queue_world, execute_world, cancel_world, gate_world, config_world, price_world, line_world,
      queue_global_world, execute_global_world, cancel_global_world; no_ledger].
  - apply post_any. intros _. apply post_any. intros _. eapply post_bind; [apply open_confined|]. intros [p l] Hl. world_confined.
  - apply post_any. intros p. eapply post_bind; [apply close_confined|]. intros l Hl. world_confined.
  - by apply deposit_confined, may_signer.
  - apply withdraw_confined. by rewrite Et.
  - apply borrow_confined.
  - by apply repay_confined, may_signer.
  - apply adjust_confined.
  - apply post_any. intros p. eapply post_bind; [by apply (claim_surplus_confined P)|]. intros [[m p'] l] Hl. world_confined.
  - unfold liquidate_world. apply post_any. intros p. eapply post_bind; [apply (liquidate_confined P); cbn; auto|].
    intros x Hx. world_confined.
  - apply redeem_confined; [by apply may_signer|]. by rewrite Ex.
  - apply urgent_confined; [by apply may_signer|]. by rewrite Ex.
  - eapply post_bind; [apply refresh_confined|]. intros x Hx. world_confined.
  - by apply settle_debt_confined, may_signer.
  - eapply post_bind; [by apply (fund_buffer_confined P), may_signer|]. intros [b l] Hl. world_confined.
  - by apply withdraw_surplus_confined.
  - by apply sweep_confined.
  - by apply provide_confined, may_signer.
  - apply withdraw_pool_confined. rewrite Hp. auto.
  - apply claim_gains_confined. rewrite Hp. auto.
  - apply post_any. intros b. apply reserve_world_confined. by apply fund_backstop_confined, may_signer.
  - apply post_any. intros b. apply reserve_world_confined. apply withdraw_excess_confined. auto.
Qed.

End by_owners.

Lemma exec_confined clk i w : pool_of_market w ->
  post (fun w' => confined (may_debit (collateral_mint (w_market w)) i) (w_ledger w) (w_ledger w')) (exec clk i w).
Proof. apply exec_confined_by; unfold may_debit, market_owned; auto. Qed.

(** ** The pool of a market stays the pool of its collateral *)

Definition same_pool (r r' : ReactorPool) : Prop := rp_collateral_mint r' = rp_collateral_mint r.
Definition pool_kept (x x' : Liq) : Prop := same_pool (lq_pool x) (lq_pool x').

Create HintDb pools.
Ltac keep :=
  cbv beta zeta;
  lazymatch goal with
  | |- post _ (Ok _) => apply post_ok; unfold pool_kept, same_pool in *; cbn in *; congruence
  | |- post _ (Err _) => apply post_err
  | |- post _ (_ ≫= _) =>
      first [eapply post_bind; [solve [auto with pools nocore]|let Hx := fresh in intros ? Hx] | apply post_any; intros ?];
      keep
  | |- post _ (let '(_, _) := ?a in _) => destruct a; keep
  | |- post _ (if ?b then _ else _) => destruct b; keep
  | |- _ => solve [auto with pools nocore]
  end.

Lemma reactor_pool x a c : post (pool_kept x) (liq_reactor x a c).
Proof. unfold liq_reactor. keep. Qed.
Lemma buffer_pool x a : post (pool_kept x) (liq_buffer x a).
Proof. unfold liq_buffer. keep. Qed.
Lemma backstop_pool k x a : post (pool_kept x) (liq_backstop k x a).
Proof. unfold liq_backstop. keep. Qed.
#[local] Hint Resolve reactor_pool buffer_pool backstop_pool : pools.
Lemma remainder_pool k x a c : post (pool_kept x) (liq_remainder k x a c).
Proof. unfold liq_remainder. keep. Qed.
#[local] Hint Resolve remainder_pool : pools.
Lemma liquidate_pool clk k x : post (pool_kept x) (liquidate clk k x).
Proof. unfold liquidate. keep. Qed.

Lemma deposit_world_pool w k f : (forall x, post (fun x' => same_pool (dp_pool x) (dp_pool x')) (f x)) ->
  post (fun w' => same_pool (w_pool w) (w_pool w')) (deposit_world w k f).
Proof.
  intros Hf. unfold deposit_world. apply post_any. intros d. eapply post_bind; [apply Hf|]. intros x Hx. by apply post_ok.
Qed.

Definition creates_pool (i : Instr) : bool := match i with InitReactorPoolI _ _ _ _ => true | _ => false end.

(** What every instruction but the creation of the pool keeps of it. *)
Lemma handle_pool clk i w : creates_pool i = false ->
  post (fun w' => has_pool (w_created w') = has_pool (w_created w) /\ same_pool (w_pool w) (w_pool w')) (handle clk i w).
Proof.
  intros Hi. apply post_and; destruct i; try discriminate Hi; cbn [handle];
    try solve [unfold touch_world, redeem_world, market_world, deposit_world, liquidate_world, queue_world, execute_world,
      cancel_world, gate_world, config_world, price_world, line_world, reserve_world, queue_global_world,
      execute_global_world, cancel_global_world; no_ledger];
    try (apply deposit_world_pool; intros x);
    try solve [unfold provide_to_reactor, withdraw_from_reactor, claim_reactor_gains; keep].
  unfold liquidate_world. apply post_any. intros p. eapply post_bind; [apply liquidate_pool|]. intros x Hx. by apply post_ok.
Qed.

Lemma exec_pool clk i w w' : exec clk i w = Ok w' -> collateral_mint (w_market w') = collateral_mint (w_market w) ->
  pool_of_market w -> pool_of_market w'.
Proof.
  intros [_ H]%exec_Ok Ec Hp Hh. destruct (creates_pool i) eqn:Hi.
  - destruct i; try discriminate Hi. cbn [handle] in H. bind H as ? H1. bind H as ? H2. bind H as [[m pool] sums] H3. injection H as <-.
    unfold init_reactor_pool in H3. bind H3 as ? H4. by injection H3 as <- <- <-.
  - apply handle_pool in H as [Eh Ep]; [|done]. rewrite Ec, Ep. apply Hp. congruence.
Qed.

End instructions.
