(* ===== verification/SystemProofs.v ===== *)
(** * System invariants

    Every instruction keeps the books, the index and the two ledger identities, so
    they hold in every state a run reaches. *)

From S2P Require Import Prelude MachineInt FixedPoint Interest RateBucket Redistribution.
From S2P Require Import ReactorMath SupplyTransition Cdp State Token Accrual Bucket PositionOps.
From S2P Require Import TouchEffect PositionProofs World Reactor Liquidate LiquidateProofs Redeem.
From S2P Require Import RedeemProofs MarketOps ReactorOps Init OracleScale Oracle Twap Governance OracleAdmin.
From S2P Require Import CeilingLine Backstop UpdatePrice System.

Open Scope Z_scope.

Section system_proofs.
Context {U : U256} {R : Runtime} {K : OracleSdk}.

Record invariant (w : World) : Prop := {
  iv_books : books (w_market w) (w_positions w);
  iv_indexed : indexed (w_bitmap w) (w_positions w);
  iv_clock : last_update_ts (w_market w) <= w_now w;
  iv_vault : tok_owner (w_ledger w) (collateral_vault (w_market w))
    = market_pda (collateral_mint (w_market w));
  iv_vault_mint : tok_mint (w_ledger w) (collateral_vault (w_market w)) <> fusd_mint;
  iv_vault_amount : tracked (w_market w) <= tok_amount (w_ledger w) (collateral_vault (w_market w));
  iv_pool : has_pool (w_created w) = true ->
    rp_coll_vault (w_pool w) <> collateral_vault (w_market w) /\ u128 (rp_total_deposits (w_pool w));
}.

(** What one instruction at time [now] does. *)
Record preserved (now : Z) (w w' : World) : Prop := {
  pv_books : books (w_market w') (w_positions w');
  pv_indexed : indexed (w_bitmap w') (w_positions w');
  pv_id : same_identity (w_market w) (w_market w');
  pv_clock : last_update_ts (w_market w') <= now;
  pv_ledger : moved (collateral_vault (w_market w)) fusd_mint (w_ledger w) (w_ledger w')
    (tracked (w_market w') - tracked (w_market w)) (backed_by (w_market w') - backed_by (w_market w));
  pv_pool : has_pool (w_created w') = true ->
    rp_coll_vault (w_pool w') <> collateral_vault (w_market w) /\ u128 (rp_total_deposits (w_pool w'));
}.

Lemma preserved_invariant now w w' : invariant w -> preserved now w w' ->
  invariant (w' <| w_now := now |>).
Proof.
  intros [] []. destruct pv_id0 as [Emi Eva], pv_ledger0. constructor; cbn; try done.
  - rewrite Eva, Emi, mv_owner. done.
  - by rewrite Eva, mv_mint.
  - rewrite Eva. lia.
  - by rewrite Eva.
Qed.

(** ** Position instructions *)

Lemma touch_ok_of w now key p : invariant w -> timestamp now -> w_now w <= now ->
  w_positions w !! key = Some p ->
  touch_ok now (mkTouch (w_market w) p (w_bitmap w) (w_ledger w)).
Proof.
  intros [[] [] ? ? ? ? ?] Hn Hle Hp. constructor; cbn; try done.
  - by eapply bk_positions.
  - split; [done|]. lia.
  - by eapply ix_labels.
Qed.

Lemma accrued_clock m now m1 dI : accrued_to m now m1 dI -> last_update_ts m <= now ->
  last_update_ts m1 <= now.
Proof. intros [] Hle. rewrite ac_ts. destruct (shutdown m); lia. Qed.

Lemma touch_preserved now w key f w' : invariant w -> timestamp now -> w_now w <= now ->
  (forall t t', touch_ok now t -> t_market t = w_market w -> f t = Ok t' -> touch_effect now t t') ->
  touch_world w key f = Ok w' -> preserved now w w'.
Proof.
  intros Hinv Hn Hle Hf H. unfold touch_world, load_position in H. bind H as p Hp. inv_ok Hp.
  bind H as t' Ht. injection H as <-. apply Hf in Ht; [|by eapply touch_ok_of|done].
  destruct Ht as [(m1 & dI & Hacc & Hloc) Hmv Hc Hcnt Hlab]. cbn in *. destruct Hinv.
  assert (last_update_ts (w_market w) <= now) as Hcl by lia.
  destruct (accrued_same _ _ _ _ Hacc) as ([Em1 Ev1] & _). pose proof Hloc as [[] [Em Ev] _ _ _ _ _ _ _ _].
  constructor; cbn; try done.
  - eapply books_local; [done|exact Hloc|]. by eapply books_accrue.
  - by eapply indexed_update.
  - constructor; congruence.
  - rewrite sa_ts. by eapply accrued_clock.
Qed.

Lemma open_preserved now clk k w rate p l : unix_timestamp clk = now -> invariant w -> timestamp now ->
  w_now w <= now -> w_positions w !! acc_position k = None ->
  open_position clk k (w_market w) (w_ledger w) rate = Ok (p, l) ->
  preserved now w (w <| w_positions := <[acc_position k := p]> (w_positions w) |> <| w_ledger := l |>).
Proof.
  intros <- [] Hn Hle Hk H. unfold open_position in H. bind H as ? Hpda. bind H as ? Hr. inv_ok Hr.
  bind H as l' Hl. injection H as <- <-. pose proof iv_books0 as [[] _ _ _ _ _ _].
  assert (moved (collateral_vault (w_market w)) fusd_mint (w_ledger w) l' 0 0) as Hmv.
  { destruct (_ <? _); [inv_ok Hl; by eapply moved_lamports|injection Hl as <-; apply moved_refl]. }
  constructor; cbn; rewrite ?Z.sub_diag; try done; try lia.
  - apply books_open; try done. constructor; cbn; try done; try rlia.
  - by apply indexed_open.
Qed.

Lemma close_preserved now k w p l : invariant w -> w_now w <= now ->
  w_positions w !! acc_position k = Some p ->
  close_position k (w_market w) p (w_ledger w) = Ok l ->
  preserved now w (w <| w_positions := delete (acc_position k) (w_positions w) |> <| w_ledger := l |>).
Proof.
  intros [] Hle Hk H. unfold close_position in H. bind H as ? H1. bind H as ? H2. bind H as ? Hd.
  bind H as ? Hi. bind H as ? Hs. inv_ok Hd. inv_ok Hi. inv_ok Hs. inv_ok H.
  constructor; cbn; rewrite ?Z.sub_diag; try done; try lia.
  - by eapply books_close.
  - by eapply indexed_close.
  - by eapply moved_lamports.
Qed.

Lemma claim_surplus_preserved now k w p m' p' l : invariant w -> w_now w <= now ->
  acc_signer k <> market_pda (collateral_mint (w_market w)) ->
  w_positions w !! acc_position k = Some p ->
  claim_coll_surplus k (w_market w) p (w_ledger w) = Ok (m', p', l) ->
  preserved now w (w <| w_market := m' |> <| w_positions := <[acc_position k := p']> (w_positions w) |>
                     <| w_ledger := l |>).
Proof.
  intros [] Hle Hsig Hk H. unfold claim_coll_surplus in H. bind H as ? Hv. bind H as ? Hpk. bind H as ? Hata.
  bind H as ? Hpos. bind H as l1 Hl. bind H as tcs Ht. bind H as ? Hsuf. injection H as <- <- <-.
  inv_ok Hv. inv_ok Ht. inv_ok Hl. checked. subst.
  apply (ata_not_vault _ _ _ _ _ _ iv_vault0 Hsig) in Hata. propify.
  apply (moved_transfer (collateral_vault (w_market w)) fusd_mint) in Hl.
  pose proof iv_books0 as [Hmo Hps _ _ _ _ _]. pose proof (Hps _ _ Hk) as Hpo. cbn in Hpo.
  constructor; cbn; try done; try lia.
  - eapply books_local; [done| |exact iv_books0]. destruct Hmo, Hpo.
    constructor; unfold debt_share, coll_share, weight; cbn; try done; lia.
  - destruct iv_indexed0. eapply indexed_update;
      [done|done|exact (ix_labels _ _ Hk)| |by constructor]. cbn. lia.
  - eapply moved_eq; [exact Hl| |]; unfold tracked, backed_by; cbn; [|lia].
    rewrite Hv. repeat case_bool_decide; try done; lia.
Qed.

(** ** Liquidation and redemption *)

Definition liq_of (w : World) (p : Position) (b : bool) : Liq :=
  mkLiq (w_market w) p (w_pool w) (w_grid w) (w_bitmap w) (w_buffer w)
    (if b then w_backstop w else None) (w_ledger w).

Lemma liq_ok_of w now key p b : invariant w -> has_pool (w_created w) = true -> timestamp now -> w_now w <= now ->
  w_positions w !! key = Some p -> liq_ok now (liq_of w p b).
Proof.
  intros [] Hh Hn Hle Hp. destruct (iv_pool0 Hh). pose proof iv_books0 as [Hmo Hps _ _ _ _ _]. pose proof iv_indexed0 as [Hc _ Hlb].
  constructor; cbn; try done; [by eapply Hps|split; [done|lia]|by eapply Hlb].
Qed.

Lemma liquidate_preserved clk k b w w' : let now := unix_timestamp clk in
  invariant w -> has_pool (w_created w) = true -> timestamp now -> w_now w <= now ->
  lk_liquidator k <> market_pda (collateral_mint (w_market w)) ->
  liquidate_world clk w k b = Ok w' -> preserved now w w'.
Proof.
  intros now Hinv Hh Hn Hle Hsig H. unfold liquidate_world, load_position in H. bind H as p Hp. inv_ok Hp.
  bind H as x Hx. injection H as <-.
  eapply (liquidate_effect clk k (liq_of w p b) x) in Hx; [|by eapply liq_ok_of|exact Hsig].
  pose proof Hinv as []. destruct Hx as [(m1 & dI & p1 & rd & rc & Hacc & Hrz & Hlz) Hmv Hc' Hcnt Hlab [Hpv Hdep]].
  cbn in *. assert (last_update_ts (w_market w) <= now) as Hcl by lia.
  destruct (accrued_same _ _ _ _ Hacc) as ([Em1 Ev1] & _). pose proof Hlz as [Ets [Em Ev] _ _ _ _ _ _ _ _ _ _].
  constructor; cbn; try done.
  - eapply books_liquidate; [exact Hp|exact Hrz|exact Hlz|]. by eapply books_accrue.
  - by eapply indexed_update.
  - constructor; congruence.
  - rewrite Ets. by eapply accrued_clock.
  - intros _. rewrite Hpv. split; [by apply iv_pool0|done].
Qed.

Lemma redemption_ok_of w now : invariant w -> timestamp now -> w_now w <= now ->
  redemption_ok now (mkRedemption (w_market w) (w_positions w) (w_others w) (w_bitmap w) (w_ledger w)).
Proof.
  intros [] Hn Hle. constructor; cbn; try done; [split; [done|lia]|].
  pose proof (tok_amount_range (w_ledger w) (collateral_vault (w_market w))).
  destruct iv_books0 as [[] _ _ _ _ _ _]. unfold tracked in *. rlia.
Qed.

Lemma redeem_preserved now w f w' : invariant w -> timestamp now -> w_now w <= now ->
  (forall x x', redemption_ok now x -> rd_market x = w_market w -> f x = Ok x' -> redemption_effect now x x') ->
  redeem_world w f = Ok w' -> preserved now w w'.
Proof.
  intros Hinv Hn Hle Hf H. unfold redeem_world in H. bind H as x Hx. injection H as <-.
  apply Hf in Hx; [|by apply redemption_ok_of|done]. destruct Hx, Hinv. by constructor.
Qed.

(** ** Market instructions *)

Lemma preserved_refl now w : invariant w -> w_now w <= now -> preserved now w w.
Proof. intros [] Hle. constructor; rewrite ?Z.sub_diag; try done; [lia|apply moved_refl]. Qed.

(** A further change that leaves the books alone. *)
Lemma preserved_market now w w1 m' l' : preserved now w w1 ->
  same_books (w_market w1) m' -> market_ok m' ->
  moved (collateral_vault (w_market w)) fusd_mint (w_ledger w1) l'
    (tracked m' - tracked (w_market w1)) (backed_by m' - backed_by (w_market w1)) ->
  preserved now w (w1 <| w_market := m' |> <| w_ledger := l' |>).
Proof.
  intros [Hb Hi [Em Ev] Hc Hmv Hpv] Hsb Hmo Hmv'. pose proof Hsb as [[] [] _ _ _ _ _].
  constructor; cbn; try done.
  - by eapply books_same.
  - constructor; congruence.
  - lia.
  - eapply moved_eq; [eapply moved_trans; [exact Hmv|exact Hmv']|lia|lia].
Qed.

(** A change of the market alone, outside the books and the ledger identities. *)
Lemma preserved_flags now w w1 m' : preserved now w w1 ->
  same_books (w_market w1) m' -> market_ok m' ->
  tracked m' = tracked (w_market w1) -> backed_by m' = backed_by (w_market w1) ->
  preserved now w (w1 <| w_market := m' |>).
Proof.
  intros Hpv Hsb Hok Et Eb.
  assert (preserved now w (w1 <| w_market := m' |> <| w_ledger := w_ledger w1 |>)) as [].
  { apply preserved_market; try done. rewrite Et, Eb, !Z.sub_diag. apply moved_refl. }
  by constructor.
Qed.

Lemma accrue_preserved now w m1 : invariant w -> timestamp now -> w_now w <= now ->
  accrue (w_market w) now = Ok m1 -> preserved now w (w <| w_market := m1 |>) /\ market_ok m1.
Proof.
  intros [] Hn Hle H. pose proof iv_books0 as [Hmo _ _ _ _ _ _]. apply accrue_Ok in H as [dI Hacc]; [|done..].
  destruct (accrued_same _ _ _ _ Hacc) as (Hid & Et & Eb). split; [|by destruct Hacc].
  constructor; cbn; try done.
  - eapply books_accrue; [|done|done]. lia.
  - eapply accrued_clock; [done|lia].
  - rewrite Et, Eb, !Z.sub_diag. apply moved_refl.
Qed.

(** The books see only the market, the positions, the index, the pool and the ledger. *)
Lemma preserved_frame now w w1 w2 : preserved now w w1 ->
  w_market w2 = w_market w1 -> w_positions w2 = w_positions w1 -> w_bitmap w2 = w_bitmap w1 ->
  w_ledger w2 = w_ledger w1 -> w_pool w2 = w_pool w1 -> has_pool (w_created w2) = has_pool (w_created w1) ->
  preserved now w w2.
Proof. intros [] Em Ep Eb El Er Eh. constructor; by rewrite ?Em, ?Ep, ?Eb, ?El, ?Er, ?Eh. Qed.

Lemma unchanged_preserved now w w' : invariant w -> w_now w <= now ->
  w_market w' = w_market w -> w_positions w' = w_positions w -> w_bitmap w' = w_bitmap w ->
  w_ledger w' = w_ledger w -> w_pool w' = w_pool w -> has_pool (w_created w') = has_pool (w_created w) ->
  preserved now w w'.
Proof. intros Hinv Hle. apply preserved_frame. by apply preserved_refl. Qed.

(** Tokens move, but not those of the vault, and the supply stays. *)
Lemma ledger_preserved now w w' : invariant w -> w_now w <= now ->
  moved (collateral_vault (w_market w)) fusd_mint (w_ledger w) (w_ledger w') 0 0 ->
  w_market w' = w_market w -> w_positions w' = w_positions w -> w_bitmap w' = w_bitmap w ->
  w_pool w' = w_pool w -> has_pool (w_created w') = has_pool (w_created w) -> preserved now w w'.
Proof.
  intros [] Hle Hmv Em Ep Eb Eo Eh. constructor; rewrite ?Em, ?Ep, ?Eb, ?Eo, ?Eh, ?Z.sub_diag; try done. lia.
Qed.

Lemma mint_elsewhere vault l dst n l' : tok_mint l vault <> fusd_mint ->
  token_mint_to l fusd_mint dst n = Some l' -> moved vault fusd_mint l l' 0 n.
Proof.
  intros Hv H. pose proof H as H0. apply mint_to_law in H0 as (Hm & _).
  apply (moved_mint_to vault) in H. rewrite bool_decide_false in H by congruence. exact H.
Qed.

Lemma mint_opt vault l dst n l' : tok_mint l vault <> fusd_mint -> 0 <= n <= U64_MAX ->
  mint_some l dst n = Ok l' -> moved vault fusd_mint l l' 0 n.
Proof.
  intros Hv Hn H. unfold mint_some in H. destruct (Z.ltb_spec 0 n).
  - inv_ok H. unfold as_u64 in H. rewrite Z.mod_small in H by rlia. by eapply mint_elsewhere.
  - injection H as <-. eapply moved_eq; [apply moved_refl|lia|lia].
Qed.

(** The three mints of a refresh. *)
Lemma refresh_mints k m bs l d buf m2 bs2 l1 l2 l3 vault :
  tok_mint l vault <> fusd_mint ->
  Forall (fun x => 0 <= x <= U64_MAX) [rf_buffer_amount d; rf_keeper_cut d; rf_backstop_cut d] ->
  mint_some l (ib_fusd_vault buf) (rf_buffer_amount d) = Ok l1 ->
  (if 0 <? rf_keeper_cut d then
     ata ← no_panic (fk_cranker_ata k);
     cpi (token_mint_to l1 fusd_mint ata (as_u64 (rf_keeper_cut d)))
   else Ok l1) = Ok l2 ->
  refresh_mint_backstop k m bs l2 (rf_backstop_cut d) = Ok (m2, bs2, l3) ->
  moved vault fusd_mint l l3 0 (rf_buffer_amount d + rf_keeper_cut d + rf_backstop_cut d) /\
  exists gc, m2 = m <| global_contributed := gc |>.
Proof.
  intros Hv Hr H1 H2 H3. rewrite !Forall_cons in Hr. destruct Hr as (Hb & Hk & Hs & _).
  apply (mint_opt vault) in H1; [|done|done].
  assert (tok_mint l1 vault <> fusd_mint) as Hv1 by (destruct H1; by rewrite mv_mint).
  assert (moved vault fusd_mint l1 l2 0 (rf_keeper_cut d)) as Hm2.
  { destruct (fk_cranker_ata k) as [ata|].
    - by apply (mint_opt vault l1 ata).
    - destruct (Z.ltb_spec 0 (rf_keeper_cut d)); [done|]. injection H2 as <-.
      eapply moved_eq; [apply moved_refl|lia|lia]. }
  assert (tok_mint l2 vault <> fusd_mint) as Hv2 by (destruct Hm2; by rewrite mv_mint).
  unfold refresh_mint_backstop in H3. destruct (Z.ltb_spec 0 (rf_backstop_cut d)).
  - bind H3 as v Hvk. bind H3 as l4 Hl4. bind H3 as gc Hgc. bind H3 as b Hb2. bind H3 as tc Htc.
    injection H3 as <- <- <-. inv_ok Hl4. unfold as_u64 in Hl4. rewrite Z.mod_small in Hl4 by rlia.
    apply (mint_elsewhere vault) in Hl4; [|done]. split; [|by exists gc].
    eapply moved_eq; [eapply moved_trans; [exact H1|eapply moved_trans; [exact Hm2|exact Hl4]]|lia|lia].
  - injection H3 as <- <- <-. split; [|exists (global_contributed m); by destruct m].
    eapply moved_eq; [eapply moved_trans; [exact H1|exact Hm2]|lia|lia].
Qed.

Lemma refresh_headroom b v l cut head : refresh_backstop b v l = Ok (cut, head) -> 0 <= head.
Proof.
  intros H. unfold refresh_backstop in H. destruct b as [bs|]; [|injection H as <- <-; rlia].
  destruct v; [|injection H as <- <-; rlia]. bind H as ? Hv. injection H as <- <-. rlia.
Qed.

Lemma refresh_preserved clk k b w x : let now := unix_timestamp clk in
  invariant w -> timestamp now -> w_now w <= now ->
  refresh_market clk k (mkRefresh (w_market w) (w_buffer w) b (w_ledger w)) = Ok x ->
  preserved now w (w <| w_market := rf_market x |> <| w_ledger := rf_ledger x |>).
Proof.
  intros now Hinv Hn Hle H. unfold refresh_market in H. fold now in H. cbn in H. bind H as ? Hk.
  bind H as m1 Hm1. destruct (accrue_preserved _ _ _ Hinv Hn Hle Hm1) as [Hpv1 Hok1].
  destruct (Z.eqb_spec (unminted_interest m1) 0).
  { injection H as <-. by eapply preserved_frame. }
  bind H as [cut head] Hbs. bind H as d Hd. bind H as l1 Hl1. bind H as l2 Hl2.
  bind H as [[m2 bs2] l3] Hl3. bind H as fd Hfd. injection H as <-. inv_ok Hd.
  pose proof Hok1 as [].
  assert (0 <= head) as Hh by (by eapply refresh_headroom).
  apply supply_refresh_Ok in Hd as (Ea & Es & Eu & Eb & Hall & _ & _ & _); [|done..].
  rewrite !Forall_cons in Hall. destruct Hall as (? & ? & ? & ? & ? & ? & _).
  eapply (refresh_mints _ _ _ _ _ _ _ _ _ _ _ (collateral_vault (w_market w))) in Hl3 as [Hmv [gc ->]];
    [| |repeat constructor; rlia|exact Hl1|exact Hl2]; [|by destruct Hinv].
  eapply (preserved_market now _ _ _ _ Hpv1).
  - by repeat constructor.
  - by constructor.
  - eapply moved_eq; [exact Hmv| |]; unfold tracked, backed_by, backed; cbn; lia.
Qed.

Lemma settle_preserved now w authority ata amount m' l' : invariant w -> w_now w <= now -> 
  settle_bad_debt (w_gate w) authority ata (w_market w) (w_ledger w) amount = Ok (m', l') ->
  preserved now w (w <| w_market := m' |> <| w_ledger := l' |>).
Proof.
  intros Hinv Hle H. unfold settle_bad_debt in H. bind H as ? Hk. bind H as ? Ha. bind H as ? Hpos.
  bind H as ? Hb. bind H as l1 Hl. bind H as bad Hbad. injection H as <- <-.
  inv_ok Hb. inv_ok Hl. inv_ok Hbad. inv_ok Hpos. unfold supply_settle_bad_debt in Hbad. cbn in Hbad. checked. subst.
  pose proof Hinv as [[[] _ _ _ _ _ _] _ _ _ Hvm _ _].
  apply (preserved_market now w w); [by apply preserved_refl|by repeat constructor|by constructor|].
  apply (burn_elsewhere (collateral_vault (w_market w))) in Hl; [|done].
  eapply moved_eq; [exact Hl| |]; unfold tracked, backed_by, backed; cbn; lia.
Qed.

Lemma shutdown_preserved clk w m' : let now := unix_timestamp clk in
  invariant w -> timestamp now -> w_now w <= now ->
  shutdown_market clk (w_market w) = Ok m' -> preserved now w (w <| w_market := m' |>).
Proof.
  intros now Hinv Hn Hle H. unfold shutdown_market in H. fold now in H. bind H as ? Hs. bind H as m1 Hm1.
  bind H as ? Hc. injection H as <-.
  destruct (accrue_preserved _ _ _ Hinv Hn Hle Hm1) as [Hpv1 Hok1]. pose proof Hok1 as [].
  refine (preserved_flags now w (w <| w_market := m1 |>) (m1 <| shutdown := true |>
    <| shutdown_reason := _ |>) Hpv1 _ _ _ _); [by repeat constructor|by constructor|done|done].
Qed.

(** Governance moves out of the vault exactly what it takes off the counter. *)
Lemma gov_transfer_Ok k m l amount l' u : recipient_constraints k m l = Ok u ->
  token_transfer l (gk_vault k) (gk_recipient k) (market_pda (collateral_mint m)) amount = Some l' ->
  moved (collateral_vault m) fusd_mint l l' (- amount) 0.
Proof.
  intros Hk H. unfold recipient_constraints in Hk. bind Hk as ? Hv. bind Hk as ? Hm. inv_ok Hv. inv_ok Hk.
  apply (moved_transfer (collateral_vault m) fusd_mint) in H. rewrite Hv in H.
  eapply moved_eq; [exact H| |done]. repeat case_bool_decide; try lia; congruence.
Qed.

Lemma withdraw_surplus_preserved now w k amount m' l' : invariant w -> w_now w <= now ->
  withdraw_surplus (w_gate w) k (w_market w) (w_ledger w) amount = Ok (m', l') ->
  preserved now w (w <| w_market := m' |> <| w_ledger := l' |>).
Proof.
  intros Hinv Hle H. unfold withdraw_surplus in H. bind H as ? Hk. bind H as ? Ha. bind H as ? Hpos.
  bind H as ? Hb. bind H as sc Hsc. bind H as l1 Hl. bind H as ? Hsuf. injection H as <- <-.
  inv_ok Hsc. inv_ok Hl. checked. subst. pose proof Hinv as [[[] _ _ _ _ _ _] _ _ _ _ _ _].
  apply (preserved_market now w w); [by apply preserved_refl|by repeat constructor|by constructor|].
  eapply moved_eq; [eapply gov_transfer_Ok; done| |]; unfold tracked, backed_by; cbn; lia.
Qed.

Lemma sweep_preserved now w k amount m' l' : invariant w -> w_now w <= now ->
  sweep_protocol_collateral (w_gate w) k (w_market w) (w_ledger w) amount = Ok (m', l') ->
  preserved now w (w <| w_market := m' |> <| w_ledger := l' |>).
Proof.
  intros Hinv Hle H. unfold sweep_protocol_collateral in H. bind H as ? Hk. bind H as ? Ha. bind H as ? Hpos.
  bind H as ? Hb. bind H as pc Hpc. bind H as l1 Hl. bind H as ? Hsuf. injection H as <- <-.
  inv_ok Hpc. inv_ok Hl. checked. subst. pose proof Hinv as [[[] _ _ _ _ _ _] _ _ _ _ _ _].
  apply (preserved_market now w w); [by apply preserved_refl|by repeat constructor|by constructor|].
  eapply moved_eq; [eapply gov_transfer_Ok; done| |]; unfold tracked, backed_by; cbn; lia.
Qed.

(** Flags, prices and parameters are outside the books. *)
Record reconfigured (m m' : Market) : Prop := {
  rc_books : same_books m m';
  rc_ok : market_ok m -> market_ok m';
  rc_tracked : tracked m' = tracked m;
  rc_backed : backed_by m' = backed_by m;
}.

Lemma config_preserved now w m' : invariant w -> w_now w <= now -> reconfigured (w_market w) m' ->
  preserved now w (w <| w_market := m' |>).
Proof.
  intros Hinv Hle [Hb Hok Ht Hk]. pose proof Hinv as [[Hmo _ _ _ _ _ _] _ _ _ _ _ _].
  apply preserved_flags; try done; [by apply preserved_refl|by apply Hok].
Qed.

(** Each field outside the books. *)
Lemma reconf_refl m : reconfigured m m.
Proof. split; [by repeat constructor|done..]. Qed.

Lemma reconf_trans m1 m2 m3 : reconfigured m1 m2 -> reconfigured m2 m3 -> reconfigured m1 m3.
Proof.
  intros [[[] [] ? ? ? ? ?] ? ? ?] [[[] [] ? ? ? ? ?] ? ? ?].
  split; [repeat constructor; congruence|auto|congruence..].
Qed.

(** A market that differs in one field outside the books. *)
Ltac reconf := split; [by repeat constructor|intros []; by constructor|done|done].

Lemma reconf_commit m s d sl : u128 s -> u128 d -> reconfigured m (commit_fresh_spot m s d sl).
Proof.
  intros Hs Hd. unfold commit_fresh_spot. cbv zeta.
  apply (reconf_trans _ (if (0 <? spot m) && (MAX_PRICE_STALENESS_SLOTS <? sat_sub sl (spot_updated_slot m))
    then m <| liq_grace_until := Z.max (liq_grace_until m) (sat_add64 sl LIQ_RESUME_GRACE_SLOTS) |> else m)).
  - destruct (_ && _); [reconf|apply reconf_refl].
  - reconf.
Qed.

(** ** Reactor-Pool instructions *)

(** A depositor's instruction moves tokens between the pool and the depositor only. *)
Record pool_effect (vault : Pubkey) (x x' : Depositing) : Prop := {
  pe_ledger : moved vault fusd_mint (dp_ledger x) (dp_ledger x') 0 0;
  pe_vault : rp_coll_vault (dp_pool x') = rp_coll_vault (dp_pool x);
  pe_deposits : u128 (rp_total_deposits (dp_pool x'));
}.

Lemma pool_preserved now w owner f w' : invariant w -> w_now w <= now ->
  (forall x x', dp_ledger x = w_ledger w -> dp_pool x = w_pool w -> f x = Ok x' ->
     pool_effect (collateral_vault (w_market w)) x x') ->
  deposit_world w owner f = Ok w' -> preserved now w w'.
Proof.
  intros [] Hle Hf H. unfold deposit_world in H. bind H as dep Hdep. bind H as x Hx. injection H as <-.
  apply Hf in Hx as [Hmv Hv Hd]; [|done|done]. cbn in *.
  constructor; cbn; rewrite ?Z.sub_diag; try done; [lia|]. intros Hh. rewrite Hv. split; [by apply iv_pool0|done].
Qed.

Lemma provide_effect k g x amount x' vault : tok_mint (dp_ledger x) vault <> fusd_mint ->
  provide_to_reactor k g x amount = Ok x' -> pool_effect vault x x'.
Proof.
  intros Hv H. unfold provide_to_reactor in H. bind H as ? Hk. bind H as ? Hata. bind H as ? Hpos.
  bind H as [dep c] Hre. bind H as nd Hnd. bind H as l Hl. bind H as tot Htot. injection H as <-.
  inv_ok Hl. inv_ok Htot. checked. subst. unfold ata_constraints in Hata. bind Hata as ? Hm. inv_ok Hm.
  constructor; cbn; [|done|rlia]. eapply transfer_elsewhere; [done| |done]. by left.
Qed.

Lemma withdraw_pool_effect k g x amount x' vault : tok_mint (dp_ledger x) vault <> fusd_mint ->
  withdraw_from_reactor k g x amount = Ok x' -> pool_effect vault x x'.
Proof.
  intros Hv H. unfold withdraw_from_reactor in H. bind H as ? Hk. bind H as ? Hata. bind H as ? Hpos.
  bind H as [dep c] Hre. bind H as l Hl. bind H as tot Htot. bind H as rest Hrest. bind H as rem Hrem.
  injection H as <-. inv_ok Htot. checked. subst. unfold ata_constraints in Hata. bind Hata as ? Hm. inv_ok Hm.
  constructor; cbn; [|done|rlia]. split_if Hl; [|injection Hl as <-; apply moved_refl].
  inv_ok Hl. eapply transfer_elsewhere; [done| |done]. by right.
Qed.

Lemma claim_gains_effect k g x x' vault auth : tok_owner (dp_ledger x) vault = auth ->
  dk_owner k <> auth -> rp_coll_vault (dp_pool x) <> vault -> u128 (rp_total_deposits (dp_pool x)) ->
  claim_reactor_gains k g x = Ok x' -> pool_effect vault x x'.
Proof.
  intros Hv Hs Hne Hd H. unfold claim_reactor_gains in H. bind H as ? Hk. bind H as ? Hata.
  bind H as [dep c] Hre. bind H as du Hdu. unfold ata_constraints in Hata. bind Hata as ? Hm. inv_ok Hata.
  cbv zeta in H. split_if H;
    [|injection H as <-; constructor; [apply moved_refl|done|done]].
  bind H as l Hl. injection H as <-. inv_ok Hl. constructor; cbn; [|done|done].
  apply (moved_transfer vault fusd_mint) in Hl. eapply moved_eq; [exact Hl| |done].
  repeat case_bool_decide; try lia; congruence.
Qed.

(** ** Every instruction *)

Lemma reconf_divergence clk m r : reconfigured m (commit_divergence clk m r).
Proof.
  unfold commit_divergence. cbv zeta. destruct (or_liq_divergent r); reconf.
Qed.

Lemma reconf_rate clk m o rate : reconfigured m (commit_rate clk m o rate).1.
Proof.
  unfold commit_rate. destruct rate; [|apply reconf_refl]. cbn [fst].
  destruct (_ && _); [reconf|apply reconf_refl].
Qed.

Lemma spot_range usd c f s : usd_ray_to_spot usd c f = Some s -> u128 s.
Proof.
  unfold usd_ray_to_spot. intros H. inv_ok H. rewrite u256_try_u128_val in H. by apply fit_Some in H as [-> ?].
Qed.

Lemma reconf_update clk cfg k m o ring m' o' : update_price clk cfg k m o ring = Ok (m', o') ->
  reconfigured m m'.
Proof.
  intros H. unfold update_price in H. cbv zeta in H. bind H as pv Hpv. bind H as sb Hsb. bind H as views Hvw.
  destruct views as [[[rate pv'] sb']|]; [|injection H as <- <-; reconf].
  bind H as can Hcan. unfold commit_price in H. cbv zeta in H.
  split_if H; [|injection H as <- <-; apply reconf_divergence].
  bind H as ray Hray. bind H as s Hs. bind H as d Hd. inv_ok Hs. inv_ok Hd.
  split_if H; [|injection H as <- <-; apply reconf_divergence].
  apply (inj Ok) in H. apply (f_equal fst) in H. cbn [fst] in H. subst m'.
  eapply reconf_trans; [apply reconf_divergence|]. eapply reconf_trans; [|apply reconf_rate].
  apply reconf_commit; by eapply spot_range.
Qed.

Lemma as_u16_range v : u16 (as_u16 v).
Proof. unfold as_u16. pose proof (Z.mod_pos_bound v 65536). rlia. Qed.

Lemma reconf_grace clk m p v : reconfigured m (arm_mcr_grace clk m p v).
Proof. unfold arm_mcr_grace. destruct (_ && _); [reconf|apply reconf_refl]. Qed.

Lemma reconf_param m o p v : reconfigured m (apply_param m o p v).1.
Proof. pose proof (as_u16_range v). destruct p; cbn [apply_param fst]; reconf. Qed.

Lemma reconf_execute clk op m o m' o' : execute_param clk op m o = Ok (m', o') -> reconfigured m m'.
Proof.
  intros H. unfold execute_param in H. do 3 (bind H as ? Hc; clear Hc).
  apply (inj Ok) in H. apply (f_equal fst) in H. cbn [fst] in H. subst m'.
  eapply reconf_trans; [apply reconf_grace|apply reconf_param].
Qed.

(** The auto-line accrues the market and moves its ceiling. *)
Lemma line_preserved now w m1 line gap w' : invariant w -> timestamp now -> w_now w <= now ->
  accrue (w_market w) now = Ok m1 -> w_market w' = apply_line line gap m1 -> w_positions w' = w_positions w ->
  w_bitmap w' = w_bitmap w -> w_pool w' = w_pool w -> w_ledger w' = w_ledger w ->
  has_pool (w_created w') = has_pool (w_created w) -> preserved now w w'.
Proof.
  intros Hinv Hn Hle Hm Em Ep Eb Eo El Eh. destruct (accrue_preserved _ _ _ Hinv Hn Hle Hm) as [Hpv Hok].
  eapply (preserved_frame now w (w <| w_market := apply_line line gap m1 |>)); [|done..].
  pose proof Hok as [].
  refine (preserved_flags now w (w <| w_market := m1 |>) (apply_line line gap m1) Hpv _ _ _ _);
    [by repeat constructor|by constructor|done|done].
Qed.

(** A program address of the market does not sign. *)
Lemma signer_not_market clk i w : admissible clk i w ->
  System.signer i <> Some (market_pda (collateral_mint (w_market w))).
Proof. intros [_ _ _ H] E. apply H in E. by rewrite own_pda_market in E. Qed.

Lemma exec_preserved clk i w w' : invariant w -> admissible clk i w -> exec clk i w = Ok w' ->
  preserved (unix_timestamp clk) w w'.
Proof.
  intros Hinv Had H. pose proof (signer_not_market _ _ _ Had) as Hsig. destruct Had as [Hn Hle Harg _]. apply exec_Ok in H as [Hload H]. set (now := unix_timestamp clk) in *. pose proof Hinv as [].
  destruct i; cbn [System.signer arg_ok] in Hsig, Harg; cbn [handle] in H;
    lazymatch type of H with
    | touch_world _ _ _ = _ =>
        eapply touch_preserved; [done|done|done| |exact H]; intros t t' Htok Et Ht;
        rewrite <- Et in Hsig
    | redeem_world _ _ = _ =>
        eapply redeem_preserved; [done|done|done| |exact H]; intros x x' Hxok Ex Hx; rewrite <- Ex in Hsig
    | deposit_world _ _ _ = _ =>
        eapply pool_preserved; [done|done| |exact H]; intros x x' El Ep Hx; rewrite <- El, <- ?Ep in *
    | _ => idtac
    end.
  - bind H as ? Hnone. bind H as ? Hoth. bind H as [p l] Hop. injection H as <-. inv_ok Hnone.
    by eapply open_preserved.
  - bind H as p Hp. bind H as l Hcl. injection H as <-. unfold load_position in Hp. inv_ok Hp.
    by eapply close_preserved.
  - eapply deposit_touch; [done| |exact Ht]. congruence.
  - eapply withdraw_touch; [done| |exact Ht]. congruence.
  - eapply borrow_touch; [done| |exact Ht]. congruence.
  - eapply repay_touch; [done| |exact Harg|exact Ht]. congruence.
  - eapply adjust_rate_touch; [done|exact Ht].
  - bind H as p Hp. bind H as [[m p'] l] Hcl. injection H as <-. unfold load_position in Hp. inv_ok Hp.
    eapply claim_surplus_preserved; [done|done| |done|done]. congruence.
  - cbn in Hload. propify. eapply liquidate_preserved; [done|done|done|done| |done]. congruence.
  - eapply redeem_effect; [done|exact Harg| |exact Hx]. congruence.
  - eapply urgent_effect; [done|exact Harg| |exact Hx]. congruence.
  - bind H as x Hx. injection H as <-. apply refresh_preserved in Hx; [|done..].
    by eapply preserved_frame.
  - unfold market_world in H. bind H as [m l] Hm. injection H as <-. by eapply settle_preserved.
  - bind H as m Hm. injection H as <-. by apply shutdown_preserved.
  - bind H as [b l] Hb. injection H as <-. eapply ledger_preserved; [done|done| |done..]. unfold fund_buffer in Hb.
    bind Hb as ? Hata. bind Hb as ? Hpos. bind Hb as l1 Hl. bind Hb as fd Hfd. injection Hb as <- <-. inv_ok Hl.
    unfold ata_constraints in Hata. bind Hata as ? Hm. inv_ok Hm. eapply transfer_elsewhere; [done|by left|done].
  - unfold market_world in H. bind H as [m l] Hm. injection H as <-. by eapply withdraw_surplus_preserved.
  - unfold market_world in H. bind H as [m l] Hm. injection H as <-. by eapply sweep_preserved.
  - bind H as m Hm. injection H as <-. unfold guardian_derisk in Hm. bind Hm as ? Ha. bind Hm as ? Hb.
    apply (inj Ok) in Hm. subst m. apply config_preserved; [done|done|reconf].
  - bind H as m Hm. injection H as <-. unfold dev_set_price in Hm. bind Hm as ? Ha.
    apply (inj Ok) in Hm. subst m. apply config_preserved; [done|done|].
    eapply reconf_trans; [by apply (reconf_commit _ new_spot new_spot (slot clk))|reconf].
  - bind H as ? Hnone. injection H as <-. by eapply unchanged_preserved.
  - eapply provide_effect; [done|exact Hx].
  - eapply withdraw_pool_effect; [done|exact Hx].
  - destruct (iv_pool0 Hload). eapply claim_gains_effect; [done| |done|done|exact Hx]. congruence.
  - unfold price_world in H. bind H as [m o] Hm. injection H as <-. apply reconf_update in Hm.
    eapply preserved_frame; [by apply config_preserved|done..].
  - bind H as ring Hring. injection H as <-. by eapply unchanged_preserved.
  - unfold queue_world in H. bind H as ? Hnone. bind H as [g op] Hq. injection H as <-. by eapply unchanged_preserved.
  - unfold execute_world in H. bind H as op Hop. bind H as [m o] Hm. injection H as <-.
    apply reconf_execute in Hm. eapply preserved_frame; [by apply config_preserved|done..].
  - unfold cancel_world in H. bind H as op Hop. bind H as ? Hc. injection H as <-. by eapply unchanged_preserved.
  - unfold gate_world in H. bind H as g Hg. injection H as <-. by eapply unchanged_preserved.
  - unfold gate_world in H. bind H as g Hg. injection H as <-. by eapply unchanged_preserved.
  - unfold config_world in H. bind H as c Hc. injection H as <-. by eapply unchanged_preserved.
  - unfold config_world in H. bind H as c Hc. injection H as <-. by eapply unchanged_preserved.
  - unfold config_world in H. bind H as c Hc. injection H as <-. by eapply unchanged_preserved.
  - unfold price_world in H. bind H as [m o] Hm. injection H as <-. unfold rebind_feeds in Hm. cbv zeta in Hm.
    do 5 (bind Hm as ? Hc; clear Hc). injection Hm as <- <-.
    eapply preserved_frame; [apply (config_preserved now w); [done|done|]|done..]; reconf.
  - unfold config_world in H. bind H as c Hc. injection H as <-. by eapply unchanged_preserved.
  - bind H as ? Hnone. unfold line_world in H. bind H as [m dl] Hl. injection H as <-. unfold init_line in Hl.
    bind Hl as ? H1. bind Hl as ? H2. bind Hl as m1 Hm. injection Hl as <- <-. by eapply line_preserved.
  - bind H as dl Hdl. unfold line_world in H. bind H as [m dl'] Hl. injection H as <-. unfold set_line in Hl.
    bind Hl as ? H1. bind Hl as ? H2. bind Hl as m1 Hm. injection Hl as <- <-. by eapply line_preserved.
  - bind H as dl Hdl. unfold line_world in H. bind H as [m dl'] Hl. injection H as <-. unfold bump_line in Hl.
    bind Hl as ? H1. bind Hl as m1 Hm. injection Hl as <- <-. by eapply line_preserved.
  - bind H as ? Hnone. bind H as ? Hv. bind H as b Hb. injection H as <-. by eapply unchanged_preserved.
  - bind H as b Hb. unfold reserve_world in H. bind H as [b' l] Hf. injection H as <-. eapply ledger_preserved; [done|done| |done..].
    unfold fund_backstop in Hf. bind Hf as ? Hata. bind Hf as ? Hpos. bind Hf as l1 Hl. bind Hf as tc Htc.
    injection Hf as <- <-. inv_ok Hl. unfold ata_constraints in Hata. bind Hata as ? Hm. inv_ok Hm.
    eapply transfer_elsewhere; [done|by left|done].
  - bind H as b Hb. unfold reserve_world in H. bind H as [b' l] Hf. injection H as <-. eapply ledger_preserved; [done|done| |done..].
    unfold withdraw_excess in Hf. bind Hf as ? Hm. do 4 (bind Hf as ? Hx; clear Hx). bind Hf as l1 Hl. bind Hf as tc Htc.
    injection Hf as <- <-. inv_ok Hl. inv_ok Hm. eapply transfer_elsewhere; [done|by right|done].
  - unfold queue_global_world in H. bind H as ? Hnone. bind H as [g op] Hq. injection H as <-. by eapply unchanged_preserved.
  - unfold execute_global_world in H. bind H as op Hop. bind H as b Hb. bind H as b' Hb'. injection H as <-.
    by eapply unchanged_preserved.
  - unfold cancel_global_world in H. bind H as op Hop. bind H as ? Hc. injection H as <-. by eapply unchanged_preserved.
  - bind H as ? Hv1. bind H as ? Hv2. bind H as [[m pool] sums] Hin. injection H as <-. unfold init_reactor_pool in Hin.
    bind Hin as ? Ha. injection Hin as <- <- <-. unfold new_vault in Hv2. inv_ok Hv2. propify.
    assert (preserved now w (w <| w_market := (w_market w) <| liq_infra_flags :=
      Z.lor (liq_infra_flags (w_market w)) LIQ_INFRA_REACTOR_POOL |> |>)) as [] by (apply config_preserved; [done|done|reconf]).
    constructor; cbn in *; try done. intros _. split; [|rlia]. intros E. rewrite E in *.
    destruct (pda_families (collateral_mint (w_market w)) (collateral_mint (w_market w))). congruence.
  - bind H as ? Hv1. bind H as [m b] Hin. injection H as <-. unfold init_insurance_buffer in Hin.
    bind Hin as ? Ha. injection Hin as <- <-.
    eapply preserved_frame; [apply (config_preserved now w); [done|done|]|done..]; reconf.
  - bind H as ? Hk. bind H as [o ring] Hin. injection H as <-. by eapply unchanged_preserved.
Qed.

End system_proofs.
