(* ===== verification/Reserve.v ===== *)
(** * The backstop reserve covers its counters

    No instruction of any market takes more out of the reserve's vault than it records:
    the balance never falls below what was contributed less what was absorbed and
    withdrawn. *)

From S2P Require Import Prelude MachineInt FixedPoint Interest Redistribution ReactorMath Recovery.
From S2P Require Import SupplyTransition Cdp State Token Accrual Bucket PositionOps World Reactor Liquidate.
From S2P Require Import LiquidateProofs Redeem MarketOps ReactorOps Init Twap Governance CeilingLine Backstop.
From S2P Require Import OracleAdmin UpdatePrice System Frames Confined SystemProofs.

Open Scope Z_scope.

(** A step whose updates leave a component alone. *)
Ltac no_ledger_if :=
  cbv beta zeta;
  lazymatch goal with
  | |- post _ (Ok _) => apply post_ok; reflexivity
  | |- post _ (_ ≫= _) => apply post_any; intros ?; no_ledger_if
  | |- post _ (let '(_, _) := ?a in _) => destruct a; no_ledger_if
  | |- post _ (if ?b then _ else _) => destruct b; no_ledger_if
  end.

Section reserve.
Context {U : U256} {R : Runtime} {K : OracleSdk}.

(** What the vault holds beyond the counters. *)
Definition reserve_gap (b : GlobalBackstopReserve) (l : ledger) : Z :=
  tok_amount l (bs_fusd_vault b) - (bs_total_contributed b - bs_total_absorbed b - bs_total_withdrawn b).

Record reserve_ok (b : GlobalBackstopReserve) (l : ledger) : Prop := {
  ro_owner : tok_owner l (bs_fusd_vault b) = backstop_pda;
  ro_gap : 0 <= reserve_gap b l;
}.

(** A step that does not reach the reserve. *)
Lemma reserve_untouched (P : Pubkey -> Prop) b l l' : confined P l l' -> ~ P backstop_pda ->
  reserve_ok b l -> reserve_ok b l'.
Proof.
  intros [Ho _ Ha] Hn [Eo Hg]. split; [by rewrite Ho|]. unfold reserve_gap in *.
  specialize (Ha (bs_fusd_vault b)). rewrite Eo in Ha. specialize (Ha Hn). lia.
Qed.

(** Up to the waterfall, a liquidation pays the liquidator out of the market's vault. *)
Lemma trace_gas P clk k x x' m1 p1 m2 p2 seize gas dist ga sp cr sd l1 x4 x5 p6 l6 m7 a :
  liq_trace clk k x x' m1 p1 m2 p2 seize gas dist ga sp cr sd l1 x4 x5 p6 l6 m7 a ->
  P (market_pda (collateral_mint (lq_market x))) ->
  collateral_mint m2 = collateral_mint (lq_market x) /\ confined P (lq_ledger x) l1.
Proof.
  intros [] HP. assert (collateral_mint m2 = collateral_mint (lq_market x)) as Ec.
  { apply remove_victim_frame in lt_victim. apply accrue_frame in lt_accrue. cbn in lt_victim.
    by rewrite (st_mint _ _ lt_victim), (st_mint _ _ lt_accrue). }
  split; [done|]. revert lt_gas_paid. generalize l1. rewrite Ec.
  change (post (confined P (lq_ledger x)) (if 0 <? gas / 10000 then
      g ← math (try_u64 (gas / 10000)); cpi (token_transfer (lq_ledger x) (collateral_vault (lq_market x)) (lk_coll_ata k)
        (market_pda (collateral_mint (lq_market x))) g) else Ok (lq_ledger x))).
  ledger_step.
Qed.

(** ** Liquidation *)

Section liquidation.
(** The reserve as the liquidation holds it, or as it is when it was not passed. *)
Variable b0 : GlobalBackstopReserve.
Definition reserve_liq (x : Liq) : Prop := reserve_ok (default b0 (lq_backstop x)) (lq_ledger x).

Lemma market_not_backstop c : ~ market_owned c backstop_pda.
Proof. intros [E|[E|E]]; symmetry in E; revert E; apply pda_backstop. Qed.

Lemma reserve_liq_confined c x x' : liq_kept (market_owned c) x x' -> lq_backstop x' = lq_backstop x ->
  reserve_liq x -> reserve_liq x'.
Proof.
  intros [_ Hc] Eb Hr. unfold reserve_liq. rewrite Eb. eapply reserve_untouched; [exact Hc|apply market_not_backstop|done].
Qed.

(** Tier 3.5 burns from the vault what it adds to the counter. *)
Lemma reserve_backstop_phase k x a x' : reserve_liq x ->
  (0 < a -> forall b, lq_backstop x = Some b -> lk_backstop_vault k = Some (bs_fusd_vault b)) ->
  liq_backstop k x a = Ok x' -> reserve_liq x'.
Proof.
  intros Hr Hv H. unfold liq_backstop in H. destruct (Z.ltb_spec 0 a); [|by injection H as <-].
  bind H as n Hn. bind H as b Hb. bind H as v Hvk. bind H as l Hl. bind H as dr Hdr. bind H as ab Hab.
  apply (inj Ok) in H. subst x'. inv_ok Hn. inv_ok Hb. inv_ok Hvk. inv_ok Hl. inv_ok Hab. checked.
  unfold try_u64 in Hn. checked. subst. specialize (Hv ltac:(done) b Hb). rewrite Hvk in Hv. injection Hv as ->.
  apply burn_law in Hl as (_ & _ & Hle & Ham & _ & Hs). unfold reserve_liq in Hr. rewrite Hb in Hr. cbn in Hr. destruct Hr as [Eo Hg].
  split; cbn; [by destruct (Hs (bs_fusd_vault b)) as [-> _]|].
  unfold reserve_gap in *. cbn. rewrite Ham, bool_decide_true by done. lia.
Qed.

(** The phases that leave the reserve's account alone. *)
Definition backstop_same (x x' : Liq) : Prop := lq_backstop x' = lq_backstop x.
Lemma reactor_backstop x a c : post (backstop_same x) (liq_reactor x a c).
Proof. unfold liq_reactor, backstop_same. no_ledger_if. Qed.
Lemma buffer_backstop x a : post (backstop_same x) (liq_buffer x a).
Proof. unfold liq_buffer, backstop_same. no_ledger_if. Qed.

Lemma reserve_remainder k x split cr x' : reserve_liq x ->
  (0 < ab_global split -> forall b, lq_backstop x = Some b -> lk_backstop_vault k = Some (bs_fusd_vault b)) ->
  liq_remainder k x split cr = Ok x' -> reserve_liq x'.
Proof.
  intros Hr Hv H. unfold liq_remainder in H.
  destruct (0 <? ab_redist split); [bind H as m Hm; apply (inj Ok) in H; by subst x'|].
  destruct (_ || _); [|by injection H as <-]. bind H as cu Hcu. bind H as pc Hpc. cbv zeta in H.
  bind H as x1 Hx1. bind H as x2 Hx2. apply (inj Ok) in H. subst x'.
  change (reserve_liq x2). pose proof (buffer_backstop _ _ _ Hx1) as Eb. unfold backstop_same in Eb. cbn in Eb.
  apply (buffer_confined (market_owned (collateral_mint (lq_market x)))) in Hx1; [|unfold market_owned; cbn; auto].
  eapply reserve_backstop_phase; [|by rewrite Eb|exact Hx2]. by eapply reserve_liq_confined.
Qed.

Lemma reserve_liquidate clk k x x' : reserve_liq x -> liquidate clk k x = Ok x' -> reserve_liq x'.
Proof.
  intros Hr H. apply liquidate_run in H as (m1 & p1 & m2 & p2 & seize & gas & dist & ga & sp & cr & sd & l1 &
    x4 & x5 & p6 & l6 & m7 & a & Htr). pose proof Htr as []. destruct lt_result as (E1 & E2 & E3).
  set (c := collateral_mint (lq_market x)). set (P := market_owned c).
  destruct (trace_gas P _ _ _ _ _ _ _ _ _ _ _ _ _ _ _ _ _ _ _ _ _ _ Htr) as [Ec H1]; [unfold P, market_owned; auto|].
  pose proof (reactor_backstop _ _ _ _ lt_pool) as Eb4. unfold backstop_same in Eb4. cbn in Eb4.
  apply (reactor_confined P) in lt_pool as [_ H4]; [|unfold P, market_owned; cbn; rewrite Ec; auto..]. cbn in H4.
  assert (reserve_liq x4) as Hr4.
  { unfold reserve_liq. rewrite Eb4. eapply reserve_untouched; [|apply (market_not_backstop c)|exact Hr]. by etransitivity. }
  apply reserve_remainder in lt_rest; [|done|].
  - apply (close_victim_confined P) in lt_close. cbn in lt_close. unfold reserve_liq. rewrite lt_backstop, E2.
    eapply reserve_untouched; [exact lt_close|apply market_not_backstop|exact lt_rest].
  - intros Hpos b Hb. rewrite Eb4 in Hb. unfold liq_global_available in lt_global. rewrite Hb in lt_global.
    destruct (lk_backstop_vault k) as [v|].
    + bind lt_global as u Hu. apply check_Ok in Hu. propify. by subst.
    + injection lt_global as <-. rewrite lt_split in Hpos.
      pose proof (absorb_global_le (recorded_debt p1) (rp_total_deposits (lq_pool x)) (0 <? total_stakes m2)
        (tok_amount (lq_ledger x) (ib_fusd_vault (lq_buffer x))) 0). lia.
Qed.

End liquidation.

(** ** The interest cut, and the reserve's own instructions *)

(** The cut is minted into the vault and recorded. *)
Lemma reserve_mint k m b l c m2 bs2 l2 : 0 <= c <= U64_MAX -> reserve_ok b l ->
  (0 < c -> fk_backstop_vault k = Some (bs_fusd_vault b)) ->
  refresh_mint_backstop k m (Some b) l c = Ok (m2, bs2, l2) -> exists b2, bs2 = Some b2 /\ reserve_ok b2 l2.
Proof.
  intros Hc [Eo Hg] Hv H. unfold refresh_mint_backstop in H. destruct (Z.ltb_spec 0 c) as [Hpos|]; [|by injection H as <- <- <-; exists b].
  rewrite (Hv Hpos) in H. bind H as v Hvk. bind H as l4 Hl4. bind H as gc Hgc. bind H as b4 Hb4. bind H as tc Htc.
  injection H as <- <- <-. inv_ok Hvk. inv_ok Hl4. inv_ok Hb4. inv_ok Htc. checked. subst.
  unfold as_u64 in Hl4. rewrite Z.mod_small in Hl4 by rlia. apply mint_to_law in Hl4 as (_ & _ & Ham & _ & Hs).
  eexists. split; [done|]. split; cbn; [by rewrite (proj1 (Hs _))|].
  unfold reserve_gap in *. cbn. rewrite Ham, bool_decide_true by done. lia.
Qed.

(** The cut needs the reserve's vault, which is then its own. *)
Lemma refresh_backstop_Ok bs v l cut head : refresh_backstop bs v l = Ok (cut, head) ->
  0 <= head /\ (v = bs_fusd_vault <$> bs \/ cut = 0).
Proof.
  intros Hbs. unfold refresh_backstop in Hbs.
  destruct bs as [b|], v as [v|]; try (injection Hbs as <- <-; split; [rlia|by right]).
  bind Hbs as ? Hv. injection Hbs as <- <-. apply check_Ok in Hv. propify. subst v. split; [rlia|by left].
Qed.

Lemma reserve_refresh clk k w b x : invariant w -> timestamp (unix_timestamp clk) -> w_now w <= unix_timestamp clk ->
  reserve_ok b (w_ledger w) ->
  refresh_market clk k (mkRefresh (w_market w) (w_buffer w) (Some b) (w_ledger w)) = Ok x ->
  exists b', rf_backstop x = Some b' /\ reserve_ok b' (rf_ledger x).
Proof.
  intros Hinv Hn Hle Hr H. unfold refresh_market in H. cbn in H. bind H as ? Hk. bind H as m1 Hm1.
  destruct (accrue_preserved _ _ _ Hinv Hn Hle Hm1) as [_ []].
  destruct (Z.eqb_spec (unminted_interest m1) 0); [injection H as <-; by exists b|].
  bind H as [cut head] Hbs. bind H as d Hd. bind H as l1 Hl1. bind H as l2 Hl2.
  bind H as [[m2 bs2] l3] Hl3. bind H as fd Hfd. injection H as <-. inv_ok Hd.
  destruct (refresh_backstop_Ok (Some b) (fk_backstop_vault k) (w_ledger w) cut head Hbs) as [Hh Hv].
  apply supply_refresh_Ok in Hd as (Ea & Es & Eu & Eb & Hall & _ & _ & Hz); [|done..].
  rewrite !Forall_cons in Hall. destruct Hall as (? & ? & ? & ? & ? & ? & _).
  set (P := fun _ : Pubkey => False).
  assert (confined P (w_ledger w) l1) as Hc1 by (by apply (mint_some_confined P) in Hl1).
  assert (confined P l1 l2) as Hc2.
  { revert Hl2. generalize l2. change (post (confined P l1) (if 0 <? rf_keeper_cut d then
      ata ← no_panic (fk_cranker_ata k); cpi (token_mint_to l1 fusd_mint ata (as_u64 (rf_keeper_cut d))) else Ok l1)).
    ledger_step. }
  apply reserve_mint in Hl3; [done|rlia| |].
  - eapply reserve_untouched; [exact Hc2|by intros []|]. eapply reserve_untouched; [exact Hc1|by intros []|done].
  - intros Hpos. destruct Hv as [Hv| ->]; [done|]. rewrite Hz in Hpos by lia. lia.
Qed.

Lemma reserve_fund a t b l n b' l' : reserve_ok b l -> fund_backstop a t b l n = Ok (b', l') -> a <> backstop_pda ->
  reserve_ok b' l'.
Proof.
  intros [Eo Hg] H Ha. unfold fund_backstop in H. bind H as ? Hata. bind H as ? Hpos. bind H as l1 Hl. bind H as tc Htc.
  injection H as <- <-. inv_ok Hl. inv_ok Htc. checked. subst. apply transfer_law in Hl as (Hs & _ & Hn & Ham & _ & Hown).
  split; cbn; [by destruct (Hown (bs_fusd_vault b)) as [-> _]|]. unfold reserve_gap in *. cbn. rewrite Ham.
  rewrite bool_decide_false, bool_decide_true by congruence. lia.
Qed.

Lemma reserve_withdraw g a t b l n b' l' : reserve_ok b l -> withdraw_excess g a t b l n = Ok (b', l') ->
  reserve_ok b' l'.
Proof.
  intros [Eo Hg] H. unfold withdraw_excess in H. bind H as ? Hm. bind H as ? Ha. bind H as ? Hpos. bind H as ? Hne.
  cbv zeta in H. bind H as ? Hex. bind H as l1 Hl. bind H as tc Htc. injection H as <- <-. inv_ok Hl. inv_ok Htc. checked.
  subst. apply check_Ok in Hne. propify. apply transfer_law in Hl as (Hs & _ & Hn & Ham & _ & Hown).
  split; cbn; [by destruct (Hown (bs_fusd_vault b)) as [-> _]|]. unfold reserve_gap in *. cbn. rewrite Ham.
  rewrite bool_decide_true, bool_decide_false by congruence. lia.
Qed.

(** ** Every instruction *)

Definition reserve_covered (w : World) : Prop := forall b, w_backstop w = Some b -> reserve_ok b (w_ledger w).

Definition touches_reserve (i : Instr) : bool :=
  match i with
  | LiquidateI _ _ | RefreshMarketI _ _ | InitBackstopI _ _ | FundBackstopI _ _ _ | WithdrawBackstopI _ _ _
  | ExecuteGlobalI _ => true
  | _ => false
  end.

Lemma exec_backstop clk i w : touches_reserve i = false ->
  post (fun w' => w_backstop w' = w_backstop w) (exec clk i w).
Proof.
  intros Hi. apply exec_post. destruct i; try discriminate Hi; cbn [handle];
    unfold touch_world, redeem_world, deposit_world, market_world, queue_world, execute_world, cancel_world, gate_world,
      config_world, price_world, line_world, queue_global_world, cancel_global_world; no_ledger.
Qed.

Lemma not_may_debit c i : draws_reserve i = false -> (forall a, signer i = Some a -> own_pda a = false) ->
  ~ may_debit c i backstop_pda.
Proof.
  intros Hd Hs [H|[H|[H _]]]; [by apply market_not_backstop in H| |congruence].
  apply Hs in H. by rewrite own_pda_backstop in H.
Qed.

(** An account that was not passed is not written. *)
Lemma liquidate_backstop clk k x x' : liquidate clk k x = Ok x' -> lq_backstop x = None -> lq_backstop x' = None.
Proof.
  intros H Hn. apply liquidate_run in H as (m1 & p1 & m2 & p2 & seize & gas & dist & ga & sp & cr & sd & l1 &
    x4 & x5 & p6 & l6 & m7 & a & []). pose proof (reactor_backstop _ _ _ _ lt_pool) as E4. unfold backstop_same in E4.
  cbn in E4. rewrite lt_backstop. unfold liq_remainder in lt_rest.
  destruct (0 <? ab_redist a); [bind lt_rest as m Hm; apply (inj Ok) in lt_rest; subst x5; cbn; congruence|].
  destruct (_ || _); [|injection lt_rest as <-; congruence]. bind lt_rest as cu Hcu. bind lt_rest as pc Hpc.
  cbv zeta in lt_rest. bind lt_rest as x1 Hx1. bind lt_rest as x2 Hx2. apply (inj Ok) in lt_rest. subst x5. cbn.
  pose proof (buffer_backstop _ _ _ Hx1) as Eb. unfold backstop_same in Eb. cbn in Eb. unfold liq_backstop in Hx2.
  destruct (0 <? ab_global a); [|injection Hx2 as <-; congruence]. bind Hx2 as n Hn'. bind Hx2 as b Hb. inv_ok Hb. congruence.
Qed.

Lemma refresh_backstop_none clk k x x' : refresh_market clk k x = Ok x' -> rf_backstop x = None -> rf_backstop x' = None.
Proof.
  intros H Hn. unfold refresh_market in H. bind H as ? Hk. bind H as m1 Hm1. cbv zeta in H.
  destruct (unminted_interest m1 =? 0); [by injection H as <-|]. bind H as [cut head] Hbs. bind H as d Hd. bind H as l1 Hl1. bind H as l2 Hl2.
  bind H as [[m2 bs2] l3] Hl3. bind H as fd Hfd. injection H as <-. cbn. rewrite Hn in Hl3.
  unfold refresh_mint_backstop in Hl3. destruct (0 <? rf_backstop_cut d); [|by injection Hl3 as _ <- _].
  do 3 (bind Hl3 as ? Hs; clear Hs). by bind Hl3 as b Hb.
Qed.

Lemma exec_reserve clk i w w' : invariant w -> admissible clk i w -> pool_of_market w -> reserve_covered w ->
  exec clk i w = Ok w' -> reserve_covered w'.
Proof.
  intros Hinv [Hn Hle _ Hsig] Hp Hr H. destruct (touches_reserve i) eqn:Ei.
  2: { intros b Hb. rewrite (exec_backstop _ _ _ Ei _ H) in Hb. pose proof (exec_confined _ _ _ Hp _ H) as Hc. cbn in Hc.
       eapply reserve_untouched; [exact Hc| |by apply Hr]. apply not_may_debit; [by destruct i|done]. }
  apply exec_Ok in H as [Hload H]. destruct i; try discriminate Ei; cbn [handle] in H.
  - unfold liquidate_world in H. bind H as p Hpos. bind H as x Hx. apply (inj Ok) in H. subst w'.
    intros b Hb. cbn in Hb |- *. destruct with_backstop.
    + assert (reserve_liq b x) as Hb'; [|unfold reserve_liq in Hb'; by rewrite Hb in Hb'].
      destruct (w_backstop w) as [b1|] eqn:E1.
      * eapply (reserve_liquidate b); [|exact Hx]. unfold reserve_liq. cbn. by apply Hr.
      * exfalso. pose proof (liquidate_backstop _ _ _ _ Hx eq_refl). congruence.
    + assert (reserve_liq b x) as Hb'.
      { eapply (reserve_liquidate b); [|exact Hx]. unfold reserve_liq. cbn. by apply Hr. }
      unfold reserve_liq in Hb'. by rewrite (liquidate_backstop _ _ _ _ Hx eq_refl) in Hb'.
  - bind H as x Hx. apply (inj Ok) in H. subst w'. intros b Hb. cbn in Hb |- *. destruct with_backstop.
    + destruct (w_backstop w) as [b1|] eqn:E1.
      * apply reserve_refresh in Hx as (b' & E & Ho); [|done|done|done|by apply Hr]. congruence.
      * exfalso. pose proof (refresh_backstop_none _ _ _ _ Hx eq_refl). congruence.
    + eapply reserve_untouched; [by apply (refresh_confined (fun _ => False)) in Hx|by intros []|by apply Hr].
  - bind H as ? Hnone. bind H as ? Hv. bind H as b Hb. apply (inj Ok) in H. subst w'. intros b' [= <-]. cbn.
    unfold init_backstop in Hb. bind Hb as ? Ha. injection Hb as <-. unfold new_reserve_vault, new_vault in Hv. inv_ok Hv. propify.
    split; [done|]. unfold reserve_gap. cbn. lia.
  - bind H as b Hb. unfold reserve_world in H. bind H as [b' l'] Hf. apply (inj Ok) in H. subst w'. intros b2 [= <-]. cbn.
    unfold load_backstop in Hb. inv_ok Hb. eapply reserve_fund; [by apply Hr|exact Hf|]. intros ->.
    specialize (Hsig _ eq_refl). by rewrite own_pda_backstop in Hsig.
  - bind H as b Hb. unfold reserve_world in H. bind H as [b' l'] Hf. apply (inj Ok) in H. subst w'. intros b2 [= <-]. cbn.
    unfold load_backstop in Hb. inv_ok Hb. eapply reserve_withdraw; [by apply Hr|exact Hf].
  - unfold execute_global_world in H. bind H as op Hop. bind H as b Hb. bind H as b' Hb'. apply (inj Ok) in H. subst w'.
    intros b2 [= <-]. cbn. unfold load_backstop in Hb. inv_ok Hb. unfold execute_global in Hb'. bind Hb' as ? H1. bind Hb' as ? H2.
    injection Hb' as <-. destruct (Hr _ Hb) as [Eo Hg]. by destruct (gop_param op).
Qed.

End reserve.
