(* ===== verification/Scenario.v ===== *)
(** * A concrete market

    A market created by its init instructions on a ledger of finite maps, and
    sequences of instructions run on it: the inputs on which the theorems about
    runs are instantiated. *)

From S2P Require Import Prelude MachineInt FixedPoint ReactorMath State Token Bucket PositionOps.
From S2P Require Import Liquidate Redeem MarketOps ReactorOps Init Twap AccountBytes Governance OracleAdmin.
From S2P Require Import UpdatePrice System SystemProofs.

Open Scope Z_scope.

Section exec_all.
Context {U : U256} {R : Runtime} {K : OracleSdk}.

(** Run a sequence of instructions. *)
Fixpoint exec_all (steps : list (Clock * Instr)) (w : World) : result Error World :=
  match steps with
  | [] => Ok w
  | (clk, i) :: steps =>
      w1 ← exec clk i w;
      exec_all steps (w1 <| w_now := unix_timestamp clk |>)
  end.

Definition arg_okb (i : Instr) : bool :=
  match i with
  | DepositI _ n | WithdrawI _ n | BorrowI _ n | RepayI _ n | RedeemI _ n | UrgentRedeemI _ n
  | SettleBadDebtI _ _ n | FundBufferI _ _ n | WithdrawSurplusI _ n | SweepProtocolCollateralI _ n
  | ProvideToReactorI _ n | WithdrawFromReactorI _ n | QueueParamI _ _ _ n
  | FundBackstopI _ _ n | WithdrawBackstopI _ _ n | QueueGlobalI _ _ n => (0 <=? n) && (n <=? U64_MAX)
  | InitCeilingLineI _ line gap _ | SetCeilingLineI _ line gap _ =>
      (0 <=? line) && (line <=? U64_MAX) && (0 <=? gap) && (gap <=? U64_MAX)
  | OpenPositionI _ r | AdjustRateI _ r => (0 <=? r) && (r <=? 65535)
  | DevSetPriceI _ s => (0 <=? s) && (s <=? U128_MAX)
  | InitMarketOracleI _ _ _ args => (0 <=? oa_liq_max_divergence_bps args) && (oa_liq_max_divergence_bps args <=? 65535)
  | _ => true
  end.

Definition admissibleb (clk : Clock) (i : Instr) (w : World) : bool :=
  (0 <=? unix_timestamp clk) && (unix_timestamp clk <=? I64_MAX)
  && (w_now w <=? unix_timestamp clk) && arg_okb i
  && negb (from_option own_pda false (signer i)).

Lemma admissibleb_sound clk i w : admissibleb clk i w = true -> admissible clk i w.
Proof.
  unfold admissibleb. intros H. propify. constructor; try done.
  - destruct i; cbn in *; propify; rlia || done.
  - intros a E. by rewrite E in *.
Qed.

Fixpoint admissible_all (steps : list (Clock * Instr)) (w : World) : bool :=
  match steps with
  | [] => true
  | (clk, i) :: steps =>
      admissibleb clk i w &&
      match exec clk i w with
      | Ok w1 => admissible_all steps (w1 <| w_now := unix_timestamp clk |>)
      | Err _ => false
      end
  end.

Lemma exec_all_run steps : forall w0 d o w w', run w0 d o w -> admissible_all steps w = true ->
  exec_all steps w = Ok w' -> run w0 d o w'.
Proof.
  induction steps as [|[clk i] steps IH]; intros w0 d o w w' Hrun Had H; cbn in *.
  - by injection H as <-.
  - apply andb_true_iff in Had as [Ha Had]. destruct (exec clk i w) as [w1|] eqn:E; [|done]. cbn in H.
    eapply IH; [|exact Had|exact H]. eapply run_instr; [done| |done]. by apply admissibleb_sound.
Qed.

End exec_all.

(** Accounts that do not exist yet. *)
Definition blank_pool : ReactorPool := mkReactorPool 0 0 0 0 0 0 0 0 0 0.
Definition blank_buffer : InsuranceBuffer := mkInsuranceBuffer 0 0 0 0.
Definition blank_oracle : MarketOracle := mkMarketOracle 0 0 0 0 0 0 0 0 0 0 0 0 0 0 0 0 0 0 0 0 0 0 0.
Definition nothing_created : Created := mkCreated false false false.

Module Demo.
Import MapLedger.
#[local] Existing Instance wide_u256.
#[local] Existing Instance runtime.
#[local] Existing Instance PlainSdk.sdk.

(** Mint 1, fUSD mint 999; vaults 10 to 14; Alice 100, Bob 200, with their collateral
    and fUSD token accounts. *)
Definition cfg : ProtocolConfig := mkProtocolConfig 50 51 50 999 0 0 0 0.
Definition gate : GovernanceGate := mkGovernanceGate 50 0 3600 0.
Definition args : InitMarketArgs := mkInitMarketArgs 11000 1000000000000000 20000000 50 1000 10 50.
Definition mint : MintInfo := mkMintInfo 1 9 None.
Definition usdc : MintInfo := mkMintInfo 5 6 None.

(** Feed 77, Switchboard feed 78, Orca pool 79. *)
Definition oracle_args : InitMarketOracleArgs :=
  mkInitMarketOracleArgs 77 78 79 0 200 100 500 60 21200 1800 10 300 0 0 1000 0 false 0.

Definition ledger0 : Ledger := {|
  amounts := list_to_map [(101, 1000000000000); (201, 1000000000000)];
  owners := list_to_map [(10, 1901); (11, 1902); (12, 1902); (14, 1903);
    (101, 100); (102, 100); (201, 200); (202, 200)];
  mints := list_to_map [(10, 1); (11, 999); (12, 1); (14, 999);
    (101, 1); (102, 999); (201, 1); (202, 999)];
  supplies := ∅;
  sol := list_to_map [(100, 1000000000); (200, 1000000000)] |}.

Definition at_time (t : Z) : Clock := mkClock t (t * 2) 0.

Definition born : result Error World :=
  '(m, bm) ← init_market (at_time 1000) cfg 50 mint 10 args;
  Ok (mkWorld m ∅ ∅ bm blank_pool [] ∅ blank_buffer None gate cfg blank_oracle empty_ring None ∅ ∅ ledger0 1000
        nothing_created).

(** The other accounts of the market. *)
Definition creating : list (Clock * Instr) :=
  [ (at_time 1000, InitReactorPoolI 50 11 12 13);
    (at_time 1000, InitInsuranceBufferI 50 14);
    (at_time 1000, InitMarketOracleI 50 mint usdc oracle_args) ].

Definition alice : Accounts := mkAccounts 100 2001100 102 101 10.
Definition bob : Accounts := mkAccounts 200 2001200 202 201 10.

(** Price 0.1 fUSD-native per native unit: 100 dollars for 10^9 units. *)
Definition price : Z := 100000000000000000000000000.

(** Alice deposits before the market is complete. Both borrow; Bob at the higher rate. *)
Definition opening : list (Clock * Instr) :=
  [ (at_time 1000, DevSetPriceI 50 price);
    (at_time 1000, OpenPositionI alice 100);
    (at_time 1000, DepositI alice 10000000000) ] ++ creating ++
  [ (at_time 1000, BorrowI alice 500000000);
    (at_time 1010, OpenPositionI bob 500);
    (at_time 1010, DepositI bob 10000000000);
    (at_time 1020, BorrowI bob 800000000) ].

(** Time passes and interest is minted; the price comes back after the stall, is cranked
    through the grace window, and falls. *)
Definition fall : list (Clock * Instr) :=
  [ (at_time 1000000, DevSetPriceI 50 price);
    (at_time 1000010, RefreshMarketI (mkRefreshAccounts None None) false);
    (at_time 1000100, DevSetPriceI 50 price);
    (at_time 1000200, DevSetPriceI 50 price);
    (at_time 1000300, DevSetPriceI 50 price);
    (at_time 1000400, DevSetPriceI 50 (price * 8 / 10)) ].

Definition falling : list (Clock * Instr) := opening ++ fall.

Definition alice_liquidates : LiqAccounts := mkLiqAccounts 100 2001200 101 None.

(** Bob redeems against both positions, at the opening prices. *)
Definition bob_redeems : RedeemAccounts := mkRedeemAccounts 200 202 201 10 [2001200; 2001100].

(** Bob is liquidated: his debt and collateral go to Alice, who then repays some. *)
Definition crash : list (Clock * Instr) :=
  falling ++
  [ (at_time 1000410, LiquidateI alice_liquidates false);
    (at_time 1000420, RepayI alice 100000000) ].

Definition after (steps : list (Clock * Instr)) : result Error World := w ← born; exec_all steps w.

(** The states themselves. *)
Definition w0 : World.
Proof. let r := eval vm_compute in born in lazymatch r with Ok ?w => exact w end. Defined.

Definition w_open : World.
Proof. let r := eval vm_compute in (after opening) in lazymatch r with Ok ?w => exact w end. Defined.

Definition w_falling : World.
Proof. let r := eval vm_compute in (after falling) in lazymatch r with Ok ?w => exact w end. Defined.

Definition w_crash : World.
Proof. let r := eval vm_compute in (after crash) in lazymatch r with Ok ?w => exact w end. Defined.

Lemma genesis_w0 : genesis w0.
Proof.
  constructor.
  - exists (at_time 1000), 50, mint, args. split; [vm_compute; reflexivity|]. split; [split; vm_compute; congruence|].
    split; [vm_compute; reflexivity|]. repeat constructor; vm_compute; congruence.
  - reflexivity.
  - assert (w_queue w0 = ∅) as -> by (vm_compute; reflexivity). apply map_Forall_empty.
  - vm_compute. congruence.
  - repeat split; vm_compute; reflexivity.
  - repeat split; vm_compute; reflexivity.
  - vm_compute. congruence.
Qed.

Lemma demo_run steps w : admissible_all steps w0 = true -> exec_all steps w0 = Ok w -> run w0 0 0 w.
Proof. intros Ha H. eapply exec_all_run; [apply run_refl|exact Ha|exact H]. Qed.

Lemma run_open : run w0 0 0 w_open.
Proof. apply (demo_run opening); [by vm_compute|]. vm_cast_no_check (@eq_refl (result Error World) (exec_all opening w0)). Qed.

Lemma run_falling : run w0 0 0 w_falling.
Proof. apply (demo_run falling); [by vm_compute|]. vm_cast_no_check (@eq_refl (result Error World) (exec_all falling w0)). Qed.

Lemma run_crash : run w0 0 0 w_crash.
Proof. apply (demo_run crash); [by vm_compute|]. vm_cast_no_check (@eq_refl (result Error World) (exec_all crash w0)). Qed.

(** Both put fUSD into the Reactor Pool before the fall; it absorbs Bob's debt,
    Bob takes out what is left of his deposit and Alice claims her gain. *)
Definition alice_deposits : DepositAccounts := mkDepositAccounts 100 102 101.
Definition bob_deposits : DepositAccounts := mkDepositAccounts 200 202 201.

Definition pooled : list (Clock * Instr) :=
  opening ++
  [ (at_time 1030, OpenReactorDepositI 100);
    (at_time 1030, ProvideToReactorI alice_deposits 400000001);
    (at_time 1040, OpenReactorDepositI 200);
    (at_time 1040, ProvideToReactorI bob_deposits 599999999) ] ++
  fall ++
  [ (at_time 1000410, LiquidateI alice_liquidates false);
    (at_time 1000420, WithdrawFromReactorI bob_deposits 10);
    (at_time 1000430, ClaimReactorGainsI alice_deposits) ].

Definition w_pooled : World.
Proof. let r := eval vm_compute in (after pooled) in lazymatch r with Ok ?w => exact w end. Defined.

Lemma run_pooled : run w0 0 0 w_pooled.
Proof. apply (demo_run pooled); [by vm_compute|]. vm_cast_no_check (@eq_refl (result Error World) (exec_all pooled w0)). Qed.

(** Bob's redemption of 100 fUSD against Alice, the lower rate. *)
Definition x_open : Redemption :=
  mkRedemption (w_market w_open) (w_positions w_open) (w_others w_open) (w_bitmap w_open) (w_ledger w_open).

Definition x_redeemed : Redemption.
Proof.
  let r := eval vm_compute in (redeem (at_time 1030) bob_redeems x_open 100000000) in
  lazymatch r with Ok ?x => exact x end.
Defined.

Lemma redeem_ok : redeem (at_time 1030) bob_redeems x_open 100000000 = Ok x_redeemed.
Proof.
  vm_cast_no_check (@eq_refl (result Error Redemption) (redeem (at_time 1030) bob_redeems x_open 100000000)).
Qed.

(** Alice borrows some more, or withdraws some collateral. *)
Definition alice_position : Position.
Proof.
  let r := eval vm_compute in (w_positions w_open !! 2001100) in lazymatch r with Some ?p => exact p end.
Defined.

Definition t_open : Touch := mkTouch (w_market w_open) alice_position (w_bitmap w_open) (w_ledger w_open).

Definition t_borrowed : Touch.
Proof.
  let r := eval vm_compute in (borrow (at_time 1030) alice t_open 100000000) in
  lazymatch r with Ok ?x => exact x end.
Defined.

Lemma borrow_ok : borrow (at_time 1030) alice t_open 100000000 = Ok t_borrowed.
Proof. vm_cast_no_check (@eq_refl (result Error Touch) (borrow (at_time 1030) alice t_open 100000000)). Qed.

Definition t_withdrawn : Touch.
Proof.
  let r := eval vm_compute in (withdraw (at_time 1030) alice t_open 1000000000) in
  lazymatch r with Ok ?x => exact x end.
Defined.

Lemma withdraw_ok : withdraw (at_time 1030) alice t_open 1000000000 = Ok t_withdrawn.
Proof. vm_cast_no_check (@eq_refl (result Error Touch) (withdraw (at_time 1030) alice t_open 1000000000)). Qed.

(** The liquidation of Bob. *)
Definition bob_position : Position.
Proof.
  let r := eval vm_compute in (w_positions w_falling !! 2001200) in
  lazymatch r with Some ?p => exact p end.
Defined.

Definition x_falling : Liq := liq_of w_falling bob_position false.

Definition x_liquidated : Liq.
Proof.
  let r := eval vm_compute in (liquidate (at_time 1000410) alice_liquidates x_falling) in
  lazymatch r with Ok ?x => exact x end.
Defined.

Lemma liquidate_ok : liquidate (at_time 1000410) alice_liquidates x_falling = Ok x_liquidated.
Proof.
  vm_cast_no_check (@eq_refl (result Error Liq) (liquidate (at_time 1000410) alice_liquidates x_falling)).
Qed.

(** Alice's further borrow as an instruction, and the price cranked after it. *)
Definition w_loan : World.
Proof.
  let r := eval vm_compute in (exec (at_time 1030) (BorrowI alice 100000000) w_open) in
  lazymatch r with Ok ?w => exact w end.
Defined.

Lemma loan_ok : exec (at_time 1030) (BorrowI alice 100000000) w_open = Ok w_loan.
Proof. vm_cast_no_check (@eq_refl (result Error World) (exec (at_time 1030) (BorrowI alice 100000000) w_open)). Qed.

Definition w_after_loan : World.
Proof.
  let r := eval vm_compute in (exec_all fall (w_loan <| w_now := 1030 |>)) in
  lazymatch r with Ok ?w => exact w end.
Defined.

Lemma run_after_loan : run (w_loan <| w_now := 1030 |>) 0 0 w_after_loan.
Proof.
  eapply (exec_all_run fall); [apply run_refl|by vm_compute|].
  vm_cast_no_check (@eq_refl (result Error World) (exec_all fall (w_loan <| w_now := 1030 |>))).
Qed.

(** Governance raises the minimum ratio from 110 to 115 percent, an hour after queueing. *)
Definition proposing : list (Clock * Instr) :=
  opening ++ [ (at_time 1030, QueueParamI 50 false MarketParam.Mcr 11500) ].

Definition w_proposed : World.
Proof. let r := eval vm_compute in (after proposing) in lazymatch r with Ok ?w => exact w end. Defined.

Lemma run_proposed : run w0 0 0 w_proposed.
Proof. apply (demo_run proposing); [by vm_compute|]. vm_cast_no_check (@eq_refl (result Error World) (exec_all proposing w0)). Qed.

Definition w_raised : World.
Proof.
  let r := eval vm_compute in (exec (at_time 5000) (ExecuteParamI 0 false) w_proposed) in
  lazymatch r with Ok ?w => exact w end.
Defined.

Lemma raise_ok : exec (at_time 5000) (ExecuteParamI 0 false) w_proposed = Ok w_raised.
Proof. vm_cast_no_check (@eq_refl (result Error World) (exec (at_time 5000) (ExecuteParamI 0 false) w_proposed)). Qed.

(** The price is cranked through the grace and falls; then Bob can be liquidated. *)
Definition after_raise : list (Clock * Instr) :=
  [ (at_time 9400, DevSetPriceI 50 price); (at_time 9500, DevSetPriceI 50 price);
    (at_time 9600, DevSetPriceI 50 price); (at_time 9700, DevSetPriceI 50 price);
    (at_time 9800, DevSetPriceI 50 (price * 9 / 10)) ].

Definition w_graced : World.
Proof.
  let r := eval vm_compute in (exec_all after_raise (w_raised <| w_now := 5000 |>)) in
  lazymatch r with Ok ?w => exact w end.
Defined.

Lemma run_graced : run (w_raised <| w_now := 5000 |>) 0 0 w_graced.
Proof.
  eapply (exec_all_run after_raise); [apply run_refl|by vm_compute|].
  vm_cast_no_check (@eq_refl (result Error World) (exec_all after_raise (w_raised <| w_now := 5000 |>))).
Qed.

Definition w_late : World.
Proof.
  let r := eval vm_compute in (exec (at_time 9810) (LiquidateI alice_liquidates false) w_graced) in
  lazymatch r with Ok ?w => exact w end.
Defined.

Lemma late_liquidation : exec (at_time 9810) (LiquidateI alice_liquidates false) w_graced = Ok w_late.
Proof.
  vm_cast_no_check (@eq_refl (result Error World) (exec (at_time 9810) (LiquidateI alice_liquidates false) w_graced)).
Qed.

(** The price stops for good: anyone shuts the market down, and Alice repays. *)
Definition failing : list (Clock * Instr) := opening ++ [ (at_time 10000, ShutdownI) ].

Definition w_shut : World.
Proof. let r := eval vm_compute in (after failing) in lazymatch r with Ok ?w => exact w end. Defined.

Lemma run_shut : run w0 0 0 w_shut.
Proof. apply (demo_run failing); [by vm_compute|]. vm_cast_no_check (@eq_refl (result Error World) (exec_all failing w0)). Qed.

Definition w_winding : World.
Proof.
  let r := eval vm_compute in (exec_all [(at_time 10010, RepayI alice 100000000)] w_shut) in
  lazymatch r with Ok ?w => exact w end.
Defined.

Lemma run_winding : run w_shut 0 0 w_winding.
Proof.
  eapply (exec_all_run [(at_time 10010, RepayI alice 100000000)]); [apply run_refl|by vm_compute|].
  vm_cast_no_check (@eq_refl (result Error World) (exec_all [(at_time 10010, RepayI alice 100000000)] w_shut)).
Qed.

(** The Orca pool at 100 dollars, sampled as fast as the spacing allows. *)
Definition pool : AccountInfo :=
  mkAccountInfo 79 ORCA_WHIRLPOOL_PROGRAM_ID
    (clmm_bytes Orca (mkPoolSample 5833372668713516032 1 5 None None) (replicate 213 0)).

Definition flooding : list (Clock * Instr) :=
  creating ++ ((fun i => (at_time (1000 + 29 * Z.of_nat i), SampleTwapI pool)) <$> seq 0 64).

Definition w_flooded : World.
Proof. let r := eval vm_compute in (after flooding) in lazymatch r with Ok ?w => exact w end. Defined.

Lemma run_flooded : run w0 0 0 w_flooded.
Proof. apply (demo_run flooding); [by vm_compute|]. vm_cast_no_check (@eq_refl (result Error World) (exec_all flooding w0)). Qed.

(** A Pyth update and a Switchboard feed, both at 100 dollars, at time 2830. *)
Definition price_accounts : PriceAccounts :=
  mkPriceAccounts (mkAccountInfo 70 0 [77; 10000000000; 5000000; -8; 2825; 1])
    (Some (mkAccountInfo 78 0 [100000000000000000000; 0; 1; 2826; 3; 2])) None None.

Definition priced : Market * MarketOracle.
Proof.
  let r := eval vm_compute in (update_price (at_time 2830) cfg price_accounts (w_market w_flooded)
    (w_oracle w_flooded) (w_ring w_flooded)) in
  lazymatch r with Ok ?x => exact x end.
Defined.

Lemma priced_ok : update_price (at_time 2830) cfg price_accounts (w_market w_flooded) (w_oracle w_flooded)
  (w_ring w_flooded) = Ok priced.
Proof.
  vm_cast_no_check (@eq_refl (result Error (Market * MarketOracle)) (update_price (at_time 2830) cfg price_accounts
    (w_market w_flooded) (w_oracle w_flooded) (w_ring w_flooded))).
Qed.

(** Bob is the only borrower and is liquidated with nobody to take his debt, before any
    refresh has minted the interest that accrued on it. *)
Definition lone : list (Clock * Instr) :=
  [ (at_time 1000, DevSetPriceI 50 price) ] ++ creating ++
  [ (at_time 1010, OpenPositionI bob 500);
    (at_time 1010, DepositI bob 10000000000);
    (at_time 1020, BorrowI bob 800000000);
    (at_time 1000000, DevSetPriceI 50 price);
    (at_time 1000100, DevSetPriceI 50 price);
    (at_time 1000200, DevSetPriceI 50 price);
    (at_time 1000300, DevSetPriceI 50 price);
    (at_time 1000400, DevSetPriceI 50 (price * 8 / 10));
    (at_time 1000410, LiquidateI alice_liquidates false) ].

Definition w_lone : World.
Proof. let r := eval vm_compute in (after lone) in lazymatch r with Ok ?w => exact w end. Defined.

Lemma run_lone : run w0 0 0 w_lone.
Proof. apply (demo_run lone); [by vm_compute|]. vm_cast_no_check (@eq_refl (result Error World) (exec_all lone w0)). Qed.

(** Unminted interest can exceed the recorded debt: un-homed debt leaves the aggregate with
    the interest in it, while the interest stays to be minted. The supply rules of the prover
    assume that it never does; the supply identity itself needs no such assumption. *)
Lemma unminted_interest_exceeds_debt : run w0 0 0 w_lone /\
  agg_recorded_debt (w_market w_lone) < unminted_interest (w_market w_lone).
Proof. split; [apply run_lone | by vm_compute]. Qed.

End Demo.
