(* ===== verification/Safety.v ===== *)
(** * What every reachable state satisfies

    The system theorems, over every run of a market from its creation. *)

From S2P Require Import Prelude MachineInt FixedPoint Interest RateBucket Redistribution.
From S2P Require Import ReactorMath SupplyTransition Cdp State Token Accrual Bucket PositionOps.
From S2P Require Import TouchEffect PositionProofs World Reactor Liquidate LiquidateProofs Redeem.
From S2P Require Import RedeemProofs MarketOps ReactorOps Init UpdatePrice System SystemProofs Scenario.

Open Scope Z_scope.

Section safety.
Context {U : U256} {R : Runtime} {K : OracleSdk}.

Lemma init_market_ok clk cfg a mint vault args m bm :
  init_market clk cfg a mint vault args = Ok (m, bm) -> timestamp (unix_timestamp clk) ->
  Forall u16 [ia_mcr_bps args; ia_liq_gas_comp_bps args; ia_liq_bonus_bps args; ia_bucket_width_bps args] ->
  market_ok m /\ books m ∅ /\ bm = empty_bitmap /\ tracked m = 0 /\ backed_by m = 0 /\
  last_update_ts m = unix_timestamp clk.
Proof.
  intros H Ht Hu. unfold init_market in H. do 10 (bind H as ? Hc; clear Hc). injection H as <- <-.
  rewrite !Forall_cons in Hu. destruct Hu as (? & ? & ? & ? & _).
  split; [constructor; cbn; try done; rlia|]. split; [|done].
  constructor; rewrite ?msum_empty; done.
Qed.

(** A new market satisfies the invariant, with nothing tracked and nothing minted. *)
Lemma genesis_invariant w : genesis w -> invariant w /\ tracked (w_market w) = 0 /\
  backed_by (w_market w) = 0 /\ w_positions w = ∅ /\
  tok_amount (w_ledger w) (collateral_vault (w_market w)) = 0.
Proof.
  intros [(clk & a & mint & args & H1 & Ht & En & Hu) Ecr _ _ [Eps _] (Ho & Hm & Ha) Hne].
  apply init_market_ok in H1 as (_ & Hb & Ebm & Etr & Ebk & Ets); [|done..].
  split; [|done]. constructor; try done.
  - by rewrite Eps.
  - rewrite Ebm, Eps. constructor; [apply empty_coupled| |apply map_Forall_empty].
    intros b Hb0. rewrite msum_empty. unfold count_of, empty_bitmap. cbn [zombie_count counts].
    destruct (_ =? _); [done|apply default_replicate].
  - lia.
  - by rewrite Hm.
  - lia.
  - by rewrite Ecr.
Qed.

(** Along a run: the invariant, and the two ledger identities. *)
Lemma run_sound w d o w' : run w d o w' -> invariant w ->
  invariant w' /\ same_identity (w_market w) (w_market w') /\ 0 <= d /\
  tok_amount (w_ledger w') (collateral_vault (w_market w'))
    = tok_amount (w_ledger w) (collateral_vault (w_market w)) + tracked (w_market w') - tracked (w_market w) + d /\
  mint_supply (w_ledger w') fusd_mint
    = mint_supply (w_ledger w) fusd_mint + backed_by (w_market w') - backed_by (w_market w) + o.
Proof.
  induction 1 as [w|w d o w1 clk i w2 Hrun IH Had Hex|w d o w1 s dv ds Hrun IH Hel]; intros Hinv.
  - split; [done|]. split; [done|]. lia.
  - destruct (IH Hinv) as (Hinv1 & [Em1 Ev1] & Hd & Hv & Hs).
    pose proof (exec_preserved _ _ _ _ Hinv1 Had Hex) as Hpv.
    split; [by eapply preserved_invariant|]. destruct Hpv as [_ _ [Em Ev] _ [] _]. cbn.
    split; [constructor; congruence|]. rewrite Ev. lia.
  - destruct (IH Hinv) as ([] & [Em1 Ev1] & Hd & Hv & Hs). destruct Hel as [Ea Es Hown Ht _ _].
    destruct (Hown (collateral_vault (w_market w1))) as (Eo & Em & Hle); [left; done|]. cbn.
    split; [|split; [done|lia]]. constructor; cbn; rewrite ?Eo, ?Em; done || lia.
Qed.

Lemma reachable_invariant w d o w' : genesis w -> run w d o w' -> invariant w'.
Proof. intros Hg Hr. apply run_sound in Hr; [by destruct Hr|]. by apply genesis_invariant. Qed.


(** C2: the vault always covers the claims on it, and the identity is exact: in every
    reachable state the vault holds the four tracked counters (positions' collateral,
    fee surplus, borrowers' surplus, protocol collateral) plus exactly what outsiders
    donated, and so at least all the positions' collateral and borrower surplus together. *)
Theorem vault_always_covers (w w' : World) (d o : Z) (Hg : genesis w) (Hr : run w d o w') :
  let m := w_market w' in
  let vault := tok_amount (w_ledger w') (collateral_vault m) in
  vault = total_collateral m + surplus_collateral m + total_coll_surplus m + protocol_collateral m + d /\
  0 <= d /\
  msum ink (w_positions w') + msum coll_surplus (w_positions w') <= vault.
Proof.
  intros m vault. destruct (genesis_invariant _ Hg) as (Hinv & Et & _ & _ & Ha).
  apply run_sound in Hr as (Hinv' & _ & Hd & Hv & _); [|done].
  fold m vault in Hv. rewrite Ha, Et in Hv. unfold tracked in Hv.
  split; [lia|]. split; [done|]. destruct Hinv' as [Hb _ _ _ _ _ _].
  pose proof (books_coll_covered _ _ Hb). destruct Hb as [[] _ _ _ _ _ Hs]. fold m in Hs, H. rewrite <- Hs. 
  fold m in mo_surplus, mo_protocol. rlia.
Qed.

(** C3: every fUSD in circulation is accounted for: in every reachable state the supply
    has grown, since the market was created, by exactly the market's aggregate debt less
    its unminted interest plus its bad debt, plus whatever was minted or burned outside
    this market. Interest, fees, redemptions, liquidations through every tier of the
    waterfall and bad-debt settlement never break the identity by a single unit. *)
Theorem supply_always_backed (w w' : World) (d o : Z) (Hg : genesis w) (Hr : run w d o w') :
  let m := w_market w' in
  mint_supply (w_ledger w') fusd_mint
    = mint_supply (w_ledger w) fusd_mint + (agg_recorded_debt m - unminted_interest m + bad_debt m) + o.
Proof.
  intros m. destruct (genesis_invariant _ Hg) as (Hinv & _ & Eb & _).
  apply run_sound in Hr as (_ & _ & _ & _ & Hs); [|done]. rewrite Eb in Hs. unfold backed_by, backed in Hs.
  fold m in Hs. lia.
Qed.

(** C4: the redemption index never drifts: in every reachable state each bucket count is
    the number of positions with debt that carry the bucket's label, a bit of the bitmap
    is set exactly when such a position exists, and the find-first-set the redemption
    uses is a lower bound for every position with debt outside the pen. *)
Theorem index_always_exact (w w' : World) (d o : Z) (Hg : genesis w) (Hr : run w d o w') :
  let bm := w_bitmap w' in
  (forall b, 0 <= b <= ZOMBIE_BUCKET ->
     count_of bm b = msum (fun p => member (recorded_debt p) (bucket p) b) (w_positions w')) /\
  (forall b, 0 <= b < NUM_RATE_BUCKETS -> is_set (words bm) b = Some true <->
     exists k p, w_positions w' !! k = Some p /\ 0 < recorded_debt p /\ bucket p = b) /\
  (forall k p, w_positions w' !! k = Some p -> 0 < recorded_debt p -> bucket p <> ZOMBIE_BUCKET ->
     exists b, first_set (words bm) = Some b /\ b <= bucket p).
Proof.
  intros bm. destruct (reachable_invariant _ _ _ _ Hg Hr) as [_ Hi _ _ _ _ _].
  split; [intros b Hb; apply Hi; lia|]. pose proof Hi as [[] Hcnt Hlab].
  assert (forall b, 0 <= b < NUM_RATE_BUCKETS -> bit (words bm) b = true <->
     exists k p, w_positions w' !! k = Some p /\ 0 < recorded_debt p /\ bucket p = b) as Hbit.
  { intros b Hb. unfold bm. rewrite cp_bit, Hcnt, Z.ltb_lt by lia. apply member_sum. }
  split.
  - intros b Hb. rewrite is_set_bit by (unfold bm; lia). rewrite <- Hbit by done.
    split; [by intros [= ->]|by intros ->].
  - intros k p Hk Hd Hz. pose proof (Hlab _ _ Hk Hd) as Hr0.
    destruct (first_set (words bm)) as [b|] eqn:Ef.
    + exists b. split; [done|]. by eapply lowest_bounds.
    + pose proof (first_set_lowest (words bm) cp_words) as Hlow. rewrite Ef in Hlow. cbn in Hlow.
      specialize (Hlow (bucket p) ltac:(lia)). assert (bit (words bm) (bucket p) = true) as Hb.
      { apply Hbit; [lia|]. by exists k, p. } congruence.
Qed.

End safety.

(** ** On the concrete market *)


Lemma vault_always_covers_witness :
  let w := Demo.w_crash in
  tok_amount (w_ledger w) 10 = 19950000000 /\
  msum ink (w_positions w) + msum coll_surplus (w_positions w) <= tok_amount (w_ledger w) 10.
Proof.
  split; [vm_compute; reflexivity|].
  exact (proj2 (proj2 (vault_always_covers Demo.w0 Demo.w_crash 0 0 Demo.genesis_w0 Demo.run_crash))).
Defined.

Lemma supply_always_backed_witness :
  let w := Demo.w_crash in
  mint_supply (w_ledger w) 999 = 1201425504 /\
  mint_supply (w_ledger w) 999 = mint_supply (w_ledger Demo.w0) 999
    + (agg_recorded_debt (w_market w) - unminted_interest (w_market w) + bad_debt (w_market w)) + 0.
Proof.
  split; [vm_compute; reflexivity|].
  exact (supply_always_backed Demo.w0 Demo.w_crash 0 0 Demo.genesis_w0 Demo.run_crash).
Defined.

Lemma index_always_exact_witness :
  let w := Demo.w_open in
  is_set (words (w_bitmap w)) 50 = Some true /\
  (is_set (words (w_bitmap w)) 50 = Some true <->
   exists k p, w_positions w !! k = Some p /\ 0 < recorded_debt p /\ bucket p = 50).
Proof.
  split; [vm_compute; reflexivity|].
  destruct (index_always_exact Demo.w0 Demo.w_open 0 0 Demo.genesis_w0 Demo.run_open) as (_ & H & _).
  apply H. lia.
Defined.
