(* ===== verification/EventLog.v ===== *)
(** * What the event stream tells

    Every instruction that commits emits its events, and the stream alone accounts for the
    protocol's balance sheet: summed over a run, the fUSD the events report minted, burned
    and written off is the change of the supply and of the bad debt, and the shutdown of a
    market is announced once, with the reason the account records. *)

From S2P Require Import Prelude MachineInt FixedPoint Interest RateBucket Redistribution.
From S2P Require Import ReactorMath Recovery SupplyTransition Cdp State Token AccountBytes Accrual Bucket PositionOps.
From S2P Require Import TouchEffect PositionProofs World Reactor Liquidate LiquidateProofs Redeem RedeemProofs.
From S2P Require Import MarketOps ReactorOps Init Oracle Twap Governance CeilingLine Backstop OracleAdmin UpdatePrice.
From S2P Require Import System Events Frames SystemProofs Scenario Safety.

Open Scope Z_scope.

(** ** Reading the stream *)

(** What an event says of the fUSD supply. *)
Definition fusd_delta (e : Event) : Z :=
  match e with
  | OfMarket (PositionUpdated _ _ op amount _ _ _ _) =>
      if op =? POSITION_OP_BORROW then amount
      else if op =? POSITION_OP_REPAY then - amount else 0
  | OfMarket (LiquidationEvent _ _ _ _ _ _ _ _ reactor _ buffer backstop _ _) => - (reactor + buffer + backstop)
  | OfMarket (RedemptionEvent _ _ burned _ _ _ _) => - burned
  | OfMarket (UrgentRedemptionEvent _ _ burned _) => - burned
  | OfMarket (InterestMinted _ _ to_buffer to_backstop _ keeper _) => to_buffer + to_backstop + keeper
  | OfGovernance (BadDebtSettled _ amount _) => - amount
  | _ => 0
  end.

(** What it says of the market's bad debt. *)
Definition bad_delta (e : Event) : Z :=
  match e with
  | OfMarket (BadDebtEvent _ _ amount _) => amount
  | OfMarket (InterestMinted _ _ _ _ paydown _ _) => - paydown
  | OfGovernance (BadDebtSettled _ amount _) => - amount
  | _ => 0
  end.

(** The shutdowns it announces. *)
Definition shutdown_reasons (e : Event) : list Z :=
  match e with OfMarket (ShutdownEvent _ reason) => [reason] | _ => [] end.

(** A liquidation whose tiers add up to the debt it took. *)
Definition tiers_add_up (e : Event) : Prop :=
  match e with
  | OfMarket (LiquidationEvent _ _ _ _ debt _ _ _ reactor redist buffer backstop unhomed _) =>
      reactor + redist + buffer + backstop + unhomed = debt
  | _ => True
  end.

Definition total (f : Event -> Z) (evs : list Event) : Z := foldr Z.add 0 (f <$> evs).
Definition announced (evs : list Event) : list Z := evs ≫= shutdown_reasons.

Lemma total_app f l k : total f (l ++ k) = total f l + total f k.
Proof. unfold total. induction l as [|e l IH]; cbn; [done|]. rewrite IH. lia. Qed.

Lemma announced_app l k : announced (l ++ k) = announced l ++ announced k.
Proof. apply bind_app. Qed.

(** A market that is shut down says why. *)
Definition named (m : Market) : Prop := shutdown m = true -> shutdown_reason m <> SHUTDOWN_REASON_NONE.

(** [evs] accounts for the step from [m] to [m']. *)
Record logged (evs : list Event) (m m' : Market) : Prop := {
  lg_backed : backed_by m' = backed_by m + total fusd_delta evs;
  lg_bad : bad_debt m' = bad_debt m + total bad_delta evs;
  lg_shutdown : if shutdown m then shutdown m' = true /\ announced evs = []
    else if shutdown m' then announced evs = [shutdown_reason m'] else announced evs = [];
  lg_named : named m -> named m';
  lg_reason : named m -> shutdown m = true \/ shutdown m' = false -> shutdown_reason m' = shutdown_reason m;
  lg_tiers : Forall tiers_add_up evs;
}.

Lemma logged_app l1 l2 m1 m2 m3 : named m1 -> logged l1 m1 m2 -> logged l2 m2 m3 -> logged (l1 ++ l2) m1 m3.
Proof.
  intros Hn [] []. constructor; rewrite ?total_app, ?announced_app; try lia.
  - destruct (shutdown m1), (shutdown m2) eqn:E2.
    + destruct lg_shutdown0 as [_ ->], lg_shutdown1 as [-> ->]. done.
    + by destruct lg_shutdown0.
    + destruct lg_shutdown1 as [-> ->]. rewrite lg_shutdown0, app_nil_r. f_equal. symmetry. apply lg_reason1; [|by left].
      by apply lg_named0.
    + by rewrite lg_shutdown0.
  - auto.
  - intros _ H. destruct (shutdown m1) eqn:E1, (shutdown m2) eqn:E2; try by destruct lg_shutdown0.
    + rewrite lg_reason1; auto.
    + destruct H as [|H]; [done|]. by destruct lg_shutdown1 as [E _]; rewrite H in E.
    + rewrite lg_reason1; auto.
  - by apply Forall_app.
Qed.

(** ** The steps that are none of the stream's business *)

Record quiet (m m' : Market) : Prop := {
  qt_backed : backed_by m' = backed_by m;
  qt_bad : bad_debt m' = bad_debt m;
  qt_shutdown : shutdown m' = shutdown m;
  qt_reason : shutdown_reason m' = shutdown_reason m;
}.

#[export] Instance quiet_preorder : PreOrder quiet.
Proof. split; [by intros m; split|]. intros m1 m2 m3 [] []. split; congruence. Qed.

(** Events with nothing to account for. *)
Definition silent (e : Event) : bool :=
  (fusd_delta e =? 0) && (bad_delta e =? 0) && bool_decide (shutdown_reasons e = []) &&
  match e with OfMarket (LiquidationEvent _ _ _ _ _ _ _ _ _ _ _ _ _ _) => false | _ => true end.

Lemma silent_logged evs m m' : forallb silent evs = true -> quiet m m' -> logged evs m m'.
Proof.
  intros Hs [].
  assert (total fusd_delta evs = 0 /\ total bad_delta evs = 0 /\ announced evs = [] /\ Forall tiers_add_up evs)
    as (Hf & Hb & Ha & Ht).
  { clear - Hs. induction evs as [|e evs IH]; [done|]. cbn [forallb] in Hs. apply andb_true_iff in Hs as [He Hs].
    destruct (IH Hs) as (Hf & Hb & Ha & Ht). unfold silent in He. rewrite !andb_true_iff in He.
    destruct He as [[[E1 E2] E3] E4]. rewrite Z.eqb_eq in E1, E2. apply bool_decide_eq_true in E3.
    unfold total, announced in *. cbn. rewrite E1, E2, E3, Hf, Hb, Ha. repeat split.
    constructor; [|done]. by destruct e as [[]|?|?]. }
  constructor; try done; try lia; [rewrite qt_shutdown0, Ha; by destruct (shutdown m)|].
  unfold named. by rewrite qt_shutdown0, qt_reason0.
Qed.

Ltac quiet_field := split; reflexivity.

Ltac quiet_chain :=
  read_market; repeat
    first
      [ reflexivity | eassumption
      | progress cbn [t_market lq_market rd_market rf_market dr_market sc_market wd_drain fst snd]
      | match goal with
        | H : quiet ?a ?b |- quiet _ ?b => transitivity a; [|exact H]
        | |- quiet _ (update _ _ ?m) => transitivity m; [|quiet_field]
        | |- quiet _ (if ?b then _ else _) => destruct b
        end ].
Ltac qwalk := walk_with ltac:(quiet_chain).

(** Run through a successful handler, then emit with what it computed. *)
Ltac run_through H :=
  repeat lazymatch type of H with
  | (_ ≫= _) = Ok _ =>
      let x := fresh "x" in let Hc := fresh "Hc" in bind H as x Hc; cbv beta iota in H;
      lazymatch type of x with (_ * _)%type => destruct x | _ => idtac end
  | (let '(_, _) := ?x in _) = Ok _ => destruct x
  end.

Ltac emit :=
  cbn [emits]; repeat match goal with Hc : ?r = Ok _ |- context [?r ≫= _] => rewrite Hc; step_ok end.

(** The frame of the handler that ran. *)
Ltac by_frame :=
  match goal with Hc : ?r = Ok _ |- quiet _ _ =>
    let HP := fresh in eassert (post _ r) as HP by (solve [auto with frames nocore]); apply HP in Hc; exact Hc
  end.

Section event_log.
Context {U : U256} {R : Runtime} {K : OracleSdk}.

(** Booking interest raises the debt and the interest still to mint together. *)
Lemma booked_quiet m x d ts : supply_book_interest (agg_recorded_debt m) (unminted_interest m) x = Some d ->
  quiet m (m <| agg_recorded_debt := id_new_agg d |> <| unminted_interest := id_new_unminted d |> <| last_update_ts := ts |>).
Proof. intros Hd. apply supply_book_Ok in Hd. split; try done. unfold backed_by, backed. cbn. lia. Qed.

Lemma accrue_quiet m now : post (quiet m) (accrue m now).
Proof.
  intros m' H. unfold accrue in H. destruct (_ || _); [by injection H as <-|].
  bind H as ? Hp. bind H as d Hd. apply (inj Ok) in H. subst m'. apply math_Ok in Hd. by eapply booked_quiet.
Qed.

Lemma charge_quiet clk m p r : post (fun x => quiet m x.1) (charge_adjust_fee clk m p r).
Proof.
  intros [m' p'] H. unfold charge_adjust_fee in H. cbv zeta in H. destruct (_ && _); [|by injection H as <- <-].
  bind H as ? H1. bind H as ? H2. bind H as d Hd. do 4 (bind H as ? Hc; clear Hc).
  apply (inj Ok), (f_equal fst) in H. cbn [fst] in *. subst m'. apply math_Ok in Hd.
  eapply booked_quiet in Hd as [Eb ? ? ?]. by split.
Qed.

Lemma reweight_quiet m p w : post (quiet m) (reweight m p w).
Proof. unfold reweight. qwalk. Qed.
Lemma set_stake_quiet m p : post (fun x => quiet m x.1) (redist.set_stake m p).
Proof. unfold redist.set_stake. qwalk. Qed.
Lemma consume_quiet m now a : post (quiet m) (consume_rate_limit m now a).
Proof. unfold consume_rate_limit. qwalk. Qed.
#[local] Hint Resolve accrue_quiet charge_quiet reweight_quiet set_stake_quiet consume_quiet : frames.

Lemma deposit_quiet clk k t a : post (fun t' => quiet (t_market t) (t_market t')) (deposit clk k t a).
Proof. unfold deposit. qwalk. Qed.
Lemma withdraw_quiet clk k t a : post (fun t' => quiet (t_market t) (t_market t')) (withdraw clk k t a).
Proof. unfold withdraw. qwalk. Qed.
Lemma adjust_quiet clk k t r : post (fun t' => quiet (t_market t) (t_market t')) (adjust_rate clk k t r).
Proof. unfold adjust_rate. qwalk. Qed.
Lemma claim_surplus_quiet k m p l : post (fun x => quiet m x.1.1) (claim_coll_surplus k m p l).
Proof. unfold claim_coll_surplus. qwalk. Qed.
Lemma withdraw_surplus_quiet g k m l n : post (fun x => quiet m x.1) (withdraw_surplus g k m l n).
Proof. unfold withdraw_surplus. qwalk. Qed.
Lemma sweep_quiet g k m l n : post (fun x => quiet m x.1) (sweep_protocol_collateral g k m l n).
Proof. unfold sweep_protocol_collateral. qwalk. Qed.
Lemma derisk_quiet clk cfg s m n : post (quiet m) (guardian_derisk clk cfg s m n).
Proof. unfold guardian_derisk. qwalk. Qed.
Lemma commit_quiet m s d sl : quiet m (commit_fresh_spot m s d sl).
Proof. unfold commit_fresh_spot. cbv zeta. quiet_chain. Qed.
Lemma dev_quiet clk cfg a m s : post (quiet m) (dev_set_price clk cfg a m s).
Proof. unfold dev_set_price. qwalk. apply commit_quiet. Qed.
Lemma commit_rate_quiet clk m o r : quiet m (commit_rate clk m o r).1.
Proof. unfold commit_rate. destruct r; cbn [fst]; quiet_chain. Qed.
Lemma divergence_quiet clk m r : quiet m (commit_divergence clk m r).
Proof. unfold commit_divergence. cbv zeta. quiet_chain. Qed.
Lemma commit_price_quiet clk m o r c : post (fun x => quiet m x.1) (commit_price clk m o r c).
Proof.
  unfold commit_price. pose proof (divergence_quiet clk m r). qwalk.
  etransitivity; [|apply commit_rate_quiet]. etransitivity; [eassumption|apply commit_quiet].
Qed.
#[local] Hint Resolve commit_price_quiet : frames.
Lemma update_price_quiet clk cfg k m o ring : post (fun x => quiet m x.1) (update_price clk cfg k m o ring).
Proof. unfold update_price. qwalk. Qed.
Lemma rebind_quiet clk cfg a m o args : post (fun x => quiet m x.1) (rebind_feeds clk cfg a m o args).
Proof. unfold rebind_feeds. qwalk. Qed.

Lemma execute_quiet clk op m o : post (fun x => quiet m x.1) (execute_param clk op m o).
Proof.
  intros [m' o'] H. unfold execute_param in H. do 3 (bind H as ? Hc; clear Hc).
  apply (inj Ok), (f_equal fst) in H. cbn [fst] in H. cbn [fst]. subst m'.
  transitivity (arm_mcr_grace clk m (op_param op) (op_value op)).
  - unfold arm_mcr_grace. quiet_chain.
  - destruct (op_param op); cbn [apply_param fst]; quiet_chain.
Qed.

Lemma init_line_quiet clk cfg a m line gap ttl : post (fun x => quiet m x.1) (init_line clk cfg a m line gap ttl).
Proof. unfold init_line, apply_line. qwalk. Qed.
Lemma set_line_quiet clk cfg a m dl line gap ttl : post (fun x => quiet m x.1) (set_line clk cfg a m dl line gap ttl).
Proof. unfold set_line, apply_line. qwalk. Qed.
Lemma bump_line_quiet clk m dl : post (fun x => quiet m x.1) (bump_line clk m dl).
Proof. unfold bump_line, apply_line. qwalk. Qed.
Lemma init_pool_quiet cfg a m f c g : post (fun x => quiet m x.1.1) (init_reactor_pool cfg a m f c g).
Proof. unfold init_reactor_pool. qwalk. Qed.
Lemma init_buffer_quiet cfg a m f : post (fun x => quiet m x.1) (init_insurance_buffer cfg a m f).
Proof. unfold init_insurance_buffer. qwalk. Qed.
#[local] Hint Resolve deposit_quiet withdraw_quiet adjust_quiet claim_surplus_quiet withdraw_surplus_quiet sweep_quiet
  derisk_quiet dev_quiet update_price_quiet rebind_quiet execute_quiet init_line_quiet set_line_quiet bump_line_quiet
  init_pool_quiet init_buffer_quiet : frames.

(** ** The steps the stream accounts for *)

Lemma single_logged e m m' : shutdown_reasons e = [] -> tiers_add_up e ->
  backed_by m' = backed_by m + fusd_delta e -> bad_debt m' = bad_debt m + bad_delta e ->
  shutdown m' = shutdown m -> shutdown_reason m' = shutdown_reason m -> logged [e] m m'.
Proof.
  intros Er Ht Ef Eb Es Err.
  constructor; unfold total, announced; cbn; rewrite ?app_nil_r, ?Z.add_0_r; try done; [| |by constructor].
  - rewrite Es, Er. by destruct (shutdown m).
  - unfold named. by rewrite Es, Err.
Qed.

Lemma borrow_logged clk k t amount t' c p' : borrow clk k t amount = Ok t' ->
  logged [position_updated c POSITION_OP_BORROW amount p'] (t_market t) (t_market t').
Proof.
  intros H. unfold borrow in H. do 4 (bind H as ? Hc; clear Hc). bind H as m1 Hm1. apply accrue_quiet in Hm1.
  do 3 (bind H as ? Hc; clear Hc). bind H as d Hd. do 5 (bind H as ? Hc; clear Hc).
  bind H as m2 Hm2. apply consume_quiet in Hm2. bind H as m4 Hm4. apply reweight_quiet in Hm4. bind H as [m5 p5] Hm5. apply set_stake_quiet in Hm5.
  bind H as ? Hl. bind H as [bm p6] Hrec. injection H as <-. apply math_Ok, supply_borrow_Ok in Hd.
  destruct Hm1, Hm2, Hm4, Hm5. unfold backed_by, backed in *. cbn in *.
  apply single_logged; unfold backed_by, backed; cbn; try done; try lia; congruence.
Qed.

Lemma repay_logged clk k t amount t' c p' :
  touch_ok (unix_timestamp clk) t -> u64 amount -> repay clk k t amount = Ok t' ->
  exists evs, repay_events clk t c amount p' = Ok evs /\ logged evs (t_market t) (t_market t').
Proof.
  intros Hok Hau H. unfold repay in H. do 4 (bind H as ? Hc; clear Hc).
  bind H as m1 Hm1. bind H as p1 Hp1. unfold repay_events. rewrite Hm1. step_ok. rewrite Hp1. step_ok.
  destruct (accrue_realize _ t m1 p1 Hok Hm1 Hp1) as (dI & _ & Hrz & _). apply accrue_quiet in Hm1.
  destruct (Z.eqb_spec (recorded_debt p1) 0).
  - bind H as [m4 p4] Hs. apply set_stake_quiet in Hs. injection H as <-. eexists. split; [done|].
    apply silent_logged; [done|]. cbn in *. by transitivity m1.
  - bind H as d Hd. bind H as ? Hc. bind H as l1 Hl. bind H as m3 Hm3. apply reweight_quiet in Hm3.
    bind H as [m4 p4] Hs. apply set_stake_quiet in Hs. bind H as [bm p6] Hrec. injection H as <-. rewrite Hd. step_ok.
    eexists. split; [done|]. pose proof (rz_ok _ _ _ Hrz) as []. apply math_Ok in Hd.
    apply supply_repay_Ok in Hd as (Eb & _ & Ea & _); [|rlia|rlia].
    assert (as_u64 (rd_burn d) = rd_burn d) as -> by (apply Z.mod_small; rewrite Eb; rlia).
    destruct (restore_rate_limit_eq m4 (unix_timestamp clk) (rd_burn d)) as (rx & ry & ->).
    destruct Hm1, Hm3, Hs. unfold backed_by, backed in *. cbn in *.
    apply single_logged; unfold backed_by, backed; cbn; try done; try lia; congruence.
Qed.

(** ** Liquidation *)

Lemma remove_victim_quiet m p : post (fun x => quiet m x.1.1) (liq_remove_victim m p).
Proof. unfold liq_remove_victim. qwalk. Qed.
Lemma reactor_quiet x a c : post (fun x' => quiet (lq_market x) (lq_market x')) (liq_reactor x a c).
Proof. unfold liq_reactor. qwalk. Qed.
Lemma redistribute_quiet m d c : post (quiet m) (liq_redistribute m d c).
Proof. unfold liq_redistribute, redist.write_state. qwalk. Qed.
Lemma buffer_quiet x a : post (fun x' => quiet (lq_market x) (lq_market x')) (liq_buffer x a).
Proof. unfold liq_buffer. qwalk. Qed.
Lemma backstop_quiet k x a : post (fun x' => quiet (lq_market x) (lq_market x')) (liq_backstop k x a).
Proof. unfold liq_backstop. qwalk. Qed.

(** The tiers after the pool leave the books alone; only un-homed debt shuts the market. *)
Lemma remainder_flags k x a c x' : liq_remainder k x a c = Ok x' -> exists m1, quiet (lq_market x) m1 /\
  lq_market x' = if 0 <? ab_redist a then m1 else liq_unhomed m1 (ab_unhomed a).
Proof.
  intros H. unfold liq_remainder in H. destruct (0 <? ab_redist a).
  { bind H as m Hm. apply redistribute_quiet in Hm. apply (inj Ok) in H. subst x'. by exists m. }
  destruct (0 <? ab_unhomed a) eqn:Eu; [rewrite orb_true_r in H|rewrite orb_false_r in H; destruct (_ || _)].
  3: { apply (inj Ok) in H. subst x'. exists (lq_market x). unfold liq_unhomed. by rewrite Eu. }
  all: bind H as cu Hcu; bind H as pc Hpc; bind H as x1 H1; bind H as x2 H2; apply buffer_quiet in H1;
    apply backstop_quiet in H2; apply (inj Ok) in H; subst x'; exists (lq_market x2); read_market;
    split; [|done]; quiet_chain.
Qed.

(** What the tiers announce is what they did to the flags. *)
Lemma tiers_logged c position m split new_bad bs' :
  0 <= ab_unhomed split -> (0 < ab_redist split -> ab_unhomed split = 0) ->
  let evs := tier_events c position m split new_bad bs' in
  let m' := if 0 <? ab_redist split then m else liq_unhomed m (ab_unhomed split) in
  total fusd_delta evs = 0 /\ total bad_delta evs = ab_unhomed split /\ Forall tiers_add_up evs /\
  (if shutdown m then shutdown m' = true /\ announced evs = []
   else if shutdown m' then announced evs = [shutdown_reason m'] else announced evs = []) /\
  (named m -> named m') /\
  (named m -> shutdown m = true \/ shutdown m' = false -> shutdown_reason m' = shutdown_reason m).
Proof.
  intros Hu Hr. unfold tier_events, liq_unhomed, named. destruct (Z.ltb_spec 0 (ab_redist split)).
  { rewrite Hr by done. cbn. repeat split; [constructor|by destruct (shutdown m)|done]. }
  destruct (0 <? ab_global split), (Z.ltb_spec 0 (ab_unhomed split)), (shutdown m) eqn:Es,
    (Z.eqb_spec (shutdown_reason m) SHUTDOWN_REASON_NONE); cbn; rewrite ?Es; cbn; rewrite ?Es;
    repeat split; try (repeat constructor; done); try lia; try tauto; try (intros ? [|]; congruence).
Qed.

(** The flags of a market the quiet steps around it do not change. *)
Lemma quiet_flags m m' : quiet m m' -> shutdown m' = shutdown m /\ shutdown_reason m' = shutdown_reason m.
Proof. by intros []. Qed.

Lemma unhomed_same m a : backed_by (liq_unhomed m a) = backed_by m /\ bad_debt (liq_unhomed m a) = bad_debt m.
Proof. unfold liq_unhomed. destruct (0 <? a); [|done]. cbv zeta. destruct (_ =? _); by destruct (negb _). Qed.

(** The announcements read nothing but the flags. *)
Lemma tier_events_flags c position m m' split new_bad bs' :
  shutdown m' = shutdown m -> shutdown_reason m' = shutdown_reason m ->
  tier_events c position m' split new_bad bs' = tier_events c position m split new_bad bs'.
Proof. intros E1 E2. unfold tier_events. by rewrite E1, E2. Qed.

Lemma liquidate_events_run clk k x x' m1 p1 m2 p2 seize gas dist ga coll_sp coll_r sd l1 x4 x5 p6 l6 m7 a sp bs' :
  liq_trace clk k x x' m1 p1 m2 p2 seize gas dist ga coll_sp coll_r sd l1 x4 x5 p6 l6 m7 a ->
  seize_collateral (ink p1) (recorded_debt p1) (debt_spot m1) (liq_bonus_bps m1) = Some (seize, sp) ->
  liquidate_events clk k x bs' = Ok (tier_events (collateral_mint (lq_market x)) (lk_position k) m2 a (ld_new_bad sd) bs' ++
    [OfMarket (LiquidationEvent (collateral_mint (lq_market x)) (lk_position k) (owner p2) (lk_liquidator k)
       (recorded_debt p1) seize (as_u64 (gas / 10000)) sp (ab_reactor a) (ab_redist a) (ab_buffer a) (ab_global a)
       (ab_unhomed a) (debt_spot m1))]).
Proof.
  intros [] Hsz. unfold liquidate_events. rewrite lt_accrue. step_ok. rewrite lt_realize. step_ok.
  rewrite Hsz. unfold math, fail_with. step_ok. rewrite lt_victim. step_ok. rewrite lt_gas. step_ok.
  rewrite lt_global. step_ok. rewrite <- lt_split, lt_supply. step_ok. done.
Qed.

(** Debt is left un-homed only when nobody is there to redistribute it to. *)
Lemma absorb_unhomed debt rc (h : bool) bb ga : 0 <= bb -> 0 <= ga ->
  0 <= ab_unhomed (absorb debt rc h bb ga) /\
  (0 < ab_redist (absorb debt rc h bb ga) -> ab_unhomed (absorb debt rc h bb ga) = 0).
Proof. intros. unfold absorb. cbn. destruct h; lia. Qed.

Lemma liquidate_logged clk k x x' bs' : liq_ok (unix_timestamp clk) x ->
  lk_liquidator k <> market_pda (collateral_mint (lq_market x)) -> liquidate clk k x = Ok x' ->
  exists evs, liquidate_events clk k x bs' = Ok evs /\ logged evs (lq_market x) (lq_market x').
Proof.
  intros Hok Hsig H. apply liquidate_run in H as (m1 & p1 & m2 & p2 & seize & gas & dist & ga & coll_sp & coll_r & sd & l1 &
    x4 & x5 & p6 & l6 & m7 & a & Htr).
  pose proof (trace_outcome clk k x x' Hok Hsig _ _ _ _ _ _ _ _ _ _ _ _ _ _ _ _ _ _ Htr)
    as [_ _ (sp & Hsz & _) _ Et _ _ _ _ _].
  eexists. split; [by eapply liquidate_events_run|]. destruct Htr. clear Hsz.
  assert (0 <= ab_unhomed a /\ (0 < ab_redist a -> ab_unhomed a = 0)) as [Hu Hr].
  { apply global_available_range in lt_global. rewrite lt_split. apply absorb_unhomed; [|rlia].
    apply (tok_amount_range (lq_ledger x)). }
  apply accrue_quiet in lt_accrue. apply remove_victim_quiet in lt_victim. apply reactor_quiet in lt_pool.
  apply remainder_flags in lt_rest as (m5 & Hm5 & E5). apply reweight_quiet in lt_reweight. cbn [fst] in *.
  read_market. destruct lt_result as (-> & _ & _). apply supply_liquidate_Ok in lt_supply as (_ & Eagg & Ebad & _).
  set (m3 := m2 <| agg_recorded_debt := ld_new_agg sd |> <| bad_debt := ld_new_bad sd |>) in *.
  assert (quiet m3 m5) as H35 by (by transitivity (lq_market x4)).
  assert (quiet (lq_market x5) m7) as H57 by (etransitivity; [|exact lt_reweight]; by split).
  destruct (quiet_flags _ _ H35) as [Fs Fr]. rewrite <- (tier_events_flags _ _ m2 m5) by done.
  destruct (tiers_logged (collateral_mint (lq_market x)) (lk_position k) m5 a (ld_new_bad sd) bs' Hu Hr)
    as (Ef & Eb & Htiers & Hsh & Hnm & Hrs). rewrite <- E5 in *.
  assert (quiet (lq_market x) m2) as H02 by (by transitivity m1). clear lt_accrue lt_victim lt_reweight lt_pool.
  destruct (quiet_flags _ _ H57) as [Gs Gr], (quiet_flags _ _ H02) as [Is Ir]. cbn in Fs, Fr.
  assert (backed_by (lq_market x5) = backed_by m5 /\ bad_debt (lq_market x5) = bad_debt m5) as [B5 D5].
  { rewrite E5. destruct (0 <? ab_redist a); [done|apply unhomed_same]. }
  clear E5. destruct H02, H35, H57. unfold named in *. unfold backed_by, backed in *. cbn in *.
  unfold ab_total in Et.
  constructor; rewrite ?total_app, ?announced_app, ?Ef, ?Eb; unfold total; cbn; rewrite ?app_nil_r; unfold named;
    rewrite ?Gs, ?Gr, <- ?Is, <- ?Ir, <- ?Fs, <- ?Fr; try done.
  - unfold backed_by, backed. lia.
  - lia.
  - apply Forall_app. split; [done|]. repeat constructor. cbn. lia.
Qed.

(** ** Redemption *)

Lemma progress_logged m m1 m2 m' b dr e : quiet m m1 -> progress m1 m2 b dr -> quiet m2 m' ->
  shutdown_reasons e = [] -> tiers_add_up e -> fusd_delta e = - b -> bad_delta e = 0 -> logged [e] m m'.
Proof.
  intros [] [_ _ [Es Er] Ed [Eu Eb] _ _] [] Hr Ht Ef Ebd.
  apply single_logged; rewrite ?Ef, ?Ebd; try done; try lia; try congruence.
  unfold backed_by, backed in *. lia.
Qed.

Lemma redeem_logged clk k x amount x' : redemption_ok (unix_timestamp clk) x -> u64 amount ->
  redeem clk k x amount = Ok x' ->
  exists evs, redeem_events clk k x amount = Ok evs /\ logged evs (rd_market x) (rd_market x').
Proof.
  intros Hok Ha H. pose proof (redeem_run _ _ _ _ _ H) as (m1 & mid & s & d & fee & paid & Htr).
  destruct (trace_drained _ _ _ _ _ _ _ _ _ _ _ Hok Ha Htr) as (_ & Hdn & Hpg). destruct Htr.
  destruct tr_market as (br & ts & sp & Em & _). unfold redeem in H. do 4 (bind H as ? Hc; clear Hc).
  rewrite tr_accrue in H. cbn [mbind result_bind] in H. rewrite tr_mid in H. cbn [mbind result_bind] in H.
  do 2 (bind H as ? Hc; clear Hc). rewrite tr_scan in H. cbn [mbind result_bind] in H. bind H as ? Hc. clear Hc.
  rewrite tr_drain in H. cbn [mbind result_bind] in H. bind H as red Hred. bind H as ? Hc. clear Hc.
  destruct (redeem_fee _ _ _ _ _) as [m3 bps] eqn:Efee. bind H as f Hf. bind H as pd Hpd. clear H.
  unfold redeem_events. rewrite tr_accrue. step_ok. rewrite tr_mid. step_ok. rewrite tr_scan. step_ok.
  rewrite tr_drain. step_ok. rewrite Hred. step_ok. rewrite Efee, Hf. step_ok. rewrite Hpd. step_ok.
  eexists. split; [done|]. apply no_panic_Ok in Hred. checked. subst red.
  destruct Hdn as [_ _ Hrem _ _ _]. cbn in Hrem. apply accrue_quiet in tr_accrue.
  eapply progress_logged; [done|exact Hpg|rewrite Em; by split|done|done| |done]. cbn. f_equal. apply Z.mod_small. rlia.
Qed.

Lemma urgent_logged clk k x amount x' : redemption_ok (unix_timestamp clk) x -> u64 amount ->
  urgent_redeem clk k x amount = Ok x' ->
  exists evs, urgent_events clk k x amount = Ok evs /\ logged evs (rd_market x) (rd_market x').
Proof.
  intros Hok Ha H. unfold urgent_redeem in H. do 4 (bind H as ? Hc; clear Hc).
  bind H as m1 Hacc. bind H as mid Hmid. bind H as w Hw. bind H as red Hred. do 3 (bind H as ? Hc; clear Hc).
  injection H as <-. unfold urgent_events. rewrite Hacc. step_ok. rewrite Hmid. step_ok. rewrite Hw. step_ok.
  rewrite Hred. step_ok. eexists. split; [done|]. apply no_panic_Ok in Hred. checked. subst red.
  destruct (accrue_standing _ _ _ Hok Hacc) as (_ & Hst & _). apply accrue_quiet in Hacc.
  assert (market_ok m1) as Hm1 by (by destruct Hst as [[] _ _]).
  apply (urgent_loop_Ok (unix_timestamp clk) mid) in Hw;
    [|by destruct Hok as [_ _ [? _] _ _ _]|done|cbn; rlia|by eapply mid_price_range].
  destruct Hw as [_ Hpg Hrem _ _ _]. cbn in *.
  eapply progress_logged; [done|exact Hpg|done|done|done| |done]. cbn. f_equal. apply Z.mod_small. rlia.
Qed.

(** ** Market instructions *)

Lemma refresh_mint_shape k m bs l c : post (fun x => exists gc, x.1.1 = m <| global_contributed := gc |>)
  (refresh_mint_backstop k m bs l c).
Proof.
  unfold refresh_mint_backstop. destruct (0 <? c).
  - do 5 (apply post_any; intros ?). apply post_ok. by eexists.
  - apply post_ok. exists (global_contributed m). by destruct m.
Qed.

Lemma refresh_logged clk k x x' : market_ok (rf_market x) -> timestamp (unix_timestamp clk) ->
  last_update_ts (rf_market x) <= unix_timestamp clk -> refresh_market clk k x = Ok x' ->
  exists evs, refresh_events clk k x = Ok evs /\ logged evs (rf_market x) (rf_market x').
Proof.
  intros Hok Hn Hle H. unfold refresh_market in H. bind H as ? Hk. bind H as m1 Hm1.
  unfold refresh_events. rewrite Hm1. step_ok. pose proof Hm1 as Hq. apply accrue_quiet in Hq.
  apply accrue_Ok in Hm1 as [dI Hacc]; [|done..]. pose proof (ac_ok _ _ _ _ Hacc) as [].
  destruct (Z.eqb_spec (unminted_interest m1) 0).
  { injection H as <-. eexists. split; [done|]. by apply silent_logged. }
  bind H as [cut head] Hbs. bind H as d Hd. bind H as l1 Hl1. bind H as l2 Hl2.
  bind H as [[m2 bs2] l3] Hl3. bind H as fd Hfd. injection H as <-.
  rewrite Hbs. step_ok. rewrite Hd. step_ok. eexists. split; [done|]. apply math_Ok in Hd.
  assert (0 <= head) as Hh by (by eapply refresh_headroom).
  apply supply_refresh_Ok in Hd as (Ea & Es & Eu & Eb & Hall & _ & _ & _); [|done..].
  rewrite !Forall_cons in Hall. destruct Hall as (? & ? & ? & ? & ? & ? & _).
  assert (forall z, 0 <= z <= rf_amount d -> as_u64 z = z) as Has by (intros; apply Z.mod_small; rlia).
  apply refresh_mint_shape in Hl3 as [gc Em2]. cbn in Em2. subst m2. destruct Hq. cbn in *. unfold backed_by, backed in *.
  apply single_logged; cbn; rewrite ?Has by rlia; unfold backed_by, backed; cbn; try done; try lia; congruence.
Qed.

Lemma settle_logged g a t m l amount m' l' c : settle_bad_debt g a t m l amount = Ok (m', l') ->
  logged [OfGovernance (BadDebtSettled c amount (bad_debt m'))] m m'.
Proof.
  intros H. unfold settle_bad_debt in H. do 5 (bind H as ? Hc; clear Hc). bind H as bad Hbad. injection H as <- <-.
  inv_ok Hbad. unfold supply_settle_bad_debt in Hbad. cbn in Hbad. checked. subst.
  apply single_logged; unfold backed_by, backed; cbn; try done; lia.
Qed.

Lemma shutdown_logged clk m m' : shutdown_market clk m = Ok m' ->
  exists evs, shutdown_events clk m = Ok evs /\ logged evs m m'.
Proof.
  intros H. unfold shutdown_market in H. bind H as ? Hs. inv_ok Hs. bind H as m1 Hm1. bind H as ? Hc.
  apply (inj Ok) in H. subst m'. unfold shutdown_events. rewrite Hm1. step_ok. eexists. split; [done|].
  apply accrue_quiet in Hm1 as []. unfold backed_by, backed in *.
  constructor; unfold total, announced, backed_by, backed, named; cbn; rewrite ?Hs; try lia; try done.
  - by destruct (oracle_failed clk m1).
  - by repeat constructor.
Qed.

(** ** Every instruction *)

Lemma touch_world_Ok w key f w' : touch_world w key f = Ok w' -> exists p t',
  w_positions w !! key = Some p /\ f (mkTouch (w_market w) p (w_bitmap w) (w_ledger w)) = Ok t' /\
  w_market w' = t_market t' /\ load_position w' key = Ok (t_position t').
Proof.
  intros H. unfold touch_world, load_position in H. bind H as p Hp. bind H as t' Ht. injection H as <-. inv_ok Hp.
  exists p, t'. do 3 (split; [done|]). unfold load_position. cbn. by rewrite lookup_insert_eq.
Qed.

Lemma deposit_world_Ok w key f w' : deposit_world w key f = Ok w' -> exists dep x',
  w_deposits w !! key = Some dep /\ f (mkDepositing (w_pool w) dep (w_ledger w)) = Ok x' /\
  w_market w' = w_market w /\ w_deposits w' !! key = Some (dp_deposit x').
Proof.
  intros H. unfold deposit_world in H. bind H as dep Hd. bind H as x' Hx. injection H as <-. inv_ok Hd.
  exists dep, x'. do 3 (split; [done|]). cbn. by rewrite lookup_insert_eq.
Qed.

(** A price crank that commits announces one price. *)
Lemma price_emits clk cfg k m o ring m' r : update_price clk cfg k m o ring = Ok r ->
  exists e, price_events clk cfg k m o ring m' = Ok [e] /\ silent e = true.
Proof.
  intros H. unfold update_price in H. cbv zeta in H. unfold price_events, price_result.
  bind H as py Hpy. rewrite Hpy. step_ok. bind H as sb Hsb. rewrite Hsb. step_ok. bind H as v Hv. rewrite Hv. step_ok.
  destruct v as [[[rate p1] p2]|]; [|by eexists]. bind H as ca Hca. cbv zeta. rewrite Hca. step_ok. by eexists.
Qed.

(** So does a sample of the pool. *)
Lemma sample_emits clk c o ring pool ring' : sample_twap clk o ring pool = Ok ring' ->
  exists e, sample_events clk c o pool = Ok [e] /\ silent e = true.
Proof.
  intros H. unfold sample_twap in H. cbv zeta in H. unfold sample_events. cbv zeta. bind H as [v vp] Hv. rewrite Hv. step_ok.
  bind H as ? Hc. bind H as sm Hsm. rewrite Hsm. step_ok. bind H as usd Husd. rewrite Husd. step_ok. by eexists.
Qed.

(** One event with nothing to account for. *)
Lemma quietly m m' e (r : result Error (list Event)) : r = Ok [e] -> silent e = true -> quiet m m' ->
  exists evs, r = Ok evs /\ logged evs m m'.
Proof. intros -> He Hq. eexists. split; [done|]. apply silent_logged; [|done]. cbn. by rewrite He. Qed.

(** No event. *)
Lemma silently m m' (r : result Error (list Event)) : r = Ok [] -> quiet m m' ->
  exists evs, r = Ok evs /\ logged evs m m'.
Proof. intros -> Hq. eexists. split; [done|]. by apply silent_logged. Qed.

(** Leaving the pool, in part or with the gain. *)
Lemma withdraw_reactor_emits c k g x amount x' dep' m : withdraw_from_reactor k g x amount = Ok x' ->
  exists evs, withdraw_reactor_events c k g x amount dep' = Ok evs /\ logged evs m m.
Proof.
  intros H. unfold withdraw_from_reactor in H. do 3 (bind H as ? Hc; clear Hc). bind H as [d cmp] Hr.
  unfold withdraw_reactor_events. rewrite Hr. step_ok. by eapply quietly.
Qed.

Lemma claim_reactor_emits c k g x x' dep' m : claim_reactor_gains k g x = Ok x' ->
  exists evs, claim_reactor_events c k g x dep' = Ok evs /\ logged evs m m.
Proof.
  intros H. unfold claim_reactor_gains in H. do 2 (bind H as ? Hc; clear Hc). bind H as [d cmp] Hr.
  unfold claim_reactor_events. rewrite Hr. step_ok. by eapply quietly.
Qed.

Lemma exec_logged clk i w w' : invariant w -> admissible clk i w -> exec clk i w = Ok w' ->
  exists evs, emits clk i w w' = Ok evs /\ logged evs (w_market w) (w_market w').
Proof.
  intros Hinv Had H. pose proof (signer_not_market _ _ _ Had) as Hsig. destruct Had as [Hn Hle Harg _].
  apply exec_Ok in H as [Hload H]. destruct i; cbn [System.signer arg_ok] in Hsig, Harg; cbn [handle] in H;
    lazymatch type of H with
    | touch_world _ _ _ = _ => apply touch_world_Ok in H as (p & t' & Hp & Ht & Em & Hp'); cbv beta in Ht; cbn [emits];
        rewrite ?Hp', ?Em; step_ok; try (eapply quietly; [reflexivity|done|]; by_frame)
    | deposit_world _ _ _ = _ => apply deposit_world_Ok in H as (dep & x' & Hdep & Hx & Em & Hdep'); cbv beta in Hx;
        cbn [emits]; rewrite ?Hdep, ?Hdep', ?Em; step_ok; try by eapply quietly
    | _ => unfold gate_world, config_world, market_world, price_world, line_world, reserve_world, cancel_world, cancel_global_world,
        execute_global_world in H; run_through H; try (injection H as <-); emit;
        try solve [first [eapply quietly; [reflexivity|done|] | eapply silently; [reflexivity|]]; done || by_frame]
    end.
  - eexists. split; [reflexivity|]. by eapply borrow_logged in Ht.
  - unfold load_position. rewrite Hp. step_ok. eapply repay_logged in Ht; [exact Ht|by eapply touch_ok_of|done].
  - cbn in Hload. propify. unfold liquidate_world in H. run_through H. injection H as <-. emit.
    unfold load_position in *. inv_ok Hc.
    eapply (liquidate_logged clk k (liq_of w x with_backstop)) in Hc0; [exact Hc0|by eapply liq_ok_of|]. cbn. congruence.
  - unfold redeem_world in H. run_through H. injection H as <-.
    eapply redeem_logged; [by apply redemption_ok_of|done|done].
  - unfold redeem_world in H. run_through H. injection H as <-.
    eapply urgent_logged; [by apply redemption_ok_of|done|done].
  - eapply refresh_logged in Hc; [done|by destruct Hinv as [[] _ _ _ _ _ _]|done|cbn; destruct Hinv; lia].
  - eexists. split; [reflexivity|]. by eapply settle_logged in Hc.
  - by eapply shutdown_logged in Hc.
  - by eapply withdraw_reactor_emits.
  - by eapply claim_reactor_emits.
  - destruct (price_emits _ _ _ _ _ _ m _ Hc) as (e & He & Hs). eapply quietly; [exact He|done|by_frame].
  - destruct (sample_emits _ (collateral_mint (w_market w)) _ _ _ _ Hc) as (e & He & Hs). by eapply quietly.
  - unfold queue_world, queue_param in H. run_through H. run_through Hc0. injection Hc0 as <- <-. injection H as <-.
    cbn -[insert lookup]. rewrite lookup_insert_eq. step_ok. by eapply quietly.
  - unfold execute_world in H. run_through H. injection H as <-. emit.
    eexists. split; [reflexivity|]. apply silent_logged; [unfold execute_events; by destruct (_ && _)|by_frame].
  - unfold queue_global_world, queue_global in H. run_through H. run_through Hc0. injection Hc0 as <- <-. injection H as <-.
    cbn -[insert lookup]. rewrite lookup_insert_eq. step_ok. by eapply quietly.
Qed.

(** ** Runs and their streams *)

(** [history w log outside w']: a run from [w] to [w'] with everything it emitted, oldest
    first; activity elsewhere changed the fUSD supply by [outside]. *)
Inductive history : World -> list Event -> Z -> World -> Prop :=
  | hist_refl w : history w [] 0 w
  | hist_instr w log o w1 clk i w2 evs : history w log o w1 -> admissible clk i w1 -> exec clk i w1 = Ok w2 ->
      emits clk i w1 w2 = Ok evs -> history w (log ++ evs) o (w2 <| w_now := unix_timestamp clk |>)
  | hist_outside w log o w1 s dv ds : history w log o w1 -> elsewhere w1 s dv ds ->
      history w log (o + ds) (with_shared w1 s).

Lemma history_run w log o w' : history w log o w' -> exists d, run w d o w'.
Proof.
  induction 1 as [w|w log o w1 clk i w2 evs _ [d IH]|w log o w1 s dv ds _ [d IH]].
  - eexists. constructor.
  - exists d. by econstructor.
  - eexists. by econstructor.
Qed.

(** No run is without its stream. *)
Lemma run_history w d o w' : invariant w -> run w d o w' -> exists log, history w log o w'.
Proof.
  intros Hinv. induction 1 as [w|w d o w1 clk i w2 Hrun IH Had Hex|w d o w1 s dv ds Hrun IH Hel].
  - eexists. constructor.
  - destruct (IH Hinv) as [log Hh]. apply run_sound in Hrun as [Hi _]; [|done].
    destruct (exec_logged _ _ _ _ Hi Had Hex) as (evs & He & _). eexists. by econstructor.
  - destruct (IH Hinv) as [log Hh]. eexists. by econstructor.
Qed.

(** The stream accounts for the whole run. *)
Lemma history_logged w log o w' : history w log o w' -> invariant w -> named (w_market w) ->
  named (w_market w') /\ logged log (w_market w) (w_market w').
Proof.
  induction 1 as [w|w log o w1 clk i w2 evs Hh IH Had Hex Hem|w log o w1 s dv ds Hh IH Hel]; intros Hinv Hnm.
  - split; [done|]. by apply silent_logged.
  - destruct (IH Hinv Hnm) as [Hn1 Hl1]. apply history_run in Hh as [d Hr]. apply run_sound in Hr as [Hi _]; [|done].
    destruct (exec_logged _ _ _ _ Hi Had Hex) as (evs' & He & Hl2). rewrite Hem in He. injection He as <-. cbn.
    split; [by apply Hl2|by eapply logged_app].
  - exact (IH Hinv Hnm).
Qed.

Lemma genesis_open w : genesis w -> bad_debt (w_market w) = 0 /\ shutdown (w_market w) = false.
Proof.
  intros [(clk & a & mint & args & H & _)]. unfold init_market in H. do 10 (bind H as ? Hc; clear Hc).
  apply (inj Ok), (f_equal fst) in H. cbn [fst] in H. by rewrite <- H.
Qed.

(** C16: the event stream is enough to reconstruct the balance sheet. In every run of a market
    from its creation each instruction that commits emits its events, and over the whole
    stream: the fUSD supply has grown by what borrows and interest mints report, less what
    repayments, redemptions, liquidations and settlements report burned (plus what was minted
    or burned outside this market); the bad debt is the sum of what was reported un-homed,
    less what was reported settled or paid down; the five tiers of every liquidation add up to
    the debt it took; and the shutdown was announced exactly once, with the reason the market
    records, when the market is shut down, and never otherwise. *)
Theorem stream_accounts (w w' : World) (log : list Event) (o : Z) (Hg : genesis w) (Hh : history w log o w') :
  mint_supply (w_ledger w') fusd_mint = mint_supply (w_ledger w) fusd_mint + total fusd_delta log + o /\
  bad_debt (w_market w') = total bad_delta log /\
  announced log = (if shutdown (w_market w') then [shutdown_reason (w_market w')] else []) /\
  Forall tiers_add_up log /\
  (forall clk i w2, admissible clk i w' -> exec clk i w' = Ok w2 -> exists evs, emits clk i w' w2 = Ok evs).
Proof.
  destruct (genesis_invariant _ Hg) as (Hinv & _), (genesis_open _ Hg) as [Eb Es].
  apply history_logged in Hh as Hl; [|done|by intros E; rewrite Es in E]. destruct Hl as [_ []].
  apply history_run in Hh as [d Hr]. apply run_sound in Hr as (Hinv' & _ & _ & _ & Hsup); [|done].
  rewrite Es in lg_shutdown0. split; [lia|]. split; [lia|]. split; [by destruct (shutdown (w_market w'))|].
  split; [done|]. intros clk i w2 Had Hex. destruct (exec_logged _ _ _ _ Hinv' Had Hex) as (evs & He & _). by exists evs.
Qed.

End event_log.

(** ** On the concrete market *)

(** Run a list of instructions and collect the stream. *)
Fixpoint log_all {U : U256} {R : Runtime} {K : OracleSdk} (steps : list (Clock * Instr)) (w : World)
    : result Error (list Event * World) :=
  match steps with
  | [] => Ok ([], w)
  | (clk, i) :: steps =>
      w1 ← exec clk i w;
      evs ← emits clk i w w1;
      '(log, w') ← log_all steps (w1 <| w_now := unix_timestamp clk |>);
      Ok (evs ++ log, w')
  end.

Lemma log_all_history {U : U256} {R : Runtime} {K : OracleSdk} steps : forall w0 log0 o w log w',
  history w0 log0 o w -> admissible_all steps w = true -> log_all steps w = Ok (log, w') ->
  history w0 (log0 ++ log) o w'.
Proof.
  induction steps as [|[clk i] steps IH]; intros w0 log0 o w log w' Hh Had H; cbn [log_all admissible_all] in *.
  - injection H as <- <-. by rewrite app_nil_r.
  - apply andb_true_iff in Had as [Ha Had]. bind H as w1 Hw1. rewrite Hw1 in Had. bind H as evs He.
    bind H as [log' w2] Hrest. injection H as <- <-. rewrite app_assoc. eapply IH; [|exact Had|exact Hrest].
    eapply hist_instr; [done| |done|done]. by apply admissibleb_sound.
Qed.

#[local] Existing Instance WideInt.wide_u256.
#[local] Existing Instance MapLedger.runtime.
#[local] Existing Instance PlainSdk.sdk.

(** The lone borrower again: opened, borrowed, liquidated with everything un-homed. *)
Definition lone_log : list Event.
Proof. let r := eval vm_compute in (log_all Demo.lone Demo.w0) in lazymatch r with Ok (?l, _) => exact l end. Defined.

Lemma lone_history : history Demo.w0 lone_log 0 Demo.w_lone.
Proof.
  apply (log_all_history Demo.lone Demo.w0 [] 0 Demo.w0); [constructor|by vm_compute|].
  vm_cast_no_check (@eq_refl (result Error (list Event * World)) (log_all Demo.lone Demo.w0)).
Qed.

Lemma stream_accounts_witness :
  total fusd_delta lone_log = 800000000 /\ total bad_delta lone_log = 801267617 /\ announced lone_log = [3] /\
  bad_debt (w_market Demo.w_lone) = total bad_delta lone_log /\
  announced lone_log = (if shutdown (w_market Demo.w_lone) then [shutdown_reason (w_market Demo.w_lone)] else []).
Proof.
  do 3 (split; [vm_compute; reflexivity|]).
  destruct (stream_accounts Demo.w0 Demo.w_lone lone_log 0 Demo.genesis_w0 lone_history) as (_ & H1 & H2 & _).
  exact (conj H1 H2).
Defined.
