(* ===== verification/ReactorSafety.v ===== *)
(** * The Reactor Pool is solvent in every reachable state

    The pool's vault holds what the pool records, and the depositors' shares of it fit in
    it, along every run of a market from its creation. *)

From Stdlib Require Import Reals Lra.
From S2P Require Import Prelude MachineInt FixedPoint ReactorMath Recovery State Token Accrual PositionOps TouchEffect.
From S2P Require Import Reactor ReactorShares Liquidate LiquidateProofs MarketOps ReactorOps Init Governance.
From S2P Require Import CeilingLine Backstop OracleAdmin UpdatePrice System Frames Confined SystemProofs.
From S2P Require Import Reserve Scenario Safety.

Open Scope Z_scope.

Section reactor_safety.
Context {U : U256} {RT : Runtime} {K : OracleSdk}.

(** The token accounts of the pool. *)
Record pool_vaults (w : World) : Prop := {
  pv_fusd_owner : tok_owner (w_ledger w) (rp_fusd_vault (w_pool w)) = reactor_pda (collateral_mint (w_market w));
  pv_fusd_mint : tok_mint (w_ledger w) (rp_fusd_vault (w_pool w)) = fusd_mint;
  pv_coll_owner : tok_owner (w_ledger w) (rp_coll_vault (w_pool w)) = reactor_pda (collateral_mint (w_market w));
  pv_coll_mint : tok_mint (w_ledger w) (rp_coll_vault (w_pool w)) <> fusd_mint;
}.

Record pool_solvent (M : Z) (w : World) : Prop := {
  pn_pool : rp_collateral_mint (w_pool w) = collateral_mint (w_market w);
  pn_vaults : pool_vaults w;
  pn_vault : rp_total_deposits (w_pool w) <= tok_amount (w_ledger w) (rp_fusd_vault (w_pool w));
  pn_shares : shares_ok M (reactor.pool_state (w_pool w)) (w_deposits w);
}.

(** Of a market whose pool may not exist yet. *)
Definition pool_sound (M : Z) (w : World) : Prop :=
  if has_pool (w_created w) then pool_solvent M w else w_deposits w = ∅.
Definition pool_deposits (w : World) : Z := if has_pool (w_created w) then rp_total_deposits (w_pool w) else 0.

Lemma sound_pool M w : pool_sound M w -> pool_of_market w.
Proof. unfold pool_sound. intros H Hh. rewrite Hh in H. by destruct H. Qed.

(** Owners other than the pool of [c]. *)
Definition others (c k : Pubkey) : Prop := k <> reactor_pda c.

(** ** Steps that leave the pool alone *)

Lemma solvent_untouched M w w' (P : Pubkey -> Prop) : confined P (w_ledger w) (w_ledger w') ->
  ~ P (reactor_pda (collateral_mint (w_market w))) ->
  collateral_mint (w_market w') = collateral_mint (w_market w) -> w_pool w' = w_pool w ->
  w_deposits w' = w_deposits w -> pool_solvent M w -> pool_solvent M w'.
Proof.
  intros [Ho Hm Ha] HP Ec Ep Ed [Hp [Hv1 Hv2 Hv3 Hv4] Hv Hs]. constructor.
  - congruence.
  - constructor; rewrite Ep, ?Ho, ?Hm, ?Ec; done.
  - rewrite Ep. specialize (Ha (rp_fusd_vault (w_pool w))). rewrite Hv1 in Ha. specialize (Ha HP). lia.
  - by rewrite Ep, Ed.
Qed.

Definition touches_pool (i : Instr) : bool :=
  match i with
  | LiquidateI _ _ | OpenReactorDepositI _ | ProvideToReactorI _ _ | WithdrawFromReactorI _ _
  | ClaimReactorGainsI _ | InitReactorPoolI _ _ _ _ => true
  | _ => false
  end.

Lemma exec_pool_same clk i w : touches_pool i = false ->
  post (fun w' => w_pool w' = w_pool w /\ w_deposits w' = w_deposits w /\
    has_pool (w_created w') = has_pool (w_created w) /\ w_grid w' = w_grid w) (exec clk i w).
Proof.
  intros Hi. apply exec_post. repeat apply post_and; destruct i; try discriminate Hi; cbn [handle];
    unfold touch_world, redeem_world, market_world, queue_world, execute_world, cancel_world, gate_world,
      config_world, price_world, line_world, reserve_world, queue_global_world, execute_global_world,
      cancel_global_world; no_ledger.
Qed.

Lemma exec_others_confined clk i w w' (c := collateral_mint (w_market w)) : admissible clk i w -> pool_of_market w ->
  touches_pool i = false -> exec clk i w = Ok w' -> confined (others c) (w_ledger w) (w_ledger w').
Proof.
  intros [_ _ _ Hsig] Hp Hi. revert w'. apply (exec_confined_by (others c)).
  - by apply pda_families.
  - intros a E ->. apply Hsig in E. by rewrite own_pda_reactor in E.
  - intros _ E. symmetry in E. revert E. by apply pda_backstop.
  - by destruct i.
  - by destruct i.
  - done.
Qed.

Lemma others_untouched M clk i w w' : invariant w -> admissible clk i w -> touches_pool i = false ->
  exec clk i w = Ok w' -> pool_sound M w -> pool_sound M w'.
Proof.
  intros Hinv Had Hi H Hs. pose proof (exec_preserved _ _ _ _ Hinv Had H) as [_ _ [Ec _] _ _ _].
  destruct (exec_pool_same _ _ _ Hi _ H) as (Ep & Ed & Eh & _).
  pose proof (exec_others_confined _ _ _ _ Had (sound_pool _ _ Hs) Hi H) as Hc.
  unfold pool_sound in *. rewrite Eh. destruct (has_pool (w_created w)); [|congruence].
  eapply solvent_untouched; [exact Hc|by intros []|done..].
Qed.

(** ** A depositor *)

Lemma realize_and_snapshot_Ok pool grid d d' c : realize_and_snapshot pool grid d = Ok (d', c) ->
  compounded_deposit (reactor.pool_state pool) (deposited_fusd d) (reactor.snapshot_of d) = Some c /\
  exists g, d' = reactor.set_snapshot (d <| pending_collateral_gain := g |>) (reactor.pool_state pool) grid.
Proof.
  intros H. unfold realize_and_snapshot, reactor.realize in H. bind H as [d1 c1] Hr. injection H as <- <-.
  bind Hr as c2 Hc. bind Hr as gain Hg. bind Hr as g64 Hg64. bind Hr as p Hp. injection Hr as <- <-. inv_ok Hc.
  split; [done|by exists p].
Qed.

(** Realizing, then moving [delta] between the depositor and the pool. *)
Lemma depositor_shares M pool deps k d grid d1 c delta n g total : shares_ok M (reactor.pool_state pool) deps ->
  deps !! k = Some d -> realize_and_snapshot pool grid d = Ok (d1, c) -> u64 n -> n = c + delta ->
  u128 total -> total = rp_total_deposits pool + delta -> total <= M ->
  shares_ok M (reactor.pool_state (pool <| rp_total_deposits := total |>))
    (<[k := d1 <| deposited_fusd := n |> <| pending_collateral_gain := g |>]> deps).
Proof.
  intros Hs Hk Hr Hn -> Ht Et Hm. apply realize_and_snapshot_Ok in Hr as (Hc & g1 & ->).
  pose proof Hs as [Hok Hd _ _ _]. destruct (compounded_worth _ _ Hok (Hd _ _ Hk)) as (c' & Ec & _ & Hle).
  rewrite Hc in Ec. injection Ec as <-.
  destruct (worth_now (reactor.pool_state pool) grid (d <| pending_collateral_gain := g1 |>) (c + delta) Hok Hn) as [Hd' Ew].
  apply (shares_update M (reactor.pool_state pool) deps k d _ delta total Hs Hk Ht Et Hm).
  - destruct Hd'. by constructor.
  - etransitivity; [exact (Req_le _ _ Ew)|]. rewrite plus_IZR. lra.
Qed.

(** What the three instructions of a depositor leave. *)
Record pool_step (M : Z) (c : Pubkey) (deps : gmap Z ReactorDeposit) (k : Pubkey) (x x' : Depositing) : Prop := {
  pp_confined : confined (fun _ => True) (dp_ledger x) (dp_ledger x');
  pp_same : rp_fusd_vault (dp_pool x') = rp_fusd_vault (dp_pool x) /\
    rp_coll_vault (dp_pool x') = rp_coll_vault (dp_pool x) /\ same_pool (dp_pool x) (dp_pool x');
  pp_vault : tok_amount (dp_ledger x) (rp_fusd_vault (dp_pool x)) - rp_total_deposits (dp_pool x)
    <= tok_amount (dp_ledger x') (rp_fusd_vault (dp_pool x)) - rp_total_deposits (dp_pool x');
  pp_shares : shares_ok M (reactor.pool_state (dp_pool x')) (<[k := dp_deposit x']> deps);
}.

Section depositing.
Variables (M : Z) (c : Pubkey) (deps : gmap Z ReactorDeposit) (key : Pubkey) (k : DepositAccounts) (grid : list Z).
Variables (x x' : Depositing).
Hypothesis Hs : shares_ok M (reactor.pool_state (dp_pool x)) deps.
Hypothesis Hkey : deps !! key = Some (dp_deposit x).
Hypothesis Hmax : rp_total_deposits (dp_pool x') <= M.
Hypothesis Hown : tok_owner (dp_ledger x) (rp_fusd_vault (dp_pool x)) <> dk_owner k.
Hypothesis Hne : rp_fusd_vault (dp_pool x) <> rp_coll_vault (dp_pool x).

Lemma provide_step n : provide_to_reactor k grid x n = Ok x' -> pool_step M c deps key x x'.
Proof using Hs Hkey Hmax Hown.
  intros H. pose proof H as Hc. apply (provide_confined (fun _ => True)) in Hc; [|done]. cbn in Hc.
  unfold provide_to_reactor in H. bind H as ? H1. bind H as ? H2. bind H as ? H3. bind H as [d1 c1] Hr. bind H as n1 Hn1.
  bind H as l Hl. bind H as t Ht. injection H as <-. cbn in *. inv_ok Hn1. inv_ok Hl. inv_ok Ht. checked.
  subst. constructor; cbn; [done|done| |].
  - apply transfer_law in Hl as (Eo & _ & Hn & -> & _). rewrite bool_decide_false, bool_decide_true by congruence. lia.
  - by eapply (depositor_shares _ _ _ _ _ _ _ _ n _ (pending_collateral_gain d1)).
Qed.

Lemma withdraw_step n : u64 n -> withdraw_from_reactor k grid x n = Ok x' -> pool_step M c deps key x x'.
Proof using Hs Hkey Hmax.
  intros Hu H. pose proof H as Hc. apply (withdraw_pool_confined (fun _ => True)) in Hc; [|done]. cbn in Hc.
  unfold withdraw_from_reactor in H. bind H as ? H1. bind H as ? H2. bind H as ? H3. bind H as [d1 c1] Hr. cbv zeta in H.
  pose proof (realize_and_snapshot_Ok _ _ _ _ _ Hr) as [Ec _]. pose proof Hs as [Hok Hd _ _ _].
  destruct (compounded_worth _ _ Hok (Hd _ _ Hkey)) as (c' & Ec' & Hc0 & _). rewrite Ec in Ec'. injection Ec' as <-.
  assert (as_u64 (Z.min n c1) = Z.min n c1) as Ew by (unfold as_u64; apply Z.mod_small; rlia). rewrite Ew in H.
  assert (0 <= Z.min n c1) by rlia. set (wa := Z.min n c1) in *. bind H as l Hl. bind H as t Ht. bind H as r Hrest. bind H as rem Hrem. injection H as <-.
  cbn in *. inv_ok Ht. inv_ok Hrest. inv_ok Hrem. checked. subst.
  constructor; cbn; [done|done| |].
  - destruct (Z.ltb_spec 0 wa); [|injection Hl as <-; lia]. inv_ok Hl. apply transfer_law in Hl as (_ & _ & Hn & -> & _).
    rewrite bool_decide_true by done. case_bool_decide; lia.
  - eapply (depositor_shares _ _ _ _ _ _ _ _ (- wa) _ (pending_collateral_gain d1)); done || lia.
Qed.

Lemma claim_step : claim_reactor_gains k grid x = Ok x' -> pool_step M c deps key x x'.
Proof using Hs Hkey Hmax Hne.
  intros H. pose proof H as Hc. apply (claim_gains_confined (fun _ => True)) in Hc; [|done]. cbn in Hc.
  unfold claim_reactor_gains in H. bind H as ? H1. bind H as ? H2. bind H as [d1 c1] Hr. bind H as n1 Hn. cbv zeta in H.
  inv_ok Hn. unfold try_u64 in Hn. apply fit_Some in Hn as [-> Hn]. pose proof (po_total _ (so_pool _ _ _ Hs)) as Ht.
  assert (forall g, rp_total_deposits (dp_pool x) <= M -> shares_ok M (reactor.pool_state (dp_pool x))
    (<[key := d1 <| deposited_fusd := c1 |> <| pending_collateral_gain := g |>]> deps)) as Hsh.
  { intros g Hm. refine (depositor_shares M (dp_pool x) deps key _ grid d1 c1 0 c1 g _ Hs Hkey Hr _ _ Ht _ Hm); [done|lia|cbn; lia]. }
  destruct (Z.ltb_spec 0 (pending_collateral_gain (d1 <| deposited_fusd := c1 |>))).
  - bind H as l Hl. injection H as <-. cbn in *. inv_ok Hl. constructor; cbn; [done|done| |by apply Hsh].
    apply transfer_law in Hl as (_ & _ & Hn' & -> & _). rewrite bool_decide_false by done. case_bool_decide; lia.
  - injection H as <-. cbn in *. constructor; cbn; [done|done|lia|]. exact (Hsh (pending_collateral_gain d1) Hmax).
Qed.

End depositing.

Lemma deposit_world_solvent M w key f w' : pool_solvent M w -> rp_total_deposits (w_pool w') <= M ->
  (forall d x', w_deposits w !! key = Some d -> rp_total_deposits (dp_pool x') <= M ->
    f (mkDepositing (w_pool w) d (w_ledger w)) = Ok x' ->
    pool_step M (collateral_mint (w_market w)) (w_deposits w) key (mkDepositing (w_pool w) d (w_ledger w)) x') ->
  deposit_world w key f = Ok w' -> pool_solvent M w'.
Proof.
  intros [Hp [Hv1 Hv2 Hv3 Hv4] Hv Hs] Hm Hf H. unfold deposit_world in H. bind H as d Hd. bind H as x' Hx.
  apply (inj Ok) in H. subst w'. inv_ok Hd. cbn in Hm. destruct (Hf _ _ Hd Hm Hx) as [[Ho Hmn _] (E1 & E2 & E3) Hva Hsh].
  cbn in *. constructor; cbn; [|constructor; cbn; rewrite ?E1, ?E2, ?Ho, ?Hmn; done|rewrite E1; lia|done].
  unfold same_pool in *. congruence.
Qed.

(** ** Liquidation *)

Definition pool_same (x x' : Liq) : Prop := lq_pool x' = lq_pool x.
Lemma buffer_pool_same x a : post (pool_same x) (liq_buffer x a).
Proof. unfold liq_buffer, pool_same. no_ledger_if. Qed.
Lemma backstop_pool_same k x a : post (pool_same x) (liq_backstop k x a).
Proof. unfold liq_backstop, pool_same. no_ledger_if. Qed.

Lemma remainder_pool_same k x a cr : post (pool_same x) (liq_remainder k x a cr).
Proof.
  intros x' H. unfold liq_remainder in H. destruct (0 <? ab_redist a); [bind H as m Hm; by injection H as <-|].
  destruct (_ || _); [|by injection H as <-]. bind H as cu Hcu. bind H as pc Hpc. cbv zeta in H. bind H as x1 Hx1.
  bind H as x2 Hx2. apply (inj Ok) in H. subst x'. apply buffer_pool_same in Hx1. apply backstop_pool_same in Hx2.
  unfold pool_same in *. cbn in *. congruence.
Qed.

(** The Reactor tier burns from the pool's vault what it takes off the deposits. *)
Lemma reactor_tier M x a coll x' deps (v := rp_fusd_vault (lq_pool x)) : shares_ok M (reactor.pool_state (lq_pool x)) deps ->
  u128 coll -> liq_reactor x a coll = Ok x' -> market_pda (collateral_mint (lq_market x)) <> tok_owner (lq_ledger x) v ->
  shares_ok M (reactor.pool_state (lq_pool x')) deps /\
  tok_amount (lq_ledger x) v - rp_total_deposits (lq_pool x) <= tok_amount (lq_ledger x') v - rp_total_deposits (lq_pool x') /\
  rp_fusd_vault (lq_pool x') = v /\ rp_coll_vault (lq_pool x') = rp_coll_vault (lq_pool x).
Proof.
  intros Hs Hc H Hne. unfold liq_reactor in H. destruct (Z.ltb_spec 0 a); [|injection H as <-; done].
  bind H as [ps g] Ho. bind H as n Hn. bind H as l1 Hl1. bind H as l2 Hl2. apply (inj Ok) in H. subst x'.
  apply map_err_Ok in Ho. inv_ok Hn. inv_ok Hl1. checked. subst n. pose proof (offset_total _ _ _ _ _ _ _ Ho) as Et.
  split; [|split; [|done]].
  - apply (shares_offset _ _ _ _ _ _ _ _ _ Hs) in Ho; [|lia|done]. by destruct ps.
  - apply burn_law in Hl1 as (_ & _ & Hn' & Ham & _ & Hown). cbn in Et |- *.
    assert (tok_amount l1 v <= tok_amount l2 v) as Hle.
    { destruct (0 <? coll); [|injection Hl2 as <-; lia]. bind Hl2 as n2 Hn2. inv_ok Hl2.
      apply transfer_law in Hl2 as (Eo & _ & Hn3 & -> & _). destruct (Hown (collateral_vault (lq_market x))) as [Eo' _].
      rewrite bool_decide_false; [case_bool_decide; lia|]. intros ->. congruence. }
    rewrite Ham, bool_decide_true in Hle by done. lia.
Qed.

(** The collateral a liquidation sends to the pool is in range. *)
Lemma trace_range clk k x x' m1 p1 m2 p2 seize gas dist ga sp cr sd l1 x4 x5 p6 l6 m7 a :
  liq_ok (unix_timestamp clk) x ->
  liq_trace clk k x x' m1 p1 m2 p2 seize gas dist ga sp cr sd l1 x4 x5 p6 l6 m7 a -> u128 sp.
Proof.
  intros Hok []. destruct (trace_realized clk x Hok _ _ lt_accrue lt_realize) as (dI & _ & Hrz & _).
  pose proof (rz_ok _ _ _ Hrz) as []. apply global_available_range in lt_global. destruct Hok.
  pose proof (tok_amount_range (lq_ledger x) (ib_fusd_vault (lq_buffer x))).
  destruct (absorb_spec (recorded_debt p1) (rp_total_deposits (lq_pool x)) (0 <? total_stakes m2)
    (tok_amount (lq_ledger x) (ib_fusd_vault (lq_buffer x))) ga) as (Hr & _); [done|done|rlia|done|].
  rewrite <- lt_split in Hr. checked. eapply mul_div_floor_u128; [..|exact lt_sp]; [rlia|done|done].
Qed.

Lemma liquidate_solvent M clk k x x' deps (c := collateral_mint (lq_market x)) (v := rp_fusd_vault (lq_pool x)) :
  liq_ok (unix_timestamp clk) x -> shares_ok M (reactor.pool_state (lq_pool x)) deps ->
  tok_owner (lq_ledger x) v = reactor_pda c -> liquidate clk k x = Ok x' ->
  shares_ok M (reactor.pool_state (lq_pool x')) deps /\
  tok_amount (lq_ledger x) v - rp_total_deposits (lq_pool x) <= tok_amount (lq_ledger x') v - rp_total_deposits (lq_pool x') /\
  rp_fusd_vault (lq_pool x') = v /\ rp_coll_vault (lq_pool x') = rp_coll_vault (lq_pool x).
Proof.
  intros Hok Hs Hv H. apply liquidate_run in H as (m1 & p1 & m2 & p2 & seize & gas & dist & ga & sp & cr & sd & l1 &
    x4 & x5 & p6 & l6 & m7 & a & Htr). pose proof (trace_range _ _ _ _ _ _ _ _ _ _ _ _ _ _ _ _ _ _ _ _ _ _ Hok Htr) as Hsp.
  pose proof Htr as []. destruct lt_result as (_ & E2 & E3). set (P := others c).
  assert (P (market_pda c) /\ P (buffer_pda c) /\ P backstop_pda) as (Hm & Hb & Hg).
  { unfold P, others. split; [apply pda_families|]. split; intros E; symmetry in E; revert E; [apply pda_families|apply pda_backstop]. }
  rename lt_pool into Hp. destruct (trace_gas P _ _ _ _ _ _ _ _ _ _ _ _ _ _ _ _ _ _ _ _ _ _ Htr Hm) as [Ec [Ho1 _ Ha1]].
  assert (~ P (tok_owner (lq_ledger x) v)) as Hn by (rewrite Hv; by intros []).
  pose proof (reactor_confined (fun _ => True) _ _ _ I I _ Hp) as [Hst [Ho4 _ _]]. specialize (Ha1 v Hn).
  apply (reactor_tier M _ _ _ _ deps) in Hp; [|done|done|cbn; rewrite Ec, Ho1; fold v; rewrite Hv; apply pda_families].
  destruct Hp as (Hs4 & Hv4 & Ef & Ecv). cbn in Hv4, Ef, Ecv, Hst, Ho4.
  assert (collateral_mint (lq_market x4) = c) as Ec4 by (by rewrite (st_mint _ _ Hst)).
  pose proof (remainder_pool_same _ _ _ _ _ lt_rest) as E5. unfold pool_same in E5.
  apply (remainder_confined P) in lt_rest as [_ H5]; [|by rewrite Ec4|done].
  apply (close_victim_confined P) in lt_close. cbn in lt_close. pose proof (transitivity H5 lt_close) as [_ _ H6].
  rewrite E2, E3, E5. split; [done|]. split; [|done].
  specialize (H6 v). rewrite Ho4, Ho1, Hv in H6. specialize (H6 ltac:(by intros [])). fold v in Hv4. lia.
Qed.

(** ** Every instruction *)

Lemma liquidate_world_solvent M clk k b w w' : invariant w -> admissible clk (LiquidateI k b) w ->
  exec clk (LiquidateI k b) w = Ok w' -> has_pool (w_created w) = true -> pool_solvent M w -> pool_solvent M w'.
Proof.
  intros Hinv Had H Hh [Hp [Hv1 Hv2 Hv3 Hv4] Hv Hsh]. pose proof (exec_preserved _ _ _ _ Hinv Had H) as [_ _ [Ec _] _ [_ _ Ho Hmn] _].
  pose proof (exec_pool _ _ _ _ H Ec ltac:(by intros _)) as Hsp. apply exec_Ok in H as [_ H]. cbn [handle] in H.
  unfold liquidate_world in H. bind H as p Hpos. bind H as x Hx. apply (inj Ok) in H. subst w'. cbn in *.
  unfold load_position in Hpos. inv_ok Hpos. destruct Had as [Hn Hle _ _].
  apply (liquidate_solvent M _ _ _ _ (w_deposits w)) in Hx; [|by eapply liq_ok_of|done|done]. cbn in Hx.
  destruct Hx as (Hs' & Hva & Ef & Ecv). constructor; cbn; [by apply Hsp| |rewrite Ef; lia|done].
  constructor; cbn; rewrite ?Ef, ?Ecv, ?Ho, ?Hmn, ?Ec; done.
Qed.

(** A new pool has no deposits and no depositors. *)
Lemma new_pool_solvent M cfg a w v1 v2 g m pool sums : collateral_mint (w_market w) <> fusd_mint ->
  new_vault (w_ledger w) v1 fusd_mint (reactor_pda (collateral_mint (w_market w))) = Ok tt ->
  new_vault (w_ledger w) v2 (collateral_mint (w_market w)) (reactor_pda (collateral_mint (w_market w))) = Ok tt ->
  init_reactor_pool cfg a (w_market w) v1 v2 g = Ok (m, pool, sums) -> w_deposits w = ∅ -> 0 <= M -> forall c,
  pool_solvent M (w <| w_market := m |> <| w_pool := pool |> <| w_grid := sums |> <| w_created := c |>).
Proof.
  intros Hne H1 H2 H Hd HM c. unfold new_vault in *. inv_ok H1. inv_ok H2. propify. unfold init_reactor_pool in H. bind H as ? Ha.
  injection H as <- <- <-. constructor; cbn; [done|constructor; cbn; congruence|lia|].
  rewrite Hd. constructor; cbn; [|done|lia|lia|].
  - constructor; cbn; unfold product_ok; rlia.
  - rewrite rsum_empty. unfold covered. cbn. rewrite Rmult_0_l. apply IZR_le. lia.
Qed.

Lemma exec_solvent M clk i w w' : invariant w -> collateral_mint (w_market w) <> fusd_mint -> admissible clk i w ->
  exec clk i w = Ok w' -> 0 <= M -> pool_deposits w' <= M -> pool_sound M w -> pool_sound M w'.
Proof.
  intros Hinv Hcm Had H HM Hm Hs. destruct (touches_pool i) eqn:Ei; [|by eapply others_untouched].
  pose proof H as [Hload H']%exec_Ok. pose proof Had as [Hn Hle Harg Hsig]. unfold pool_sound in *.
  destruct (creates_pool i) eqn:Hi.
  { destruct i; try discriminate Hi. cbn in Hload. apply negb_true_iff in Hload. rewrite Hload in Hs. cbn [handle] in H'.
    bind H' as [] H1. bind H' as [] H2. bind H' as [[m pool] sums] H3. injection H' as <-. by eapply new_pool_solvent. }
  destruct (handle_pool _ _ _ Hi _ H') as [Eh _]. unfold pool_deposits in Hm.
  assert (has_pool (w_created w) = true) as Hh by (destruct i; try discriminate Ei; try discriminate Hi; cbn in Hload; by propify).
  rewrite Eh, Hh in *. pose proof Hs as [Hp [Hv1 Hv2 Hv3 Hv4] Hv Hsh].
  assert (rp_fusd_vault (w_pool w) <> rp_coll_vault (w_pool w)) as Hne by congruence.
  assert (forall a, System.signer i = Some a -> tok_owner (w_ledger w) (rp_fusd_vault (w_pool w)) <> a) as Hsg.
  { intros a E <-. apply Hsig in E. by rewrite Hv1, own_pda_reactor in E. }
  destruct i; try discriminate Ei; try discriminate Hi; cbn [handle] in H'.
  - by eapply liquidate_world_solvent.
  - bind H' as ? Hnone. inv_ok Hnone. propify. injection H' as <-. constructor; cbn; [done|by constructor|done|].
    by eapply (shares_open _ _ _ _ _ (w_pool w)).
  - eapply deposit_world_solvent; [done|done| |exact H']. intros d x' Hd Hmx Hx. eapply provide_step; [..|exact Hx]; auto.
  - eapply deposit_world_solvent; [done|done| |exact H']. intros d x' Hd Hmx Hx. eapply withdraw_step; [..|exact Harg|exact Hx]; auto.
  - eapply deposit_world_solvent; [done|done| |exact H']. intros d x' Hd Hmx Hx. eapply claim_step; [..|exact Hx]; auto.
Qed.

(** ** Every run *)

Lemma shares_mono M M' ps deps : M <= M' -> shares_ok M ps deps -> shares_ok M' ps deps.
Proof.
  intros Hle [? ? ? ? Hc]. constructor; try done; [lia|lia|]. unfold covered in *.
  etransitivity; [exact Hc|]. apply IZR_le. lia.
Qed.

Lemma sound_mono M M' w : M <= M' -> pool_sound M w -> pool_sound M' w.
Proof.
  intros Hle H. unfold pool_sound in *. destruct (has_pool (w_created w)); [|done]. destruct H. constructor; try done.
  by eapply shares_mono.
Qed.

Lemma sound_deposits M w : 0 <= M -> pool_sound M w -> pool_deposits w <= Z.min M U64_MAX.
Proof.
  unfold pool_sound, pool_deposits. intros HM H. destruct (has_pool (w_created w)); [|lia].
  destruct H as [_ _ Hle [_ _ Ht _ _]]. pose proof (tok_amount_range (w_ledger w) (rp_fusd_vault (w_pool w))).
  cbn in Ht. rlia.
Qed.

(** The vault's balance is a machine integer, so the pool's deposits are bounded anyway. *)
Lemma exec_bounded M clk i w w' : invariant w -> collateral_mint (w_market w) <> fusd_mint -> admissible clk i w ->
  exec clk i w = Ok w' -> 0 <= M -> pool_sound M w -> pool_deposits w' <= U64_MAX.
Proof.
  intros Hinv Hcm Had H HM Hs. set (M' := Z.max M (pool_deposits w')).
  assert (pool_sound M' w') as Hs' by (eapply exec_solvent; [done..|lia|lia|eapply sound_mono; [|exact Hs]; lia]).
  apply sound_deposits in Hs'; lia.
Qed.

Lemma elsewhere_solvent M w s dv ds : elsewhere w s dv ds -> pool_sound M w -> pool_sound M (with_shared w s).
Proof.
  intros [_ _ Hown _ _ _] H. unfold pool_sound in *. cbn. destruct (has_pool (w_created w)); [|done].
  destruct H as [Hp [Hv1 Hv2 Hv3 Hv4] Hva Hs].
  destruct (Hown (rp_fusd_vault (w_pool w))) as (E1 & E2 & Hle); [rewrite Hv1; unfold market_owned; auto|].
  destruct (Hown (rp_coll_vault (w_pool w))) as (E3 & E4 & _); [rewrite Hv3; unfold market_owned; auto|].
  constructor; cbn; [done|constructor; cbn; rewrite ?E1, ?E2, ?E3, ?E4; done|lia|done].
Qed.

(** Runs along which the pool's deposits stay at or below [M]. *)
Inductive run_below (M : Z) (w : World) : World -> Prop :=
  | below_refl : pool_deposits w <= M -> run_below M w w
  | below_instr w1 clk i w2 : run_below M w w1 -> admissible clk i w1 -> exec clk i w1 = Ok w2 ->
      pool_deposits w2 <= M -> run_below M w (w2 <| w_now := unix_timestamp clk |>)
  | below_outside w1 s dv ds : run_below M w w1 -> elsewhere w1 s dv ds -> run_below M w (with_shared w1 s).

Lemma run_below_run M w w' : run_below M w w' -> exists d o, run w d o w'.
Proof.
  induction 1 as [H|w1 clk i w2 _ (d & o & IH) Had Hex _|w1 s dv ds _ (d & o & IH) Hel].
  - exists 0, 0. constructor.
  - exists d, o. by eapply run_instr.
  - exists (d + dv), (o + ds). by eapply run_outside.
Qed.

Lemma sound_now M w n : pool_sound M w -> pool_sound M (w <| w_now := n |>).
Proof.
  unfold pool_sound. cbn. destruct (has_pool (w_created w)); [|done]. intros [? [] ? ?]. by constructor.
Qed.

Lemma genesis_sound M w : genesis w -> pool_sound M w.
Proof. intros []. unfold pool_sound. rewrite gn_created. by destruct gn_empty as (_ & ? & _). Qed.

Lemma genesis_deposits w : genesis w -> pool_deposits w = 0.
Proof. intros []. unfold pool_deposits. by rewrite gn_created. Qed.

Lemma run_mint w d o w' : genesis w -> run w d o w' -> invariant w' /\ collateral_mint (w_market w') <> fusd_mint.
Proof.
  intros Hg Hr. apply run_sound in Hr as (Hinv & [Ec _] & _); [|by apply genesis_invariant]. split; [done|].
  rewrite Ec. by destruct Hg.
Qed.

Lemma run_below_sound M w w' : genesis w -> run_below M w w' -> 0 <= M /\ pool_sound M w'.
Proof.
  intros Hg. induction 1 as [H|w1 clk i w2 Hr [HM IH] Had Hex Hm|w1 s dv ds Hr [HM IH] Hel].
  - rewrite genesis_deposits in H by done. split; [done|by apply genesis_sound].
  - destruct (run_below_run _ _ _ Hr) as (d & o & Hr'). destruct (run_mint _ _ _ _ Hg Hr') as [Hinv Hcm]. split; [done|].
    apply sound_now. by eapply exec_solvent.
  - split; [done|by eapply elsewhere_solvent].
Qed.

Lemma run_is_below w d o w' : genesis w -> run w d o w' -> run_below U64_MAX w w'.
Proof.
  intros Hg. induction 1 as [w|w d o w1 clk i w2 Hr IH Had Hex|w d o w1 s dv ds Hr IH Hel].
  - apply below_refl. by rewrite genesis_deposits.
  - eapply below_instr; [by apply IH|done|done|]. destruct (run_mint _ _ _ _ Hg Hr) as [Hinv Hcm].
    destruct (run_below_sound _ _ _ Hg (IH Hg)) as [HM Hs]. by eapply exec_bounded.
  - eapply below_outside; [by apply IH|done].
Qed.

(** C5: the Reactor Pool is solvent in every state a market can reach. In any run from the
    market's creation, whatever the order of deposits, withdrawals, claims and
    liquidations: once the pool exists, its fUSD vault holds at least the recorded deposits;
    every depositor's compounded deposit is computable without a panic; and the compounded
    deposits of all depositors together exceed the recorded deposits by at most 18 native
    units (2^64 / 10^18), and not at all on a run that keeps the pool below 10^18 native
    units: the floors of the product and the residual carried between offsets never
    create a claim. *)
Theorem reactor_always_solvent (w w' : World) (d o : Z) (Hg : genesis w) (Hr : run w d o w')
    (Hp : has_pool (w_created w') = true) :
  let pool := w_pool w' in
  let claims := msum (compounded_of (reactor.pool_state pool)) (w_deposits w') in
  rp_total_deposits pool <= tok_amount (w_ledger w') (rp_fusd_vault pool) /\
  (forall k dep, w_deposits w' !! k = Some dep ->
     is_Some (compounded_deposit (reactor.pool_state pool) (deposited_fusd dep) (reactor.snapshot_of dep))) /\
  claims <= rp_total_deposits pool + 18 /\
  (forall M, M < DECIMAL_PRECISION -> run_below M w w' -> claims <= rp_total_deposits pool).
Proof.
  intros pool claims. destruct (run_below_sound _ _ _ Hg (run_is_below _ _ _ _ Hg Hr)) as [_ H].
  unfold pool_sound in H. rewrite Hp in H. destruct H as [_ _ Hle Hs].
  destruct (shares_payable _ _ _ Hs) as [Hsum Hall]. split; [done|]. split; [done|]. split; [exact Hsum|].
  intros M HM Hb. destruct (run_below_sound _ _ _ Hg Hb) as [HM0 H]. unfold pool_sound in H. rewrite Hp in H.
  destruct H as [_ _ _ Hs']. destruct (shares_payable _ _ _ Hs') as [Hsum' _].
  rewrite Z.div_small in Hsum' by lia. unfold claims, pool. cbn in Hsum'. lia.
Qed.

End reactor_safety.

(** ** On the concrete market *)

Lemma reactor_always_solvent_witness :
  let w := Demo.w_pooled in
  rp_total_deposits (w_pool w) = 198732373 /\ tok_amount (w_ledger w) 11 = 198732373 /\
  msum (compounded_of (U := wide_u256) (reactor.pool_state (w_pool w))) (w_deposits w) = 198732372 /\
  msum (compounded_of (U := wide_u256) (reactor.pool_state (w_pool w))) (w_deposits w) <= rp_total_deposits (w_pool w) + 18.
Proof.
  split; [vm_compute; reflexivity|]. split; [vm_compute; reflexivity|]. split; [vm_compute; reflexivity|].
  exact (proj1 (proj2 (proj2 (reactor_always_solvent Demo.w0 Demo.w_pooled 0 0 Demo.genesis_w0 Demo.run_pooled eq_refl)))).
Defined.
