(* ===== verification/Guarantees.v ===== *)
(** * What each instruction guarantees

    The guards and the functional behaviour of the instructions that move value:
    what must have been true for one to succeed, and what it then did. *)

From S2P Require Import Prelude MachineInt FixedPoint Interest RateBucket Redistribution.
From S2P Require Import ReactorMath Recovery SupplyTransition Cdp State Token Accrual Bucket.
From S2P Require Import PositionOps TouchEffect PositionProofs World Reactor Liquidate.
From S2P Require Import LiquidateProofs Redeem RedeemProofs MarketOps ReactorOps Init System.
From S2P Require Import SystemProofs Scenario Safety.

Open Scope Z_scope.

Section guarantees.
Context {U : U256} {R : Runtime}.

(** ** Redemption *)

(** C8: a redemption cannot skip a lower rate. Every position that a successful [redeem]
    changed carried debt and was a member of the pen or of the lowest non-empty bucket:
    no other position with debt outside the pen, anywhere in the market, sits in a lower
    bucket. The candidate list the redeemer submits cannot get around it. *)
Theorem redeem_lowest_bucket_first (clk : Clock) (k : RedeemAccounts) (x x' : Redemption) (amount : Z)
    (Hok : redemption_ok (unix_timestamp clk) x) (Ha : u64 amount)
    (Hrun : redeem clk k x amount = Ok x') :
  forall key p, rd_positions x !! key = Some p -> rd_positions x' !! key <> Some p ->
  0 < recorded_debt p /\
  (bucket p = ZOMBIE_BUCKET \/
   forall key' q, rd_positions x !! key' = Some q -> 0 < recorded_debt q ->
     bucket q <> ZOMBIE_BUCKET -> bucket p <= bucket q).
Proof.
  intros key p Hp Hch. apply redeem_run in Hrun as (m1 & mid & s & d & fee & paid & Htr).
  destruct (trace_drained _ _ _ _ _ _ _ _ _ _ _ Hok Ha Htr) as (Hsc & Hdn & _).
  pose proof Htr as [_ _ _ _ _ _ _ _ _ [Eps _] _ _]. rewrite Eps in Hch.
  destruct (decide (key ∈ (fun e => e.1.1) <$> sc_order s)) as [Hin|Hout].
  - apply (sn_redeemable _ _ _ Hsc) in Hin as [(p' & Hp' & Hr) _]. rewrite Hp in Hp'. injection Hp' as <-.
    unfold redeemable in Hr. apply andb_true_iff in Hr as [Hd Hb]. propify. split; [done|].
    apply orb_true_iff in Hb as [Hb|Hb]; propify; [by left|]. right. intros key' q Hq Hdq Hzq.
    eapply lowest_bounds; [by destruct Hok|done..].
  - exfalso. apply Hch. rewrite (dn_rest _ _ _ _ _ Hdn); [|by rewrite sort_by_ratio_perm].
    cbn. by rewrite (sn_rest _ _ _ Hsc).
Qed.

Lemma mid_price_accrued m now m1 dI : accrued_to m now m1 dI -> mid_price m1 = mid_price m.
Proof. intros []. rewrite ac_rest. done. Qed.

(** C9: a redemption never overpays and never over-burns. Whether ordered or urgent, a
    successful redemption burns a positive amount of fUSD, at most what was asked for, and
    the collateral that leaves the vault is worth, at the mid price, at most the fUSD
    burned; the market's debt falls by exactly the fUSD burned. *)
Theorem redemption_face_value (clk : Clock) (k : RedeemAccounts) (x x' : Redemption) (amount : Z)
    (Hok : redemption_ok (unix_timestamp clk) x) (Ha : u64 amount)
    (Hsig : rk_redeemer k <> market_pda (collateral_mint (rd_market x)))
    (Hrun : redeem clk k x amount = Ok x' \/ urgent_redeem clk k x amount = Ok x') :
  let burned := mint_supply (rd_ledger x) fusd_mint - mint_supply (rd_ledger x') fusd_mint in
  let vault := collateral_vault (rd_market x) in
  let paid := tok_amount (rd_ledger x) vault - tok_amount (rd_ledger x') vault in
  exists mid, mid_price (rd_market x) = Ok mid /\ 0 < burned <= amount /\ 0 <= paid /\
    paid * mid <= RAY * burned /\ backed_by (rd_market x') = backed_by (rd_market x) - burned.
Proof.
  intros burned vault paid. set (now := unix_timestamp clk) in *.
  assert (redemption_effect now x x') as [_ _ _ _ [_ Hs _ _]].
  { destruct Hrun; [by eapply redeem_effect|by eapply urgent_effect]. }
  destruct Hrun as [H|H].
  - apply redeem_run in H as (m1 & mid & s & d & fee & pd & Htr).
    destruct (trace_moved _ _ _ _ _ _ _ _ _ _ _ Hok Ha Hsig Htr) as ([Hv Hb _ _] & _ & Hf).
    destruct (trace_drained _ _ _ _ _ _ _ _ _ _ _ Hok Ha Htr) as (_ & [_ _ Hrem _ Hface _] & _). cbn in *.
    destruct Htr. destruct (accrue_standing _ _ _ Hok tr_accrue) as ([dI Hacc] & Hst & _).
    assert (0 < mid <= U128_MAX) by (eapply mid_price_range; [|done]; by destruct Hst as [[] _ _]).
    exists mid. rewrite <- (mid_price_accrued _ _ _ _ Hacc). destruct tr_fee as (Hp0 & Esum & _).
    assert (paid = pd) as -> by (unfold paid, vault; lia).
    assert (burned = amount - dr_remaining d) as -> by (unfold burned; lia).
    assert (pd * mid <= dr_drawn d * mid) by (apply Z.mul_le_mono_nonneg_r; lia).
    split; [done|]. lia.
  - apply urgent_run in H as (m1 & mid & d & Hacc & Hmid & Hdn & Hr0 & Hk & Hset & _); [|done..].
    destruct (urgent_moved _ _ _ _ _ _ _ _ Hok Hsig Ha Hacc Hdn Hr0 Hk Hset) as [Hv Hb _ _].
    destruct Hdn as [_ _ Hrem Hdr Hface _]. cbn in *.
    destruct (accrue_standing _ _ _ Hok Hacc) as ([dI Hac] & _).
    exists mid. rewrite <- (mid_price_accrued _ _ _ _ Hac).
    assert (paid = dr_drawn d) as -> by (unfold paid, vault; lia).
    assert (burned = amount - dr_remaining d) as -> by (unfold burned; lia).
    rewrite !Z.sub_0_r in *. split; [done|]. lia.
Qed.

(** ** Liquidation *)






(** ** Borrowing and withdrawing *)

(** The fields of the market an accrual leaves alone. *)
Lemma accrued_frame m now m1 dI : accrued_to m now m1 dI ->
  shutdown m1 = shutdown m /\ mint_frozen m1 = mint_frozen m /\
  guardian_paused_until m1 = guardian_paused_until m /\ spot m1 = spot m /\
  (forall clk, fresh_price clk m1 = fresh_price clk m) /\ mcr_bps m1 = mcr_bps m /\ ccr_bps m1 = ccr_bps m /\
  min_debt m1 = min_debt m /\ debt_ceiling m1 = debt_ceiling m /\ borrow_fee_bps m1 = borrow_fee_bps m /\
  total_collateral m1 = total_collateral m.
Proof. intros []. by rewrite ac_rest. Qed.

Lemma reconcile_frame bm m p d bm' p' : reconcile bm m p d = Ok (bm', p') ->
  recorded_debt p' = recorded_debt p /\ ink p' = ink p.
Proof.
  intros H. unfold reconcile in H. bind H as new Hn. destruct (0 <? d), new.
  - split_if H; [by injection H as <- <-|]. bind H as b1 H1. bind H as b2 H2. by injection H as <- <-.
  - bind H as b1 H1. by injection H as <- <-.
  - bind H as b1 H1. by injection H as <- <-.
  - by injection H as <- <-.
Qed.

Lemma set_stake_frame m p m' p' : redist.set_stake m p = Ok (m', p') ->
  exists a b, m' = m <| total_stakes := a |> /\ p' = p <| stake := b |>.
Proof.
  intros H. unfold redist.set_stake in H. bind H as ns Hns. bind H as ts Hts. injection H as <- <-.
  by exists ts, ns.
Qed.

(** C10: a borrow is always healthy and inside every limit. A successful borrow found the
    market live, unfrozen, not paused by the guardian and freshly priced; it leaves the
    position healthy at the LOW price on its full new debt (amount plus fee, the fee
    rounded up), at least the minimum debt, the market within its debt ceiling and above
    the critical ratio when that is set; and it mints exactly the amount, to the
    borrower's account. *)
Theorem borrow_guarded (clk : Clock) (k : Accounts) (t t' : Touch) (amount : Z)
    (Hok : touch_ok (unix_timestamp clk) t) (Ha : u64 amount) (Hfee : u16 (borrow_fee_bps (t_market t)))
    (Hrun : borrow clk k t amount = Ok t') :
  let m := t_market t in let m' := t_market t' in let p' := t_position t' in
  shutdown m = false /\ mint_frozen m = false /\ guardian_paused_until m <= unix_timestamp clk /\
  0 < spot m /\ fresh_price clk m = true /\
  is_healthy (ink p') (recorded_debt p') (spot m) (mcr_bps m) = true /\
  (min_debt m = 0 \/ min_debt m <= recorded_debt p') /\
  agg_recorded_debt m' <= debt_ceiling m /\
  (0 < ccr_bps m -> tcr_below (total_collateral m') (agg_recorded_debt m') (spot m) (ccr_bps m) = false) /\
  (exists m1 p1, accrue m (unix_timestamp clk) = Ok m1 /\
     realize m1 (t_position t) (unix_timestamp clk) = Ok p1 /\ ink p' = ink p1 /\
     recorded_debt p' = recorded_debt p1 + amount + cdiv (amount * borrow_fee_bps m) 10000) /\
  tok_amount (t_ledger t') (acc_fusd_ata k) = tok_amount (t_ledger t) (acc_fusd_ata k) + amount /\
  mint_supply (t_ledger t') fusd_mint = mint_supply (t_ledger t) fusd_mint + amount.
Proof.
  unfold borrow in Hrun. cbv zeta. set (now := unix_timestamp clk) in *.
  bind Hrun as ? Hpk. bind Hrun as ? Hata. bind Hrun as ? Hamt. bind Hrun as old Hold.
  bind Hrun as m1 Hm1. bind Hrun as p1 Hp1. bind Hrun as ? Hopen. bind Hrun as fee Hfe. bind Hrun as d Hd.
  bind Hrun as nd Hnd. bind Hrun as ? Hh. bind Hrun as ? Hmin. bind Hrun as ? Hceil. bind Hrun as ? Hccr.
  bind Hrun as m2 Hrl. bind Hrun as m3 Hm3. bind Hrun as [m4 p4] Hs. bind Hrun as l1 Hl1.
  bind Hrun as [bm p6] Hrec. injection Hrun as <-.
  destruct (accrue_realize now t m1 p1 Hok Hm1 Hp1) as (dI & Hacc & Hrz & Hm1ok).
  destruct (accrued_frame _ _ _ _ Hacc) as (E1 & E2 & E3 & E4 & E5 & E6 & E7 & E8 & E9 & E10 & E11).
  unfold borrow_open in Hopen. bind Hopen as ? G1. bind Hopen as ? G2. bind Hopen as ? G3.
  bind Hopen as ? G4. bind Hopen as ? G5. apply check_Ok in G1, G3, G4, G5, Hopen, Hh, Hmin, Hceil, Hamt.
  apply math_Ok in Hd, Hnd. apply cpi_Ok in Hl1. checked.
  apply supply_borrow_Ok in Hd as (Edelta & Eagg & Eum & _ & ? & ? & ?).
  apply consume_rate_limit_Ok in Hrl as (rx & ry & ->).
  apply reweight_Ok in Hm3 as [-> ?]. apply reconcile_frame in Hrec as [Erd Eink].
  apply set_stake_frame in Hs as (ts & ns & -> & ->). cbn in Erd, Eink. cbn.
  assert (fee = cdiv (amount * borrow_fee_bps (t_market t)) 10000) as Ef.
  { unfold borrow_fee in Hfe. rewrite E10 in Hfe. destruct (Z.ltb_spec 0 (borrow_fee_bps (t_market t))).
    - apply math_Ok in Hfe. apply mul_div_ceil_Some in Hfe as (_ & -> & _); done || rlia.
    - injection Hfe as <-. replace (borrow_fee_bps (t_market t)) with 0 by rlia. by rewrite Z.mul_0_r. }
  rewrite E1, E2, E3, E4, E6, E7, E8, E9, E11, ?E5 in *. rewrite Erd, Eink.
  apply orb_true_iff in Hmin. apply mint_to_law in Hl1 as (_ & _ & Hta & Hsu & _). propify.
  do 6 (split; [done|]). split; [destruct Hmin; propify; [by left|by right]|]. split; [done|].
  split; [intros Hc; rewrite (proj2 (Z.ltb_lt _ _) Hc) in Hccr; apply check_Ok in Hccr; by propify|].
  split; [exists m1, p1; split; [done|split; [done|split; [done|lia]]]|].
  rewrite Hta, Hsu, !bool_decide_true by done. done.
Qed.

(** A withdrawal never leaves debt under-collateralised. A successful withdrawal sends
    exactly the amount from the vault to the owner's account and takes it off the
    position and the total; when the position has debt the price was fresh and the
    position is healthy at the LOW price on the collateral that stays; and on a live
    market with a critical ratio and a fresh price the whole market stays above it. *)
Theorem withdraw_guarded (clk : Clock) (k : Accounts) (t t' : Touch) (amount : Z)
    (Hok : touch_ok (unix_timestamp clk) t)
    (Hsig : acc_signer k <> market_pda (collateral_mint (t_market t)))
    (Hrun : withdraw clk k t amount = Ok t') :
  let m := t_market t in let m' := t_market t' in let p' := t_position t' in
  0 < amount /\
  tok_amount (t_ledger t') (acc_coll_ata k) = tok_amount (t_ledger t) (acc_coll_ata k) + amount /\
  tok_amount (t_ledger t') (collateral_vault m) = tok_amount (t_ledger t) (collateral_vault m) - amount /\
  total_collateral m' = total_collateral m - amount /\
  (exists m1 p1, accrue m (unix_timestamp clk) = Ok m1 /\
     realize m1 (t_position t) (unix_timestamp clk) = Ok p1 /\
     ink p' = ink p1 - amount /\ recorded_debt p' = recorded_debt p1) /\
  (0 < recorded_debt p' -> 0 < spot m /\ fresh_price clk m = true /\
     is_healthy (ink p') (recorded_debt p') (spot m) (mcr_bps m) = true) /\
  (0 < ccr_bps m -> shutdown m = false -> 0 < spot m -> fresh_price clk m = true ->
     tcr_below (total_collateral m') (agg_recorded_debt m') (spot m) (ccr_bps m) = false).
Proof.
  unfold withdraw in Hrun. cbv zeta. set (now := unix_timestamp clk) in *.
  bind Hrun as ? Hvk. bind Hrun as ? Hpk. bind Hrun as ? Hata. bind Hrun as ? Hamt. bind Hrun as old Hold.
  bind Hrun as m1 Hm1. bind Hrun as p1 Hp1. bind Hrun as ? Hge. bind Hrun as ? Hg. bind Hrun as l1 Hl1.
  bind Hrun as tc Htc. bind Hrun as m3 Hm3. bind Hrun as [m4 p4] Hs. bind Hrun as [bm p6] Hrec.
  bind Hrun as ? Hsuf. injection Hrun as <-.
  destruct (accrue_realize now t m1 p1 Hok Hm1 Hp1) as (dI & Hacc & Hrz & Hm1ok).
  destruct (accrued_frame _ _ _ _ Hacc) as (E1 & _ & _ & E4 & E5 & E6 & E7 & _ & _ & _ & E11).
  apply constraint_Ok in Hvk. apply check_Ok in Hge, Hamt. apply math_Ok in Htc. apply cpi_Ok in Hl1.
  pose proof (ata_not_vault _ _ _ _ _ _ (to_vault _ _ Hok) Hsig Hata) as Hne. propify. checked.
  apply reweight_Ok in Hm3 as [-> ?]. apply reconcile_frame in Hrec as [Erd Eink].
  apply set_stake_frame in Hs as (ts & ns & -> & ->). rewrite set_ink_eq in Erd, Eink. cbn in Erd, Eink.
  apply transfer_law in Hl1 as (_ & _ & _ & Hta & _). unfold withdraw_guards in Hg. bind Hg as ? Hh. cbn.
  rewrite E1, E4, E6, E7, E11, ?E5 in *. rewrite Erd, Eink, Htc. rewrite !Hta, Hvk.
  split; [done|]. split; [repeat case_bool_decide; congruence || lia|].
  split; [repeat case_bool_decide; congruence || lia|]. split; [done|].
  split; [by exists m1, p1|]. split.
  - intros Hd. rewrite (proj2 (Z.ltb_lt _ _) Hd) in Hh. bind Hh as ? H1. bind Hh as ? H2.
    apply check_Ok in H1, H2, Hh. by propify.
  - intros Hc Hs0 Hsp Hf. rewrite (proj2 (Z.ltb_lt _ _) Hc), Hs0, (proj2 (Z.ltb_lt _ _) Hsp), Hf in Hg. cbn in Hg.
    bind Hg as pc Hpc. apply math_Ok in Hpc. checked. subst pc. apply check_Ok in Hg. by propify.
Qed.

(** ** Shutdown *)


End guarantees.

(** ** Parameters *)

(** A market created with parameters that pass validation can be liquidated without a
    loss to the pool at the minimum ratio. Whenever collateral worth [value] backs a debt
    at exactly the minimum ratio or above, the part the collar lets a liquidation seize
    (all of it with the collar off, the debt plus the bonus with it on), less the
    liquidator's gas share, is worth at least the debt; the advertised bonus is fully
    fundable; and the minimum ratio is not below the shutdown ratio. *)
Theorem market_config_sound (mcr scr bonus gas debt value : Z)
    (Hv : validate_market_config mcr scr bonus gas = Ok tt) (Hb : 0 <= bonus) (Hg : 0 <= gas <= 10000)
    (Hd : 0 <= debt) (Hmcr : debt * mcr <= value * 10000) :
  let seized := if bonus =? 0 then value * 10000 else Z.min (value * 10000) (debt * (10000 + bonus)) in
  debt * 100000000 <= seized * (10000 - gas) /\
  (bonus <> 0 -> debt * (10000 + bonus) <= value * 10000) /\ scr <= mcr.
Proof.
  unfold validate_market_config in Hv. bind Hv as ? H1. bind Hv as ? H2.
  apply check_Ok in H1, H2, Hv. propify. unfold sat_sub in H2. rewrite Z.max_r in H2 by lia.
  apply orb_true_iff in H1. destruct (Z.eqb_spec bonus 0) as [->|Hb0]; cbv zeta.
  - split; [|split; [done|done]]. nia.
  - destruct H1 as [H1|H1]; propify; [done|]. rewrite Z.min_l in H2 by lia.
    assert (debt * (10000 + bonus) <= value * 10000) as Hf by nia.
    split; [|done]. rewrite Z.min_r by done. nia.
Qed.

(** ** On the concrete market *)

#[local] Existing Instance wide_u256.
#[local] Existing Instance MapLedger.runtime.

Lemma demo_redemption_ok : redemption_ok (unix_timestamp (Demo.at_time 1030)) Demo.x_open.
Proof.
  apply redemption_ok_of; [|vm_compute; split; congruence|vm_compute; congruence].
  eapply reachable_invariant; [exact Demo.genesis_w0|exact Demo.run_open].
Qed.

Lemma redeem_lowest_bucket_first_witness :
  exists p q, rd_positions Demo.x_open !! 2001100 = Some p /\ rd_positions Demo.x_open !! 2001200 = Some q /\
    bucket p = 10 /\ bucket q = 50 /\ (bucket p = ZOMBIE_BUCKET \/ bucket p <= bucket q).
Proof.
  destruct (rd_positions Demo.x_open !! 2001100) as [p|] eqn:Hp; [|vm_compute in Hp; discriminate Hp].
  destruct (rd_positions Demo.x_open !! 2001200) as [q|] eqn:Hq; [|vm_compute in Hq; discriminate Hq].
  exists p, q. vm_compute in Hp. vm_compute in Hq. injection Hp as <-. injection Hq as <-.
  split; [reflexivity|]. split; [reflexivity|]. split; [reflexivity|]. split; [reflexivity|].
  destruct (redeem_lowest_bucket_first (Demo.at_time 1030) Demo.bob_redeems Demo.x_open Demo.x_redeemed
    100000000 demo_redemption_ok ltac:(split; lia) Demo.redeem_ok 2001100 _ eq_refl) as [_ [Hz|Hlow]].
  - vm_compute. discriminate.
  - left. exact Hz.
  - right. apply (Hlow 2001200 _ eq_refl); vm_compute; congruence.
Defined.

Lemma redemption_face_value_witness :
  exists mid, mid_price (rd_market Demo.x_open) = Ok mid /\
    (tok_amount (rd_ledger Demo.x_open) 10 - tok_amount (rd_ledger Demo.x_redeemed) 10) * mid
    <= RAY * (mint_supply (rd_ledger Demo.x_open) 999 - mint_supply (rd_ledger Demo.x_redeemed) 999).
Proof.
  destruct (redemption_face_value (Demo.at_time 1030) Demo.bob_redeems Demo.x_open Demo.x_redeemed
    100000000 demo_redemption_ok ltac:(split; lia) ltac:(vm_compute; congruence) (or_introl Demo.redeem_ok))
    as (mid & Hm & _ & _ & Hf & _).
  exists mid. exact (conj Hm Hf).
Defined.



Lemma demo_touch_ok : touch_ok (unix_timestamp (Demo.at_time 1030)) Demo.t_open.
Proof.
  apply (touch_ok_of _ _ 2001100); [|vm_compute; split; congruence|vm_compute; congruence|vm_compute; reflexivity].
  eapply reachable_invariant; [exact Demo.genesis_w0|exact Demo.run_open].
Qed.

Lemma borrow_guarded_witness :
  recorded_debt (t_position Demo.t_borrowed) = 600000004 /\
  is_healthy (ink (t_position Demo.t_borrowed)) (recorded_debt (t_position Demo.t_borrowed))
    (spot (t_market Demo.t_open)) (mcr_bps (t_market Demo.t_open)) = true.
Proof.
  split; [reflexivity|].
  destruct (borrow_guarded (Demo.at_time 1030) Demo.alice Demo.t_open Demo.t_borrowed 100000000 demo_touch_ok
    ltac:(split; lia) ltac:(vm_compute; split; congruence) Demo.borrow_ok) as (_ & _ & _ & _ & _ & H & _).
  exact H.
Defined.

