(* ===== verification/GovernanceProofs.v ===== *)
(** * The parameter lane

    What governance can and cannot do to a market: a parameter moves only by executing a
    change queued at least the timelock before, every reachable configuration is inside
    its bounds and jointly valid, and a raised minimum ratio never liquidates anyone
    before the grace has passed. *)

From S2P Require Import Prelude MachineInt State Token Accrual Bucket PositionOps World Liquidate Redeem.
From S2P Require Import MarketOps ReactorOps Init Oracle Twap Governance CeilingLine Backstop OracleAdmin.
From S2P Require Import UpdatePrice System.
From S2P Require Import Frames Confined SystemProofs Scenario Safety.

Open Scope Z_scope.

Section world_frames.
Context {U : U256} {R : Runtime} {K : OracleSdk}.

(** A parameter of the market, read off the accounts it has. *)
Definition live_oracle (w : World) : option MarketOracle := if has_oracle (w_created w) then Some (w_oracle w) else None.
Definition param_of (w : World) (p : MarketParam.t) : Z := current_param (w_market w) (live_oracle w) p.

(** The parameters that exist, and their fields. *)
Definition governed (w : World) (p : MarketParam.t) : bool := has_oracle (w_created w) || negb (param_targets_oracle p).
Definition field_of (w : World) (p : MarketParam.t) : Z := current_param (w_market w) (Some (w_oracle w)) p.

Lemma param_field w p : param_of w p = if governed w p then field_of w p else 0.
Proof. unfold param_of, governed, live_oracle, field_of. destruct (has_oracle (w_created w)); [done|by destruct p]. Qed.

Definition same_thresholds (o o' : MarketOracle) : Prop :=
  forall m p, current_param m (Some o') p = current_param m (Some o) p.

(** Steady, but for the record of the accounts that exist. *)
Definition steady_market (m m' : Market) : Prop := steady (m <| liq_infra_flags := liq_infra_flags m' |>) m'.

Lemma steady_weaken m m' : steady m m' -> steady_market m m'.
Proof. intros [Hp ? ? ? _]. by constructor. Qed.

(** What that record says when it mirrors the accounts that exist. *)
Definition infra_flags (c : Created) : Z :=
  Z.lor (Z.lor LIQ_INFRA_GATED (if has_pool c then LIQ_INFRA_REACTOR_POOL else 0))
    (if has_buffer c then LIQ_INFRA_INSURANCE_BUFFER else 0).

(** The pool and the buffer as they were, or created and recorded. *)
Record infra_step (m m' : Market) (c c' : Created) : Prop := {
  is_mirror : liq_infra_flags m = infra_flags c -> liq_infra_flags m' = infra_flags c';
  is_pool : has_pool c = true -> has_pool c' = true;
  is_buffer : has_buffer c = true -> has_buffer c' = true;
}.

Lemma infra_same m m' c c' : liq_infra_flags m' = liq_infra_flags m -> has_pool c' = has_pool c ->
  has_buffer c' = has_buffer c -> infra_step m m' c c'.
Proof. intros Hm Hp Hb. split; [|congruence|congruence]. intros H. unfold infra_flags. by rewrite Hm, Hp, Hb. Qed.

Record world_frame (w w' : World) : Prop := {
  wf_market : steady_market (w_market w) (w_market w');
  wf_oracle : same_thresholds (w_oracle w) (w_oracle w');
  wf_created : has_oracle (w_created w') = has_oracle (w_created w);
  wf_infra : infra_step (w_market w) (w_market w') (w_created w) (w_created w');
}.

(** A world that differs in the accounts a wrapper writes back. *)
Lemma frame_intro w w' : steady (w_market w) (w_market w') -> w_oracle w' = w_oracle w ->
  w_created w' = w_created w -> world_frame w w'.
Proof.
  intros Hm Ho Hc. split; [by apply steady_weaken| |by rewrite Hc|].
  - rewrite Ho. by intros m p.
  - rewrite Hc. apply infra_same; [apply Hm|done|done].
Qed.

Ltac same_world := apply post_ok; apply frame_intro; [first [eassumption|reflexivity]|reflexivity|reflexivity].

Lemma touch_frame w key f :
  (forall t, post (fun t' => steady (t_market t) (t_market t')) (f t)) ->
  post (world_frame w) (touch_world w key f).
Proof.
  intros Hf. unfold touch_world. apply post_any. intros p. eapply post_bind; [apply Hf|].
  intros t' Ht. cbn in Ht. same_world.
Qed.

Lemma redeem_world_frame w f :
  (forall x, post (fun x' => steady (rd_market x) (rd_market x')) (f x)) ->
  post (world_frame w) (redeem_world w f).
Proof.
  intros Hf. unfold redeem_world. eapply post_bind; [apply Hf|]. intros x Hx. cbn in Hx. same_world.
Qed.

Lemma deposit_world_frame w k f : post (world_frame w) (deposit_world w k f).
Proof. unfold deposit_world. do 2 (apply post_any; intros ?). same_world. Qed.

Lemma market_world_frame w (r : result Error (Market * ledger)) : post (fun x => steady (w_market w) x.1) r ->
  post (world_frame w) (market_world w r).
Proof.
  intros Hr. unfold market_world. eapply post_bind; [exact Hr|]. intros [m l] Hx. cbn in Hx. same_world.
Qed.

Lemma market_only_frame w (r : result Error Market) : post (steady (w_market w)) r ->
  post (world_frame w) (m ← r; Ok (w <| w_market := m |>)).
Proof. intros Hr. eapply post_bind; [exact Hr|]. intros m Hm. same_world. Qed.

Lemma price_world_frame w r : post (fun x => steady (w_market w) x.1 /\ same_thresholds (w_oracle w) x.2) r ->
  post (world_frame w) (price_world w r).
Proof.
  intros Hr. unfold price_world. eapply post_bind; [exact Hr|]. intros [m o] [Hm Ho]. cbn in Hm, Ho.
  apply post_ok. split; [by apply steady_weaken|done|done|]. apply infra_same; [apply Hm|done|done].
Qed.

(** The two writers of the oracle account outside governance. *)
Lemma update_price_oracle clk cfg k m o ring : post (fun x => same_thresholds o x.2) (update_price clk cfg k m o ring).
Proof.
  assert (forall c, same_thresholds o (commit_rate clk m o c).2) as Hrate
    by (intros [c|]; [intros ? []; reflexivity|by intros ? ?]).
  unfold update_price. cbv zeta. do 3 (apply post_any; intros ?). destruct a1 as [[[rate v] sv]|];
    [|apply post_ok; by intros ? ?].
  apply post_any. intros can. unfold commit_price. cbv zeta.
  destruct (_ && _); [|apply post_ok; by intros ? ?]. do 3 (apply post_any; intros ?).
  destruct (0 <? _); apply post_ok; [|by intros ? ?].
  intros m' p. by destruct rate, p.
Qed.

Lemma rebind_oracle clk cfg a m o args : post (fun x => same_thresholds o x.2) (rebind_feeds clk cfg a m o args).
Proof. unfold rebind_feeds. cbv zeta. do 5 (apply post_any; intros ?). apply post_ok. intros ? []; reflexivity. Qed.

(** Creating the pool or the buffer sets its flag. *)
Lemma init_pool_frame cfg a w v1 v2 g : post (fun '(m, pool, grid) =>
    world_frame w (w <| w_market := m |> <| w_pool := pool |> <| w_grid := grid |>
      <| w_created := (w_created w) <| has_pool := true |> |>)) (init_reactor_pool cfg a (w_market w) v1 v2 g).
Proof.
  unfold init_reactor_pool. apply post_any. intros ?. apply post_ok. split; [steady_field|by intros ? ?|done|].
  split; [|done|done]. cbn. intros ->. unfold infra_flags. cbn. by destruct (has_pool _), (has_buffer _).
Qed.
Lemma init_buffer_frame cfg a w v : post (fun '(m, buffer) =>
    world_frame w (w <| w_market := m |> <| w_buffer := buffer |>
      <| w_created := (w_created w) <| has_buffer := true |> |>)) (init_insurance_buffer cfg a (w_market w) v).
Proof.
  unfold init_insurance_buffer. apply post_any. intros ?. apply post_ok. split; [steady_field|by intros ? ?|done|].
  split; [|done|done]. cbn. intros ->. unfold infra_flags. cbn. by destruct (has_pool _), (has_buffer _).
Qed.

Ltac world_walk :=
  cbv beta zeta;
  lazymatch goal with
  | |- post _ (Ok _) => first [apply post_ok; eassumption | same_world]
  | |- post _ (_ ≫= _) =>
      first [eapply post_bind;
               [solve [auto using claim_surplus_frame, liquidate_frame, refresh_frame, init_pool_frame, init_buffer_frame]
               |let Hx := fresh in intros ? Hx; cbn in Hx]
            |apply post_any; intros ?]; world_walk
  | |- post _ (let '(_, _) := ?a in _) => destruct a; world_walk
  end.

(** The ways a parameter can move: a queued change, the ceiling by its auto-line, or the
    creation of the oracle account. *)
Definition moves_param (i : Instr) : bool :=
  match i with
  | ExecuteParamI _ _ | InitMarketOracleI _ _ _ _ | InitCeilingLineI _ _ _ _ | SetCeilingLineI _ _ _ _ | BumpCeilingI => true
  | _ => false
  end.

(** Every other instruction leaves the parameters alone. *)
Lemma exec_frame clk i w : moves_param i = false -> post (world_frame w) (exec clk i w).
Proof.
  intros Hi. apply exec_post. destruct i; cbn [handle]; try discriminate Hi; try (apply touch_frame; intros);
    try (apply redeem_world_frame; intros); try apply deposit_world_frame;
    try (apply market_world_frame); try (apply market_only_frame); try (apply price_world_frame, post_and);
    auto using deposit_frame, withdraw_frame, borrow_frame, repay_frame, adjust_frame, redeem_frame, urgent_frame,
      settle_frame, withdraw_surplus_frame, sweep_frame, shutdown_frame, derisk_frame, dev_frame,
      update_price_frame, update_price_oracle, rebind_frame, rebind_oracle;
    unfold liquidate_world, queue_world, cancel_world, gate_world, config_world, reserve_world, queue_global_world,
      execute_global_world, cancel_global_world; world_walk.
Qed.

(** A step of the auto-line: governance installs or changes it at once, anyone bumps it at
    its pace. *)
Definition line_step (clk : Clock) (i : Instr) (w : World) (dl : DebtCeilingLine) : Prop :=
  match i with
  | InitCeilingLineI a l g t | SetCeilingLineI a l g t =>
      a = gov_authority (w_config w) /\ line dl = l /\ gap dl = g /\ ttl dl = t
  | BumpCeilingI => exists dl0, w_line w = Some dl0 /\ line dl = line dl0 /\ gap dl = gap dl0 /\ ttl dl = ttl dl0 /\
      sat_add_i64 (last_bump_ts dl0) (ttl dl0) <= unix_timestamp clk
  | _ => False
  end.

Record line_moved (clk : Clock) (i : Instr) (w w' : World) (dl : DebtCeilingLine) : Prop := {
  lm_step : line_step clk i w dl;
  lm_line : w_line w' = Some dl;
  lm_ceiling : debt_ceiling (w_market w') = line_target (line dl) (gap dl) (w_market w');
  lm_params p : p <> MarketParam.DebtCeiling -> field_of w' p = field_of w p;
  lm_created : has_oracle (w_created w') = has_oracle (w_created w);
  lm_grace : liq_grace_until (w_market w) <= liq_grace_until (w_market w');
  lm_shutdown : shutdown (w_market w) = true -> shutdown (w_market w') = true;
}.

Lemma line_moved_intro clk i w m1 dl : line_step clk i w dl -> accrue (w_market w) (unix_timestamp clk) = Ok m1 ->
  line_moved clk i w (w <| w_market := apply_line (line dl) (gap dl) m1 |> <| w_line := Some dl |>) dl.
Proof.
  intros Hs Hm. destruct (accrue_frame _ _ _ Hm) as [Hp ? ? _ _]. constructor; try done.
  intros p Hne. unfold field_of. cbn [w_market w_oracle update]. rewrite <- Hp. by destruct p.
Qed.

Definition moves_line (i : Instr) : bool :=
  match i with InitCeilingLineI _ _ _ _ | SetCeilingLineI _ _ _ _ | BumpCeilingI => true | _ => false end.

Lemma exec_line clk i w w' : exec clk i w = Ok w' -> moves_line i = true -> exists dl, line_moved clk i w w' dl.
Proof.
  intros [_ H]%exec_Ok Hi. destruct i; try discriminate Hi; cbn [handle] in H; bind H as x Hx;
    unfold line_world in H; bind H as [m dl] Hl; apply (inj Ok) in H; subst w'; exists dl.
  - unfold init_line in Hl. bind Hl as ? Ha. bind Hl as ? Ht. bind Hl as m1 Hm. injection Hl as <- <-.
    apply check_Ok in Ha. propify. by apply (line_moved_intro _ _ _ _ (mkDebtCeilingLine _ _ _ _ _)).
  - unfold set_line in Hl. bind Hl as ? Ha. bind Hl as ? Ht. bind Hl as m1 Hm. injection Hl as <- <-.
    apply check_Ok in Ha. propify. by apply (line_moved_intro _ _ _ _ (mkDebtCeilingLine _ _ _ _ _)).
  - unfold load_line in Hx. inv_ok Hx. unfold bump_line in Hl. bind Hl as ? Ht. bind Hl as m1 Hm. injection Hl as <- <-.
    apply check_Ok in Ht. propify. apply (line_moved_intro _ _ _ _ (mkDebtCeilingLine _ _ _ _ _)); [|done].
    by exists x.
Qed.

(** The gate's timelock and the queue, outside the lane's own instructions. *)
Definition in_lane (i : Instr) : bool :=
  match i with
  | QueueParamI _ _ _ _ | ExecuteParamI _ _ | CancelParamI _ _ | MigrateInboundAuthorityI _ _
  | AcceptInboundAuthorityI _ | QueueGlobalI _ _ _ => true
  | _ => false
  end.

Ltac skip :=
  cbv beta zeta;
  lazymatch goal with
  | |- post _ (Ok _) => apply post_ok; split; reflexivity
  | |- post _ (_ ≫= _) => apply post_any; intros ?; skip
  | |- post _ (let '(_, _) := ?a in _) => destruct a; skip
  end.

Lemma exec_gate clk i w : in_lane i = false ->
  post (fun w' => w_gate w' = w_gate w /\ w_queue w' = w_queue w) (exec clk i w).
Proof.
  intros Hi. apply exec_post. destruct i; try discriminate Hi; cbn [handle];
    unfold touch_world, redeem_world, deposit_world, market_world, liquidate_world, price_world, config_world,
      line_world, reserve_world, execute_global_world, cancel_global_world; skip.
Qed.

(** ** Executing a change *)

Lemma as_small v max : max <= 65535 -> 0 <= v <= max -> as_u16 v = v.
Proof. intros. apply Z.mod_small. lia. Qed.

Lemma as_i64_small v : 0 <= v <= I64_MAX -> as_u64 (as_i64 v) = v.
Proof.
  intros. unfold as_i64, as_u64. rewrite (Z.mod_small (v + _)) by lia. rewrite Z.mod_small; lia.
Qed.

(** A change inside its bounds sets exactly its parameter. *)
Lemma apply_current m o q v p : 0 <= v -> param_in_bounds q v = true ->
  current_param (apply_param m (Some o) q v).1 (apply_param m (Some o) q v).2 p
    = if decide (p = q) then v else current_param m (Some o) p.
Proof.
  intros Hv Hb.
  assert (as_u16 v = v \/ param_in_bounds q v = true /\ 65535 < v) as Hs.
  { destruct (Z.le_gt_cases v 65535); [left; by apply (as_small _ 65535)|by right]. }
  assert (as_u64 (as_i64 v) = v \/ I64_MAX < v) as Ht.
  { destruct (Z.le_gt_cases v I64_MAX); [left; by apply as_i64_small|by right]. }
  destruct (decide (p = q)) as [->|Hne].
  - destruct q; cbn in *; propify; try done; try (destruct Hs as [?|[_ ?]]; [done|lia]);
      try (destruct Ht; [done|lia]).
  - destruct q, p; try (by destruct Hne); reflexivity.
Qed.

(** The oracle account matters only to the parameters it holds. *)
Lemma apply_without_oracle m o q v : param_targets_oracle q = false ->
  (apply_param m None q v).1 = (apply_param m (Some o) q v).1 /\ (apply_param m None q v).2 = None /\
  (apply_param m (Some o) q v).2 = Some o.
Proof. by destruct q. Qed.

Lemma arm_current clk m o q v p : current_param (arm_mcr_grace clk m q v) o p = current_param m o p.
Proof. unfold arm_mcr_grace. destruct (_ && _); [by destruct p|done]. Qed.

(** The liquidation grace and the shutdown flag are no parameters. *)
Lemma apply_flags m o q v :
  liq_grace_until (apply_param m o q v).1 = liq_grace_until m /\ shutdown (apply_param m o q v).1 = shutdown m.
Proof. by destruct q. Qed.

Lemma arm_flags clk m q v : let m' := arm_mcr_grace clk m q v in
  liq_grace_until m <= liq_grace_until m' /\ shutdown m' = shutdown m /\
  (q = MarketParam.Mcr -> mcr_bps m < as_u16 v -> sat_add64 (slot clk) MCR_RAISE_GRACE_SLOTS <= liq_grace_until m').
Proof.
  unfold arm_mcr_grace. destruct (bool_decide _) eqn:Eq, (Z.ltb_spec (mcr_bps m) (as_u16 v)); cbn;
    (split; [lia|]; split; [done|]; intros -> ?; try lia; by propify).
Qed.

Record executed (clk : Clock) (w w' : World) (op : TimelockedParam) (b : bool) : Prop := {
  ex_market : op_market op = market_pda (collateral_mint (w_market w));
  ex_eta : op_eta op <= unix_timestamp clk;
  ex_valid : validate_param_for_market (w_market w) (oracle_account w b) (op_param op) (op_value op) = Ok tt;
  ex_params p : field_of w' p = if decide (p = op_param op) then op_value op else field_of w p;
  ex_created : has_oracle (w_created w') = has_oracle (w_created w);
  ex_passed : param_targets_oracle (op_param op) = true -> has_oracle (w_created w) = true;
  ex_grace : liq_grace_until (w_market w) <= liq_grace_until (w_market w');
  ex_raise : op_param op = MarketParam.Mcr -> mcr_bps (w_market w) < op_value op ->
    sat_add64 (slot clk) MCR_RAISE_GRACE_SLOTS <= liq_grace_until (w_market w');
  ex_shutdown : shutdown (w_market w') = shutdown (w_market w);
}.

Lemma valid_in_bounds m o q v : validate_param_for_market m o q v = Ok tt ->
  param_in_bounds q v = true /\ (param_targets_oracle q = true -> is_Some o).
Proof.
  intros H. unfold validate_param_for_market in H. bind H as u Hb. bind H as u' Ho. unfold validate_param in Hb.
  apply check_Ok in Hb. split; [done|]. intros Ht. rewrite Ht in Ho. apply check_Ok in Ho. by propify.
Qed.

Lemma execute_world_Ok clk w n b w' : execute_world clk w n b = Ok w' -> implb b (has_oracle (w_created w)) = true ->
  map_Forall (fun _ op => u64 (op_value op)) (w_queue w) ->
  exists op, w_queue w !! n = Some op /\ w_queue w' = delete n (w_queue w) /\ w_gate w' = w_gate w /\
    executed clk w w' op b.
Proof.
  intros H Hload Hq. unfold execute_world in H. bind H as op Hop. inv_ok Hop. bind H as [m o] Hm. apply (inj Ok) in H. subst w'.
  exists op. split; [done|]. split; [done|]. split; [done|]. pose proof (Hq _ _ Hop) as Hv. cbn in Hv.
  unfold execute_param in Hm. bind Hm as u1 Hmk. bind Hm as u2 Heta. bind Hm as u3 Hval. destruct u3.
  apply check_Ok in Hmk, Heta. propify. apply (inj Ok) in Hm.
  pose proof (valid_in_bounds _ _ _ _ Hval) as [Hb Hso].
  set (q := op_param op) in *. set (v := op_value op) in *. set (ma := arm_mcr_grace clk (w_market w) q v) in *.
  destruct (arm_flags clk (w_market w) q v) as (Hg1 & Hs1 & Hr1). fold ma in Hg1, Hs1, Hr1.
  destruct (apply_flags ma (oracle_account w b) q v) as [Hg2 Hs2]. rewrite Hm in Hg2, Hs2. cbn in Hg2, Hs2.
  constructor; cbn; try done; try congruence; try lia.
  - intros p. unfold field_of. cbn [w_market w_oracle update].
    assert (current_param m (Some (default (w_oracle w) o)) p
      = current_param (apply_param ma (Some (w_oracle w)) q v).1 (apply_param ma (Some (w_oracle w)) q v).2 p) as E.
    { destruct (param_targets_oracle q) eqn:Et.
      - destruct (Hso eq_refl) as [oo Eo]. rewrite Eo in Hm. destruct b; [|discriminate Eo]. injection Eo as <-.
        rewrite Hm. cbn [fst snd]. assert (exists o', o = Some o') as [o' ->]; [|done].
        apply (f_equal snd) in Hm. cbn in Hm. subst o. clear. destruct q; cbn; eauto.
      - destruct (apply_without_oracle ma (w_oracle w) q v Et) as (E1 & E2 & E3).
        destruct b; cbn in Hm; rewrite E3; [by rewrite Hm in *; cbn in E3 |- *; subst o|].
        rewrite Hm in E1, E2. cbn in E1, E2. by subst. }
    rewrite E, apply_current by (rlia || done). destruct (decide _); [done|]. apply arm_current.
  - intros Et. destruct (Hso Et) as [oo Eo]. by destruct b.
  - intros Eq Hlt. rewrite Hg2. apply Hr1; [done|]. rewrite (as_small _ 65535); [done|lia|].
    unfold q in Hb. rewrite Eq in Hb. cbn in Hb. propify. rlia.
Qed.

(** The oracle account is created: once, by governance, inside its bounds. *)
Record oracle_created (w w' : World) (a : Pubkey) (args : InitMarketOracleArgs) : Prop := {
  oc_none : has_oracle (w_created w) = false;
  oc_authority : a = gov_authority (w_config w);
  oc_some : has_oracle (w_created w') = true;
  oc_market : w_market w' = w_market w;
  oc_bounds : exists collateral quote,
    init_market_oracle (w_config w) a collateral quote args = Ok (w_oracle w', w_ring w');
}.

(** An instruction executes a queued change, moves the auto-line, creates the oracle account,
    or leaves the parameters alone. *)
Inductive lane_case (clk : Clock) (w w' : World) : Instr -> Prop :=
  | case_executed n b op : w_queue w !! n = Some op -> executed clk w w' op b -> lane_case clk w w' (ExecuteParamI n b)
  | case_line i dl : line_moved clk i w w' dl -> lane_case clk w w' i
  | case_oracle a c q args : oracle_created w w' a args -> lane_case clk w w' (InitMarketOracleI a c q args)
  | case_frame i : world_frame w w' -> lane_case clk w w' i.

Lemma exec_cases clk i w w' : exec clk i w = Ok w' ->
  map_Forall (fun _ op => u64 (op_value op)) (w_queue w) -> lane_case clk w w' i.
Proof.
  intros H Hq. destruct (moves_line i) eqn:Hl; [destruct (exec_line _ _ _ _ H Hl) as [dl Hd]; by eapply case_line|].
  destruct (moves_param i) eqn:Hi; [|apply case_frame; by eapply exec_frame].
  apply exec_Ok in H as [Hload H]. destruct i; try discriminate Hi; try discriminate Hl; cbn [handle] in H.
  - destruct (execute_world_Ok _ _ _ _ _ H Hload Hq) as (op & Hop & _ & _ & Hex). by eapply case_executed.
  - bind H as ? Hk. bind H as [ora ring] Hin. apply (inj Ok) in H. subst w'. apply case_oracle. cbn in Hload.
    apply negb_true_iff in Hload. constructor; try done.
    + unfold init_market_oracle in Hin. bind Hin as ? Ha. apply check_Ok in Ha. by propify.
    + by eexists _, _.
Qed.

(** Whatever it is, the grace and the shutdown flag only move forward. *)
Lemma case_flags clk w w' i : lane_case clk w w' i ->
  liq_grace_until (w_market w) <= liq_grace_until (w_market w') /\
  (shutdown (w_market w) = true -> shutdown (w_market w') = true).
Proof.
  intros [n b op _ [_ _ _ _ _ _ ? _ Es]|i' dl [_ _ _ _ _ ? ?]|a c q args [_ _ _ Em _]|i' [[_ ? ? _ _] _ _ _]]; split; try done;
    by rewrite ?Es, ?Em.
Qed.

Lemma frame_fields w w' p : world_frame w w' -> field_of w' p = field_of w p.
Proof. intros [[Hp _ _ _ _] Ho _ _]. unfold field_of. rewrite Hp, Ho. by destruct p. Qed.

(** As long as the same accounts exist, the parameters are as the fields. *)
Lemma governed_same w w' p : has_oracle (w_created w') = has_oracle (w_created w) -> governed w' p = governed w p.
Proof. unfold governed. by intros ->. Qed.

Lemma same_params w w' p : has_oracle (w_created w') = has_oracle (w_created w) -> field_of w' p = field_of w p ->
  param_of w' p = param_of w p.
Proof. intros Eh Ef. by rewrite !param_field, (governed_same _ _ _ Eh), Ef. Qed.

Lemma executed_params clk w w' op b p : executed clk w w' op b ->
  param_of w' p = if decide (p = op_param op) then op_value op else param_of w p.
Proof.
  intros [_ _ _ Hp Eh Hpass _ _ _]. rewrite !param_field, (governed_same _ _ _ Eh), Hp. case_decide as E; [subst p|done].
  unfold governed. destruct (param_targets_oracle (op_param op)); [by rewrite Hpass|by rewrite orb_true_r].
Qed.

(** ** Along a run *)

Record queued (clk : Clock) (w w' : World) (a : Pubkey) (q : MarketParam.t) (v : Z) (op : TimelockedParam) : Prop := {
  qd_authority : a = inbound_authority (w_gate w);
  qd_eta : op_eta op = sat_add_i64 (unix_timestamp clk) (timelock_secs (w_gate w));
  qd_change : op_param op = q /\ op_value op = v;
  qd_market : op_market op = market_pda (collateral_mint (w_market w));
  qd_timelock : timelock_secs (w_gate w') = timelock_secs (w_gate w);
  qd_queue : w_queue w' = <[op_nonce op := op]> (w_queue w);
}.

Lemma queue_world_Ok clk w a b q v w' : queue_world clk w a b q v = Ok w' -> exists op, queued clk w w' a q v op.
Proof.
  intros H. unfold queue_world in H. bind H as u1 Hn. bind H as [g op] Hq. apply (inj Ok) in H. subst w'.
  unfold queue_param in Hq. bind Hq as u2 Ha. apply check_Ok in Ha. bind Hq as u3 Hv. bind Hq as nn Hnn.
  injection Hq as Eg Eo. propify. exists op. subst op g. by constructor.
Qed.

(** What an instruction does to the queue: it puts one change in, or nothing. *)
Lemma exec_lane clk i w w' : exec clk i w = Ok w' -> map_Forall (fun _ op => u64 (op_value op)) (w_queue w) ->
  timelock_secs (w_gate w') = timelock_secs (w_gate w) /\
  (w_queue w' ⊆ w_queue w \/ exists a b q v op, i = QueueParamI a b q v /\ queued clk w w' a q v op).
Proof.
  intros H Hv. destruct (in_lane i) eqn:Ei.
  2: { destruct (exec_gate clk i w Ei _ H) as [-> ->]. by split; [|left]. }
  apply exec_Ok in H as [Hload H]. destruct i; try discriminate Ei; cbn [handle] in H.
  - destruct (queue_world_Ok _ _ _ _ _ _ _ H) as [op Hq]. split; [by destruct Hq|]. right. by eexists _, _, _, _, op.
  - destruct (execute_world_Ok _ _ _ _ _ H Hload Hv) as (op & Hop & -> & -> & _). split; [done|]. left. apply delete_subseteq.
  - unfold cancel_world in H. bind H as op Hop. bind H as u Hc. apply (inj Ok) in H. subst w'.
    split; [done|]. left. apply delete_subseteq.
  - unfold gate_world in H. bind H as g Hg. apply (inj Ok) in H. subst w'. unfold migrate_authority in Hg.
    bind Hg as u Hu. apply (inj Ok) in Hg. subst g. by split; [|left].
  - unfold gate_world in H. bind H as g Hg. apply (inj Ok) in H. subst w'. unfold accept_authority in Hg.
    bind Hg as u Hu. bind Hg as u' Hu'. apply (inj Ok) in Hg. subst g. by split; [|left].
  - unfold queue_global_world in H. bind H as u Hu. bind H as [g op] Hq. apply (inj Ok) in H. subst w'.
    unfold queue_global in Hq. do 2 (bind Hq as ? Hx; clear Hx). bind Hq as nn Hnn. injection Hq as <- _.
    by split; [|left].
Qed.

(** A change in the queue was put there by the gate's authority, by this instruction. *)
Definition proposed (w0 w1 : World) (op : TimelockedParam) : Prop :=
  exists d1 o1 wq clk a b wq' d2 o2, run w0 d1 o1 wq /\
    exec clk (QueueParamI a b (op_param op) (op_value op)) wq = Ok wq' /\
    run (wq' <| w_now := unix_timestamp clk |>) d2 o2 w1 /\ a = inbound_authority (w_gate wq) /\
    op_eta op = sat_add_i64 (unix_timestamp clk) (timelock_secs (w_gate w0)).

Record lane_ok (w0 w : World) : Prop := {
  ln_timelock : timelock_secs (w_gate w) = timelock_secs (w_gate w0);
  ln_values : map_Forall (fun _ op => u64 (op_value op)) (w_queue w);
  ln_history n op : w_queue w !! n = Some op ->
    op_market op = market_pda (collateral_mint (w_market w0)) -> proposed w0 w op;
}.

Lemma proposed_step w0 w1 w2 op : (forall w d o, run w d o w1 -> exists d' o', run w d' o' w2) ->
  proposed w0 w1 op -> proposed w0 w2 op.
Proof.
  intros Hs (d1 & o1 & wq & clk & a & b & wq' & d2 & o2 & H1 & H2 & H3 & H4).
  apply Hs in H3 as (d3 & o3 & H3). by exists d1, o1, wq, clk, a, b, wq', d3, o3.
Qed.

(** A step that adds nothing for this market to the queue keeps its history. *)
Lemma lane_others w0 w1 w2 : (forall w d o, run w d o w1 -> exists d' o', run w d' o' w2) ->
  timelock_secs (w_gate w2) = timelock_secs (w_gate w1) ->
  (forall n op, w_queue w2 !! n = Some op -> w_queue w1 !! n = Some op \/
     (op_market op <> market_pda (collateral_mint (w_market w0)) /\ u64 (op_value op))) ->
  lane_ok w0 w1 -> lane_ok w0 w2.
Proof.
  intros Hs Et Eq []. constructor; [congruence| |].
  - intros n op Hn. apply Eq in Hn as [Hn|[_ Hn]]; [|done]. by eapply ln_values0.
  - intros n op Hn Hm. apply Eq in Hn as [Hn|[Hn _]]; [|done]. eapply proposed_step; [done|]. by eapply ln_history0.
Qed.

Lemma lane_shrink w0 w1 w2 : (forall w d o, run w d o w1 -> exists d' o', run w d' o' w2) ->
  timelock_secs (w_gate w2) = timelock_secs (w_gate w1) -> w_queue w2 ⊆ w_queue w1 -> lane_ok w0 w1 -> lane_ok w0 w2.
Proof. intros Hs Et Eq. apply lane_others; [done|done|]. intros n op Hn. left. by eapply lookup_weaken. Qed.

Lemma lane_exec w0 d o w1 clk i w2 : run w0 d o w1 -> admissible clk i w1 -> exec clk i w1 = Ok w2 ->
  lane_ok w0 w1 -> lane_ok w0 (w2 <| w_now := unix_timestamp clk |>).
Proof.
  intros Hr Had H Hl.
  assert (forall w d o, run w d o w1 -> exists d' o', run w d' o' (w2 <| w_now := unix_timestamp clk |>)) as Hs
    by (intros w d' o' Hw; exists d', o'; by eapply run_instr).
  destruct (exec_lane _ _ _ _ H (ln_values _ _ Hl)) as [Et [Hq|(a & b & q & v & op & -> & [Ea Ee [Ep Ev] _ _ Eq])]].
  { by eapply lane_shrink. }
  pose proof Hl as [Ht Hvs Hh]. constructor; cbn.
  - congruence.
  - rewrite Eq. apply map_Forall_insert_2; [|done]. rewrite Ev. by destruct Had.
  - intros n op' Hn Hm. rewrite Eq in Hn. apply lookup_insert_Some in Hn as [[_ <-]|[_ Hn]].
    + exists d, o, w1, clk, a, b, w2, 0, 0. rewrite Ep, Ev. split; [done|]. split; [done|].
      split; [apply run_refl|]. split; [done|]. by rewrite Ee, Ht.
    + eapply proposed_step; [done|]. by eapply Hh.
Qed.

Lemma lane_run w d o w' : genesis w -> run w d o w' -> lane_ok w w'.
Proof.
  intros Hg Hr. revert Hg. induction Hr as [w|w d o w1 clk i w2 Hr IH Had H|w d o w1 s dv ds Hr IH Hel]; intros Hg.
  - destruct Hg as [_ _ Hq _ _ _ _]. constructor; [done| |].
    + intros n op Hn. by apply (Hq n op).
    + intros n op Hn Hm. by destruct (Hq n op Hn).
  - by eapply lane_exec; [| | |apply IH].
  - destruct (run_sound _ _ _ _ Hr) as (_ & [Em _] & _); [by apply genesis_invariant|].
    apply (lane_others w w1); [| | |by apply IH].
    + intros w' d' o' Hw. exists (d' + dv), (o' + ds). by apply run_outside.
    + by destruct Hel.
    + rewrite <- Em. by destruct Hel.
Qed.

(** ** Valid configurations *)

Definition config_valid (w : World) : Prop :=
  (forall p, governed w p = true -> param_in_bounds p (field_of w p) = true) /\
  validate_market_config (field_of w MarketParam.Mcr) (field_of w MarketParam.Scr)
    (field_of w MarketParam.LiqBonus) (field_of w MarketParam.LiqGasComp) = Ok tt /\
  let liq := field_of w MarketParam.OracleLiqDivergence in
  (has_oracle (w_created w) = true -> liq = 0 \/
   (field_of w MarketParam.OracleTwapDivergence <= liq /\ field_of w MarketParam.OracleMaxDeviation <= liq)).

Lemma config_valid_same w w' : (forall p, field_of w' p = field_of w p) ->
  has_oracle (w_created w') = has_oracle (w_created w) -> config_valid w -> config_valid w'.
Proof.
  intros E Eh (Hb & Hm & Ho). unfold config_valid. rewrite !E, Eh. split; [|done].
  intros p. rewrite E, (governed_same _ _ _ Eh). apply Hb.
Qed.

Lemma config_valid_executed clk w w' op b : executed clk w w' op b -> config_valid w -> config_valid w'.
Proof.
  intros [_ _ Hval Hp Eh _ _ _ _] (Hb & Hm & Ho). pose proof (valid_in_bounds _ _ _ _ Hval) as [Hin Hso].
  assert (is_Some (oracle_account w b) -> oracle_account w b = Some (w_oracle w)) as Hacc
    by (destruct b; [done|by intros []]).
  unfold config_valid. rewrite Eh. split.
  { intros p. rewrite Hp, (governed_same _ _ _ Eh). destruct (decide _) as [->|]; [done|apply Hb]. }
  rewrite !Hp. unfold validate_param_for_market in Hval. do 2 (bind Hval as ? Hskip; clear Hskip).
  set (q := op_param op) in *. destruct q eqn:Eq; repeat (case_decide; [try discriminate|try done]);
    try (split; [done|exact Ho]);
    rewrite ?Hacc in Hval by (by apply Hso); cbn in Hval |- *;
    try (split; [exact Hval|exact Ho]);
    (split; [exact Hm|]); apply check_Ok in Hval; unfold field_of in Ho |- *; cbn in Ho |- *;
    intros Hh; specialize (Ho Hh); lia.
Qed.

(** The ceiling has no bounds, and no other parameter constrains it. *)
Lemma config_valid_line clk i w w' dl : line_moved clk i w w' dl -> config_valid w -> config_valid w'.
Proof.
  intros [_ _ _ Hp Eh _ _] (Hb & Hm & Ho). unfold config_valid. rewrite !Hp, Eh by done. split; [|done].
  intros p. rewrite (governed_same _ _ _ Eh). destruct (decide (p = MarketParam.DebtCeiling)) as [->|Hne]; [done|].
  rewrite Hp by done. apply Hb.
Qed.

(** The two creating instructions check the bounds of what they write. *)
Lemma market_bounds clk cfg a mint vault args m bm : init_market clk cfg a mint vault args = Ok (m, bm) ->
  Forall u16 [ia_mcr_bps args; ia_liq_gas_comp_bps args; ia_liq_bonus_bps args; ia_bucket_width_bps args] ->
  (forall p o, param_targets_oracle p = false -> param_in_bounds p (current_param m o p) = true) /\
  validate_market_config (mcr_bps m) (scr_bps m) (liq_bonus_bps m) (liq_gas_comp_bps m) = Ok tt.
Proof.
  intros H Hu. unfold init_market in H. bind H as ? Hx1. bind H as ? Hx2. bind H as ? Hmcr. bind H as ? Hx3. bind H as ? Hgas.
  bind H as ? Hbon. bind H as u Hval. do 2 (bind H as ? Hx; clear Hx). bind H as ? Hfee.
  injection H as <- _. apply check_Ok in Hmcr, Hgas, Hbon, Hfee. rewrite !Forall_cons in Hu. destruct Hu as (? & ? & ? & ? & _).
  split; [|destruct u; exact Hval]. intros [] ? Ht; try discriminate Ht; cbn; try done; propify; unfold as_u64;
    rewrite ?Z.mod_small by lia; lia.
Qed.

Lemma oracle_bounds cfg a c q args ora ring : init_market_oracle cfg a c q args = Ok (ora, ring) ->
  u16 (oa_liq_max_divergence_bps args) ->
  (forall m p, param_targets_oracle p = true -> param_in_bounds p (current_param m (Some ora) p) = true) /\
  (liq_max_divergence_bps ora = 0 \/
   (twap_max_divergence_bps ora <= liq_max_divergence_bps ora /\ max_deviation_bps ora <= liq_max_divergence_bps ora)).
Proof.
  intros H Hl. unfold init_market_oracle in H. bind H as ? Hy1. bind H as ? Hy2. bind H as ? Hth.
  injection H as <- _. unfold validate_thresholds, positive_to, between in Hth. cbv zeta in Hth.
  bind Hth as ? T1. bind Hth as ? T2. bind Hth as ? T3. bind Hth as ? T4. bind Hth as ? T5. bind Hth as ? T6.
  bind Hth as ? T7. bind Hth as ? T8. bind Hth as ? T9. bind Hth as ? T10. bind Hth as ? T11.
  apply check_Ok in T1, T2, T3, T4, T5, T6, T7, T8, T10, T11.
  split; [|cbn; propify; lia]. intros ? [] Ht; try discriminate Ht; cbn; propify; unfold as_u64;
    rewrite ?Z.mod_small by lia; lia.
Qed.

Lemma genesis_config w : genesis w -> config_valid w.
Proof.
  intros [(clk & a & mint & args & H & _ & _ & Hu) Ec _ _ _ _ _]. apply market_bounds in H as [Hb Hv]; [|done].
  unfold config_valid, governed. rewrite Ec. split; [|done]. intros p Hp. apply Hb. by apply negb_true_iff.
Qed.

Lemma config_valid_created w w' a args : oracle_created w w' a args -> u16 (oa_liq_max_divergence_bps args) ->
  config_valid w -> config_valid w'.
Proof.
  intros [Hn _ Hs Em (c & q & Hin)] Hl (Hb & Hm & _).
  destruct (oracle_bounds _ _ _ _ _ _ _ Hin Hl) as [Ho Hd]. unfold config_valid, governed, field_of in *. rewrite Em, Hn in *.
  split; [|done]. intros p _. destruct (param_targets_oracle p) eqn:Et; [by apply Ho|]. specialize (Hb p). rewrite Et in Hb.
  specialize (Hb eq_refl). by destruct p.
Qed.

Lemma run_config w d o w' : genesis w -> run w d o w' -> config_valid w'.
Proof.
  intros Hg Hr. revert Hg. induction Hr as [w|w d o w1 clk i w2 Hr IH Had H|w d o w1 s dv ds Hr IH Hel]; intros Hg.
  - by apply genesis_config.
  - specialize (IH Hg). apply (config_valid_same w2); [done|done|].
    destruct (exec_cases _ _ _ _ H (ln_values _ _ (lane_run _ _ _ _ Hg Hr))) as [n b op _ Hex|i' dl Hl|a c q args Hc|i' Hf].
    + by eapply config_valid_executed.
    + by eapply config_valid_line.
    + eapply config_valid_created; [done|by destruct Had|done].
    + eapply config_valid_same; [|by destruct Hf|exact IH]. intros p. by apply frame_fields.
  - by apply IH.
Qed.

(** ** The grace and the shutdown flag along a run *)

Lemma run_trans w1 d o w2 d' o' w3 : run w1 d o w2 -> run w2 d' o' w3 -> run w1 (d + d') (o + o') w3.
Proof.
  intros H1 H2. induction H2 as [w|w d' o' w3 clk i w4 H2 IH Had H|w d' o' w3 s dv ds H2 IH Hel].
  - by rewrite !Z.add_0_r.
  - eapply run_instr; [by apply IH|done|done].
  - rewrite !Z.add_assoc. apply run_outside; [by apply IH|done].
Qed.

Lemma flags_run w0 d0 o0 w d o w' : genesis w0 -> run w0 d0 o0 w -> run w d o w' ->
  liq_grace_until (w_market w) <= liq_grace_until (w_market w') /\
  (shutdown (w_market w) = true -> shutdown (w_market w') = true).
Proof.
  intros Hg H0 Hr. induction Hr as [w|w d o w1 clk i w2 Hr IH Had H|w d o w1 s dv ds Hr IH Hel]; [done| |by apply IH].
  destruct (IH H0) as [IH1 IH2]. pose proof (run_trans _ _ _ _ _ _ _ H0 Hr) as Hr1. cbn.
  destruct (case_flags _ _ _ _ (exec_cases _ _ _ _ H (ln_values _ _ (lane_run _ _ _ _ Hg Hr1)))) as [? ?].
  split; [lia|auto].
Qed.

(** C18: a parameter of the market moves in one of two ways only, once it exists.
    Whatever instruction runs in a reachable state, either every governed parameter is as
    before; or the instruction executed a queued change that set exactly its one parameter
    to exactly its value, the change was put in the queue earlier in this very run, by the
    key that then was the gate's authority, and at least the gate's timelock has passed
    since; or only the debt ceiling moved, to what the market's auto-line asks for, and
    then either the protocol's governance authority signed it, without any delay, or
    anyone bumped the line that was installed before, at its pace; or governance created
    the market's oracle account, which did not exist before, and with it the oracle
    thresholds. The minimum ratio, the fees and the oracle thresholds have no immediate
    setter, for anyone, and a market's timelock cannot be changed. *)
Theorem params_move_only_through_timelock (w w1 w2 : World) (d o : Z) (clk : Clock) (i : Instr)
    (Hg : genesis w) (Hr : run w d o w1) (H : exec clk i w1 = Ok w2) :
  (forall p, param_of w2 p = param_of w1 p) \/
  (exists n b op d1 o1 wq clkq a bq wq' d2 o2, i = ExecuteParamI n b /\ w_queue w1 !! n = Some op /\
    (forall p, param_of w2 p = if decide (p = op_param op) then op_value op else param_of w1 p) /\
    run w d1 o1 wq /\ exec clkq (QueueParamI a bq (op_param op) (op_value op)) wq = Ok wq' /\
    run (wq' <| w_now := unix_timestamp clkq |>) d2 o2 w1 /\ a = inbound_authority (w_gate wq) /\
    sat_add_i64 (unix_timestamp clkq) (timelock_secs (w_gate w)) <= unix_timestamp clk) \/
  (exists dl, (forall p, p <> MarketParam.DebtCeiling -> param_of w2 p = param_of w1 p) /\
    w_line w2 = Some dl /\ debt_ceiling (w_market w2) = line_target (line dl) (gap dl) (w_market w2) /\
    line_step clk i w1 dl) \/
  (exists a c q args, i = InitMarketOracleI a c q args /\ has_oracle (w_created w1) = false /\
    a = gov_authority (w_config w1) /\ forall p, param_targets_oracle p = false -> param_of w2 p = param_of w1 p).
Proof.
  pose proof (lane_run _ _ _ _ Hg Hr) as Hl.
  destruct (exec_cases _ _ _ _ H (ln_values _ _ Hl)) as [n b op Hop Hex|i dl []|a c q args [Hn Ha _ Em _]|i Hf].
  - pose proof (fun p => executed_params _ _ _ _ _ p Hex) as Hp. destruct Hex as [Hm He _ _ _ _ _ _ _]. right. left. destruct (genesis_invariant _ Hg) as (Hinv & _).
    destruct (run_sound _ _ _ _ Hr Hinv) as (_ & [Emi _] & _). rewrite Emi in Hm.
    destruct (ln_history _ _ Hl _ _ Hop Hm) as (d1 & o1 & wq & clkq & a & bq & wq' & d2 & o2 & H1 & H2 & H3 & H4 & H5).
    exists n, b, op, d1, o1, wq, clkq, a, bq, wq', d2, o2. rewrite <- H5. by repeat (split; [done|]).
  - right. right. left. exists dl. split; [|done]. intros p Hne. apply same_params; auto.
  - do 3 right. exists a, c, q, args. repeat (split; [done|]). intros p Hp. rewrite !param_field. unfold governed, field_of.
    rewrite Hp, !orb_true_r, Em. by destruct p.
  - left. intros p. apply same_params; [by destruct Hf|by apply frame_fields].
Qed.

(** C19: governance can never leave the constitution. In every reachable state each of the
    governed parameters is inside its compile-time bounds and the ones that are only safe
    together are valid together: the shutdown ratio is at most the minimum ratio, the
    liquidation collar can be paid by a position at the minimum ratio, what the Reactor
    Pool receives there covers the debt it burns after the liquidator's cut, and the
    divergence that pauses liquidations is never below the ones that freeze minting.
    Queued changes that were valid when queued but conflict now are refused. The oracle
    thresholds exist from the creation of the oracle account on. *)
Theorem configuration_always_valid (w w' : World) (d o : Z) (Hg : genesis w) (Hr : run w d o w') :
  let m := w_market w' in
  let ora := w_oracle w' in
  (forall p, governed w' p = true -> param_in_bounds p (param_of w' p) = true) /\
  scr_bps m <= mcr_bps m /\
  (liq_bonus_bps m = 0 \/ 10000 + liq_bonus_bps m <= mcr_bps m) /\
  100000000 <= (if liq_bonus_bps m =? 0 then mcr_bps m else 10000 + liq_bonus_bps m) * (10000 - liq_gas_comp_bps m) /\
  (has_oracle (w_created w') = true -> liq_max_divergence_bps ora = 0 \/
   (twap_max_divergence_bps ora <= liq_max_divergence_bps ora /\ max_deviation_bps ora <= liq_max_divergence_bps ora)).
Proof.
  cbv zeta. destruct (run_config _ _ _ _ Hg Hr) as (Hb & Hm & Ho).
  split; [intros p Hp; rewrite param_field, Hp; by apply Hb|]. unfold validate_market_config in Hm. cbv zeta in Hm. bind Hm as u1 H1. bind Hm as u2 H2.
  apply check_Ok in H1, H2, Hm. pose proof (Hb MarketParam.LiqGasComp (orb_true_r _)) as Hgas. pose proof (Hb MarketParam.Mcr (orb_true_r _)) as Hmcr.
  unfold field_of in *. cbn in *. propify.
  destruct (Z.eqb_spec (liq_bonus_bps (w_market w')) 0); cbn in H1; unfold sat_sub in H2;
    (split; [lia|]); (split; [lia|]); (split; [|done]).
  - rewrite Z.max_r in H2 by lia. done.
  - propify. rewrite Z.max_r, Z.min_l in H2 by lia. done.
Qed.

(** C20: raising the minimum ratio never liquidates anyone by surprise. Take any run in which
    one instruction raised the market's minimum collateral ratio: a liquidation that
    succeeds at any later point of the run does so no earlier than
    [MCR_RAISE_GRACE_SLOTS] slots after the raise, whatever happened in between. *)
Theorem mcr_raise_grants_grace (w w1 w2 w3 w4 : World) (d o d' o' : Z) (clk clk' : Clock) (i : Instr)
    (k : LiqAccounts) (b : bool) (Hg : genesis w) (Hr : run w d o w1)
    (Had : admissible clk i w1) (H : exec clk i w1 = Ok w2)
    (Hraise : mcr_bps (w_market w1) < mcr_bps (w_market w2))
    (Hr' : run (w2 <| w_now := unix_timestamp clk |>) d' o' w3)
    (Hliq : exec clk' (LiquidateI k b) w3 = Ok w4) :
  sat_add64 (slot clk) MCR_RAISE_GRACE_SLOTS <= slot clk'.
Proof.
  pose proof (lane_run _ _ _ _ Hg Hr) as Hl.
  destruct (exec_cases _ _ _ _ H (ln_values _ _ Hl)) as [n b' op Hop [_ _ _ Hp _ _ _ Hra _]|i dl [_ _ _ Hp _ _ _]
    |a c q args [_ _ _ Em _]|i Hf].
  2: { pose proof (Hp MarketParam.Mcr ltac:(done)) as E. unfold field_of in E. cbn in E. lia. }
  2: { rewrite Em in Hraise. lia. }
  2: { pose proof (frame_fields _ _ MarketParam.Mcr Hf) as E. unfold field_of in E. cbn in E. lia. }
  pose proof (Hp MarketParam.Mcr) as Ep. unfold field_of in Ep. cbn in Ep. case_decide as Eq; [|lia].
  assert (run w d o (w2 <| w_now := unix_timestamp clk |>)) as H2 by (by eapply run_instr).
  destruct (flags_run _ _ _ _ _ _ _ Hg H2 Hr') as [Hgr _]. cbn in Hgr.
  specialize (Hra (eq_sym Eq) ltac:(lia)).
  apply exec_Ok in Hliq as [_ Hliq]. cbn [handle] in Hliq. unfold liquidate_world in Hliq. bind Hliq as p Hpos. bind Hliq as x Hx.
  unfold liquidate in Hx. bind Hx as u Hc. cbv zeta in Hx. bind Hx as m Hm. bind Hx as u' Hgd.
  apply accrue_frame in Hm as [_ Hm _ _ _]. cbn in Hm. unfold liq_price_guards in Hgd. do 2 (bind Hgd as ? Hs; clear Hs).
  bind Hgd as ? Hle. apply check_Ok in Hle. propify. lia.
Qed.

(** C21: a shutdown is final. Once a market is shut down it stays so along every run, and in
    every later state no instruction that borrows, redeems through the ordered queue,
    adjusts a rate or shuts the market down again can succeed. *)
Theorem shutdown_is_terminal (w w1 w2 : World) (d o d' o' : Z) (Hg : genesis w) (Hr : run w d o w1)
    (Hs : shutdown (w_market w1) = true) (Hr' : run w1 d' o' w2) :
  shutdown (w_market w2) = true /\
  forall clk i w3, exec clk i w2 = Ok w3 ->
    match i with BorrowI _ _ | RedeemI _ _ | AdjustRateI _ _ | ShutdownI => False | _ => True end.
Proof.
  destruct (flags_run _ _ _ _ _ _ _ Hg Hr Hr') as [_ Hf]. specialize (Hf Hs). split; [done|].
  intros clk i w3 [_ H]%exec_Ok. destruct i; try done; cbn [handle] in H.
  - unfold touch_world in H. bind H as p Hp. bind H as t Ht. unfold borrow in Ht. cbn [t_market] in Ht. cbv zeta in Ht.
    do 4 (bind Ht as ? Hx; clear Hx). bind Ht as m Hm. apply accrue_frame in Hm as [_ _ Hm _ _]. bind Ht as p' Hp'.
    bind Ht as u Hop. unfold borrow_open in Hop. bind Hop as u' Hn. apply check_Ok in Hn. rewrite Hm in Hn by done. done.
  - unfold touch_world in H. bind H as p Hp. bind H as t Ht. unfold adjust_rate in Ht. cbn [t_market] in Ht. cbv zeta in Ht.
    bind Ht as ? Hx. bind Ht as u Hn. apply check_Ok in Hn. by rewrite Hf in Hn.
  - unfold redeem_world in H. bind H as x Hx. unfold redeem in Hx. cbn [rd_market] in Hx.
    do 3 (bind Hx as ? Hs'; clear Hs'). bind Hx as u Hn. apply check_Ok in Hn. by rewrite Hf in Hn.
  - bind H as m Hm. unfold shutdown_market in Hm. bind Hm as u Hn. apply check_Ok in Hn. by rewrite Hf in Hn.
Qed.

End world_frames.

(** ** On the concrete market *)

#[local] Existing Instance WideInt.wide_u256.
#[local] Existing Instance PlainSdk.sdk.

Lemma params_move_only_through_timelock_witness :
  let before := Demo.w_proposed in
  let after := Demo.w_raised in
  param_of before MarketParam.Mcr = 11000 /\ param_of after MarketParam.Mcr = 11500 /\
  exists n op, w_queue before !! n = Some op /\ param_of after MarketParam.Mcr = op_value op.
Proof.
  intros before after. split; [reflexivity|]. split; [reflexivity|].
  destruct (params_move_only_through_timelock _ _ _ _ _ _ _ Demo.genesis_w0 Demo.run_proposed Demo.raise_ok)
    as [Hs|[(n & b & op & d1 & o1 & wq & clkq & a & bq & wq' & d2 & o2 & _ & Hq & Hp & _)|[(dl & _ & _ & _ & Hs)|(a & c & q & args & Hs & _)]]].
  - specialize (Hs MarketParam.Mcr). discriminate Hs.
  - exists n, op. split; [exact Hq|]. specialize (Hp MarketParam.Mcr). case_decide as Hd; [exact Hp|].
    vm_compute in Hp. discriminate Hp.
  - destruct Hs.
  - discriminate Hs.
Defined.

Lemma configuration_always_valid_witness :
  param_in_bounds MarketParam.Mcr (param_of Demo.w_proposed MarketParam.Mcr) = true /\
  scr_bps (w_market Demo.w_proposed) <= mcr_bps (w_market Demo.w_proposed).
Proof.
  destruct (configuration_always_valid Demo.w0 Demo.w_proposed 0 0 Demo.genesis_w0 Demo.run_proposed) as (Hb & Hs & _).
  exact (conj (Hb MarketParam.Mcr eq_refl) Hs).
Defined.

(** Raised at slot 10000; Bob is liquidated at slot 19620. *)
Lemma mcr_raise_grants_grace_witness : 10000 + 9000 <= slot (Demo.at_time 9810).
Proof.
  refine (mcr_raise_grants_grace Demo.w0 Demo.w_proposed Demo.w_raised Demo.w_graced Demo.w_late 0 0 0 0
    (Demo.at_time 5000) (Demo.at_time 9810) (ExecuteParamI 0 false) Demo.alice_liquidates false
    Demo.genesis_w0 Demo.run_proposed _ Demo.raise_ok _ Demo.run_graced Demo.late_liquidation).
  - apply admissibleb_sound. reflexivity.
  - reflexivity.
Defined.

Lemma shutdown_is_terminal_witness :
  shutdown (w_market Demo.w_winding) = true /\
  forall clk k n w, exec clk (BorrowI k n) Demo.w_winding <> Ok w.
Proof.
  destruct (shutdown_is_terminal Demo.w0 Demo.w_shut Demo.w_winding 0 0 0 0 Demo.genesis_w0 Demo.run_shut eq_refl
    Demo.run_winding) as [Hs Hn].
  split; [exact Hs|]. intros clk k n w H. exact (Hn clk _ w H).
Defined.
