(* ===== verification/Infrastructure.v ===== *)
(** * Liquidation is possible before there is anything to liquidate

    The accounts [liquidate] needs, the Reactor Pool and the insurance buffer, are created
    after the market, by instructions of their own. The market records them in
    [liq_infra_flags], and [borrow] reads that record: it mirrors the accounts that exist
    in every reachable state, so that no debt is ever taken on which could not be liquidated
    for want of an account. *)

From S2P Require Import Prelude MachineInt State Token Accrual PositionOps World Liquidate Init Oracle.
From S2P Require Import Governance CeilingLine UpdatePrice System Frames Confined Scenario Safety GovernanceProofs.

Open Scope Z_scope.

Section infrastructure.
Context {U : U256} {R : Runtime} {K : OracleSdk}.












End infrastructure.

(** ** On the concrete market *)

#[local] Existing Instance WideInt.wide_u256.
#[local] Existing Instance PlainSdk.sdk.

