(* ===== verification/ReactorGains.v ===== *)
(** * The collateral gains of the Reactor Pool

    Every offset puts collateral into the pool's vault and shares it out by the sums of the
    grid. What the depositors may claim of it, the gains stashed and the gains still in the
    sums, is bounded by the vault, up to the drift of the product against the deposits. *)

From Stdlib Require Import Reals Lra.
From S2P Require Import Prelude MachineInt FixedPoint ReactorMath State Reactor ReactorShares.

Open Scope Z_scope.

Lemma rsum_add_le {A} c (f g h : A -> R) (m : gmap Z A) : (forall k a, m !! k = Some a -> f a <= g a + h a * c)%R ->
  (rsum f m <= rsum g m + rsum h m * c)%R.
Proof.
  induction m as [|k a m Hk IH] using map_ind; intros Hle; [rewrite !rsum_empty; lra|].
  rewrite !rsum_insert by done.
  assert (f a <= g a + h a * c)%R by (apply (Hle k); apply lookup_insert_eq).
  assert (rsum f m <= rsum g m + rsum h m * c)%R; [|lra].
  apply IH. intros k' a' Hk'. apply (Hle k'). rewrite lookup_insert_ne; [done | congruence].
Qed.

(** ** The grid *)

Section grid.
Context {U : U256}.

Definition sum_at (g : list Z) (e s : Z) : Z := s_at g e s REACTOR_MAX_SCALES.

Lemma sum_at_nonneg g e s : Forall (Z.le 0) g -> 0 <= sum_at g e s.
Proof.
  intros Hg. unfold sum_at, s_at. destruct (s_idx _ _ _ _) as [i|]; [|done]. step_ok.
  destruct (g !! Z.to_nat i) as [x|] eqn:E; [|done]. cbn. by eapply Forall_lookup_1 in E.
Qed.

Lemma sum_at_other g i x e s e' s' : 0 <= e -> 0 <= s -> 0 <= e' -> 0 <= s' ->
  s_idx e s REACTOR_MAX_SCALES (grid_len g) = Some i -> (e', s') <> (e, s) ->
  sum_at (<[Z.to_nat i := x]> g) e' s' = sum_at g e' s'.
Proof.
  intros He Hs He' Hs' Hi Hne. unfold sum_at, s_at, grid_len in *. rewrite length_insert.
  destruct (s_idx e' s' _ _) as [j|] eqn:Ej; [|done]. step_ok.
  apply s_idx_Some in Hi as (-> & ? & ? & _); [|done..].
  apply s_idx_Some in Ej as (-> & ? & ? & _); [|done..].
  rewrite list_lookup_insert_ne; [done|]. intros E. apply Hne. assert (e' = e) by lia. subst. f_equal. lia.
Qed.

(** The cells the pool has not reached yet. *)
Definition ahead_zero (ps : PoolState) (g : list Z) : Prop := forall e s, 0 <= e -> 0 <= s ->
  ps_epoch ps < e \/ (e = ps_epoch ps /\ ps_scale ps < s) -> sum_at g e s = 0.

(** ** What a depositor is owed *)

Definition reward_sum (g : list Z) (d : ReactorDeposit) : R :=
  (IZR (sat_sub (sum_at g (snapshot_epoch d) (snapshot_scale d)) (snapshot_s d))
   + IZR (sum_at g (snapshot_epoch d) (snapshot_scale d + 1)) / IZR SCALE_FACTOR)%R.

(** In units of [10^-18]: the stash, and the share of the sums. *)
Definition entitled (g : list Z) (d : ReactorDeposit) : R :=
  (IZR (pending_collateral_gain d) * IZR DECIMAL_PRECISION
   + IZR (deposited_fusd d) * reward_sum g d / IZR (snapshot_p d))%R.

(** What a claim would pay. *)
Definition claimable (g : list Z) (d : ReactorDeposit) : Z :=
  pending_collateral_gain d +
  match collateral_gain g REACTOR_MAX_SCALES (deposited_fusd d) (reactor.snapshot_of d) with Ok x => x | Err _ => 0 end.

Lemma reward_sum_nonneg g d : Forall (Z.le 0) g -> (0 <= reward_sum g d)%R.
Proof.
  intros Hg. unfold reward_sum. apply Rplus_le_le_0_compat; [apply IZR_le; rlia|].
  apply Rle_mult_inv_pos; [|apply IZR_lt; lia]. apply IZR_le. by apply sum_at_nonneg.
Qed.

Lemma share_nonneg ps g d : Forall (Z.le 0) g -> dep_ok ps d ->
  (0 <= IZR (deposited_fusd d) * reward_sum g d / IZR (snapshot_p d))%R.
Proof.
  intros Hg [Ha Hp _]. unfold product_ok, u64 in *. apply Rle_mult_inv_pos; [|apply IZR_lt; lia].
  apply Rmult_le_pos; [apply IZR_le; lia|by apply reward_sum_nonneg].
Qed.

(** The integer gain is the share, rounded down. *)
Lemma gain_le_share ps g d x : dep_ok ps d ->
  collateral_gain g REACTOR_MAX_SCALES (deposited_fusd d) (reactor.snapshot_of d) = Ok x ->
  (IZR x * IZR DECIMAL_PRECISION <= IZR (deposited_fusd d) * reward_sum g d / IZR (snapshot_p d))%R.
Proof.
  intros [Ha Hp _] H. unfold collateral_gain in H. cbn in H.
  destruct (Z.eqb_spec (deposited_fusd d) 0) as [E|E].
  { injection H as <-. rewrite E. unfold Rdiv. rewrite !Rmult_0_l. lra. }
  inv_ok H. checked. subst.
  match goal with H : mul_div_floor _ ?s _ = Some ?t |- _ => set (sum := s) in *; rename H into Ht end.
  apply mul_div_floor_Some in Ht as (_ & -> & _); [|unfold product_ok, u64, u128 in *; lia..].
  unfold product_ok, u64 in *. set (q := deposited_fusd d * sum / snapshot_p d).
  pose proof (Z.mul_div_le (deposited_fusd d * sum) (snapshot_p d) ltac:(lia)) as H1. fold q in H1.
  pose proof (Z.mul_div_le q DECIMAL_PRECISION ltac:(lia)) as H2.
  assert (IZR sum <= reward_sum g d)%R as Hs.
  { unfold reward_sum, sum, sum_at. rewrite plus_IZR. apply Rplus_le_compat_l.
    set (n := s_at g _ _ _). pose proof (Z.mul_div_le n SCALE_FACTOR ltac:(lia)) as Hn.
    apply (Rmult_le_reg_r (IZR SCALE_FACTOR)); [apply IZR_lt; lia|]. unfold Rdiv.
    rewrite Rmult_assoc, Rinv_l, Rmult_1_r by (apply not_0_IZR; lia). rewrite <- mult_IZR. apply IZR_le. lia. }
  assert (0 < IZR (snapshot_p d))%R as HP by (apply IZR_lt; lia).
  apply (Rmult_le_reg_r (IZR (snapshot_p d))); [done|]. unfold Rdiv.
  rewrite (Rmult_assoc (_ * _)), Rinv_l, Rmult_1_r by lra.
  transitivity (IZR (deposited_fusd d) * IZR sum)%R; [|apply Rmult_le_compat_l; [apply IZR_le; lia|done]].
  rewrite <- !mult_IZR. apply IZR_le. nia.
Qed.

Lemma claimable_entitled ps g d : Forall (Z.le 0) g -> dep_ok ps d ->
  (IZR (claimable g d) * IZR DECIMAL_PRECISION <= entitled g d)%R.
Proof.
  intros Hg Hd. unfold claimable, entitled. rewrite plus_IZR, Rmult_plus_distr_r. apply Rplus_le_compat_l.
  destruct (collateral_gain _ _ _ _) as [x|] eqn:E; [by eapply gain_le_share|].
  rewrite Rmult_0_l. by eapply share_nonneg.
Qed.

(** ** An offset *)

(** How much the sums grow for one deposit: nothing, if its cells are not the pool's. *)
Section one_offset.
Context (ps : PoolState) (g : list Z) (cgpu i cell : Z).
Hypothesis Hok : pool_ok ps.
Hypothesis Hi : s_idx (ps_epoch ps) (ps_scale ps) REACTOR_MAX_SCALES (grid_len g) = Some i.
Hypothesis Hc : g !! Z.to_nat i = Some cell.
Hypothesis Hcg : 0 <= cgpu.
Let g' := <[Z.to_nat i := cell + cgpu * ps_p ps]> g.

Lemma sum_at_current : sum_at g (ps_epoch ps) (ps_scale ps) = cell /\
  sum_at g' (ps_epoch ps) (ps_scale ps) = cell + cgpu * ps_p ps.
Proof using Hok Hi Hc.
  pose proof Hok as [_ He Hs _ _ _]. split.
  - unfold sum_at, s_at. rewrite Hi. step_ok. by rewrite Hc.
  - unfold sum_at, g'. apply s_at_insert; rlia || done.
Qed.

Lemma sum_at_rest e s : 0 <= e -> 0 <= s -> (e, s) <> (ps_epoch ps, ps_scale ps) -> sum_at g' e s = sum_at g e s.
Proof using Hok Hi.
  pose proof Hok as [_ He Hs _ _ _]. intros ? ? ?. apply (sum_at_other g i _ (ps_epoch ps) (ps_scale ps)); rlia || done.
Qed.

Lemma reward_offset d : dep_ok ps d -> 0 <= snapshot_epoch d -> 0 <= snapshot_scale d ->
  exists x, (reward_sum g' d <= reward_sum g d + x)%R /\
    (IZR (deposited_fusd d) * x / IZR (snapshot_p d) <= worth ps d * IZR cgpu)%R.
Proof using Hok Hi Hc Hcg.
  intros Hd He0 Hs0. pose proof (worth_nonneg _ _ Hok Hd) as Hw. destruct sum_at_current as [Ecell Ecell'].
  pose proof (do_product _ _ Hd) as HP. unfold product_ok in HP. assert (0 < IZR (snapshot_p d))%R by (apply IZR_lt; lia).
  assert (0 <= worth ps d * IZR cgpu)%R as H0 by (apply Rmult_le_pos; [done|by apply IZR_le]).
  assert (forall y, y = 0%R -> (IZR (deposited_fusd d) * y / IZR (snapshot_p d) <= worth ps d * IZR cgpu)%R) as Hnone
    by (intros y ->; unfold Rdiv; by rewrite Rmult_0_r, Rmult_0_l).
  unfold reward_sum. destruct (Z.eq_dec (snapshot_epoch d) (ps_epoch ps)) as [E|E].
  2: { exists 0%R. rewrite !sum_at_rest by (lia || congruence). split; [lra|by apply Hnone]. }
  rewrite E. destruct (Z.eq_dec (snapshot_scale d) (ps_scale ps)) as [E1|E1];
    [|destruct (Z.eq_dec (snapshot_scale d + 1) (ps_scale ps)) as [E2|E2]].
  - exists (IZR (cgpu * ps_p ps)). rewrite E1, Ecell', Ecell, (sum_at_rest _ (ps_scale ps + 1)) by (lia || (intros [=]; lia)). split.
    + pose proof (po_p _ Hok). unfold product_ok in *. assert (0 <= cgpu * ps_p ps) by nia.
      pose proof (IZR_le (sat_sub (cell + cgpu * ps_p ps) (snapshot_s d)) (sat_sub cell (snapshot_s d) + cgpu * ps_p ps)
        ltac:(unfold sat_sub; lia)) as Hle. rewrite plus_IZR in Hle. lra.
    + unfold worth, entry_product. rewrite E, Z.eqb_refl, E1, Z.sub_diag, Z.pow_0_r, Z.mul_1_r, mult_IZR. apply Req_le. field. lra.
  - exists (IZR (cgpu * ps_p ps) / IZR SCALE_FACTOR)%R.
    rewrite E2, Ecell', Ecell, (sum_at_rest _ (snapshot_scale d)) by (lia || (intros [=]; lia)).
    split; [rewrite plus_IZR; lra|].
    unfold worth, entry_product. rewrite E, Z.eqb_refl, <- E2. replace (snapshot_scale d + 1 - snapshot_scale d) with 1 by lia.
    rewrite Z.pow_1_r, !mult_IZR. apply Req_le. field. lra.
  - exists 0%R. rewrite !sum_at_rest by (lia || (intros [=]; lia)). split; [lra|by apply Hnone].
Qed.

(** So an offset adds at most the deposit's worth times the gain per unit. *)
Lemma entitled_offset d : dep_ok ps d -> 0 <= snapshot_epoch d -> 0 <= snapshot_scale d ->
  (entitled g' d <= entitled g d + worth ps d * IZR cgpu)%R.
Proof using Hok Hi Hc Hcg.
  intros Hd He0 Hs0. destruct (reward_offset d Hd He0 Hs0) as (x & Hx & Hxw).
  pose proof (do_product _ _ Hd) as HP. pose proof (do_amount _ _ Hd) as Ha. unfold product_ok, u64 in *.
  unfold entitled. rewrite Rplus_assoc. apply Rplus_le_compat_l.
  etransitivity; [|apply Rplus_le_compat_l, Hxw]. unfold Rdiv. rewrite <- Rmult_plus_distr_r, <- Rmult_plus_distr_l.
  apply Rmult_le_compat_r; [apply Rlt_le, Rinv_0_lt_compat, IZR_lt; lia|].
  apply Rmult_le_compat_l; [apply IZR_le; lia|done].
Qed.

End one_offset.

(** ** The invariant *)

(** [m] and [M] bound the pool's deposits at each offset, [C] is the collateral the vault
    received for offsets, [vault] what it holds. *)
Record gains_ok (m M C : Z) (ps : PoolState) (g : list Z) (deps : gmap Z ReactorDeposit) (vault : Z) : Prop := {
  ga_grid : Forall (Z.le 0) g;
  ga_ahead : ahead_zero ps g;
  ga_snaps k d : deps !! k = Some d -> 0 <= snapshot_epoch d /\ 0 <= snapshot_scale d;
  ga_cover : (rsum (entitled g) deps * IZR (m * DECIMAL_PRECISION)
      + IZR (ps_last_coll_error ps * (m * DECIMAL_PRECISION + M))
    <= IZR (vault * DECIMAL_PRECISION * (m * DECIMAL_PRECISION) + M * DECIMAL_PRECISION * C))%R;
}.

Lemma gains_mono m M C C' ps g deps vault vault' : 0 <= m -> 0 <= M -> C <= C' -> vault <= vault' ->
  gains_ok m M C ps g deps vault -> gains_ok m M C' ps g deps vault'.
Proof.
  intros Hm HM HC Hv []. constructor; try done. etransitivity; [exact ga_cover0|]. apply IZR_le.
  apply Z.add_le_mono; [apply Z.mul_le_mono_nonneg_r; lia|apply Z.mul_le_mono_nonneg_l; lia].
Qed.

Lemma gains_claims m M C ps g deps vault : 0 < m -> 0 <= M -> shares_ok M ps deps -> gains_ok m M C ps g deps vault ->
  msum (claimable g) deps * (m * DECIMAL_PRECISION) <= vault * (m * DECIMAL_PRECISION) + M * C.
Proof.
  intros Hm HM [Hok Hd _ _ _] [Hg _ _ Hc]. set (B := m * DECIMAL_PRECISION) in *.
  assert (IZR (msum (fun d => claimable g d * DECIMAL_PRECISION)%Z deps) <= rsum (entitled g) deps)%R as Hle.
  { apply msum_rsum_le. intros k d Hk. rewrite mult_IZR. by eapply claimable_entitled; eauto. }
  assert (msum (fun d => claimable g d * DECIMAL_PRECISION) deps = msum (claimable g) deps * DECIMAL_PRECISION) as E.
  { rewrite Z.mul_comm, <- msum_scale. apply msum_ext. intros d. lia. }
  rewrite E in Hle. pose proof (po_coll_error _ Hok) as He. unfold u128 in He.
  assert (0 <= ps_last_coll_error ps * (B + M)) as H0 by (apply Z.mul_nonneg_nonneg; lia).
  assert (msum (claimable g) deps * DECIMAL_PRECISION * B <= vault * DECIMAL_PRECISION * B + M * DECIMAL_PRECISION * C) as HZ.
  { apply le_IZR. rewrite mult_IZR. etransitivity; [|exact Hc].
    apply IZR_le in H0. assert (0 <= IZR B)%R by (apply IZR_le; lia).
    pose proof (Rmult_le_compat_r _ _ _ H Hle). lra. }
  nia.
Qed.

(** ** An offset *)

Lemma gains_offset m M C ps deps g debt coll ps' g' vault vault' : 0 < m <= ps_total_deposits ps ->
  0 <= debt -> u128 coll -> shares_ok M ps deps -> gains_ok m M C ps g deps vault ->
  offset ps g REACTOR_MAX_SCALES debt coll = Ok (ps', g') -> vault + coll <= vault' ->
  gains_ok m M (C + coll) ps' g' deps vault'.
Proof.
  intros Hm Hdebt Hcoll Hs [Hg Ha Hsn Hc] H Hv. pose proof Hs as [Hok Hd Ht He Hw].
  apply offset_Ok in H; [|done..]. destruct H as [_ _ _ (cgpu & i & cell & Ei & Ecell & -> & Hcg & Eg & Her) _ _ _ Hf].
  pose proof Hok as [Hp Hep Hsc _ Hce Hle]. constructor.
  - apply Forall_insert; [done|]. eapply Forall_lookup_1 in Ecell; [|exact Hg]. unfold product_ok in *. cbn in Ecell. nia.
  - intros e s Hes Hss Hah. destruct Hf as [Hf1 Hf2].
    assert (ps_epoch ps < e \/ (e = ps_epoch ps /\ ps_scale ps < s)) as Hah'.
    { destruct (Z.eq_dec (ps_epoch ps') (ps_epoch ps)) as [E|E]; [specialize (Hf2 E)|]; lia. }
    rewrite (sum_at_rest ps g cgpu i cell Hok Ei) by (done || (intros [=]; lia)). by apply Ha.
  - done.
  - assert (rsum (entitled (<[Z.to_nat i := (cell + cgpu * ps_p ps)%Z]> g)) deps
      <= rsum (entitled g) deps + rsum (worth ps) deps * IZR cgpu)%R as Hr.
    { apply rsum_add_le. intros k d Hk. destruct (Hsn _ _ Hk). apply entitled_offset; eauto. }
    unfold covered in Hw. set (W := rsum (worth ps) deps) in *. set (S := rsum (entitled g) deps) in *.
    set (S' := rsum (entitled _) deps) in *. set (T := ps_total_deposits ps) in *.
    set (B := m * DECIMAL_PRECISION) in *. set (ce := ps_last_coll_error ps) in *. set (ce' := ps_last_coll_error ps') in *.
    assert (W * IZR cgpu * IZR B <= IZR (T * cgpu * (B + M)))%R as HW.
    { assert (0 <= IZR (cgpu * m))%R as Hcm by (apply IZR_le; nia).
      replace (W * IZR cgpu * IZR B)%R with (W * IZR DECIMAL_PRECISION * IZR (cgpu * m))%R
        by (unfold B; rewrite !mult_IZR; ring).
      etransitivity; [apply Rmult_le_compat_r; [done|exact Hw]|]. rewrite <- mult_IZR. apply IZR_le.
      unfold u128 in Hle. assert (0 <= M) by lia. unfold B.
      assert ((T * DECIMAL_PRECISION - ps_last_loss_error ps + M) * (cgpu * m) <= (T * DECIMAL_PRECISION + M) * (cgpu * m))
        by (apply Z.mul_le_mono_nonneg_r; [nia|lia]).
      assert (M * (cgpu * m) <= M * (cgpu * T)) by (apply Z.mul_le_mono_nonneg_l; [lia|]; apply Z.mul_le_mono_nonneg_l; lia).
      lia. }
    assert (T * cgpu = coll * DECIMAL_PRECISION + ce - ce') as ET by lia. rewrite ET in HW.
    assert (0 <= IZR B)%R as HB by (apply IZR_le; lia). pose proof (Rmult_le_compat_r _ _ _ HB Hr) as HS.
    assert (vault * DECIMAL_PRECISION * B + coll * DECIMAL_PRECISION * B <= vault' * DECIMAL_PRECISION * B) as HV
      by (rewrite <- Z.mul_add_distr_r, <- Z.mul_add_distr_r; apply Z.mul_le_mono_nonneg_r; lia).
    apply IZR_le in HV. rewrite !plus_IZR, !mult_IZR, ?minus_IZR, ?plus_IZR, ?mult_IZR in *. lra.
Qed.

(** ** A depositor *)

Lemma gains_update m M C ps ps' g deps vault vault' k d d' : 0 <= m -> gains_ok m M C ps g deps vault ->
  deps !! k = Some d -> ps_epoch ps' = ps_epoch ps -> ps_scale ps' = ps_scale ps ->
  ps_last_coll_error ps' = ps_last_coll_error ps -> 0 <= snapshot_epoch d' -> 0 <= snapshot_scale d' ->
  (entitled g d' <= entitled g d + IZR (vault' - vault) * IZR DECIMAL_PRECISION)%R ->
  gains_ok m M C ps' g (<[k := d']> deps) vault'.
Proof.
  intros Hm [Hg Ha Hsn Hc] Hk E1 E2 E3 He Hs Hle. constructor; [done| | |].
  - intros e s. rewrite E1, E2. apply Ha.
  - intros k' d0 H. destruct (decide (k' = k)) as [->|Hne]; [|rewrite lookup_insert_ne in H by done; eauto].
    rewrite lookup_insert_eq in H. by injection H as <-.
  - rewrite (rsum_update _ _ _ _ _ Hk), E3.
    set (B := m * DECIMAL_PRECISION) in *. assert (0 <= IZR B)%R as HB by (apply IZR_le; lia).
    pose proof (Rmult_le_compat_r _ _ _ HB Hle) as Hle'. rewrite minus_IZR in Hle'.
    rewrite !plus_IZR, !mult_IZR in *. lra.
Qed.

(** A deposit snapshotted now is owed its stash. *)
Lemma entitled_now ps g d n : ahead_zero ps g -> pool_ok ps ->
  entitled g ((reactor.set_snapshot d ps g) <| deposited_fusd := n |>)
    = (IZR (pending_collateral_gain d) * IZR DECIMAL_PRECISION)%R.
Proof.
  intros Ha [_ He Hs _ _ _]. unfold entitled, reward_sum. cbn.
  change (s_at g (ps_epoch ps) (ps_scale ps) REACTOR_MAX_SCALES) with (sum_at g (ps_epoch ps) (ps_scale ps)).
  rewrite (Ha _ (ps_scale ps + 1)) by rlia. unfold sat_sub. rewrite Z.sub_diag. cbn.
  unfold Rdiv. rewrite Rmult_0_l, Rplus_0_r, Rmult_0_r, Rmult_0_l. lra.
Qed.

(** Realizing moves the gain from the sums to the stash, rounded down. *)
Lemma realize_entitled ps g d d' c n : ahead_zero ps g -> pool_ok ps -> dep_ok ps d ->
  reactor.realize ps d g = Ok (d', c) ->
  (entitled g ((reactor.set_snapshot d' ps g) <| deposited_fusd := n |>) <= entitled g d)%R.
Proof.
  intros Ha Hok Hd H. unfold reactor.realize in H. bind H as c' Hc. bind H as x Hx. bind H as x64 Hx64. bind H as p Hp.
  injection H as <- <-. inv_ok Hx64. inv_ok Hp. checked. subst. apply map_err_Ok in Hx.
  rewrite entitled_now by done. cbn. rewrite plus_IZR, Rmult_plus_distr_r. unfold entitled.
  apply Rplus_le_compat_l. by eapply gain_le_share.
Qed.

Lemma gains_open m M C ps g deps vault k d : gains_ok m M C ps g deps vault -> deps !! k = None ->
  deposited_fusd d = 0 -> pending_collateral_gain d = 0 -> 0 <= snapshot_epoch d -> 0 <= snapshot_scale d ->
  gains_ok m M C ps g (<[k := d]> deps) vault.
Proof.
  intros [Hg Ha Hsn Hc] Hk E1 E2 He Hs. constructor; [done|done| |].
  - intros k' d0 H. destruct (decide (k' = k)) as [->|Hne]; [|rewrite lookup_insert_ne in H by done; eauto].
    rewrite lookup_insert_eq in H. by injection H as <-.
  - rewrite rsum_insert by done. unfold entitled at 1. rewrite E1, E2. unfold Rdiv. by rewrite !Rmult_0_l, !Rplus_0_l.
Qed.

End grid.
