(* ===== verification/GainsSafety.v ===== *)
(** * The collateral gains of the Reactor Pool, along every run

    What the depositors of a market's pool may claim of the collateral it received, against
    the pool's collateral vault. *)

From Stdlib Require Import Reals Lra.
From S2P Require Import Prelude MachineInt FixedPoint ReactorMath Recovery State Token Accrual PositionOps TouchEffect.
From S2P Require Import Reactor ReactorShares ReactorGains Liquidate LiquidateProofs MarketOps ReactorOps Init Governance.
From S2P Require Import CeilingLine Backstop OracleAdmin UpdatePrice System Frames Confined SystemProofs.
From S2P Require Import Reserve Scenario Safety ReactorSafety.

Open Scope Z_scope.

Section gains_safety.
Context {U : U256} {RT : Runtime} {K : OracleSdk}.

Definition coll_in_pool (w : World) : Z := tok_amount (w_ledger w) (rp_coll_vault (w_pool w)).

(** Of a market whose pool may not exist yet. *)
Definition gains_sound (m M C : Z) (w : World) : Prop :=
  if has_pool (w_created w)
  then gains_ok m M C (reactor.pool_state (w_pool w)) (w_grid w) (w_deposits w) (coll_in_pool w)
  else 0 <= C.

(** ** A depositor *)

(** What the three instructions of a depositor do to the collateral vault and to what the
    depositor is owed. *)
Record gain_step (g : list Z) (x x' : Depositing) : Prop := {
  gs_same : ps_epoch (reactor.pool_state (dp_pool x')) = ps_epoch (reactor.pool_state (dp_pool x)) /\
    ps_scale (reactor.pool_state (dp_pool x')) = ps_scale (reactor.pool_state (dp_pool x)) /\
    ps_last_coll_error (reactor.pool_state (dp_pool x')) = ps_last_coll_error (reactor.pool_state (dp_pool x)) /\
    rp_coll_vault (dp_pool x') = rp_coll_vault (dp_pool x);
  gs_snap : 0 <= snapshot_epoch (dp_deposit x') /\ 0 <= snapshot_scale (dp_deposit x');
  gs_owed : (entitled g (dp_deposit x') <= entitled g (dp_deposit x)
    + IZR (tok_amount (dp_ledger x') (rp_coll_vault (dp_pool x)) - tok_amount (dp_ledger x) (rp_coll_vault (dp_pool x)))
      * IZR DECIMAL_PRECISION)%R;
}.

Section depositing.
Variables (g : list Z) (k : DepositAccounts) (x x' : Depositing).
Let ps := reactor.pool_state (dp_pool x).
Let cv := rp_coll_vault (dp_pool x).
Hypothesis Hok : pool_ok ps.
Hypothesis Hd : dep_ok ps (dp_deposit x).
Hypothesis Ha : ahead_zero ps g.
Hypothesis Hne : rp_fusd_vault (dp_pool x) <> cv.
Hypothesis Hown : tok_owner (dp_ledger x) cv <> dk_owner k.

(** Re-snapshotted at the pool's point, with a new deposit [n]. *)
Lemma realized_now d1 c n (d' := d1 <| deposited_fusd := n |>) : realize_and_snapshot (dp_pool x) g (dp_deposit x) = Ok (d1, c) ->
  0 <= snapshot_epoch d' /\ 0 <= snapshot_scale d' /\ (entitled g d' <= entitled g (dp_deposit x))%R /\
  entitled g d' = (IZR (pending_collateral_gain d') * IZR DECIMAL_PRECISION)%R.
Proof using Hok Hd Ha.
  intros H. unfold realize_and_snapshot in H. bind H as [d2 c2] Hr. injection H as <- <-. fold ps in Hr. cbv zeta in *. fold ps in d'.
  pose proof Hok as [_ He Hs _ _ _]. unfold d'. clear d'. split; [unfold ps in *; cbn in *; rlia|]. split; [unfold ps in *; cbn in *; rlia|].
  split; [by eapply realize_entitled|]. by rewrite entitled_now.
Qed.

Lemma provide_gain n : provide_to_reactor k g x n = Ok x' -> gain_step g x x'.
Proof using Hok Hd Ha Hne Hown.
  intros H. unfold provide_to_reactor in H. bind H as ? H1. bind H as ? H2. bind H as ? H3. bind H as [d1 c1] Hr.
  bind H as n1 Hn1. bind H as l Hl. bind H as t Ht. injection H as <-. cbn. inv_ok Hl.
  destruct (realized_now d1 c1 n1 Hr) as (He & Hs & Hle & _). constructor; cbn; [done|done|].
  apply transfer_law in Hl as (Eo & _ & Hn & -> & _). fold cv. rewrite !bool_decide_false by congruence.
  rewrite Z.sub_0_r, Z.add_0_r, Z.sub_diag, Rmult_0_l, Rplus_0_r. exact Hle.
Qed.

Lemma withdraw_gain n : withdraw_from_reactor k g x n = Ok x' -> gain_step g x x'.
Proof using Hok Hd Ha Hne.
  intros H. unfold withdraw_from_reactor in H. bind H as ? H1. bind H as ? H2. bind H as ? H3. bind H as [d1 c1] Hr. cbv zeta in H.
  bind H as l Hl. bind H as t Ht. bind H as r Hrest. bind H as rem Hrem. injection H as <-. cbn.
  destruct (realized_now d1 c1 rem Hr) as (He & Hs & Hle & _). constructor; cbn; [done|done|].
  assert (tok_amount (dp_ledger x) cv <= tok_amount l cv) as Hv.
  { destruct (0 <? as_u64 (Z.min n c1)); [|injection Hl as <-; lia]. inv_ok Hl. apply transfer_law in Hl as (_ & _ & Hn & -> & _).
    rewrite bool_decide_false by done. case_bool_decide; lia. }
  assert (0 <= IZR (tok_amount l cv - tok_amount (dp_ledger x) cv) * IZR DECIMAL_PRECISION)%R
    by (rewrite <- mult_IZR; apply IZR_le; lia). fold cv.
  match goal with |- (_ <= ?a + ?b)%R => transitivity (a + 0)%R; [rewrite Rplus_0_r; exact Hle|by apply Rplus_le_compat_l] end.
Qed.

(** Paying out the stash. *)
Lemma entitled_paid d : (entitled g (d <| pending_collateral_gain := 0%Z |>)
  = entitled g d - IZR (pending_collateral_gain d) * IZR DECIMAL_PRECISION)%R.
Proof using. unfold entitled, reward_sum. cbn. lra. Qed.

Lemma claim_gain : claim_reactor_gains k g x = Ok x' -> gain_step g x x'.
Proof using Hok Hd Ha.
  intros H. unfold claim_reactor_gains in H. bind H as ? H1. bind H as ? H2. bind H as [d1 c1] Hr. bind H as n1 Hn. cbv zeta in H.
  destruct (realized_now d1 c1 n1 Hr) as (He & Hs & Hle & Eq). set (d2 := d1 <| deposited_fusd := n1 |>) in *.
  destruct (Z.ltb_spec 0 (pending_collateral_gain d2)) as [Hpos|_].
  - bind H as l Hl. apply (inj Ok) in H. subst x'. inv_ok Hl. constructor; cbn [dp_pool dp_deposit dp_ledger]; [done|done|].
    rewrite entitled_paid. apply transfer_law in Hl as (_ & _ & Hn' & -> & _). fold cv. rewrite bool_decide_true by done.
    set (p := pending_collateral_gain d2) in *.
    assert (- p * DECIMAL_PRECISION <= (tok_amount (dp_ledger x) cv - p + (if bool_decide (cv = dk_coll_ata k) then p else 0)
      - tok_amount (dp_ledger x) cv) * DECIMAL_PRECISION) as Hp by (case_bool_decide; lia).
    apply IZR_le in Hp. rewrite !(mult_IZR _ DECIMAL_PRECISION), opp_IZR in Hp. lra.
  - apply (inj Ok) in H. subst x'. constructor; cbn [dp_pool dp_deposit dp_ledger]; [done|done|]. rewrite Z.sub_diag. lra.
Qed.

End depositing.
(** ** Liquidation *)

Definition grid_same (x x' : Liq) : Prop := lq_grid x' = lq_grid x.
Lemma buffer_grid_same x a : post (grid_same x) (liq_buffer x a).
Proof. unfold liq_buffer, grid_same. no_ledger_if. Qed.
Lemma backstop_grid_same k x a : post (grid_same x) (liq_backstop k x a).
Proof. unfold liq_backstop, grid_same. no_ledger_if. Qed.
Lemma remainder_grid_same k x a cr : post (grid_same x) (liq_remainder k x a cr).
Proof.
  intros x' H. unfold liq_remainder in H. destruct (0 <? ab_redist a); [bind H as m Hm; by injection H as <-|].
  destruct (_ || _); [|by injection H as <-]. bind H as cu Hcu. bind H as pc Hpc. cbv zeta in H. bind H as x1 Hx1.
  bind H as x2 Hx2. apply (inj Ok) in H. subst x'. apply buffer_grid_same in Hx1. apply backstop_grid_same in Hx2.
  unfold grid_same in *. cbn in *. congruence.
Qed.

(** The Reactor tier puts its collateral into the vault and into the sums. *)
Lemma reactor_tier_gains m M C x a coll x' deps (cv := rp_coll_vault (lq_pool x)) (v0 := tok_amount (lq_ledger x) cv) :
  shares_ok M (reactor.pool_state (lq_pool x)) deps ->
  gains_ok m M C (reactor.pool_state (lq_pool x)) (lq_grid x) deps v0 ->
  0 < m -> rp_total_deposits (lq_pool x) = 0 \/ m <= rp_total_deposits (lq_pool x) -> u128 coll ->
  rp_fusd_vault (lq_pool x) <> cv -> market_pda (collateral_mint (lq_market x)) <> tok_owner (lq_ledger x) cv ->
  liq_reactor x a coll = Ok x' ->
  v0 <= tok_amount (lq_ledger x') cv /\
  gains_ok m M (C + (tok_amount (lq_ledger x') cv - v0)) (reactor.pool_state (lq_pool x')) (lq_grid x') deps
    (tok_amount (lq_ledger x') cv).
Proof.
  intros Hs Hga Hm HT Hc Hne Hown H. unfold liq_reactor in H.
  destruct (Z.ltb_spec 0 a); [|injection H as <-; fold v0; split; [lia|by rewrite Z.sub_diag, Z.add_0_r]].
  bind H as [ps g] Ho. bind H as n Hn. bind H as l1 Hl1. bind H as l2 Hl2. apply (inj Ok) in H. subst x'.
  apply map_err_Ok in Ho. inv_ok Hl1. apply burn_law in Hl1 as (_ & _ & Hn' & Ham & _ & Hown1). unfold u128 in Hc.
  assert (tok_amount l2 cv = v0 + coll) as Ev.
  { destruct (Z.ltb_spec 0 coll).
    - bind Hl2 as n2 Hn2. inv_ok Hn2. inv_ok Hl2. checked. subst. apply transfer_law in Hl2 as (Eo & _ & Hn3 & -> & _).
      destruct (Hown1 (collateral_vault (lq_market x))) as [Eo' _]. fold cv.
      rewrite bool_decide_false by (intros E; congruence). rewrite bool_decide_true by done.
      rewrite Ham, bool_decide_false by (intros E; congruence). fold v0. lia.
    - injection Hl2 as <-. rewrite Ham, bool_decide_false by (intros E; congruence). fold v0. lia. }
  cbn [lq_ledger lq_pool lq_grid update]. change (tok_amount _ cv) with (tok_amount l2 cv). rewrite Ev. split; [lia|].
  replace (C + (v0 + coll - v0)) with (C + coll) by lia. replace (reactor.pool_state _) with ps by (by destruct ps).
  assert (rp_total_deposits (lq_pool x) <> 0) by (intros E; unfold offset in Ho; cbn in Ho; by rewrite E in Ho).
  refine (gains_offset m M C _ deps _ a coll _ _ v0 _ _ _ Hc Hs Hga Ho _); [cbn; lia|lia|lia].
Qed.

Lemma liquidate_gains m M C clk k x x' deps (c := collateral_mint (lq_market x)) (cv := rp_coll_vault (lq_pool x))
    (v0 := tok_amount (lq_ledger x) cv) (v' := tok_amount (lq_ledger x') cv) :
  liq_ok (unix_timestamp clk) x -> shares_ok M (reactor.pool_state (lq_pool x)) deps ->
  gains_ok m M C (reactor.pool_state (lq_pool x)) (lq_grid x) deps v0 -> 0 < m -> 0 <= M ->
  rp_total_deposits (lq_pool x) = 0 \/ m <= rp_total_deposits (lq_pool x) ->
  rp_fusd_vault (lq_pool x) <> cv -> tok_owner (lq_ledger x) cv = reactor_pda c -> liquidate clk k x = Ok x' ->
  gains_ok m M (C + (v' - v0)) (reactor.pool_state (lq_pool x')) (lq_grid x') deps v'.
Proof.
  intros Hok Hs Hga Hm HM HT Hne Hv H. apply liquidate_run in H as (m1 & p1 & m2 & p2 & seize & gas & dist & ga & sp & cr & sd & l1 &
    x4 & x5 & p6 & l6 & m7 & a & Htr). pose proof (trace_range _ _ _ _ _ _ _ _ _ _ _ _ _ _ _ _ _ _ _ _ _ _ Hok Htr) as Hsp.
  pose proof Htr as []. destruct lt_result as (_ & E2 & E3). set (P := others c).
  assert (P (market_pda c) /\ P (buffer_pda c) /\ P backstop_pda) as (Hmp & Hb & Hg).
  { unfold P, others. split; [apply pda_families|]. split; intros E; symmetry in E; revert E; [apply pda_families|apply pda_backstop]. }
  rename lt_pool into Hp. destruct (trace_gas P _ _ _ _ _ _ _ _ _ _ _ _ _ _ _ _ _ _ _ _ _ _ Htr Hmp) as [Ec [Ho1 _ Ha1]].
  assert (~ P (tok_owner (lq_ledger x) cv)) as Hn by (rewrite Hv; by intros []). specialize (Ha1 cv Hn).
  pose proof (reactor_confined (fun _ => True) _ _ _ I I _ Hp) as [Hst [Ho4 _ _]].
  apply (reactor_tier_gains m M (C + (tok_amount l1 cv - v0)) _ _ _ _ deps) in Hp; try done;
    [|cbn; eapply gains_mono; [| | | |exact Hga]; fold cv; lia|cbn; rewrite Ec, Ho1; fold cv; rewrite Hv; apply pda_families].
  cbn in Hp, Hst, Ho4. fold cv in Hp. destruct Hp as [Hle4 Hg4].
  assert (collateral_mint (lq_market x4) = c) as Ec4 by (by rewrite (st_mint _ _ Hst)).
  pose proof (remainder_pool_same _ _ _ _ _ lt_rest) as E5. pose proof (remainder_grid_same _ _ _ _ _ lt_rest) as E6.
  unfold pool_same, grid_same in *. apply (remainder_confined P) in lt_rest as [_ H5]; [|by rewrite Ec4|done].
  apply (close_victim_confined P) in lt_close. cbn in lt_close. pose proof (transitivity H5 lt_close) as [_ _ H6].
  unfold v'. rewrite lt_grid, E2, E3, E5, E6. specialize (H6 cv). rewrite Ho4, Ho1, Hv in H6. specialize (H6 ltac:(by intros [])).
  eapply gains_mono; [| | | |exact Hg4]; lia.
Qed.

(** ** Every instruction *)

Definition liquidates (i : Instr) : bool := match i with LiquidateI _ _ => true | _ => false end.

(** The collateral an instruction brings to the pool. *)
Definition seized (i : Instr) (w w' : World) : Z := if liquidates i then coll_in_pool w' - coll_in_pool w else 0.

Lemma deposit_world_gains m M C w key f w' : 0 < m -> pool_solvent M w ->
  gains_ok m M C (reactor.pool_state (w_pool w)) (w_grid w) (w_deposits w) (coll_in_pool w) ->
  (forall d x', dep_ok (reactor.pool_state (w_pool w)) d -> f (mkDepositing (w_pool w) d (w_ledger w)) = Ok x' ->
    gain_step (w_grid w) (mkDepositing (w_pool w) d (w_ledger w)) x') ->
  deposit_world w key f = Ok w' ->
  gains_ok m M C (reactor.pool_state (w_pool w')) (w_grid w') (w_deposits w') (coll_in_pool w').
Proof.
  intros Hm [_ _ _ Hs] Hg Hf H. unfold deposit_world in H. bind H as d Hd. bind H as x' Hx. apply (inj Ok) in H. subst w'.
  inv_ok Hd. destruct (Hf _ _ (so_deps _ _ _ Hs _ _ Hd) Hx) as [(E1 & E2 & E3 & E4) [He Hsc] Ho]. cbn in E1, E2, E3, E4, Ho.
  unfold coll_in_pool. cbn. rewrite E4.
  eapply (gains_update m M C (reactor.pool_state (w_pool w))); [lia|exact Hg|exact Hd|done..].
Qed.

Lemma new_pool_gains m M C cfg a w v1 v2 gk mk pool sums c : 0 <= M -> 0 <= C ->
  new_vault (w_ledger w) v2 (collateral_mint (w_market w)) (reactor_pda (collateral_mint (w_market w))) = Ok tt ->
  init_reactor_pool cfg a (w_market w) v1 v2 gk = Ok (mk, pool, sums) -> w_deposits w = ∅ ->
  let w' := w <| w_market := mk |> <| w_pool := pool |> <| w_grid := sums |> <| w_created := c |> in
  gains_ok m M C (reactor.pool_state (w_pool w')) (w_grid w') (w_deposits w') (coll_in_pool w').
Proof.
  intros HM HC H2 H Hd w'. unfold new_vault in *. inv_ok H2. propify. unfold init_reactor_pool in H. bind H as ? Ha.
  apply (inj Ok), pair_eq in H as [H <-]. apply pair_eq in H as [_ <-]. unfold w', coll_in_pool. cbn [w_pool w_grid w_deposits w_ledger update]. rewrite Hd. constructor.
  - apply Forall_replicate. lia.
  - intros e s _ _ _. unfold sum_at, s_at. destruct (s_idx _ _ _ _) as [i|]; [|done]. step_ok.
    destruct (_ !! _) as [y|] eqn:E; [|done]. by apply lookup_replicate in E as [-> _].
  - intros k d E. by rewrite lookup_empty in E.
  - rewrite rsum_empty. cbn. rewrite Rmult_0_l, Rplus_0_l. apply IZR_le. cbn.
    match goal with E : tok_amount _ v2 = 0 |- _ => rewrite E end. apply Z.mul_nonneg_nonneg; lia.
Qed.

Lemma untouched_gains m M C clk i w w' : admissible clk i w -> touches_pool i = false -> exec clk i w = Ok w' ->
  0 < m -> 0 <= M -> pool_sound M w -> gains_sound m M C w -> gains_sound m M C w'.
Proof.
  intros Had Ei H Hm HM Hs Hg. unfold gains_sound in *.
  destruct (exec_pool_same _ _ _ Ei _ H) as (Ep & Ed & Eh & Eg). unfold coll_in_pool. rewrite Eh, Ep, Ed, Eg.
  destruct (has_pool (w_created w)) eqn:Hh; [|done].
  pose proof (exec_others_confined _ _ _ _ Had (sound_pool _ _ Hs) Ei H) as [_ _ Ha].
  unfold pool_sound in Hs. rewrite Hh in Hs. destruct Hs as [_ [_ _ Hv3 _] _ _]. specialize (Ha (rp_coll_vault (w_pool w))).
  rewrite Hv3 in Ha. specialize (Ha ltac:(by intros [])). eapply gains_mono; [| | | |exact Hg]; unfold coll_in_pool; lia.
Qed.

Lemma exec_gains m M C clk i w w' : invariant w -> collateral_mint (w_market w) <> fusd_mint -> admissible clk i w ->
  exec clk i w = Ok w' -> 0 < m -> 0 <= M -> pool_sound M w ->
  (liquidates i = true -> pool_deposits w = 0 \/ m <= pool_deposits w) ->
  gains_sound m M C w -> gains_sound m M (C + seized i w w') w'.
Proof.
  intros Hinv Hcm Had H Hm HM Hs Hband Hg. pose proof H as [Hload H']%exec_Ok. pose proof Had as [Hn Hle Harg Hsig].
  destruct (touches_pool i) eqn:Ei.
  2: { unfold seized. replace (liquidates i) with false by (by destruct i). rewrite Z.add_0_r. by eapply untouched_gains. }
  unfold gains_sound, pool_sound in *. destruct (creates_pool i) eqn:Hi.
  { destruct i; try discriminate Hi. cbn in Hload. apply negb_true_iff in Hload. rewrite Hload in *. cbn [handle] in H'.
    bind H' as [] H1. bind H' as [] H2. bind H' as [[mk pool] sums] H3. apply (inj Ok) in H'. subst w'.
    unfold seized. cbn [liquidates has_pool w_created update]. rewrite Z.add_0_r. by eapply new_pool_gains. }
  destruct (handle_pool _ _ _ Hi _ H') as [Eh _].
  assert (has_pool (w_created w) = true) as Hh by (destruct i; try discriminate Ei; try discriminate Hi; cbn in Hload; by propify).
  unfold pool_deposits in Hband. rewrite Eh, Hh in *. pose proof Hs as [Hp [Hv1 Hv2 Hv3 Hv4] Hv Hsh].
  assert (rp_fusd_vault (w_pool w) <> rp_coll_vault (w_pool w)) as Hne by congruence.
  pose proof Hsh as [Hok _ _ _ _]. pose proof Hg as [_ Hah _ _].
  assert (forall a, System.signer i = Some a -> tok_owner (w_ledger w) (rp_coll_vault (w_pool w)) <> a) as Hsg.
  { intros a E <-. apply Hsig in E. by rewrite Hv3, own_pda_reactor in E. }
  destruct i; try discriminate Ei; try discriminate Hi; cbn [handle] in H'; unfold seized; cbn [liquidates]; rewrite ?Z.add_0_r.
  - unfold liquidate_world in H'. bind H' as p Hpos. bind H' as x Hx. apply (inj Ok) in H'. subst w'.
    unfold load_position in Hpos. inv_ok Hpos. assert (rp_coll_vault (lq_pool x) = rp_coll_vault (w_pool w)) as Ecv.
    { eapply liquidate_solvent in Hx; [by apply Hx|by eapply liq_ok_of|exact Hsh|done]. }
    unfold coll_in_pool. cbn. rewrite Ecv. eapply liquidate_gains in Hx; [exact Hx|by eapply liq_ok_of|exact Hsh|exact Hg|done..| |done|done].
    by apply Hband.
  - bind H' as ? Hnone. inv_ok Hnone. propify. apply (inj Ok) in H'. subst w'. pose proof (po_epoch _ Hok). pose proof (po_scale _ Hok).
    apply gains_open; try done; cbn in *; rlia.
  - eapply deposit_world_gains; [done|exact Hs|exact Hg| |exact H']. intros d x' Hd Hx. eapply provide_gain; [..|exact Hx]; auto.
  - eapply deposit_world_gains; [done|exact Hs|exact Hg| |exact H']. intros d x' Hd Hx. eapply withdraw_gain; [..|exact Hx]; auto.
  - eapply deposit_world_gains; [done|exact Hs|exact Hg| |exact H']. intros d x' Hd Hx. eapply claim_gain; [..|exact Hx]; auto.
Qed.

(** ** Every run *)

(** Runs along which the pool holds at most [M], and at least [m] whenever it is offset;
    with the collateral the pool received for the offsets. *)
Inductive run_band (m M : Z) (w : World) : Z -> World -> Prop :=
  | band_refl : pool_deposits w <= M -> run_band m M w 0 w
  | band_instr C w1 clk i w2 : run_band m M w C w1 -> admissible clk i w1 -> exec clk i w1 = Ok w2 ->
      pool_deposits w2 <= M -> (liquidates i = true -> pool_deposits w1 = 0 \/ m <= pool_deposits w1) ->
      run_band m M w (C + seized i w1 w2) (w2 <| w_now := unix_timestamp clk |>)
  | band_outside C w1 s dv ds : run_band m M w C w1 -> elsewhere w1 s dv ds -> run_band m M w C (with_shared w1 s).

Lemma run_band_below m M w C w' : run_band m M w C w' -> run_below M w w'.
Proof. induction 1; [by constructor|by eapply below_instr|by eapply below_outside]. Qed.

Lemma elsewhere_gains m M C w s dv ds : 0 < m -> 0 <= M -> pool_sound M w -> elsewhere w s dv ds ->
  gains_sound m M C w -> gains_sound m M C (with_shared w s).
Proof.
  intros Hm HM Hs [_ _ Hown _ _ _] Hg. unfold gains_sound, pool_sound in *. cbn. destruct (has_pool (w_created w)); [|done].
  destruct Hs as [_ [_ _ Hv3 _] _ _].
  destruct (Hown (rp_coll_vault (w_pool w))) as (_ & _ & Hle); [rewrite Hv3; unfold market_owned; auto|].
  eapply gains_mono; [| | | |exact Hg]; unfold coll_in_pool; cbn; lia.
Qed.

Lemma run_band_gains m M C w w' : genesis w -> 0 < m -> run_band m M w C w' -> gains_sound m M C w'.
Proof.
  intros Hg Hm. induction 1 as [H|C w1 clk i w2 Hr IH Had Hex Hle Hband|C w1 s dv ds Hr IH Hel].
  - destruct Hg. unfold gains_sound. by rewrite gn_created.
  - pose proof (run_band_below _ _ _ _ _ Hr) as Hb. destruct (run_below_sound _ _ _ Hg Hb) as [HM Hs].
    destruct (run_below_run _ _ _ Hb) as (d & o & Hr'). destruct (run_mint _ _ _ _ Hg Hr') as [Hinv Hcm].
    by eapply exec_gains in Hex.
  - destruct (run_below_sound _ _ _ Hg (run_band_below _ _ _ _ _ Hr)) as [HM Hs]. by eapply elsewhere_gains.
Qed.

(** C6: the depositors of the Reactor Pool share out no more collateral than the pool
    received. In any run from a market's creation, whatever the order of deposits,
    withdrawals, claims and liquidations: if the pool held between [m] and [M] native fUSD
    whenever it was offset and never more than [M], then the gains its depositors may claim,
    stashed and still in the sums, exceed its collateral vault by at most the fraction
    [M / (m * 10^18)] of all the collateral [C] it ever received. For a pool between one
    dollar (10^6) and a billion dollars (10^15) that is a billionth. The carried residual,
    the scale jumps and the re-snapshots create no further claim. *)
Theorem gains_always_covered (w w' : World) (m M C : Z) (Hg : genesis w) (Hm : 0 < m) (Hr : run_band m M w C w')
    (Hp : has_pool (w_created w') = true) :
  msum (claimable (w_grid w')) (w_deposits w') * (m * DECIMAL_PRECISION)
    <= tok_amount (w_ledger w') (rp_coll_vault (w_pool w')) * (m * DECIMAL_PRECISION) + M * C.
Proof.
  pose proof (run_band_gains _ _ _ _ _ Hg Hm Hr) as Hga.
  destruct (run_below_sound _ _ _ Hg (run_band_below _ _ _ _ _ Hr)) as [HM Hs].
  unfold gains_sound, pool_sound in *. rewrite Hp in *. destruct Hs as [_ _ _ Hsh]. by eapply gains_claims.
Qed.

(** ** Running in a band *)

Fixpoint band_all (m M : Z) (steps : list (Clock * Instr)) (C : Z) (w : World) : option (Z * World) :=
  match steps with
  | [] => Some (C, w)
  | (clk, i) :: steps =>
      match exec clk i w with
      | Ok w1 =>
          if admissibleb clk i w && (pool_deposits w1 <=? M)
             && implb (liquidates i) ((pool_deposits w =? 0) || (m <=? pool_deposits w))
          then band_all m M steps (C + seized i w w1) (w1 <| w_now := unix_timestamp clk |>) else None
      | Err _ => None
      end
  end.

Lemma band_all_run m M w0 steps : forall C w C' w', run_band m M w0 C w -> band_all m M steps C w = Some (C', w') ->
  run_band m M w0 C' w'.
Proof.
  induction steps as [|[clk i] steps IH]; intros C w C' w' Hr H; cbn [band_all] in H; [by injection H as <- <-|].
  destruct (exec clk i w) as [w1|] eqn:E; [|done].
  destruct (_ && _ && _) eqn:Eb; [|done]. apply andb_true_iff in Eb as [[Ha Hle]%andb_true_iff Hb].
  eapply IH; [|exact H]. eapply band_instr; [exact Hr|by apply admissibleb_sound|exact E|by propify|].
  intros El. rewrite El in Hb. cbn in Hb.
  apply orb_true_iff in Hb as [Hb|Hb]; propify; auto.
Qed.

End gains_safety.

(** ** On the concrete market *)

#[local] Existing Instance WideInt.wide_u256.
#[local] Existing Instance MapLedger.runtime.
#[local] Existing Instance PlainSdk.sdk.

Lemma band_pooled : run_band 1000000 1000000000000000 Demo.w0 9950000000 Demo.w_pooled.
Proof.
  apply (band_all_run _ _ Demo.w0 Demo.pooled 0 Demo.w0); [apply band_refl; vm_compute; discriminate|].
  vm_cast_no_check (@eq_refl (option (Z * World)) (Some (9950000000, Demo.w_pooled))).
Qed.

(** Of the collateral of Bob's position, Bob's part has been stashed and Alice's paid out. *)
Lemma gains_always_covered_witness :
  let w := Demo.w_pooled in
  tok_amount (w_ledger w) 12 = 5969999991 /\ msum (claimable (w_grid w)) (w_deposits w) = 5969999990 /\
  msum (claimable (w_grid w)) (w_deposits w) * (1000000 * DECIMAL_PRECISION)
    <= tok_amount (w_ledger w) (rp_coll_vault (w_pool w)) * (1000000 * DECIMAL_PRECISION) + 1000000000000000 * 9950000000.
Proof.
  split; [vm_compute; reflexivity|]. split; [vm_compute; reflexivity|].
  exact (gains_always_covered Demo.w0 Demo.w_pooled 1000000 1000000000000000 9950000000 Demo.genesis_w0 eq_refl band_pooled eq_refl).
Defined.
