(* ===== verification/BufferReserve.v ===== *)
(** * The insurance buffer covers its counters

    A market's insurance buffer is paid by the interest of the market and by anyone, and
    drawn on only by the third tier of a liquidation: its vault never holds less than what
    was funded less what it absorbed. *)

From S2P Require Import Prelude MachineInt FixedPoint Interest ReactorMath Recovery SupplyTransition State Token.
From S2P Require Import Accrual PositionOps World Reactor Liquidate LiquidateProofs MarketOps ReactorOps Init.
From S2P Require Import Governance CeilingLine Backstop OracleAdmin UpdatePrice System Frames Confined SystemProofs.
From S2P Require Import Reserve Safety.

Open Scope Z_scope.

Section buffer.
Context {U : U256} {R : Runtime} {K : OracleSdk}.

Definition buffer_gap (b : InsuranceBuffer) (l : ledger) : Z :=
  tok_amount l (ib_fusd_vault b) - (ib_total_funded b - ib_total_absorbed b).

Record buffer_ok (c : Pubkey) (b : InsuranceBuffer) (l : ledger) : Prop := {
  bo_owner : tok_owner l (ib_fusd_vault b) = buffer_pda c;
  bo_gap : 0 <= buffer_gap b l;
}.

(** Owners other than the buffer of [c]. *)
Definition not_buffer (c k : Pubkey) : Prop := k <> buffer_pda c.

Lemma not_buffer_pdas c : not_buffer c (market_pda c) /\ not_buffer c (reactor_pda c) /\ not_buffer c backstop_pda.
Proof.
  unfold not_buffer. split; [apply pda_families|]. split; [apply pda_families|].
  intros E. symmetry in E. revert E. apply pda_backstop.
Qed.

Lemma buffer_untouched c b l l' : confined (not_buffer c) l l' -> buffer_ok c b l -> buffer_ok c b l'.
Proof.
  intros [Ho _ Ha] [Eo Hg]. split; [by rewrite Ho|]. unfold buffer_gap in *.
  specialize (Ha (ib_fusd_vault b)). rewrite Eo in Ha. specialize (Ha ltac:(by intros [])). lia.
Qed.

(** ** Liquidation *)

Definition buffer_same (x x' : Liq) : Prop := lq_buffer x' = lq_buffer x.
Lemma reactor_buffer x a c : post (buffer_same x) (liq_reactor x a c).
Proof. unfold liq_reactor, buffer_same. no_ledger_if. Qed.
Lemma backstop_buffer k x a : post (buffer_same x) (liq_backstop k x a).
Proof. unfold liq_backstop, buffer_same. no_ledger_if. Qed.

(** Tier 3 burns from the vault what it adds to the counter. *)
Lemma buffer_tier_covered c x a x' : buffer_ok c (lq_buffer x) (lq_ledger x) -> liq_buffer x a = Ok x' ->
  buffer_ok c (lq_buffer x') (lq_ledger x').
Proof.
  intros [Eo Hg] H. unfold liq_buffer in H. destruct (Z.ltb_spec 0 a); [|by injection H as <-].
  bind H as n Hn. bind H as l Hl. bind H as ab Hab. apply (inj Ok) in H. subst x'. inv_ok Hn. inv_ok Hl. inv_ok Hab. checked.
  subst. apply burn_law in Hl as (_ & _ & Hle & Ham & _ & Hs).
  split; cbn; [by rewrite (proj1 (Hs _))|]. unfold buffer_gap in *. cbn. rewrite Ham, bool_decide_true by done. lia.
Qed.

Lemma buffer_remainder c k x split cr x' : buffer_ok c (lq_buffer x) (lq_ledger x) ->
  liq_remainder k x split cr = Ok x' -> buffer_ok c (lq_buffer x') (lq_ledger x').
Proof.
  intros Hb H. unfold liq_remainder in H. destruct (0 <? ab_redist split); [bind H as m Hm; by injection H as <-|].
  destruct (_ || _); [|by injection H as <-]. bind H as cu Hcu. bind H as pc Hpc. cbv zeta in H.
  bind H as x1 Hx1. bind H as x2 Hx2. apply (inj Ok) in H. subst x'. cbn.
  apply (buffer_tier_covered c) in Hx1; [|done]. pose proof (backstop_buffer _ _ _ _ Hx2) as E. unfold buffer_same in E. rewrite E.
  apply (backstop_confined (not_buffer c)) in Hx2 as [_ Hc]; [|apply not_buffer_pdas]. by eapply buffer_untouched.
Qed.

Lemma buffer_liquidate clk k x x' (c := collateral_mint (lq_market x)) : buffer_ok c (lq_buffer x) (lq_ledger x) ->
  liquidate clk k x = Ok x' -> buffer_ok c (lq_buffer x') (lq_ledger x').
Proof.
  intros Hb H. apply liquidate_run in H as (m1 & p1 & m2 & p2 & seize & gas & dist & ga & sp & cr & sd & l1 &
    x4 & x5 & p6 & l6 & m7 & a & Htr). pose proof Htr as []. destruct lt_result as (_ & E2 & _).
  destruct (not_buffer_pdas c) as (Hm & Hr & _).
  destruct (trace_gas (not_buffer c) _ _ _ _ _ _ _ _ _ _ _ _ _ _ _ _ _ _ _ _ _ _ Htr Hm) as [Ec H1].
  pose proof (reactor_buffer _ _ _ _ lt_pool) as E4. unfold buffer_same in E4. cbn in E4.
  apply (reactor_confined (not_buffer c)) in lt_pool as [_ H4]; [|cbn; by rewrite Ec..]. cbn in H4.
  assert (buffer_ok c (lq_buffer x4) (lq_ledger x4)) as Hb4.
  { rewrite E4. eapply buffer_untouched; [|exact Hb]. by etransitivity. }
  apply (buffer_remainder c) in lt_rest; [|done]. apply (close_victim_confined (not_buffer c)) in lt_close.
  cbn in lt_close. rewrite lt_buffer, E2. by eapply buffer_untouched.
Qed.

(** ** Interest and funding *)

Lemma buffer_mint c b l n l' funded : buffer_ok c b l -> 0 <= n <= U64_MAX -> mint_some l (ib_fusd_vault b) n = Ok l' ->
  checked_add128 (ib_total_funded b) n = Some funded -> buffer_ok c (b <| ib_total_funded := funded |>) l'.
Proof.
  intros [Eo Hg] Hn H Hf. checked. subst. unfold mint_some in H. destruct (Z.ltb_spec 0 n).
  - inv_ok H. unfold as_u64 in H. rewrite Z.mod_small in H by lia. apply mint_to_law in H as (_ & _ & Ham & _ & Hs).
    split; cbn; [by rewrite (proj1 (Hs _))|]. unfold buffer_gap in *. cbn. rewrite Ham, bool_decide_true by done. lia.
  - injection H as <-. split; cbn; [done|]. unfold buffer_gap in *. cbn. lia.
Qed.

Lemma buffer_refresh clk k w bs x (c := collateral_mint (w_market w)) : invariant w -> timestamp (unix_timestamp clk) ->
  w_now w <= unix_timestamp clk -> buffer_ok c (w_buffer w) (w_ledger w) ->
  refresh_market clk k (mkRefresh (w_market w) (w_buffer w) bs (w_ledger w)) = Ok x ->
  buffer_ok c (rf_buffer x) (rf_ledger x).
Proof.
  intros Hinv Hn Hle Hb H. unfold refresh_market in H. cbn in H. bind H as ? Hk. bind H as m1 Hm1.
  destruct (accrue_preserved _ _ _ Hinv Hn Hle Hm1) as [_ []].
  destruct (Z.eqb_spec (unminted_interest m1) 0); [by injection H as <-|].
  bind H as [cut head] Hbs. bind H as d Hd. bind H as l1 Hl1. bind H as l2 Hl2.
  bind H as [[m2 bs2] l3] Hl3. bind H as fd Hfd. injection H as <-. inv_ok Hd. inv_ok Hfd.
  assert (0 <= head) as Hh by (by apply refresh_backstop_Ok in Hbs as [? _]).
  apply supply_refresh_Ok in Hd as (Ea & Es & Eu & Eb & Hall & _ & _ & Hz); [|done..].
  rewrite !Forall_cons in Hall. destruct Hall as (? & ? & ? & ? & ? & ? & _).
  set (P := not_buffer c).
  assert (confined P l1 l2) as Hc2.
  { revert Hl2. generalize l2. change (post (confined P l1) (if 0 <? rf_keeper_cut d then
      ata ← no_panic (fk_cranker_ata k); cpi (token_mint_to l1 fusd_mint ata (as_u64 (rf_keeper_cut d))) else Ok l1)).
    ledger_step. }
  apply (refresh_mint_confined P) in Hl3. cbn in Hl3 |- *. eapply buffer_untouched; [etransitivity; [exact Hc2|exact Hl3]|].
  eapply buffer_mint; [exact Hb| |exact Hl1|exact Hfd]. rlia.
Qed.

Lemma buffer_fund c a t b l n b' l' : buffer_ok c b l -> fund_buffer a t b l n = Ok (b', l') -> a <> buffer_pda c ->
  buffer_ok c b' l'.
Proof.
  intros [Eo Hg] H Ha. unfold fund_buffer in H. bind H as ? Hata. bind H as ? Hpos. bind H as l1 Hl. bind H as tc Htc.
  injection H as <- <-. inv_ok Hl. inv_ok Htc. checked. subst. apply transfer_law in Hl as (Hs & _ & Hn & Ham & _ & Hown).
  split; cbn; [by rewrite (proj1 (Hown _))|]. unfold buffer_gap in *. cbn. rewrite Ham.
  rewrite bool_decide_false, bool_decide_true by congruence. lia.
Qed.

(** ** Every instruction *)

Definition buffer_covered (w : World) : Prop := has_buffer (w_created w) = true ->
  buffer_ok (collateral_mint (w_market w)) (w_buffer w) (w_ledger w).

Definition touches_buffer (i : Instr) : bool :=
  match i with LiquidateI _ _ | RefreshMarketI _ _ | FundBufferI _ _ _ | InitInsuranceBufferI _ _ => true | _ => false end.

Lemma exec_buffer_same clk i w : touches_buffer i = false ->
  post (fun w' => w_buffer w' = w_buffer w /\ has_buffer (w_created w') = has_buffer (w_created w)) (exec clk i w).
Proof.
  intros Hi. apply exec_post, post_and; destruct i; try discriminate Hi; cbn [handle];
    unfold touch_world, redeem_world, deposit_world, market_world, queue_world, execute_world, cancel_world, gate_world,
      config_world, price_world, line_world, reserve_world, queue_global_world, execute_global_world,
      cancel_global_world; no_ledger.
Qed.

Lemma exec_not_buffer clk i w w' (c := collateral_mint (w_market w)) : admissible clk i w -> pool_of_market w ->
  draws_buffer i = false -> exec clk i w = Ok w' -> confined (not_buffer c) (w_ledger w) (w_ledger w').
Proof.
  intros [_ _ _ Hsig] Hp Hi. destruct (not_buffer_pdas c) as (Hm & Hr & Hb). revert w'.
  apply (exec_confined_by (not_buffer c)); auto; [|congruence].
  intros a E ->. apply Hsig in E. by rewrite own_pda_buffer in E.
Qed.

Lemma exec_buffer clk i w w' : invariant w -> admissible clk i w -> pool_of_market w -> exec clk i w = Ok w' ->
  buffer_covered w -> buffer_covered w'.
Proof.
  intros Hinv Had Hp H Hb. pose proof (exec_preserved _ _ _ _ Hinv Had H) as [_ _ [Ec _] _ _ _].
  unfold buffer_covered. rewrite Ec. destruct (touches_buffer i) eqn:Ei.
  2: { destruct (exec_buffer_same _ _ _ Ei _ H) as [-> ->]. intros Hh. eapply buffer_untouched; [|by apply Hb].
       eapply exec_not_buffer; [done|done|by destruct i|done]. }
  apply exec_Ok in H as [Hload H]. destruct Had as [Hn Hle _ Hsig]. destruct i; try discriminate Ei; cbn [handle] in H; cbn in Hload.
  - unfold liquidate_world in H. bind H as p Hpos. bind H as x Hx. apply (inj Ok) in H. subst w'. intros _. cbn.
    apply andb_true_iff in Hload as [_ Hload]. apply buffer_liquidate in Hx; [done|by apply Hb].
  - bind H as x Hx. apply (inj Ok) in H. subst w'. intros _. cbn. eapply buffer_refresh; [done..|by apply Hb|exact Hx].
  - bind H as [b l] Hf. apply (inj Ok) in H. subst w'. intros _. cbn. eapply buffer_fund; [by apply Hb|exact Hf|].
    intros ->. specialize (Hsig _ eq_refl). by rewrite own_pda_buffer in Hsig.
  - bind H as [] Hv. bind H as [m buf] Hi. apply (inj Ok) in H. subst w'. intros _. cbn.
    unfold init_insurance_buffer in Hi. bind Hi as ? Ha. injection Hi as <- <-. unfold new_vault in Hv. inv_ok Hv. propify.
    split; cbn; [done|]. unfold buffer_gap. cbn. lia.
Qed.

(** ** Every run *)

Lemma run_buffer w d o w' : genesis w -> run w d o w' -> pool_of_market w' /\ buffer_covered w'.
Proof.
  intros Hg. induction 1 as [w|w d o w1 clk i w2 Hr IH Had H|w d o w1 s dv ds Hr IH Hel].
  - destruct Hg. unfold pool_of_market, buffer_covered. by rewrite gn_created.
  - destruct (IH Hg) as [Hp Hb]. pose proof (reachable_invariant _ _ _ _ Hg Hr) as Hinv.
    pose proof (exec_preserved _ _ _ _ Hinv Had H) as [_ _ [Ec _] _ _ _]. split.
    + intros Hh. by apply (exec_pool _ _ _ _ H Ec Hp).
    + by apply (exec_buffer _ _ _ _ Hinv Had Hp H Hb).
  - destruct (IH Hg) as [Hp Hb]. split; [exact Hp|]. intros Hh. destruct (Hb Hh) as [Eo Hgap].
    destruct Hel as [_ _ Hown _ _ _]. destruct (Hown (ib_fusd_vault (w_buffer w1))) as (E & _ & Hle);
      [rewrite Eo; unfold market_owned; auto|].
    split; cbn; [congruence|]. unfold buffer_gap in *. cbn. lia.
Qed.

End buffer.
