(* ===== verification/Protocol.v ===== *)
(** * The protocol: many markets

    The markets of the protocol run side by side, sharing the governance accounts, the
    backstop reserve, the token ledger and the clock. Each market's view of a protocol run
    is a run of the single-market system: what the other markets and the users do is the
    activity elsewhere that the theorems on one market allow for. So those theorems hold
    of every market at once, and the supply identity holds across all of them. *)

From S2P Require Import Prelude MachineInt FixedPoint Interest Redistribution ReactorMath.
From S2P Require Import SupplyTransition Cdp State Token Accrual Bucket PositionOps TouchEffect World Reactor Liquidate.
From S2P Require Import Redeem MarketOps ReactorOps Init Twap Governance CeilingLine Backstop SupplyRecon.
From S2P Require Import OracleAdmin UpdatePrice System Frames Confined SystemProofs Reserve Scenario Safety.
From S2P Require Import BufferReserve GovernanceProofs.

Open Scope Z_scope.

Section protocol.
Context {U : U256} {R : Runtime} {K : OracleSdk}.

(** The shared accounts, the markets by their collateral mint, and the proof of reserves once
    it exists. What a market's entry holds of the shared accounts is what it last saw of
    them; [view] brings it up to date. *)
Record Protocol := mkProtocol {
  pr_shared : Shared;
  pr_markets : gmap Pubkey World;
  pr_recon : option SupplyReconciliation;
}.

#[export] Instance Protocol_fields : Fields Protocol := fun p => mkProtocol (pr_shared p) (pr_markets p) (pr_recon p).

(** The position accounts of the other markets. *)
Definition others_of (ms : gmap Pubkey World) (c : Pubkey) : gset Pubkey :=
  map_fold (fun _ w ks => dom (w_positions w) ∪ ks) ∅ (delete c ms).

Definition shared_for (p : Protocol) (c : Pubkey) : Shared :=
  (pr_shared p) <| sh_others := others_of (pr_markets p) c |>.

Definition view (p : Protocol) (c : Pubkey) : option World :=
  (fun w => with_shared w (shared_for p c)) <$> pr_markets p !! c.

(** An instruction names the market it acts on. *)
Definition protocol_exec (clk : Clock) (c : Pubkey) (i : Instr) (p : Protocol) : result Error Protocol :=
  w ← ok_or (view p c) ConstraintViolated;
  w' ← exec clk i w;
  Ok (mkProtocol (share (w' <| w_now := unix_timestamp clk |>)) (<[c := w']> (pr_markets p)) (pr_recon p)).

(** The proof of reserves: its account is created once, and cranked by anyone. *)
Definition protocol_init_recon (authority : Pubkey) (p : Protocol) : result Error Protocol :=
  _ ← constraint (bool_decide (pr_recon p = None));
  r ← init_supply_recon (sh_config (pr_shared p)) authority;
  Ok (p <| pr_recon := Some r |>).

Definition protocol_reconcile (pid : Pubkey) (clk : Clock) (accounts : list MarketInfo) (p : Protocol)
    : result Error Protocol :=
  _ ← ok_or (pr_recon p) ConstraintViolated;
  r ← reconcile_supply pid clk (sh_ledger (pr_shared p)) accounts;
  Ok (p <| pr_recon := Some r |>).

(** [step p burned p']: an instruction of some market, the creation of a market, the proof of
    reserves, or what users and other programs do: they can burn fUSD but not mint it, and debit no account
    of an address of the program. *)
Inductive step : Protocol -> Z -> Protocol -> Prop :=
  | step_instr p c w clk i p' : view p c = Some w -> admissible clk i w ->
      protocol_exec clk c i p = Ok p' -> step p 0 p'
  | step_create p w : let c := collateral_mint (w_market w) in
      pr_markets p !! c = None -> genesis w -> sh_now (pr_shared p) <= w_now w ->
      share w = (shared_for p c) <| sh_now := w_now w |> ->
      step p 0 (mkProtocol (share w) (<[c := w]> (pr_markets p)) (pr_recon p))
  | step_init_recon p a p' : protocol_init_recon a p = Ok p' -> step p 0 p'
  | step_reconcile p pid clk accounts p' : protocol_reconcile pid clk accounts p = Ok p' -> step p 0 p'
  | step_outside p l' now' n : 0 <= n -> sh_now (pr_shared p) <= now' ->
      mint_supply l' fusd_mint = mint_supply (sh_ledger (pr_shared p)) fusd_mint - n ->
      (forall a, own_pda (tok_owner (sh_ledger (pr_shared p)) a) = true ->
         tok_owner l' a = tok_owner (sh_ledger (pr_shared p)) a /\
         tok_mint l' a = tok_mint (sh_ledger (pr_shared p)) a /\
         tok_amount (sh_ledger (pr_shared p)) a <= tok_amount l' a) ->
      step p n (mkProtocol ((pr_shared p) <| sh_ledger := l' |> <| sh_now := now' |>) (pr_markets p) (pr_recon p)).

(** The protocol as [init_protocol] and [init_governance_gate] leave it. *)
Record born (p : Protocol) : Prop := {
  bn_config : exists upgrade payer args, init_protocol upgrade payer args = Ok (sh_config (pr_shared p));
  bn_gate : exists cfg a inbound timelock, init_gate cfg a inbound timelock = Ok (sh_gate (pr_shared p));
  bn_empty : pr_markets p = ∅ /\ sh_backstop (pr_shared p) = None /\ sh_queue (pr_shared p) = ∅ /\
    sh_gqueue (pr_shared p) = ∅ /\ pr_recon p = None;
  bn_supply : mint_supply (sh_ledger (pr_shared p)) fusd_mint = 0;
}.

(** [reachable p burned] *)
Inductive reachable : Protocol -> Z -> Prop :=
  | reach_born p : born p -> reachable p 0
  | reach_step p n p' k : reachable p n -> step p k p' -> reachable p' (n + k).

(** ** One step, seen from a market that stands by *)

Lemma with_shared_twice w s s' : with_shared (with_shared w s) s' = with_shared w s'.
Proof. done. Qed.

Lemma with_share w s : share w = s -> with_shared w s = w.
Proof. intros <-. by destruct w. Qed.

Lemma exec_others clk i w : post (fun w' => w_others w' = w_others w) (exec clk i w).
Proof.
  apply exec_post. destruct i; cbn [handle];
    unfold touch_world, redeem_world, deposit_world, market_world, liquidate_world, queue_world, execute_world,
      cancel_world, gate_world, config_world, price_world, line_world, reserve_world, queue_global_world,
      execute_global_world, cancel_global_world; no_ledger.
Qed.

(** The addresses of one market are not those of another. *)
Lemma market_owned_inj c c' k : market_owned c k -> market_owned c' k -> c = c'.
Proof.
  intros [ -> | [ -> | -> ] ] [E|[E|E]];
    first [by apply market_pda_inj|by apply reactor_pda_inj|by apply buffer_pda_inj|exfalso; revert E].
  all: first [by apply pda_families|intros E; symmetry in E; revert E; by apply pda_families].
Qed.

Lemma market_owned_own c k : market_owned c k -> own_pda k = true.
Proof. intros [ -> | [ -> | -> ] ]; auto using own_pda_market, own_pda_reactor, own_pda_buffer. Qed.

(** An instruction of one market is activity elsewhere for another. *)
Lemma exec_elsewhere clk i w w' v s : admissible clk i w -> pool_of_market w ->
  map_Forall (fun _ op => u64 (op_value op)) (w_queue w) -> exec clk i w = Ok w' ->
  collateral_mint (w_market v) <> collateral_mint (w_market w) ->
  w_ledger v = w_ledger w -> w_now v = w_now w -> w_gate v = w_gate w -> w_queue v = w_queue w ->
  sh_ledger s = w_ledger w' -> sh_now s = unix_timestamp clk -> sh_gate s = w_gate w' -> sh_queue s = w_queue w' ->
  exists dv ds, elsewhere v s dv ds.
Proof.
  intros [Hn Hle Harg Hsig] Hp Hv H Hne El En Eg Eq Fl Fn Fg Fq.
  exists (tok_amount (sh_ledger s) (collateral_vault (w_market v)) - tok_amount (w_ledger v) (collateral_vault (w_market v))),
    (mint_supply (sh_ledger s) fusd_mint - mint_supply (w_ledger v) fusd_mint).
  destruct (exec_lane _ _ _ _ H Hv) as [Et Hq]. destruct (exec_confined _ _ _ Hp _ H) as [Ho Hm Ha].
  constructor; try lia; [|congruence|].
  - intros a Hown. rewrite El, Fl in *. split; [apply Ho|]. split; [apply Hm|]. apply Ha.
    intros [Hc|[Hs|[_ Hb]]].
    + by eapply Hne, market_owned_inj.
    + apply Hsig in Hs. apply market_owned_own in Hown. congruence.
    + rewrite Hb in Hown. by apply market_not_backstop in Hown.
  - intros n op Hop. rewrite Fq in Hop. rewrite Eq. destruct Hq as [Hq|(a & b & q & v' & op' & -> & [])].
    + left. by eapply lookup_weaken.
    + rewrite qd_queue in Hop. apply lookup_insert_Some in Hop as [[_ <-]|[_ Hop]]; [|by left]. right.
      destruct qd_change as [_ ->]. split; [|done]. rewrite qd_market. intros E. apply market_pda_inj in E. congruence.
Qed.

(** ** The protocol invariant *)

Record protocol_ok (p : Protocol) (burned : Z) : Prop := {
  po_market c w : pr_markets p !! c = Some w -> collateral_mint (w_market w) = c /\ pool_of_market w;
  po_run c w : view p c = Some w -> exists w0 d o, genesis w0 /\ run w0 d o w;
  po_supply : mint_supply (sh_ledger (pr_shared p)) fusd_mint + burned
    = msum (fun w => backed_by (w_market w)) (pr_markets p);
  po_reserve b : sh_backstop (pr_shared p) = Some b -> reserve_ok b (sh_ledger (pr_shared p));
}.

Lemma view_Some p c w : view p c = Some w -> exists w1, pr_markets p !! c = Some w1 /\ w = with_shared w1 (shared_for p c).
Proof. unfold view. intros H. apply fmap_Some in H as (w1 & E & ->). by exists w1. Qed.

Lemma view_run_elsewhere p p' c w dv ds : view p c = Some w -> elsewhere w (shared_for p' c) dv ds ->
  (exists w0 d o, genesis w0 /\ run w0 d o w) ->
  exists w0 d o, genesis w0 /\ run w0 d o (with_shared w (shared_for p' c)).
Proof. intros Hv He (w0 & d & o & Hg & Hr). exists w0, (d + dv), (o + ds). split; [done|]. by apply run_outside. Qed.

Lemma others_insert ms c w : others_of (<[c := w]> ms) c = others_of ms c.
Proof. unfold others_of. by rewrite delete_insert_eq. Qed.

(** An instruction of the market of [c]. *)
Lemma instr_ok p c w clk i w' n : protocol_ok p n -> view p c = Some w -> admissible clk i w -> exec clk i w = Ok w' ->
  protocol_ok (mkProtocol (share (w' <| w_now := unix_timestamp clk |>)) (<[c := w']> (pr_markets p)) (pr_recon p)) n.
Proof.
  intros Hok Hv Had H. pose proof Hok as [Hm Hr Hs Hb]. destruct (view_Some _ _ _ Hv) as (w1 & Hw1 & Ew).
  destruct (Hm _ _ Hw1) as [Ec Hp]. destruct (Hr _ _ Hv) as (w0 & d & o & Hg & Hrun).
  pose proof (reachable_invariant _ _ _ _ Hg Hrun) as Hinv. pose proof (exec_preserved _ _ _ _ Hinv Had H) as [].
  destruct pv_id as [Emi _], pv_ledger as [_ Hsup _ _]. assert (collateral_mint (w_market w) = c) as Ecw by (by rewrite Ew).
  assert (pool_of_market w) as Hpw by (by rewrite Ew).
  constructor; cbn.
  - intros c' v [[<- <-]|[Hne Hv']]%lookup_insert_Some; [|by apply Hm].
    split; [by rewrite Emi|]. by eapply exec_pool.
  - intros c' v (v1 & Hv1 & ->)%view_Some. cbn in Hv1. apply lookup_insert_Some in Hv1 as [[<- <-]|[Hne Hv1]].
    + exists w0, d, o. split; [done|].
      replace (with_shared _ _) with (w' <| w_now := unix_timestamp clk |>); [by eapply run_instr|].
      unfold shared_for, with_shared. cbn. rewrite others_insert.
      replace (others_of (pr_markets p) c) with (w_others w'); [done|]. rewrite (exec_others _ _ _ _ H). by rewrite Ew.
    + assert (view p c' = Some (with_shared v1 (shared_for p c'))) as Hv' by (unfold view; by rewrite Hv1).
      rewrite <- (with_shared_twice v1 (shared_for p c')).
      destruct (exec_elsewhere clk i w w' (with_shared v1 (shared_for p c'))
        (shared_for (mkProtocol (share (w' <| w_now := unix_timestamp clk |>)) (<[c := w']> (pr_markets p)) (pr_recon p)) c'))
        as (dv & ds & He); try done; try (by rewrite Ew).
      * by apply (ln_values _ _ (lane_run _ _ _ _ Hg Hrun)).
      * destruct (Hm _ _ Hv1) as [E _]. rewrite Ecw. cbn. congruence.
      * eapply view_run_elsewhere; [exact Hv'|exact He|]. by eapply Hr.
  - rewrite (msum_update _ _ _ _ _ Hw1), <- Hs, Hsup. rewrite Ew. cbn. lia.
  - apply (exec_reserve _ _ _ _ Hinv Had Hpw); [|exact H]. rewrite Ew. exact Hb.
Qed.

(** The creation of a market. *)
Lemma genesis_pool w : genesis w -> pool_of_market w.
Proof. intros [] Hh. by rewrite gn_created in Hh. Qed.

Lemma create_ok p w n (c := collateral_mint (w_market w)) : protocol_ok p n -> pr_markets p !! c = None -> genesis w ->
  sh_now (pr_shared p) <= w_now w -> share w = (shared_for p c) <| sh_now := w_now w |> ->
  protocol_ok (mkProtocol (share w) (<[c := w]> (pr_markets p)) (pr_recon p)) n.
Proof.
  intros [Hm Hr Hs Hb] Hnone Hg Hnow Hsh.
  assert (sh_ledger (share w) = sh_ledger (pr_shared p)) as El by (by rewrite Hsh).
  constructor; cbn [pr_shared pr_markets].
  - intros c' v [[<- <-]|[Hne Hv]]%lookup_insert_Some; [|by apply Hm]. split; [done|by apply genesis_pool].
  - intros c' v (v1 & Hv1 & ->)%view_Some. cbn in Hv1. apply lookup_insert_Some in Hv1 as [[<- <-]|[Hne Hv1]].
    + exists w, 0, 0. split; [done|]. rewrite with_share; [apply run_refl|]. unfold shared_for. cbn [pr_shared pr_markets].
      rewrite others_insert, Hsh. done.
    + assert (view p c' = Some (with_shared v1 (shared_for p c'))) as Hv' by (unfold view; by rewrite Hv1).
      rewrite <- (with_shared_twice v1 (shared_for p c')).
      apply (view_run_elsewhere p _ c' _ 0 0); [exact Hv'| |by eapply Hr].
      unfold shared_for at 2. cbn [pr_shared pr_markets]. rewrite Hsh. constructor; cbn; try lia; done || by left.
  - rewrite El, Hs, msum_insert by done. destruct (genesis_invariant _ Hg) as (_ & _ & -> & _). lia.
  - rewrite El. intros b E. apply Hb. by rewrite Hsh in E.
Qed.

(** The proof of reserves changes nothing that the others read. *)
Lemma recon_ok p r n : protocol_ok p n -> protocol_ok (p <| pr_recon := r |>) n.
Proof. intros []. by constructor. Qed.

Lemma step_ok p n k p' : protocol_ok p n -> step p k p' -> protocol_ok p' (n + k).
Proof.
  intros Hok Hs. destruct Hs as [p c w clk i p' Hv Had H|p w c Hnone Hg Hnow Hsh|p a p' H|p pid clk accounts p' H|p l' now' k Hk Hnow Hsup Hown].
  - unfold protocol_exec in H. rewrite Hv in H. cbn in H. bind H as w' Hw'. apply (inj Ok) in H. subst p'.
    rewrite Z.add_0_r. by eapply instr_ok.
  - rewrite Z.add_0_r. by apply create_ok.
  - unfold protocol_init_recon in H. bind H as u Hu. bind H as r Hi. apply (inj Ok) in H. subst p'.
    rewrite Z.add_0_r. by apply recon_ok.
  - unfold protocol_reconcile in H. bind H as r0 Hr0. bind H as r Hi. apply (inj Ok) in H. subst p'.
    rewrite Z.add_0_r. by apply recon_ok.
  - destruct Hok as [Hm Hr Hs Hb]. constructor; cbn.
    + done.
    + intros c v (v1 & Hv1 & ->)%view_Some. cbn in Hv1.
      assert (view p c = Some (with_shared v1 (shared_for p c))) as Hv' by (unfold view; by rewrite Hv1).
      rewrite <- (with_shared_twice v1 (shared_for p c)). 
      apply (view_run_elsewhere p _ c _ (tok_amount l' (collateral_vault (w_market v1))
        - tok_amount (sh_ledger (pr_shared p)) (collateral_vault (w_market v1))) (- k)); [exact Hv'| |by eapply Hr].
      constructor; cbn; [lia|lia| |done|done|by left]. intros a Ha. apply Hown. by eapply market_owned_own.
    + lia.
    + intros b E. destruct (Hb b E) as [Eo Hg]. destruct (Hown (bs_fusd_vault b)) as (Eo' & _ & Hle);
        [rewrite Eo; apply own_pda_backstop|].
      split; [congruence|]. unfold reserve_gap in *. lia.
Qed.

Lemma reachable_ok p n : reachable p n -> protocol_ok p n.
Proof.
  induction 1 as [p [_ _ (Em & Eb & _) Es]|p n p' k _ IH Hs]; [|by eapply step_ok].
  constructor.
  - intros c w H. by rewrite Em in H.
  - intros c w (w1 & H & _)%view_Some. by rewrite Em in H.
  - rewrite Es, Em, msum_empty. done.
  - intros b H. by rewrite Eb in H.
Qed.

(** ** The proof of reserves *)

(** The sum of [f] over the markets of a list of accounts. *)
Fixpoint sum_of (f : Market -> Z) (ms : list (option Market)) : Z :=
  match ms with [] => 0 | o :: ms => from_option f 0 o + sum_of f ms end.

#[local] Instance sum_of_perm f : Proper ((≡ₚ) ==> (=)) (sum_of f).
Proof. intros ms ms' H. induction H; cbn; lia. Qed.




(** ** What holds of every reachable protocol *)

(** C12: each market of the protocol runs as if it were alone. In every reachable state of
    the protocol, whatever instructions of whatever markets ran in whatever order, what a
    market sees is a state that a run of the single-market system reaches from that
    market's creation: the other markets and the users are only activity elsewhere, which
    takes nothing from this market's vaults and queues nothing for it. So every theorem on
    runs holds of every market at once; in particular each collateral vault covers the
    claims on it, although all vaults live in the one ledger. *)
Theorem markets_are_isolated (p : Protocol) (n : Z) (c : Pubkey) (w : World)
    (Hr : reachable p n) (Hw : view p c = Some w) :
  collateral_mint (w_market w) = c /\
  (exists w0 d o, genesis w0 /\ run w0 d o w) /\
  total_collateral (w_market w) + surplus_collateral (w_market w) + total_coll_surplus (w_market w)
    + protocol_collateral (w_market w) <= tok_amount (sh_ledger (pr_shared p)) (collateral_vault (w_market w)).
Proof.
  apply reachable_ok in Hr as [Hm Hrun _ _]. destruct (Hrun _ _ Hw) as (w0 & d & o & Hg & H).
  pose proof (reachable_invariant _ _ _ _ Hg H) as [_ _ _ _ _ Hv _]. destruct (view_Some _ _ _ Hw) as (w1 & H1 & ->).
  split; [by apply (Hm c w1)|]. split; [by exists w0, d, o|]. exact Hv.
Qed.

(** C13: the fUSD supply is backed, across the whole protocol. In every reachable state the
    live supply plus what holders burned of their own fUSD is exactly the sum, over all
    markets, of the aggregate debt less the unminted interest plus the bad debt. *)
Theorem protocol_supply_backed (p : Protocol) (n : Z) (Hr : reachable p n) :
  mint_supply (sh_ledger (pr_shared p)) fusd_mint + n
    = msum (fun w => agg_recorded_debt (w_market w) - unminted_interest (w_market w) + bad_debt (w_market w))
        (pr_markets p).
Proof. by apply reachable_ok in Hr as [_ _ Hs _]. Qed.

(** C14: neither reserve ever promises more than it holds. In every reachable state the
    global backstop's vault holds at least everything contributed to it less what it absorbed
    and what governance withdrew: interest cuts, donations, draws by any market and
    withdrawals of the excess are all recorded. And the vault of each market's insurance
    buffer, once it exists, holds at least what was funded less what it absorbed. *)
Theorem reserve_always_covered (p : Protocol) (n : Z) (Hr : reachable p n) :
  (forall b, sh_backstop (pr_shared p) = Some b ->
    tok_owner (sh_ledger (pr_shared p)) (bs_fusd_vault b) = backstop_pda /\
    bs_total_contributed b - bs_total_absorbed b - bs_total_withdrawn b
      <= tok_amount (sh_ledger (pr_shared p)) (bs_fusd_vault b)) /\
  (forall c w, view p c = Some w -> has_buffer (w_created w) = true ->
    tok_owner (sh_ledger (pr_shared p)) (ib_fusd_vault (w_buffer w)) = buffer_pda c /\
    ib_total_funded (w_buffer w) - ib_total_absorbed (w_buffer w)
      <= tok_amount (sh_ledger (pr_shared p)) (ib_fusd_vault (w_buffer w))).
Proof.
  apply reachable_ok in Hr as [Hm Hrun _ Hres]. split.
  - intros b Hb. destruct (Hres _ Hb) as [Ho Hg]. split; [done|]. unfold reserve_gap in Hg. lia.
  - intros c w Hw Hh. destruct (Hrun _ _ Hw) as (w0 & d & o & Hg & H). destruct (run_buffer _ _ _ _ Hg H) as [_ Hb].
    destruct (Hb Hh) as [Ho Hgap]. destruct (view_Some _ _ _ Hw) as (w1 & H1 & ->). destruct (Hm _ _ H1) as [Ec _].
    cbn in Ho. rewrite Ec in Ho. split; [exact Ho|]. unfold buffer_gap in Hgap. cbn in *. lia.
Qed.


(** ** Running a protocol *)

Fixpoint protocol_all (steps : list (Clock * Pubkey * Instr)) (p : Protocol) : result Error Protocol :=
  match steps with
  | [] => Ok p
  | (clk, c, i) :: steps => p1 ← protocol_exec clk c i p; protocol_all steps p1
  end.

Fixpoint protocol_admissible (steps : list (Clock * Pubkey * Instr)) (p : Protocol) : bool :=
  match steps with
  | [] => true
  | (clk, c, i) :: steps =>
      from_option (admissibleb clk i) false (view p c) &&
      match protocol_exec clk c i p with Ok p1 => protocol_admissible steps p1 | Err _ => false end
  end.

Lemma protocol_all_reachable steps : forall p n p', reachable p n -> protocol_admissible steps p = true ->
  protocol_all steps p = Ok p' -> reachable p' n.
Proof.
  induction steps as [|[[clk c] i] steps IH]; intros p n p' Hr Ha H; cbn in *; [by injection H as <-|].
  apply andb_true_iff in Ha as [Hv Ha]. destruct (protocol_exec clk c i p) as [p1|] eqn:E; [|done]. cbn in H.
  eapply IH; [|exact Ha|exact H]. rewrite <- (Z.add_0_r n). destruct (view p c) as [w|] eqn:Ew; [|done]. cbn in Hv.
  eapply reach_step; [done|]. eapply step_instr; [exact Ew|by apply admissibleb_sound|exact E].
Qed.

(** A market as [init_market] creates it over the protocol's shared accounts. *)
Definition new_market (clk : Clock) (p : Protocol) (a : Pubkey) (mint : MintInfo) (vault : Pubkey)
    (args : InitMarketArgs) : result Error World :=
  let s := pr_shared p in
  '(m, bm) ← init_market clk (sh_config s) a mint vault args;
  Ok (mkWorld m ∅ (others_of (pr_markets p) (mi_key mint)) bm blank_pool [] ∅ blank_buffer (sh_backstop s) (sh_gate s)
        (sh_config s) blank_oracle empty_ring None (sh_queue s) (sh_gqueue s) (sh_ledger s) (unix_timestamp clk)
        nothing_created).

Lemma new_market_genesis clk p a mint vault args w :
  new_market clk p a mint vault args = Ok w ->
  timestamp (unix_timestamp clk) -> mi_key mint <> fusd_mint ->
  Forall u16 [ia_mcr_bps args; ia_liq_gas_comp_bps args; ia_liq_bonus_bps args; ia_bucket_width_bps args] ->
  map_Forall (fun _ op => op_market op <> market_pda (mi_key mint) /\ u64 (op_value op)) (sh_queue (pr_shared p)) ->
  0 <= timelock_secs (sh_gate (pr_shared p)) ->
  tok_owner (sh_ledger (pr_shared p)) vault = market_pda (mi_key mint) ->
  tok_mint (sh_ledger (pr_shared p)) vault = mi_key mint -> tok_amount (sh_ledger (pr_shared p)) vault = 0 ->
  genesis w /\ share w = (shared_for p (collateral_mint (w_market w))) <| sh_now := w_now w |>.
Proof.
  intros H Ht Hne Hu Hq Htl Ho Hmi Ha. unfold new_market in H. bind H as [m bm] H1. apply (inj Ok) in H. subst w.
  assert (collateral_vault m = vault /\ collateral_mint m = mi_key mint) as [Ev Ec].
  { clear -H1. unfold init_market in H1. do 10 (bind H1 as ? Hc; clear Hc). by injection H1 as <- _. }
  split; [|unfold shared_for; cbn; by rewrite Ec]. constructor; cbn; rewrite ?Ev, ?Ec; try done.
  by exists clk, a, mint, args.
Qed.

End protocol.

(** ** Two markets *)

Module Duo.
Import MapLedger.
#[local] Existing Instance wide_u256.
#[local] Existing Instance runtime.
#[local] Existing Instance PlainSdk.sdk.

(** Collateral mints 1 and 2, fUSD mint 999, reserve vault 40; Alice 100, Bob 200. *)
Definition ledger0 : Ledger := {|
  amounts := list_to_map [(101, 1000000000000); (203, 1000000000000)];
  owners := list_to_map [(10, 1901); (11, 1902); (12, 1902); (14, 1903); (20, 2901); (21, 2902); (22, 2902); (24, 2903);
    (40, 998); (101, 100); (102, 100); (202, 200); (203, 200)];
  mints := list_to_map [(10, 1); (11, 999); (12, 1); (14, 999); (20, 2); (21, 999); (22, 2); (24, 999); (40, 999);
    (101, 1); (102, 999); (202, 999); (203, 2)];
  supplies := ∅;
  sol := list_to_map [(100, 1000000000); (200, 1000000000)] |}.

Definition value {A} (r : result Error A) (d : A) : A := match r with Ok a => a | Err _ => d end.

Definition cfg : ProtocolConfig := value (init_protocol (Some 50) 50 (mkInitProtocolArgs 50 51)) Demo.cfg.
Definition gate : GovernanceGate := value (init_gate cfg 50 50 3600) Demo.gate.
Definition p0 : Protocol := mkProtocol (mkShared ∅ None gate cfg ∅ ∅ ledger0 1000) ∅ None.

Definition mint2 : MintInfo := mkMintInfo 2 9 None.
Definition alice : Accounts := mkAccounts 100 2001100 102 101 10.
Definition bob : Accounts := mkAccounts 200 2002200 202 203 20.

Definition w1 : World.
Proof.
  let r := eval vm_compute in (new_market (Demo.at_time 1000) p0 50 Demo.mint 10 Demo.args) in
  lazymatch r with Ok ?w => exact w end.
Defined.
Lemma w1_ok : new_market (Demo.at_time 1000) p0 50 Demo.mint 10 Demo.args = Ok w1.
Proof. vm_cast_no_check (@eq_refl (result Error World) (new_market (Demo.at_time 1000) p0 50 Demo.mint 10 Demo.args)). Qed.
Definition p1 : Protocol := mkProtocol (share w1) (<[collateral_mint (w_market w1) := w1]> (pr_markets p0)) None.

(** Alice borrows in the first market before the second exists. *)
Definition first : list (Clock * Pubkey * Instr) :=
  [ (Demo.at_time 1000, 1, InitReactorPoolI 50 11 12 13); (Demo.at_time 1000, 1, DevSetPriceI 50 Demo.price);
    (Demo.at_time 1000, 1, OpenPositionI alice 100); (Demo.at_time 1000, 1, InitInsuranceBufferI 50 14);
    (Demo.at_time 1000, 1, DepositI alice 10000000000); (Demo.at_time 1010, 1, BorrowI alice 500000000) ].

Definition p2 : Protocol.
Proof. let r := eval vm_compute in (protocol_all first p1) in lazymatch r with Ok ?p => exact p end. Defined.

Definition w2 : World.
Proof.
  let r := eval vm_compute in (new_market (Demo.at_time 1020) p2 50 mint2 20 Demo.args) in
  lazymatch r with Ok ?w => exact w end.
Defined.
Lemma w2_ok : new_market (Demo.at_time 1020) p2 50 mint2 20 Demo.args = Ok w2.
Proof. vm_cast_no_check (@eq_refl (result Error World) (new_market (Demo.at_time 1020) p2 50 mint2 20 Demo.args)). Qed.
Definition p3 : Protocol := mkProtocol (share w2) (<[collateral_mint (w_market w2) := w2]> (pr_markets p2)) (pr_recon p2).

(** Bob borrows in the second, interleaved with the first, which funds the reserve. *)
Definition second : list (Clock * Pubkey * Instr) :=
  [ (Demo.at_time 1020, 2, DevSetPriceI 50 Demo.price); (Demo.at_time 1020, 2, OpenPositionI bob 500);
    (Demo.at_time 1020, 2, InitInsuranceBufferI 50 24); (Demo.at_time 1020, 1, InitMarketOracleI 50 Demo.mint Demo.usdc Demo.oracle_args);
    (Demo.at_time 1030, 2, InitReactorPoolI 50 21 22 23);
    (Demo.at_time 1030, 1, InitBackstopI 50 40); (Demo.at_time 1030, 2, DepositI bob 10000000000);
    (Demo.at_time 1040, 1, FundBackstopI 100 102 7000000); (Demo.at_time 1040, 2, BorrowI bob 300000000);
    (Demo.at_time 1040, 2, FundBufferI 200 202 2000000) ].

Definition p4 : Protocol.
Proof. let r := eval vm_compute in (protocol_all second p3) in lazymatch r with Ok ?p => exact p end. Defined.

(** Bob burns five units of his fUSD. *)
Definition burnt : Ledger.
Proof.
  let r := eval vm_compute in (burn (sh_ledger (pr_shared p4)) 999 202 200 5) in lazymatch r with Some ?l => exact l end.
Defined.
Definition p5 : Protocol := mkProtocol ((pr_shared p4) <| sh_ledger := burnt |> <| sh_now := 1050 |>) (pr_markets p4) (pr_recon p4).

Lemma born_p0 : born p0.
Proof.
  constructor.
  - exists (Some 50), 50, (mkInitProtocolArgs 50 51). reflexivity.
  - exists cfg, 50, 50, 3600. reflexivity.
  - done.
  - reflexivity.
Qed.

Lemma reach_p1 : reachable p1 0.
Proof.
  apply (reach_step p0 0 p1 0); [apply reach_born, born_p0|].
  destruct (new_market_genesis (Demo.at_time 1000) p0 50 Demo.mint 10 Demo.args w1)
    as [Hg Hs];
    [exact w1_ok|split; vm_compute; discriminate|discriminate|rewrite !Forall_cons, Forall_nil; repeat split; vm_compute; discriminate
    |apply map_Forall_empty|vm_compute; discriminate|vm_compute; reflexivity..|].
  apply (step_create p0 w1); [vm_cast_no_check (@eq_refl (option World) None)|exact Hg| |exact Hs]. vm_compute. discriminate.
Qed.

Lemma reach_p2 : reachable p2 0.
Proof.
  apply (protocol_all_reachable first p1); [apply reach_p1|by vm_compute|].
  vm_cast_no_check (@eq_refl (result Error Protocol) (protocol_all first p1)).
Qed.

Lemma reach_p3 : reachable p3 0.
Proof.
  apply (reach_step p2 0 p3 0); [apply reach_p2|].
  destruct (new_market_genesis (Demo.at_time 1020) p2 50 mint2 20 Demo.args w2)
    as [Hg Hs];
    [exact w2_ok|split; vm_compute; discriminate|discriminate|rewrite !Forall_cons, Forall_nil; repeat split; vm_compute; discriminate
    |assert (sh_queue (pr_shared p2) = ∅) as -> by (vm_compute; reflexivity); apply map_Forall_empty|vm_compute; discriminate|vm_compute; reflexivity..|].
  apply (step_create p2 w2); [vm_cast_no_check (@eq_refl (option World) None)|exact Hg| |exact Hs]. vm_compute. discriminate.
Qed.

Lemma reach_p4 : reachable p4 0.
Proof.
  apply (protocol_all_reachable second p3); [apply reach_p3|by vm_compute|].
  vm_cast_no_check (@eq_refl (result Error Protocol) (protocol_all second p3)).
Qed.

Lemma reach_p5 : reachable p5 5.
Proof.
  apply (reach_step p4 0 p5 5); [apply reach_p4|].
  assert (token_burn (sh_ledger (pr_shared p4)) 999 202 200 5 = Some burnt) as H by (vm_compute; reflexivity).
  destruct (burn_law (sh_ledger (pr_shared p4)) 999 202 200 5 burnt H) as (_ & Ho & _ & Ha & Hs & Hown).
  apply step_outside; [done|vm_compute; discriminate|by rewrite Hs|]. intros a Hp.
  split; [apply Hown|]. split; [apply Hown|]. rewrite Ha. case_bool_decide as E; [|lia]. subst a. rewrite Ho in Hp. discriminate Hp.
Qed.

Definition v2 : World.
Proof. let r := eval vm_compute in (view p5 2) in lazymatch r with Some ?w => exact w end. Defined.
Lemma view_p5 : view p5 2 = Some v2.
Proof. vm_cast_no_check (@eq_refl (option World) (view p5 2)). Qed.




End Duo.

#[local] Existing Instance WideInt.wide_u256.
#[local] Existing Instance MapLedger.runtime.
#[local] Existing Instance PlainSdk.sdk.

Lemma markets_are_isolated_witness : collateral_mint (w_market Duo.v2) = 2 /\
  10000000000 <= tok_amount (sh_ledger (pr_shared Duo.p5)) (collateral_vault (w_market Duo.v2)).
Proof.
  destruct (markets_are_isolated Duo.p5 5 2 Duo.v2 Duo.reach_p5 Duo.view_p5) as (Hc & _ & Hv).
  exact (conj Hc Hv).
Defined.

Lemma protocol_supply_backed_witness : mint_supply (sh_ledger (pr_shared Duo.p5)) fusd_mint + 5 = 800000000.
Proof. rewrite (protocol_supply_backed _ _ Duo.reach_p5). vm_compute. reflexivity. Defined.

Lemma reserve_always_covered_witness : exists b, sh_backstop (pr_shared Duo.p5) = Some b /\
  bs_total_contributed b = 7000000 /\ 7000000 <= tok_amount (sh_ledger (pr_shared Duo.p5)) (bs_fusd_vault b) /\
  ib_total_funded (w_buffer Duo.v2) = 2000000 /\ 2000000 <= tok_amount (sh_ledger (pr_shared Duo.p5)) 24.
Proof.
  destruct (reserve_always_covered _ _ Duo.reach_p5) as [Hb Hm].
  destruct (sh_backstop (pr_shared Duo.p5)) as [b|] eqn:E; [|vm_compute in E; discriminate E].
  destruct (Hb _ eq_refl) as [_ H]. destruct (Hm 2 Duo.v2 Duo.view_p5 eq_refl) as [_ H2].
  exists b. split; [reflexivity|]. vm_compute in E. injection E as <-. split; [reflexivity|]. split; [exact H|].
  split; [reflexivity|exact H2].
Defined.

