(* ===== verification/OracleProofs.v ===== *)
(** * The cranks in the system

    The DEX ring of a market keeps covering its window however often it is sampled, and
    a committed price is authenticated, fresh, plausible and ordered. *)

From S2P Require Import Prelude MachineInt FixedPoint State Token Accrual Bucket PositionOps World Liquidate Redeem.
From S2P Require Import MarketOps ReactorOps Init OracleScale Oracle Twap AccountBytes Governance OracleAdmin.
From S2P Require Import UpdatePrice System Frames Confined SystemProofs Scenario Safety GovernanceProofs.

Open Scope Z_scope.

(** ** A spaced ring *)






Section ring.
Context {U : U256} {R : Runtime} {K : OracleSdk}.





(** ** Along a run *)














(** ** What a crank must be given *)

(** A Pyth account this market accepts: its owner, its verification and its feed. *)
Definition pyth_accepted (cfg : ProtocolConfig) (feed_id : Z) (acc : AccountInfo) (price : PythPrice) : Prop :=
  (ai_owner acc = pyth_receiver_program_id cfg \/
   (pyth_receiver_program_id_alt cfg <> 0 /\ ai_owner acc = pyth_receiver_program_id_alt cfg)) /\
  exists pu, price_update_deserialize (ai_data acc) = Some pu /\ verified_full pu = true /\
    get_price_unchecked pu feed_id = Some price /\ 0 < py_price price.

(** A Switchboard account this market accepts, with its quorum. *)
Definition switchboard_accepted (cfg : ProtocolConfig) (o : MarketOracle) (acc : AccountInfo) (feed : PullFeed) : Prop :=
  ai_owner acc = switchboard_program_id cfg /\ ai_key acc = switchboard_feed o /\
  pull_feed_parse (ai_data acc) = Some feed /\ 0 < pf_value feed /\ 1 <= pf_num_samples feed /\
  pf_min_responses feed <= pf_num_samples feed.

(** A stake pool this market accepts. *)
Definition stake_pool_accepted (m : Market) (o : MarketOracle) (owner : Pubkey) (clk : Clock) (acc : AccountInfo)
    (s : StakePoolSample) : Prop :=
  ai_owner acc = owner /\ ai_key acc = lst_stake_pool o /\ stake_pool_parse (ai_data acc) = Ok s /\
  sp_pool_mint s = collateral_mint m /\
  sat_sub (epoch clk) (sp_last_update_epoch s) <= MAX_STAKE_POOL_EPOCH_LAG.

Lemma px_range p e v : px_to_ray p e = Some v -> u128 v.
Proof.
  unfold px_to_ray. intros H. apply bind_Some' in H as (b & Hb & H). apply bind_Some' in H as (s & Hs & H).
  rewrite u256_try_u128_val in H. by apply fit_Some in H as [-> ?].
Qed.

Lemma parse_pyth_Ok cfg acc id v :
  parse_pyth acc id (pyth_receiver_program_id cfg) (pyth_receiver_program_id_alt cfg) = Ok v ->
  view_ok v /\ exists price, pyth_accepted cfg id acc price /\ pv_publish_ts v = py_publish_time price.
Proof.
  intros H. unfold parse_pyth in H. cbv zeta in H. bind H as u1 Ho. bind H as pu Hpu. bind H as u2 Hver.
  bind H as price Hpr. bind H as u3 Hpos. bind H as p Hp. bind H as c Hc. injection H as <-.
  apply check_Ok in Ho, Hver, Hpos. inv_ok Hpu. inv_ok Hpr. inv_ok Hp. inv_ok Hc. apply px_range in Hp, Hc.
  split; [by constructor|]. exists price. split; [|done]. split; [|exists pu; by propify].
  apply orb_true_iff in Ho as [Ho|Ho]; propify; auto.
Qed.

Lemma parse_switchboard_Ok cfg o acc v :
  parse_switchboard acc (switchboard_feed o) (switchboard_program_id cfg) = Ok (Some v) ->
  view_ok v /\ exists feed, switchboard_accepted cfg o acc feed /\ pv_publish_ts v = pf_last_update_timestamp feed.
Proof.
  intros H. unfold parse_switchboard in H. cbv zeta in H. bind H as u1 Ho. bind H as u2 Hk. bind H as feed Hf.
  apply check_Ok in Ho, Hk. inv_ok Hf. destruct ((_ =? _) || (_ <=? _)) eqn:E1; [discriminate H|].
  destruct (_ <? _) eqn:E2; [discriminate H|]. destruct (px_to_ray (pf_value feed) _) as [p|] eqn:Ep; [|discriminate H].
  destruct (px_to_ray (Z.max _ _) _) as [c|] eqn:Ec; [|discriminate H]. injection H as <-. propify.
  apply px_range in Ep, Ec. split; [by constructor|]. exists feed. split; [|done].
  unfold switchboard_accepted. repeat (split; [done || lia|]). lia.
Qed.

Lemma parse_stake_pool_Ok m o owner acc clk s :
  parse_bound_stake_pool acc (lst_stake_pool o) owner (collateral_mint m) (epoch clk) = Ok (Some s) ->
  exists a, acc = Some a /\ stake_pool_accepted m o owner clk a s.
Proof.
  intros H. unfold parse_bound_stake_pool in H. destruct acc as [a|]; [|discriminate H]. exists a. split; [done|].
  bind H as u1 Ho. bind H as u2 Hk. apply check_Ok in Ho, Hk. destruct (stake_pool_parse _) as [s'|] eqn:Es; [|discriminate H].
  destruct (_ <? _) eqn:E1; [discriminate H|]. destruct (negb _) eqn:E2; [discriminate H|]. injection H as <-. by propify.
Qed.

Lemma scale_view_Some v a b v' : scale_view v a b = Some v' -> view_ok v -> u64 a -> u64 b ->
  view_ok v' /\ pv_publish_ts v' = pv_publish_ts v.
Proof.
  intros H [Hp Hc] Ha Hb. unfold scale_view in H. apply if_Some_r in H as [Hz H]. propify.
  apply bind_Some' in H as (p & E1 & H). apply bind_Some' in H as (c & E2 & H). injection H as <-.
  apply mul_div_floor_u128 in E1, E2; [split; [by constructor|done]|done || rlia..].
Qed.

Lemma stake_pool_totals data s : Forall (fun b => 0 <= b < 256) data -> stake_pool_parse data = Ok s ->
  u64 (sp_total_lamports s) /\ u64 (sp_pool_token_supply s).
Proof.
  intros Hd H. unfold stake_pool_parse in H. cbv zeta in H. case_bool_decide; [done|]. destruct (negb _); [done|].
  destruct (_ || _); [done|]. injection H as <-. cbn. split; by apply read_u64_range.
Qed.

(** The rate the canonical-primary mode composes into its price. *)
Definition rate_accepted (clk : Clock) (k : PriceAccounts) (m : Market) (o : MarketOracle) : Prop :=
  exists a s, pk_stake_pool k = Some a /\ stake_pool_accepted m o FUSION_STAKE_POOL_PROGRAM_ID clk a s /\
    within_pool_update_grace (sp_last_update_epoch s) clk = true.

Lemma compose_views_Some clk k m o pv sb rate pv' sb' :
  compose_views clk k m o pv sb = Ok (Some (rate, pv', sb')) -> view_ok pv -> (forall s, sb = Some s -> view_ok s) ->
  (forall a, pk_stake_pool k = Some a -> Forall (fun b => 0 <= b < 256) (ai_data a)) ->
  (view_ok pv' /\ pv_publish_ts pv' = pv_publish_ts pv) /\
  (forall s', sb' = Some s' -> exists s, sb = Some s /\ view_ok s' /\ pv_publish_ts s' = pv_publish_ts s) /\
  (canonical_primary o <> 0 -> rate_accepted clk k m o).
Proof.
  intros H Hp Hs Hb. unfold compose_views in H. destruct (Z.eqb_spec (canonical_primary o) 0) as [Hc|Hc].
  { injection H as <- <- <-. split; [done|]. split; [|done]. intros s' ->. exists s'. auto. }
  bind H as rt Hrt. cbv zeta in H. destruct rt as [s|]; [|discriminate H].
  destruct (within_pool_update_grace _ _) eqn:Eg; [|discriminate H]. apply parse_stake_pool_Ok in Hrt as (a & Ea & Ha).
  pose proof Ha as (_ & _ & Hparse & _). destruct (stake_pool_totals _ _ (Hb _ Ea) Hparse) as [Hl Ht].
  bind H as rr Hrr. bind H as v1 Hv1. bind H as v2 Hv2. injection H as <- <- <-. inv_ok Hv1.
  apply scale_view_Some in Hv1; [|done..]. split; [done|]. split; [|intros _; by exists a, s].
  intros s' ->. destruct sb as [s0|]; [|discriminate Hv2]. bind Hv2 as v3 Hv3. injection Hv2 as <-. inv_ok Hv3.
  apply scale_view_Some in Hv3; [|by apply Hs|done..]. by exists s0.
Qed.

(** The two prices of an aggregate are in order. *)
Lemma aggregate_ordered pyth sb twap can now cfg : view_ok pyth -> (forall s, sb = Some s -> view_ok s) ->
  (forall c, can = Some c -> 0 <= c) -> 0 <= oc_k_bps cfg ->
  let r := aggregate pyth sb twap can now cfg in
  0 <= or_collateral_price r <= or_debt_price r /\ or_debt_price r <= U128_MAX.
Proof.
  intros Hp Hs Hc Hk. cbn.
  pose proof (chosen_ok pyth sb (view_fresh now cfg pyth) (is_some_and sb (view_fresh now cfg)) Hp Hs) as [Hv Hv'].
  set (v := chosen_view _ _ _ _) in *. pose proof (spread_nonneg (pv_conf v) (oc_k_bps cfg) ltac:(rlia) Hk).
  unfold debt_price, sat_add128, sat_sub. unfold u128 in *. destruct can as [c|]; [specialize (Hc c eq_refl)|]; lia.
Qed.

(** A fresh aggregate rests on a fresh view. *)
Lemma aggregate_fresh pyth sb twap can now cfg : or_fresh (aggregate pyth sb twap can now cfg) = true ->
  sat_sub_i64 now (pv_publish_ts pyth) <= oc_max_age_secs cfg \/
  exists s, sb = Some s /\ sat_sub_i64 now (pv_publish_ts s) <= oc_max_age_secs cfg.
Proof.
  cbn. intros H. apply orb_true_iff in H as [H|H].
  - left. unfold view_fresh, is_stale in H. propify. done.
  - right. destruct sb as [s|]; [|done]. exists s. split; [done|]. cbn in H. unfold view_fresh, is_stale in H. by propify.
Qed.

Lemma spot_monotone a b c f x y : 0 <= c -> 0 <= f -> u128 a -> u128 b -> a <= b ->
  usd_ray_to_spot a c f = Some x -> usd_ray_to_spot b c f = Some y -> x <= y.
Proof.
  intros Hc Hf Ha Hb Hle Hx Hy. unfold usd_ray_to_spot in Hx, Hy. pose proof (ten_pow_spec c Hc) as Sc.
  destruct (ten_pow f) as [tf|]; [|discriminate Hx]. destruct (ten_pow c) as [tc|]; cbn in Hx, Hy;
    [|by destruct (u256_checked_mul _ _)].
  destruct (u256_checked_mul (u256_from a) tf) as [na|] eqn:Ea; [|discriminate Hx].
  destruct (u256_checked_mul (u256_from b) tf) as [nb|] eqn:Eb; [|discriminate Hy]. cbn in Hx, Hy.
  rewrite u256_try_u128_val, u256_div_val in Hx, Hy by (pose proof (ten_pow_pos c Hc); lia).
  apply fit_Some in Hx as [-> _], Hy as [-> _]. apply checked_mul_Some in Ea, Eb.
  rewrite Ea, Eb, !u256_from_val by done. pose proof (u256_range tf). pose proof (ten_pow_pos c Hc).
  apply Z.div_le_mono; [lia|]. nia.
Qed.

(** What the crank's commit does with ordered prices. *)
Lemma commit_price_Ok clk m o r rate m' o' : commit_price clk m o r rate = Ok (m', o') ->
  0 <= or_collateral_price r <= or_debt_price r -> or_debt_price r <= U128_MAX ->
  0 <= collateral_decimals m -> 0 <= liquidity_haircut_bps o ->
  (mint_frozen m' = false -> or_mode r = OracleMode.Ok) /\
  ((spot m' = spot m /\ debt_spot m' = debt_spot m /\ spot_updated_slot m' = spot_updated_slot m) \/
   (or_fresh r = true /\ or_plausible r = true /\ 0 < spot m' <= debt_spot m' /\ spot_updated_slot m' = slot clk)).
Proof.
  intros H Hord Hmax Hdec Hhc. unfold commit_price in H. cbv zeta in H.
  assert (mint_frozen (commit_divergence clk m r) = false -> or_mode r = OracleMode.Ok) as Hmode
    by (unfold commit_divergence; cbv zeta; destruct (or_liq_divergent r), (or_mode r); done).
  assert (spot (commit_divergence clk m r) = spot m /\ debt_spot (commit_divergence clk m r) = debt_spot m /\
    spot_updated_slot (commit_divergence clk m r) = spot_updated_slot m /\
    collateral_decimals (commit_divergence clk m r) = collateral_decimals m) as (E1 & E2 & E3 & E4)
    by (unfold commit_divergence; cbv zeta; by destruct (or_liq_divergent r)).
  set (md := commit_divergence clk m r) in *.
  destruct (or_fresh r && or_plausible r) eqn:Ef; [|injection H as <- <-; split; [done|left; done]].
  bind H as ray Hray. bind H as s Hs. bind H as ds Hds. inv_ok Hs. inv_ok Hds. rewrite E4 in Hs, Hds.
  destruct (Z.ltb_spec 0 s); [|injection H as <- <-; split; [done|left; done]].
  apply (inj Ok), (f_equal fst) in H. cbn [fst] in H.
  assert (mint_frozen m' = mint_frozen md /\ spot m' = s /\ debt_spot m' = ds /\ spot_updated_slot m' = slot clk)
    as (F1 & F2 & F3 & F4).
  { subst m'. unfold commit_rate, commit_fresh_spot. cbv zeta.
    destruct rate; cbn [fst]; repeat match goal with |- context [if ?b then _ else _] => destruct b end; done. }
  rewrite F1. split; [done|]. right. rewrite F2, F3, F4. propify. split; [done|]. split; [done|]. split; [|done].
  split; [done|]. assert (0 <= ray <= or_collateral_price r) as Hr.
  { unfold collateral_ray in Hray. destruct (_ && _); [|injection Hray as <-; lia].
    bind Hray as kept Hk. inv_ok Hk. checked. subst kept. inv_ok Hray.
    apply mul_div_floor_Some in Hray as (_ & -> & _); [|rlia..].
    split; [apply Z.div_pos; nia|apply Z.div_le_upper_bound; nia]. }
  eapply (spot_monotone ray (or_debt_price r)); [exact Hdec| | | | |exact Hs|exact Hds]; rlia.
Qed.

(** The views a crank aggregates. *)
Lemma update_price_run clk cfg k m o ring m' o' : update_price clk cfg k m o ring = Ok (m', o') ->
  (forall a, pk_stake_pool k = Some a -> Forall (fun b => 0 <= b < 256) (ai_data a)) ->
  exists price, pyth_accepted cfg (pyth_feed_id o) (pk_pyth k) price /\
  (m' = m <| mint_frozen := true |> \/
   exists rate pv sb can, commit_price clk m o (aggregate pv sb
       (twap ring (unix_timestamp clk) (twap_window_secs o) (mkTwapConfig (twap_min_samples o) (twap_max_staleness_secs o)))
       can (unix_timestamp clk) (oracle_config o)) rate = Ok (m', o') /\
     view_ok pv /\ pv_publish_ts pv = py_publish_time price /\ (forall c, can = Some c -> 0 <= c) /\
     (forall s, sb = Some s -> view_ok s /\ exists acc feed, pk_switchboard k = Some acc /\
        switchboard_accepted cfg o acc feed /\ pv_publish_ts s = pf_last_update_timestamp feed) /\
     (canonical_primary o <> 0 -> rate_accepted clk k m o) /\
     (canonical_primary o = 0 -> lst_stake_pool o <> 0 -> is_Some can ->
        exists sol price' a s, pk_sol_usd k = Some sol /\ pyth_accepted cfg PYTH_SOL_USD_FEED_ID sol price' /\
          sat_sub_i64 (unix_timestamp clk) (py_publish_time price') <= max_age_secs o /\
          pk_stake_pool k = Some a /\ stake_pool_accepted m o SPL_STAKE_POOL_PROGRAM_ID clk a s)).
Proof.
  intros H Hb. unfold update_price in H. cbv zeta in H. bind H as pv0 Hpv. bind H as sb0 Hsb. bind H as views Hvw.
  apply parse_pyth_Ok in Hpv as (Hpok & price & Hacc & Ets). exists price. split; [done|].
  assert (forall s, sb0 = Some s -> view_ok s /\ exists acc feed, pk_switchboard k = Some acc /\
        switchboard_accepted cfg o acc feed /\ pv_publish_ts s = pf_last_update_timestamp feed) as Hsok.
  { intros s ->. destruct (pk_switchboard k) as [acc|]; [|discriminate Hsb].
    apply parse_switchboard_Ok in Hsb as (Hv & feed & Hf & Et). split; [done|]. by exists acc, feed. }
  destruct views as [[[rate pv] sb]|]; [|injection H as <- <-; by left]. right. bind H as can Hcan.
  apply compose_views_Some in Hvw as ((Hv & Et) & Hs' & Hrate); [|done|intros s Es; by apply Hsok|done].
  exists rate, pv, sb, can. split; [exact H|]. split; [done|]. split; [congruence|].
  assert (forall c, can = Some c -> 0 <= c /\ (canonical_primary o = 0 -> exists sol price' a s,
    pk_sol_usd k = Some sol /\ pyth_accepted cfg PYTH_SOL_USD_FEED_ID sol price' /\
    sat_sub_i64 (unix_timestamp clk) (py_publish_time price') <= max_age_secs o /\
    pk_stake_pool k = Some a /\ stake_pool_accepted m o SPL_STAKE_POOL_PROGRAM_ID clk a s)) as Hc.
  { intros c ->. destruct (_ && _); [|discriminate Hcan]. unfold compute_canonical in Hcan.
    destruct (pk_sol_usd k) as [sol|]; [|discriminate Hcan]. bind Hcan as spv Hspv.
    apply parse_pyth_Ok in Hspv as ([Hsp _] & price' & Hacc' & Ets'). unfold is_stale in Hcan.
    destruct (_ <? _) eqn:Est; [discriminate Hcan|]. propify. bind Hcan as smp Hsmp. destruct smp as [s|]; [|discriminate Hcan].
    apply parse_stake_pool_Ok in Hsmp as (a & Ea & Ha). pose proof Ha as (_ & _ & Hparse & _).
    destruct (stake_pool_totals _ _ (Hb _ Ea) Hparse) as [Hl Ht]. apply (inj Ok) in Hcan.
    apply mul_div_floor_u128 in Hcan; [|done|rlia..]. split; [rlia|]. intros _. exists sol, price', a, s.
    rewrite <- Ets'. auto. }
  split; [intros c Ec; by apply Hc|]. split; [|split; [done|]].
  - intros s Es. destruct (Hs' s Es) as (s0 & E0 & Hok & Et0). split; [done|].
    destruct (Hsok s0 E0) as (_ & acc & feed & Hx & Hy & Hz). exists acc, feed. rewrite Et0. auto.
  - intros Hcp _ [c Ec]. by apply (Hc c Ec).
Qed.

(** C22: a committed price is authenticated, fresh, plausible and ordered. A crank that
    succeeds was given a Pyth update owned by a configured receiver, fully verified, of the
    market's own feed and with a positive price. It then either leaves the price and its
    age alone, or commits a low price that is positive and at most the high price, with the
    current slot, and only when the Pyth update or a Switchboard feed of the market's own
    key, owner and quorum was published within the age limit. Anyone may crank, with any
    accounts: a stale, mis-scaled or forged input can at worst freeze minting. *)
Theorem committed_price_sound (clk : Clock) (cfg : ProtocolConfig) (k : PriceAccounts) (m m' : Market)
    (o o' : MarketOracle) (ring : ObservationRing)
    (Hk : 0 <= k_bps o) (Hhc : 0 <= liquidity_haircut_bps o) (Hdec : 0 <= collateral_decimals m)
    (Hbytes : forall a, pk_stake_pool k = Some a -> Forall (fun b => 0 <= b < 256) (ai_data a))
    (H : update_price clk cfg k m o ring = Ok (m', o')) :
  exists price, pyth_accepted cfg (pyth_feed_id o) (pk_pyth k) price /\
  ((spot m' = spot m /\ debt_spot m' = debt_spot m /\ spot_updated_slot m' = spot_updated_slot m) \/
   (0 < spot m' <= debt_spot m' /\ spot_updated_slot m' = slot clk /\
    (sat_sub_i64 (unix_timestamp clk) (py_publish_time price) <= max_age_secs o \/
     exists acc feed, pk_switchboard k = Some acc /\ switchboard_accepted cfg o acc feed /\
       sat_sub_i64 (unix_timestamp clk) (pf_last_update_timestamp feed) <= max_age_secs o))).
Proof.
  apply update_price_run in H as (price & Hacc & Hres); [|done]. exists price. split; [done|].
  destruct Hres as [->|(rate & pv & sb & can & Hcm & Hv & Et & Hc & Hsb & _)]; [by left|].
  destruct (aggregate_ordered pv sb (twap ring (unix_timestamp clk) (twap_window_secs o)
    (mkTwapConfig (twap_min_samples o) (twap_max_staleness_secs o))) can (unix_timestamp clk) (oracle_config o) Hv)
    as [Hord Hmax]; [intros s Es; by apply Hsb|done|done|].
  apply commit_price_Ok in Hcm as [_ Hcm]; [|done..]. destruct Hcm as [Hkeep|(Hf & _ & Hs & Hsl)]; [by left|].
  right. split; [done|]. split; [done|]. apply aggregate_fresh in Hf as [Hf|(s & Es & Hf)].
  - left. by rewrite <- Et.
  - right. destruct (Hsb s Es) as (_ & acc & feed & Ha & Hx & Ht). exists acc, feed. rewrite <- Ht. auto.
Qed.

(** C23: minting opens only when every source vouches for the price. If a crank leaves
    minting open, its Pyth update is within the age limit, a Switchboard feed of the
    market's own key, owner and quorum was passed and is within the age limit, and the
    remaining source of the market's mode was there too: the DEX average in the market-feed
    mode, the finalized rate of the bound Fusion stake pool in the canonical-primary mode,
    and for a staked-token market the SOL price and the rate of its stake pool, whose mint
    is the market's collateral. *)
Theorem minting_needs_every_source (clk : Clock) (cfg : ProtocolConfig) (k : PriceAccounts) (m m' : Market)
    (o o' : MarketOracle) (ring : ObservationRing)
    (Hk : 0 <= k_bps o) (Hhc : 0 <= liquidity_haircut_bps o) (Hdec : 0 <= collateral_decimals m)
    (Hbytes : forall a, pk_stake_pool k = Some a -> Forall (fun b => 0 <= b < 256) (ai_data a))
    (H : update_price clk cfg k m o ring = Ok (m', o')) (Hopen : mint_frozen m' = false) :
  let now := unix_timestamp clk in
  (exists price, pyth_accepted cfg (pyth_feed_id o) (pk_pyth k) price /\
     sat_sub_i64 now (py_publish_time price) <= max_age_secs o) /\
  (exists acc feed, pk_switchboard k = Some acc /\ switchboard_accepted cfg o acc feed /\
     sat_sub_i64 now (pf_last_update_timestamp feed) <= max_age_secs o) /\
  (canonical_primary o = 0 -> exists average, twap ring now (twap_window_secs o)
     (mkTwapConfig (twap_min_samples o) (twap_max_staleness_secs o)) = Some average) /\
  (canonical_primary o <> 0 -> rate_accepted clk k m o) /\
  (canonical_primary o = 0 -> lst_stake_pool o <> 0 ->
     exists sol price a s, pk_sol_usd k = Some sol /\ pyth_accepted cfg PYTH_SOL_USD_FEED_ID sol price /\
       sat_sub_i64 now (py_publish_time price) <= max_age_secs o /\
       pk_stake_pool k = Some a /\ stake_pool_accepted m o SPL_STAKE_POOL_PROGRAM_ID clk a s).
Proof.
  intros now. apply update_price_run in H as (price & Hacc & Hres); [|done]. fold now in Hres.
  destruct Hres as [->|(rate & pv & sb & can & Hcm & Hv & Et & Hc & Hsb & Hrt & Hlst)]; [discriminate Hopen|].
  destruct (aggregate_ordered pv sb (twap ring now (twap_window_secs o)
    (mkTwapConfig (twap_min_samples o) (twap_max_staleness_secs o))) can now (oracle_config o) Hv)
    as [Hord Hmax]; [intros s Es; by apply Hsb|done|done|].
  apply commit_price_Ok in Hcm as [Hmode _]; [|done..]. specialize (Hmode Hopen).
  apply aggregate_mint in Hmode. unfold mint_allowed in Hmode. propify.
  match goal with H : view_fresh _ _ pv = true |- _ => unfold view_fresh, is_stale in H end. propify.
  split; [exists price; split; [done|]; by rewrite <- Et|]. split; [|split; [|split; [done|]]].
  - destruct sb as [s|]; [|done]. destruct (Hsb s eq_refl) as (_ & acc & feed & Ha & Hx & Ht). exists acc, feed.
    cbn in *. unfold view_fresh, is_stale in *. propify. rewrite <- Ht. auto.
  - intros Hcp. cbn in *. rewrite Hcp in *. cbn in *. destruct (twap _ _ _ _) as [a|]; [by exists a|done].
  - intros Hcp Hl. apply Hlst; [done|done|].
    match goal with Hq : negb _ || bool_decide _ = true |- _ => rename Hq into Hreq end.
    apply orb_true_iff in Hreq as [Hreq|Hreq]; propify; [|done]. cbn in Hreq.
    apply andb_false_iff in Hreq as [Hreq|Hreq]; propify; done.
Qed.

End ring.

(** ** On the concrete market *)

#[local] Existing Instance WideInt.wide_u256.
#[local] Existing Instance PlainSdk.sdk.


Lemma committed_price_sound_witness :
  spot Demo.priced.1 = 99894000000000000000000000 /\ debt_spot Demo.priced.1 = 100106000000000000000000000 /\
  exists price, pyth_accepted Demo.cfg 77 (pk_pyth Demo.price_accounts) price.
Proof.
  split; [reflexivity|]. split; [reflexivity|].
  destruct (committed_price_sound (Demo.at_time 2830) Demo.cfg Demo.price_accounts (w_market Demo.w_flooded) Demo.priced.1
    (w_oracle Demo.w_flooded) Demo.priced.2 (w_ring Demo.w_flooded)) as (price & Hp & _).
  - vm_compute. congruence.
  - vm_compute. congruence.
  - vm_compute. congruence.
  - intros a Ha. discriminate Ha.
  - exact Demo.priced_ok.
  - by exists price.
Defined.

Lemma minting_needs_every_source_witness :
  mint_frozen Demo.priced.1 = false /\
  exists average, twap (w_ring Demo.w_flooded) 2830 1800 (mkTwapConfig 10 300) = Some average.
Proof.
  split; [reflexivity|].
  destruct (minting_needs_every_source (Demo.at_time 2830) Demo.cfg Demo.price_accounts (w_market Demo.w_flooded)
    Demo.priced.1 (w_oracle Demo.w_flooded) Demo.priced.2 (w_ring Demo.w_flooded)) as (_ & _ & Ht & _).
  - vm_compute. congruence.
  - vm_compute. congruence.
  - vm_compute. congruence.
  - intros a Ha. discriminate Ha.
  - exact Demo.priced_ok.
  - reflexivity.
  - exact (Ht eq_refl).
Defined.
