(* ===== verification/StakeMath.v ===== *)
(** * Stake math ([crates/fusion-stake-math]): lifecycle, churn, reserve, preferences

    The pure decisions of the fuSOL allocation controller: the basis-point
    primitive, the reserve split, the validator lifecycle machine with its caps,
    the churn limits, the countability of a preference and the crank reward. The
    neutral allocation is in [StakeTargets]. *)

From S2P Require Import Prelude MachineInt State.

Open Scope Z_scope.

Definition sat_add8 (a b : Z) : Z := Z.min U8_MAX (a + b).

(** ** [lib.rs] *)

Abbreviation STAKE_BPS := 10000.

(** The product of two [u64]s fits [u128], so the quotient is exact before [try_from]. *)
Definition bps_of (amount bps : Z) : Z :=
  let q := amount * bps / STAKE_BPS in
  default U64_MAX (try_u64 q).

(** ** [lifecycle.rs] *)

Abbreviation LIVENESS_FAILURE_EPOCHS := 2.
Abbreviation CANDIDATE_HEALTHY_EPOCHS := 2.

Inductive ValidatorStatus := Registered | Candidate | Active | Draining | Removable.

#[export] Instance ValidatorStatus_eq_dec : EqDecision ValidatorStatus.
Proof. solve_decision. Defined.

Definition status_as_u8 (s : ValidatorStatus) : Z :=
  match s with
  | Registered => 0 | Candidate => 1 | Active => 2 | Draining => 3 | Removable => 4
  end.

Definition status_from_u8 (v : Z) : option ValidatorStatus :=
  match v with
  | 0 => Some Registered
  | 1 => Some Candidate
  | 2 => Some Active
  | 3 => Some Draining
  | 4 => Some Removable
  | _ => None
  end.

Record LifecycleInput := mkLifecycleInput {
  li_commission_ok : bool;
  li_liveness_ok : bool;
  li_consecutive_failures : Z;
  li_consecutive_healthy : Z;
  li_has_pool_stake : bool;
  li_guard_active : bool;
  li_zero_stake_and_target : bool;
  li_removal_delay_elapsed : bool;
}.

Record LifecycleOutcome := mkLifecycleOutcome {
  lo_status : ValidatorStatus;
  lo_consecutive_failures : Z;
  lo_consecutive_healthy : Z;
  lo_increases_frozen : bool;
}.

Definition advance_lifecycle (current : ValidatorStatus) (input : LifecycleInput) : LifecycleOutcome :=
  let consecutive_failures :=
    if li_liveness_ok input then 0 else sat_add8 (li_consecutive_failures input) 1 in
  let consecutive_healthy :=
    if li_liveness_ok input && li_has_pool_stake input
    then sat_add8 (li_consecutive_healthy input) 1 else 0 in
  let status :=
    match current with
    | Registered => Registered
    | Removable => Removable
    | Draining =>
        if li_zero_stake_and_target input && li_removal_delay_elapsed input
        then Removable else Draining
    | Candidate | Active =>
        if negb (li_commission_ok input) then Draining
        else if (LIVENESS_FAILURE_EPOCHS <=? consecutive_failures) && negb (li_guard_active input)
        then Draining
        else if bool_decide (current = Candidate) && (CANDIDATE_HEALTHY_EPOCHS <=? consecutive_healthy)
        then Active
        else current
    end in
  mkLifecycleOutcome status consecutive_failures consecutive_healthy (negb (li_liveness_ok input)).

Definition global_liveness_guard (healthy_delegated_lamports total_delegated_lamports : Z) : bool :=
  healthy_delegated_lamports * 2 <? total_delegated_lamports.

Definition lifecycle_cap (status : ValidatorStatus)
    (total_pool_lamports candidate_cap_bps active_cap_bps : Z) : Z :=
  match status with
  | Registered | Draining | Removable => 0
  | Candidate => bps_of total_pool_lamports candidate_cap_bps
  | Active => bps_of total_pool_lamports active_cap_bps
  end.

(** ** [reserve.rs] *)

Definition reserve_target (total_lamports reserve_min_lamports reserve_target_bps : Z) : Z :=
  Z.min total_lamports (Z.max reserve_min_lamports (bps_of total_lamports reserve_target_bps)).

Definition productive_lamports (total_lamports reserve : Z) : Z := sat_sub total_lamports reserve.

(** ** [churn.rs] *)

Definition hysteresis (total_lamports min_abs_lamports bps : Z) : Z :=
  Z.max min_abs_lamports (bps_of total_lamports bps).

Definition exceeds_hysteresis (deviation_abs threshold : Z) : bool := threshold <? deviation_abs.

Definition global_churn_budget (total_lamports global_churn_cap_bps : Z) : Z :=
  bps_of total_lamports global_churn_cap_bps.

Definition validator_move_cap (total_lamports validator_move_cap_bps : Z) : Z :=
  bps_of total_lamports validator_move_cap_bps.

Definition action_amount (deviation remaining_global_budget per_validator_move_cap
    source_capacity min_action : Z) (deviation_is_full_drain : bool) : Z :=
  let amount :=
    Z.min (Z.min (Z.min deviation remaining_global_budget) per_validator_move_cap) source_capacity in
  if (amount <? min_action) && negb deviation_is_full_drain then 0 else amount.

(** ** [rewards.rs] *)

Definition payout (task_reward epoch_budget_remaining vault_balance : Z) : Z :=
  Z.min (Z.min task_reward epoch_budget_remaining) vault_balance.

(** ** [preference.rs] *)

Record PreferenceView := mkPreferenceView {
  pv_owner : Pubkey;
  pv_observed_ink_nonce : Z;
  pv_eligible_from_epoch : Z;
  pv_last_counted_epoch : Z;
}.

Record PositionView := mkPositionView {
  ps_owner : Pubkey;
  ps_collateral_mint : Pubkey;
  ps_ink : Z;
  ps_ink_nonce : Z;
}.

Definition countable (pref : PreferenceView) (pos : PositionView)
    (fusol_mint : Pubkey) (current_epoch : Z) : bool :=
  bool_decide (ps_collateral_mint pos = fusol_mint)
  && bool_decide (ps_owner pos = pv_owner pref)
  && (ps_ink_nonce pos =? pv_observed_ink_nonce pref)
  && (pv_eligible_from_epoch pref <=? current_epoch)
  && negb (pv_last_counted_epoch pref =? current_epoch).

(** ** Facts *)

Create HintDb stake.

Lemma bps_of_spec a b : u64 a -> u64 b -> bps_of a b = Z.min U64_MAX (a * b / STAKE_BPS).
Proof.
  intros Ha Hb. unfold bps_of, try_u64.
  assert (0 <= a * b / STAKE_BPS) by (apply Z.div_pos; rlia).
  destruct (fit U64_MAX _) eqn:E; cbn.
  - apply fit_Some in E as [-> ?]. lia.
  - apply fit_None in E. lia.
Qed.

Lemma bps_of_range a b : u64 a -> u64 b -> u64 (bps_of a b).
Proof.
  intros Ha Hb. rewrite bps_of_spec by done.
  assert (0 <= a * b / STAKE_BPS) by (apply Z.div_pos; rlia). rlia.
Qed.

Lemma bps_of_le a b : u64 a -> 0 <= b <= STAKE_BPS -> bps_of a b <= a.
Proof.
  intros Ha Hb. rewrite bps_of_spec by rlia.
  assert (a * b / STAKE_BPS <= a) by (apply Z.div_le_upper_bound; [lia | range_unfold; nia]). lia.
Qed.

Lemma bps_of_mono a a' b : u64 a -> u64 a' -> u64 b -> a <= a' -> bps_of a b <= bps_of a' b.
Proof.
  intros. rewrite !bps_of_spec by done.
  assert (a * b / STAKE_BPS <= a' * b / STAKE_BPS) by (apply Z.div_le_mono; [lia | range_unfold; nia]). lia.
Qed.

#[export] Hint Resolve bps_of_range : stake.

(** The status byte: what is stored reads back, and nothing else reads. *)
Lemma status_from_as s : status_from_u8 (status_as_u8 s) = Some s.
Proof. by destruct s. Qed.

Lemma status_from_Some v s : status_from_u8 v = Some s -> v = status_as_u8 s.
Proof.
  unfold status_from_u8, status_as_u8.
  intros H. repeat case_match; by simplify_eq.
Qed.

Lemma status_as_u8_range s : u8 (status_as_u8 s).
Proof. destruct s; cbn; rlia. Qed.

Lemma lifecycle_cap_range s t c a : u64 t -> u64 c -> u64 a -> u64 (lifecycle_cap s t c a).
Proof. destruct s; cbn; auto using bps_of_range; rlia. Qed.

(** The reserve and the productive part split the pool. *)
Lemma reserve_split total rmin bps : u64 total -> u64 rmin -> u64 bps ->
  0 <= reserve_target total rmin bps <= total /\
  reserve_target total rmin bps + productive_lamports total (reserve_target total rmin bps) = total.
Proof.
  intros. pose proof (bps_of_range total bps ltac:(done) ltac:(done)).
  unfold productive_lamports, reserve_target in *. rlia.
Qed.

Lemma action_amount_bounds dev budget cap src floor full : 0 <= dev -> 0 <= budget -> 0 <= cap -> 0 <= src ->
  let a := action_amount dev budget cap src floor full in
  0 <= a <= dev /\ a <= budget /\ a <= cap /\ a <= src /\ (a = 0 \/ floor <= a \/ full = true).
Proof.
  intros ????. unfold action_amount. cbv zeta.
  destruct full; cbn; rewrite ?andb_false_r, ?andb_true_r; [lia|].
  destruct (_ <? floor) eqn:E; lia.
Qed.

(** ** A validator's history

    What one completed epoch observes, and the status and streak counters after a
    history of epochs (the latest first) since the admission as a candidate. *)

Record EpochObs := mkEpochObs {
  eo_commission_ok : bool;
  eo_liveness_ok : bool;
  eo_has_pool_stake : bool;
  eo_guard_active : bool;
  eo_zero_stake_and_target : bool;
  eo_removal_delay_elapsed : bool;
}.

Definition obs_input (o : EpochObs) (failures healthy : Z) : LifecycleInput :=
  mkLifecycleInput (eo_commission_ok o) (eo_liveness_ok o) failures healthy (eo_has_pool_stake o)
    (eo_guard_active o) (eo_zero_stake_and_target o) (eo_removal_delay_elapsed o).

Fixpoint lifecycle_after (history : list EpochObs) : LifecycleOutcome :=
  match history with
  | [] => mkLifecycleOutcome Candidate 0 0 false
  | o :: past =>
      let before := lifecycle_after past in
      advance_lifecycle (lo_status before)
        (obs_input o (lo_consecutive_failures before) (lo_consecutive_healthy before))
  end.

Definition failed (o : EpochObs) : bool := negb (eo_liveness_ok o).
Definition healthy (o : EpochObs) : bool := eo_liveness_ok o && eo_has_pool_stake o.

(** The length of the streak the history ends with. *)
Fixpoint streak (P : EpochObs -> bool) (history : list EpochObs) : Z :=
  match history with
  | [] => 0
  | o :: past => if P o then 1 + streak P past else 0
  end.

(** Some point of the history (an epoch with the epochs before it) satisfies [P]. *)
Definition at_some_epoch (P : EpochObs -> list EpochObs -> Prop) (history : list EpochObs) : Prop :=
  exists later o past, history = later ++ o :: past /\ P o past.

Lemma at_some_now P o past : P o past -> at_some_epoch P (o :: past).
Proof. intros. by exists [], o, past. Qed.

Lemma at_some_later P o past : at_some_epoch P past -> at_some_epoch P (o :: past).
Proof. intros (l & o' & p & -> & ?). by exists (o :: l), o', p. Qed.

#[export] Hint Resolve at_some_now at_some_later : stake.

Lemma streak_nonneg P h : 0 <= streak P h.
Proof. induction h as [|o h IH]; cbn; [lia|]. destruct (P o); lia. Qed.

Lemma counters_are_streaks h :
  lo_consecutive_failures (lifecycle_after h) = Z.min U8_MAX (streak failed h) /\
  lo_consecutive_healthy (lifecycle_after h) = Z.min U8_MAX (streak healthy h).
Proof.
  induction h as [|o h [IHf IHh]]; [done|]. cbn [lifecycle_after streak].
  unfold advance_lifecycle, failed at 1, healthy at 1, sat_add8.
  cbn [lo_consecutive_failures lo_consecutive_healthy obs_input li_liveness_ok li_has_pool_stake
       li_consecutive_failures li_consecutive_healthy].
  rewrite IHf, IHh. pose proof (streak_nonneg failed h). pose proof (streak_nonneg healthy h).
  destruct (eo_liveness_ok o), (eo_has_pool_stake o); cbn [andb negb]; lia.
Qed.

(** Why a validator may be promoted, and why it may be drained. *)
Definition earned (o : EpochObs) (past : list EpochObs) : Prop :=
  eo_commission_ok o = true /\ CANDIDATE_HEALTHY_EPOCHS <= streak healthy (o :: past).
Definition breached (o : EpochObs) (past : list EpochObs) : Prop :=
  eo_commission_ok o = false.
Definition dead (o : EpochObs) (past : list EpochObs) : Prop :=
  LIVENESS_FAILURE_EPOCHS <= streak failed (o :: past) /\ eo_guard_active o = false.

Definition leaving (s : ValidatorStatus) : Prop := s = Draining \/ s = Removable.

(** The status one epoch later, from the streaks of the whole history. *)
Lemma status_step o h :
  lo_status (lifecycle_after (o :: h)) =
  match lo_status (lifecycle_after h) with
  | Registered => Registered
  | Removable => Removable
  | Draining => if eo_zero_stake_and_target o && eo_removal_delay_elapsed o then Removable else Draining
  | s => if negb (eo_commission_ok o) then Draining
         else if (2 <=? streak failed (o :: h)) && negb (eo_guard_active o) then Draining
         else if bool_decide (s = Candidate) && (2 <=? streak healthy (o :: h)) then Active else s
  end.
Proof.
  pose proof (counters_are_streaks (o :: h)) as [Hf Hh].
  cbn [lifecycle_after] in *.
  assert (forall z, (2 <=? Z.min U8_MAX z) = (2 <=? z)) as E
    by (intros z; destruct (Z.leb_spec 2 z), (Z.leb_spec 2 (Z.min U8_MAX z)); lia).
  rewrite <- (E (streak failed _)), <- (E (streak healthy _)), <- Hf, <- Hh.
  by destruct (lo_status (lifecycle_after h)).
Qed.

Lemma status_justified h :
  match lo_status (lifecycle_after h) with
  | Registered => False
  | Candidate => True
  | Active => at_some_epoch earned h
  | Draining | Removable => at_some_epoch breached h \/ at_some_epoch dead h
  end.
Proof.
  induction h as [|o h IH]; [done|]. rewrite status_step.
  destruct (lo_status (lifecycle_after h)) eqn:Es; try done.
  3: destruct (_ && _); destruct IH; eauto with stake.
  3: destruct IH; eauto with stake.
  all: destruct (eo_commission_ok o) eqn:Eo; cbn [negb]; [|left; by apply at_some_now].
  all: destruct (_ && _) eqn:Ed;
    [right; apply at_some_now; apply andb_true_iff in Ed as [? ?]; split; [lia | by destruct (eo_guard_active o)]|].
  all: destruct (bool_decide _ && _) eqn:Ep; auto with stake.
  all: apply at_some_now; apply andb_true_iff in Ep as [? ?]; split; [done | lia].
Qed.

(** Draining is one-way: whatever is observed, a validator on its way out never
    carries new stake again. *)
Lemma leaving_stays o h : leaving (lo_status (lifecycle_after h)) ->
  leaving (lo_status (lifecycle_after (o :: h))).
Proof.
  unfold leaving. rewrite status_step. intros [-> | ->]; [destruct (_ && _)|]; auto.
Qed.

Lemma breach_drains o h : eo_commission_ok o = false -> leaving (lo_status (lifecycle_after (o :: h))).
Proof.
  intros E. pose proof (status_justified h) as J. unfold leaving. rewrite status_step, E. cbn [negb].
  destruct (lo_status (lifecycle_after h)); [done | auto | auto | destruct (_ && _); auto | auto].
Qed.

(** C35: A validator's status after any history of epochs since its admission is
    justified by that history, and only by it. It is active only if at some epoch
    its commission was within the cap and it ended a streak of two healthy epochs
    carrying pool stake. It is draining or removable only if at some epoch its
    commission breached the cap, or it had failed two epochs in a row while the
    global liveness guard was off. Conversely one commission breach puts it on its way out in
    that same epoch, guard or not, and it stays there whatever comes later. *)
Theorem lifecycle_is_justified (h : list EpochObs) :
  (lo_status (lifecycle_after h) = Active -> at_some_epoch earned h) /\
  (leaving (lo_status (lifecycle_after h)) -> at_some_epoch breached h \/ at_some_epoch dead h) /\
  (at_some_epoch breached h -> leaving (lo_status (lifecycle_after h))).
Proof.
  pose proof (status_justified h) as J. split; [|split].
  - intros E. by rewrite E in J.
  - intros [E|E]; by rewrite E in J.
  - intros (later & o & past & -> & Hb). clear J.
    induction later as [|o' later IH]; cbn [app]; [by apply breach_drains | by apply leaving_stays].
Qed.
