(* ===== verification/StakeTargets.v ===== *)
(** * Epoch target allocation ([crates/fusion-stake-math/src/targets.rs])

    The directed floors and the neutral pool, the fold [begin_round] / [step] of
    one capacity round, and the reference driver [distribute_neutral]. The
    theorems: a round hands out what it was given unless it saturates someone, so
    the rounds terminate; what is handed out and the shortfall are exactly the
    neutral pool; nobody passes its cap; and the distribution is equal up to one
    lamport per round. *)

From S2P Require Import Prelude MachineInt State StakeMath.

Open Scope Z_scope.

Abbreviation MAX_VALIDATORS := 1024.
Abbreviation MAX_NEUTRAL_ROUNDS := MAX_VALIDATORS.

Definition directed_target (productive directed_shares supply lifecycle_cap : Z) : Z :=
  if supply =? 0 then 0
  else
    let raw := productive * directed_shares / supply in
    Z.min (default U64_MAX (try_u64 raw)) lifecycle_cap.

Definition neutral_total (productive sum_directed_targets total_directed_shares supply : Z) : option Z :=
  if supply <? total_directed_shares then None
  else checked_sub64 productive sum_directed_targets.

Definition neutral_capacity (status : ValidatorStatus) (lifecycle_cap current_target : Z) : Z :=
  match status with
  | Active => sat_sub lifecycle_cap current_target
  | _ => 0
  end.

Definition rotation_start (epoch n : Z) : Z := if n =? 0 then 0 else epoch mod n.

Record NeutralRound := mkNeutralRound {
  nr_remaining : Z;
  nr_n_unsaturated : Z;
  nr_tranche : Z;
  nr_remainder : Z;
  nr_start : Z;
  nr_steps : Z;
  nr_remainder_used : Z;
  nr_granted : Z;
  nr_saturated : Z;
}.

#[export] Instance NeutralRound_fields : Fields NeutralRound := fun r =>
  mkNeutralRound (nr_remaining r) (nr_n_unsaturated r) (nr_tranche r) (nr_remainder r) (nr_start r)
    (nr_steps r) (nr_remainder_used r) (nr_granted r) (nr_saturated r).

Definition is_complete (r : NeutralRound) : bool := nr_n_unsaturated r <=? nr_steps r.

Definition remaining_after (r : NeutralRound) : Z := sat_sub (nr_remaining r) (nr_granted r).

Definition begin_round (remaining n_unsaturated epoch : Z) : option NeutralRound :=
  if (remaining =? 0) || (n_unsaturated =? 0) then None
  else Some {|
    nr_remaining := remaining;
    nr_n_unsaturated := n_unsaturated;
    nr_tranche := remaining / n_unsaturated;
    nr_remainder := remaining mod n_unsaturated;
    nr_start := rotation_start epoch n_unsaturated;
    nr_steps := 0;
    nr_remainder_used := 0;
    nr_granted := 0;
    nr_saturated := 0;
  |}.

(** The rotated position is computed in [u128], where nothing wraps. *)
Definition step (state : NeutralRound) (validator_remaining_capacity : Z) : NeutralRound * Z :=
  if is_complete state then (state, 0)
  else
    let n := nr_n_unsaturated state in
    let rotated := (nr_steps state + n - nr_start state) mod n in
    let in_window := rotated <? nr_remainder state in
    let base := sat_add64 (nr_tranche state) (if in_window then 1 else 0) in
    let grant := Z.min base validator_remaining_capacity in
    let state := state <| nr_steps := sat_add64 (nr_steps state) 1 |> in
    let state :=
      if in_window then state <| nr_remainder_used := sat_add64 (nr_remainder_used state) 1 |> else state in
    let state := state <| nr_granted := sat_add64 (nr_granted state) grant |> in
    let state :=
      if grant =? validator_remaining_capacity
      then state <| nr_saturated := sat_add64 (nr_saturated state) 1 |> else state in
    (state, grant).

Record NeutralOutcome := mkNeutralOutcome {
  no_rounds : Z;
  no_shortfall : Z;
}.

(** A validator's remaining capacity and its target, zipped as the driver's loop
    walks them. *)
Abbreviation Slot := (Z * Z)%type.

Definition unsaturated (slots : list Slot) : Z := Z.of_nat (length (filter (fun s => 0 < s.1) slots)).

(** One canonical pass. *)
Fixpoint walk_round (round : NeutralRound) (slots : list Slot) : NeutralRound * list Slot :=
  match slots with
  | [] => (round, [])
  | (capacity, target) :: rest =>
      if capacity =? 0 then
        let '(round, rest) := walk_round round rest in (round, (capacity, target) :: rest)
      else
        let '(round, grant) := step round capacity in
        let '(round, rest) := walk_round round rest in
        (round, (sat_sub capacity grant, sat_add64 target grant) :: rest)
  end.

(** The driver's loop; [None] when the fuel runs out, which it never does. *)
Fixpoint distribute_loop (fuel : nat) (epoch remaining rounds : Z) (slots : list Slot)
    : option (NeutralOutcome * list Slot) :=
  match fuel with
  | O => None
  | S fuel =>
      match begin_round remaining (unsaturated slots) epoch with
      | None => Some (mkNeutralOutcome rounds remaining, slots)
      | Some round =>
          let '(round, slots) := walk_round round slots in
          distribute_loop fuel epoch (remaining_after round) (sat_add64 rounds 1) slots
      end
  end.

(** The outcome with the capacities and the targets; [None] is the panic on
    slices of different lengths. *)
Definition distribute_neutral (neutral epoch : Z) (remaining_capacity targets : list Z)
    : option (NeutralOutcome * list Z * list Z) :=
  if bool_decide (length remaining_capacity = length targets) then
    '(out, slots) ← distribute_loop (S (length targets)) epoch neutral 0 (zip remaining_capacity targets);
    Some (out, slots.*1, slots.*2)
  else None.

(** ** One round *)

(** How many of the first [k] ordinals lie in the rotated remainder window. *)
Definition window (n start m k : Z) : Z :=
  Z.min (Z.min k start) (Z.max 0 (m - (n - start))) + Z.min (Z.max 0 (k - start)) m.

Lemma window_succ n start m k : 0 <= start < n -> 0 <= m < n -> 0 <= k < n ->
  window n start m (k + 1) = window n start m k + (if (k + n - start) mod n <? m then 1 else 0).
Proof.
  intros. assert ((k + n - start) mod n = if k <? start then k + n - start else k - start) as ->.
  { destruct (Z.ltb_spec k start); [by apply Z.mod_small; lia|].
    replace (k + n - start) with (k - start + 1 * n) by lia.
    rewrite Z.mod_add by lia. apply Z.mod_small. lia. }
  unfold window. destruct (Z.ltb_spec k start), (Z.ltb_spec (k + n - start) m), (Z.ltb_spec (k - start) m); lia.
Qed.

Lemma window_full n start m : 0 <= start < n -> 0 <= m < n -> window n start m n = m.
Proof. unfold window. lia. Qed.

Lemma window_bounds n start m k : 0 <= start < n -> 0 <= m < n -> 0 <= k <= n ->
  0 <= window n start m k <= m /\ window n start m k <= k.
Proof. unfold window. lia. Qed.

(** A round in progress: what has been granted is what the stepped ordinals were
    due, unless somebody was saturated. *)
Record wf_round (r : NeutralRound) : Prop := {
  wr_remaining : u64 (nr_remaining r);
  wr_n : 0 < nr_n_unsaturated r <= U64_MAX;
  wr_tranche : nr_tranche r = nr_remaining r / nr_n_unsaturated r;
  wr_remainder : nr_remainder r = nr_remaining r mod nr_n_unsaturated r;
  wr_start : 0 <= nr_start r < nr_n_unsaturated r;
  wr_steps : 0 <= nr_steps r <= nr_n_unsaturated r;
  wr_used : nr_remainder_used r =
    window (nr_n_unsaturated r) (nr_start r) (nr_remainder r) (nr_steps r);
  wr_granted : 0 <= nr_granted r <= nr_tranche r * nr_steps r + nr_remainder_used r;
  wr_saturated : 0 <= nr_saturated r <= nr_steps r;
  wr_exact : nr_saturated r = 0 ->
    nr_granted r = nr_tranche r * nr_steps r + nr_remainder_used r;
}.

(** The parts of a round that its steps leave alone. *)
Definition same_round (r r' : NeutralRound) : Prop :=
  nr_remaining r' = nr_remaining r /\ nr_n_unsaturated r' = nr_n_unsaturated r /\
  nr_tranche r' = nr_tranche r /\ nr_remainder r' = nr_remainder r /\ nr_start r' = nr_start r.

#[export] Instance same_round_preorder : PreOrder same_round.
Proof. split; unfold same_round; [intros ?; tauto | intros ???; intuition congruence]. Qed.

Lemma begin_round_wf remaining n epoch r : u64 remaining -> 0 <= n <= U64_MAX -> 0 <= epoch ->
  begin_round remaining n epoch = Some r ->
  wf_round r /\ nr_remaining r = remaining /\ nr_n_unsaturated r = n /\ nr_steps r = 0 /\
  nr_granted r = 0 /\ nr_saturated r = 0 /\ 0 < remaining /\ 0 < n.
Proof.
  intros Hr Hn He. unfold begin_round. destruct (_ || _) eqn:E; [done|]. intros [= <-].
  propify. assert (0 < n) by lia. cbn. split_and!; try done; try rlia.
  assert (0 <= rotation_start epoch n < n).
  { unfold rotation_start. destruct (Z.eqb_spec n 0); [lia|]. apply Z.mod_pos_bound. lia. }
  pose proof (Z.mod_pos_bound remaining n ltac:(lia)).
  assert (window n (rotation_start epoch n) (remaining mod n) 0 = 0) as Hw by (unfold window; lia).
  split; cbn; rewrite ?Hw; try done; try rlia.
Qed.

Lemma round_due r k : wf_round r -> 0 <= k <= nr_n_unsaturated r ->
  nr_tranche r * k + window (nr_n_unsaturated r) (nr_start r) (nr_remainder r) k <= nr_remaining r.
Proof.
  intros [Hr Hn Hq Hm Hs _ _ _ _ _] Hk.
  pose proof (Z.div_mod (nr_remaining r) (nr_n_unsaturated r) ltac:(lia)) as Hdm.
  pose proof (Z.mod_pos_bound (nr_remaining r) (nr_n_unsaturated r) ltac:(lia)).
  rewrite <- Hq, <- Hm in *.
  assert (0 <= nr_tranche r) by (rewrite Hq; apply Z.div_pos; rlia).
  assert (nr_tranche r * k <= nr_tranche r * nr_n_unsaturated r) by (apply Z.mul_le_mono_nonneg_l; lia).
  pose proof (window_bounds (nr_n_unsaturated r) (nr_start r) (nr_remainder r) k). lia.
Qed.

Lemma tranche_nonneg r : wf_round r -> 0 <= nr_tranche r.
Proof. intros []. rewrite wr_tranche0. apply Z.div_pos; rlia. Qed.

Lemma remainder_bounds r : wf_round r -> 0 <= nr_remainder r < nr_n_unsaturated r.
Proof. intros []. rewrite wr_remainder0. apply Z.mod_pos_bound. lia. Qed.

(** A step of an incomplete round, with the saturating operations made exact. *)
Lemma step_exact r c : wf_round r -> nr_steps r < nr_n_unsaturated r -> 0 < c <= U64_MAX ->
  let b := if (nr_steps r + nr_n_unsaturated r - nr_start r) mod nr_n_unsaturated r <? nr_remainder r
           then 1 else 0 in
  let g := Z.min (nr_tranche r + b) c in
  step r c = (mkNeutralRound (nr_remaining r) (nr_n_unsaturated r) (nr_tranche r) (nr_remainder r)
    (nr_start r) (nr_steps r + 1) (nr_remainder_used r + b) (nr_granted r + g)
    (nr_saturated r + if g =? c then 1 else 0), g).
Proof.
  intros Hwf Hk Hc. cbv zeta. pose proof Hwf as [Hr Hn _ _ Hs Hst Hu Hg Hsat _].
  pose proof (tranche_nonneg r Hwf) as Hq. pose proof (remainder_bounds r Hwf) as Hm.
  pose proof (window_succ _ _ _ (nr_steps r) Hs Hm ltac:(lia)) as Hw.
  pose proof (round_due r (nr_steps r + 1) Hwf ltac:(lia)) as Hdue.
  pose proof (window_bounds _ _ _ (nr_steps r) Hs Hm ltac:(lia)) as Hb.
  rewrite Hw, Z.mul_add_distr_l, Z.mul_1_r, <- Hu in Hdue. rewrite <- Hu in Hb.
  unfold step, is_complete. destruct (Z.leb_spec (nr_n_unsaturated r) (nr_steps r)); [lia|].
  cbv zeta. destruct (_ <? nr_remainder r); cbn;
  rewrite !(fun a b H => Z.min_r U64_MAX (a + b) H : sat_add64 a b = a + b)
    by (pose proof (Z.mul_nonneg_nonneg (nr_tranche r) (nr_steps r)); rlia);
  destruct (_ =? c); cbn; rewrite ?Z.add_0_r; try done;
  rewrite !(fun a b H => Z.min_r U64_MAX (a + b) H : sat_add64 a b = a + b) by rlia; done.
Qed.

(** What one step does: the round stays well formed, and the grant is the
    ordinal's due cut to the validator's capacity. *)
Lemma step_spec r c r' g : wf_round r -> nr_steps r < nr_n_unsaturated r -> 0 < c <= U64_MAX ->
  step r c = (r', g) ->
  wf_round r' /\ same_round r r' /\ nr_steps r' = nr_steps r + 1 /\ 0 <= g <= c /\
  nr_granted r' = nr_granted r + g /\ nr_saturated r' = nr_saturated r + (if g =? c then 1 else 0) /\
  (g = c \/ nr_tranche r <= g) /\ g <= nr_tranche r + 1.
Proof.
  intros Hwf Hk Hc. rewrite (step_exact r c Hwf Hk Hc). intros [= <- <-].
  pose proof (tranche_nonneg r Hwf) as Hq. pose proof (remainder_bounds r Hwf) as Hm.
  destruct Hwf as [Hr Hn Hqe Hme Hs Hst Hu Hg Hsat Hex].
  pose proof (window_succ _ _ _ (nr_steps r) Hs Hm ltac:(lia)) as Hw.
  set (b := if _ <? nr_remainder r then 1 else 0) in *.
  assert (0 <= b <= 1) by (subst b; destruct (_ <? _); lia). clearbody b.
  split; [|cbn; split_and!; try done; lia].
  split; cbn; try done; try lia.
  - destruct (_ =? c); lia.
  - rewrite Z.mul_add_distr_l. destruct (Z.eqb_spec (Z.min (nr_tranche r + b) c) c); lia.
Qed.

(** ** One pass *)

Definition slot_ok (s : Slot) : Prop := 0 <= s.1 /\ 0 <= s.2 /\ s.1 + s.2 <= U64_MAX.

(** A slot after grants: capacity moved into the target, and nothing else. *)
Definition granted_from (s s' : Slot) : Prop := s'.1 + s'.2 = s.1 + s.2 /\ 0 <= s'.1 <= s.1.

Definition total_target (slots : list Slot) : Z := foldr (fun s a => s.2 + a) 0 slots.

#[export] Instance granted_from_preorder_trans : Transitive granted_from.
Proof. intros s1 s2 s3. unfold granted_from. lia. Qed.

Lemma unsaturated_cons c t rest : unsaturated ((c, t) :: rest) =
  (if bool_decide (0 < c) then 1 else 0) + unsaturated rest.
Proof.
  unfold unsaturated. rewrite filter_cons. cbn [fst].
  case_bool_decide; case_decide; try done; cbn [length]; lia.
Qed.

Lemma total_target_cons s rest : total_target (s :: rest) = s.2 + total_target rest.
Proof. done. Qed.

Lemma unsaturated_nonneg slots : 0 <= unsaturated slots.
Proof. unfold unsaturated. lia. Qed.

Lemma unsaturated_le_length slots : unsaturated slots <= Z.of_nat (length slots).
Proof. unfold unsaturated. pose proof (length_filter (fun s : Slot => 0 < s.1) slots). lia. Qed.

(** In a pass, a slot that stays unsaturated got at least the tranche, and nobody
    got more than one lamport above it. *)
Definition fair_pass (q : Z) (s s' : Slot) : Prop :=
  s'.2 - s.2 <= q + 1 /\ (0 < s'.1 -> q <= s'.2 - s.2).

Lemma walk_round_spec slots : forall r r' slots',
  wf_round r -> Forall slot_ok slots -> nr_steps r + unsaturated slots <= nr_n_unsaturated r ->
  walk_round r slots = (r', slots') ->
  wf_round r' /\ same_round r r' /\ nr_steps r' = nr_steps r + unsaturated slots /\
  Forall2 granted_from slots slots' /\ Forall2 (fair_pass (nr_tranche r)) slots slots' /\
  nr_granted r' = nr_granted r + (total_target slots' - total_target slots) /\
  nr_saturated r' = nr_saturated r + (unsaturated slots - unsaturated slots').
Proof.
  induction slots as [|[c t] rest IH]; intros r r' slots' Hwf Hok Hn H.
  - cbn in H. injection H as <- <-. cbn. split_and!; try done; unfold unsaturated; cbn; lia.
  - apply Forall_cons in Hok as [(Hc & Ht & Hct) Hok]. cbn in Hc, Ht, Hct.
    rewrite unsaturated_cons in *. pose proof (unsaturated_nonneg rest) as Hun.
    cbn [walk_round] in H. destruct (Z.eqb_spec c 0) as [-> | Hc0].
    + destruct (walk_round r rest) as [r1 rest1] eqn:E. injection H as <- <-.
      rewrite bool_decide_false in * by lia.
      apply IH in E as (W & S & K & G & F & A & B); [|done|done|lia].
      rewrite unsaturated_cons, bool_decide_false by lia. cbn -[unsaturated total_target]. rewrite !total_target_cons. cbn [snd]. split_and!; try done; try lia.
      * constructor; [|done]. split; cbn; lia.
      * constructor; [|done]. pose proof (tranche_nonneg r Hwf). split; cbn; lia.
    + rewrite bool_decide_true in * by lia.
      destruct (step r c) as [r1 g] eqn:Es. destruct (walk_round r1 rest) as [r2 rest1] eqn:E.
      injection H as <- <-. apply step_spec in Es as (W1 & S1 & K1 & Hg & A1 & B1 & Lo & Hi); [|done|lia|lia].
      apply IH in E as (W & S & K & G & F & A & B); [|done|done|destruct S1 as (? & ? & ?); lia].
      replace (sat_add64 t g) with (t + g) by rlia. replace (sat_sub c g) with (c - g) by rlia.
      pose proof (tranche_nonneg r Hwf).
      destruct S1 as (? & ? & Et & ? & ?). rewrite Et in F.
      rewrite unsaturated_cons. cbn -[unsaturated total_target]. rewrite !total_target_cons. cbn [snd]. split_and!; try done; try lia.
      * destruct S as (? & ? & ? & ? & ?). repeat split; congruence.
      * constructor; [|done]. split; cbn; lia.
      * constructor; [|done]. split; cbn; lia.
      * rewrite B, B1. destruct (Z.eqb_spec g c), (bool_decide_reflect (0 < c - g)); lia.
Qed.

(** ** The whole distribution *)

Lemma granted_from_ok s s' : slot_ok s -> granted_from s s' -> slot_ok s'.
Proof. unfold slot_ok, granted_from. lia. Qed.

Lemma granted_slots_ok slots slots' : Forall slot_ok slots -> Forall2 granted_from slots slots' ->
  Forall slot_ok slots'.
Proof.
  intros Hok HG. revert Hok. induction HG; [done|]. rewrite !Forall_cons.
  intros [? ?]. eauto using granted_from_ok.
Qed.

(** Whoever ends with capacity left is at most [k] lamports behind anybody. *)
Definition fair_run (k : Z) (slots slots' : list Slot) : Prop :=
  forall i j si si' sj sj', slots !! i = Some si -> slots' !! i = Some si' ->
  slots !! j = Some sj -> slots' !! j = Some sj' -> 0 < sj'.1 ->
  si'.2 - si.2 <= sj'.2 - sj.2 + k.

Lemma fair_run_refl slots : fair_run 0 slots slots.
Proof. intros i j si si' sj sj' ?????. simplify_eq. lia. Qed.

Lemma fair_run_pass q slots slots' : Forall2 (fair_pass q) slots slots' -> fair_run 1 slots slots'.
Proof.
  intros HF i j si si' sj sj' Hi Hi' Hj Hj' Hp.
  pose proof (Forall2_lookup_lr _ _ _ _ _ _ HF Hi Hi') as [? _].
  pose proof (Forall2_lookup_lr _ _ _ _ _ _ HF Hj Hj') as [_ ?]. lia.
Qed.

Lemma fair_run_trans k k' s1 s2 s3 : fair_run k s1 s2 -> Forall2 granted_from s2 s3 ->
  fair_run k' s2 s3 -> length s1 = length s2 -> fair_run (k + k') s1 s3.
Proof.
  intros H1 HG H2 Hl i j si si' sj sj' Hi Hi' Hj Hj' Hp.
  destruct (lookup_lt_is_Some_2 s2 i) as [mi Hmi]; [rewrite <- Hl; by eapply lookup_lt_Some|].
  destruct (lookup_lt_is_Some_2 s2 j) as [mj Hmj]; [rewrite <- Hl; by eapply lookup_lt_Some|].
  pose proof (Forall2_lookup_lr _ _ _ _ _ _ HG Hmj Hj') as [_ ?].
  specialize (H1 i j _ _ _ _ Hi Hmi Hj Hmj ltac:(lia)).
  specialize (H2 i j _ _ _ _ Hmi Hi' Hmj Hj' ltac:(lia)). lia.
Qed.

Lemma no_capacity slots : Forall slot_ok slots -> unsaturated slots = 0 -> Forall (fun s => s.1 = 0) slots.
Proof.
  induction slots as [|[c t] rest IH]; [done|]. rewrite unsaturated_cons, !Forall_cons.
  pose proof (unsaturated_nonneg rest). intros [(? & ?) ?]. cbn in *.
  case_bool_decide; [lia|]. split; [lia | apply IH; [done | lia]].
Qed.

Lemma granted_refl slots : Forall slot_ok slots -> Forall2 granted_from slots slots.
Proof. induction 1 as [|s rest Hs _ IH]; constructor; [|done]. unfold slot_ok in Hs. split; lia. Qed.

(** A complete round either hands out everything or saturates somebody. *)
Lemma round_progress r : wf_round r -> nr_steps r = nr_n_unsaturated r ->
  0 <= nr_granted r <= nr_remaining r /\
  (nr_saturated r = 0 -> remaining_after r = 0).
Proof.
  intros Hwf Hk. pose proof Hwf as [].
  pose proof (remainder_bounds r Hwf). pose proof (round_due r (nr_steps r) Hwf ltac:(lia)).
  split; [lia|]. intros E. specialize (wr_exact0 E). unfold remaining_after, sat_sub.
  rewrite wr_exact0, wr_used0, Hk, window_full by lia.
  rewrite wr_tranche0, wr_remainder0.
  pose proof (Z.div_mod (nr_remaining r) (nr_n_unsaturated r) ltac:(lia)). lia.
Qed.

Record distributed (remaining rounds : Z) (slots slots' : list Slot) (out : NeutralOutcome) : Prop := {
  di_granted : Forall2 granted_from slots slots';
  di_total : total_target slots' + no_shortfall out = total_target slots + remaining;
  di_shortfall : 0 <= no_shortfall out;
  di_full : 0 < no_shortfall out -> Forall (fun s => s.1 = 0) slots';
  di_rounds : rounds <= no_rounds out <= rounds + unsaturated slots;
  di_fair : fair_run (no_rounds out - rounds) slots slots';
}.

Lemma distribute_loop_spec fuel : forall epoch remaining rounds slots,
  0 <= epoch -> u64 remaining -> Forall slot_ok slots -> Z.of_nat (length slots) <= U64_MAX ->
  unsaturated slots < Z.of_nat fuel -> 0 <= rounds -> rounds + unsaturated slots <= U64_MAX ->
  exists out slots', distribute_loop fuel epoch remaining rounds slots = Some (out, slots') /\
    distributed remaining rounds slots slots' out.
Proof.
  induction fuel as [|fuel IH]; intros epoch remaining rounds slots He Hr Hok Hl Hf Hr0 Hro;
    pose proof (unsaturated_nonneg slots) as Hu0; [lia|].
  pose proof (unsaturated_le_length slots) as Hul.
  cbn [distribute_loop]. destruct (begin_round remaining _ epoch) as [r|] eqn:Eb.
  - apply begin_round_wf in Eb as (W & Er & En & Ek & Eg & Es & Hrem & Hn); [|done|lia|done].
    destruct (walk_round r slots) as [r' slots1] eqn:Ew.
    apply walk_round_spec in Ew as (W' & (Sr & Sn & _) & K & G & F & A & B); [|done|done|lia].
    pose proof (Forall2_length _ _ _ G) as Hlen.
    destruct (round_progress r' W' ltac:(lia)) as [P1 P2].
    assert (remaining_after r' = remaining - nr_granted r') as Era by (unfold remaining_after, sat_sub; lia).
    pose proof (unsaturated_nonneg slots1) as Hu1. pose proof W' as [].
    replace (sat_add64 rounds 1) with (rounds + 1) by rlia.
    assert (fuel = S (pred fuel) \/ fuel = O) as Hfuel by lia.
    destruct (Z.eqb_spec (nr_saturated r') 0) as [E0|E0].
    + (* the last round: everything was handed out *)
      rewrite P2 by done. specialize (P2 E0). destruct Hfuel as [-> | ->]; [|lia].
      cbn [distribute_loop]. unfold begin_round. cbn. eexists _, slots1. split; [done|].
      split; cbn; [done|lia|lia|lia|lia|].
      replace (rounds + 1 - rounds) with 1 by lia. by eapply fair_run_pass.
    + destruct (IH epoch (remaining_after r') (rounds + 1) slots1) as (out & slots2 & E & D).
      1-7: try done; try rlia. { by eapply granted_slots_ok. }
      exists out, slots2. split; [done|]. destruct D as [D1 D2 D3 D4 D5 D6]. split; try done.
      * eapply transitivity; [apply G | apply D1].
      * lia.
      * lia.
      * replace (no_rounds out - rounds) with (1 + (no_rounds out - (rounds + 1))) by lia.
        eapply fair_run_trans; [by eapply fair_run_pass | done | done | done].
  - exists (mkNeutralOutcome rounds remaining), slots. split; [done|].
    unfold begin_round in Eb. destruct (_ || _) eqn:E; [|done]. apply orb_true_iff in E.
    split; cbn; [by apply granted_refl | lia | rlia | | lia |].
    + intros. apply no_capacity; [done|]. destruct E; lia.
    + replace (rounds - rounds) with 0 by lia. apply fair_run_refl.
Qed.

Lemma total_target_zip caps targets : length caps = length targets ->
  total_target (zip caps targets) = foldr Z.add 0 targets.
Proof.
  revert caps. induction targets as [|t ts IH]; intros [|c cs] H; try done. cbn in *.
  rewrite <- (IH cs) by lia. done.
Qed.

Lemma zip_fst_snd (slots : list Slot) : zip slots.*1 slots.*2 = slots.
Proof. induction slots as [|[c t] rest IH]; cbn; [done | by f_equal]. Qed.

(** C36: The neutral distribution terminates, and what it computes is the fair
    capacity-bounded split. For every pool of lamports, every epoch and every
    validator set whose capacities were derived as cap minus target, the driver
    returns within one round per validator with capacity; the grants and the recorded
    shortfall add up to exactly the pool; every grant moves capacity into the
    target, so no validator passes its cap; a shortfall is left only when nobody has
    capacity left; and a validator that ends unsaturated received at least what
    anybody else received, less one lamport per round. *)
Theorem neutral_distribution (neutral epoch : Z) (caps targets : list Z) :
  u64 neutral -> 0 <= epoch -> length caps = length targets -> Z.of_nat (length targets) <= U64_MAX ->
  Forall slot_ok (zip caps targets) ->
  exists out caps' targets',
    distribute_neutral neutral epoch caps targets = Some (out, caps', targets') /\
    foldr Z.add 0 targets' + no_shortfall out = foldr Z.add 0 targets + neutral /\
    Forall2 granted_from (zip caps targets) (zip caps' targets') /\
    0 <= no_shortfall out /\ (0 < no_shortfall out -> Forall (fun c => c = 0) caps') /\
    0 <= no_rounds out <= unsaturated (zip caps targets) /\
    fair_run (no_rounds out) (zip caps targets) (zip caps' targets').
Proof.
  intros Hn He Hl Hs Hok. pose proof (unsaturated_le_length (zip caps targets)) as Hu.
  assert (length (zip caps targets) = length targets) as Hz by (rewrite length_zip; lia).
  destruct (distribute_loop_spec (S (length targets)) epoch neutral 0 (zip caps targets))
    as (out & slots & E & [G T S F R Fr]); try done; try lia.
  exists out, slots.*1, slots.*2. unfold distribute_neutral. rewrite bool_decide_true, E by done.
  rewrite Z.sub_0_r in Fr. rewrite zip_fst_snd. split_and!; try done; try lia.
  - rewrite <- (total_target_zip caps targets), <- T by done. f_equal.
    rewrite <- (total_target_zip slots.*1), zip_fst_snd by (by rewrite !length_fmap). done.
  - intros Hp. specialize (F Hp). by rewrite Forall_fmap.
Qed.

Lemma neutral_distribution_witness :
  distribute_neutral 250 4 [10; 100; 0; 100] [5; 0; 7; 20] =
    Some (mkNeutralOutcome 2 40, [0; 0; 0; 0], [15; 100; 7; 120]) /\
  exists out caps' targets',
    distribute_neutral 250 4 [10; 100; 0; 100] [5; 0; 7; 20] = Some (out, caps', targets') /\
    foldr Z.add 0 targets' + no_shortfall out = 282 /\
    fair_run (no_rounds out) (zip [10; 100; 0; 100] [5; 0; 7; 20]) (zip caps' targets').
Proof.
  split; [reflexivity|].
  assert (Forall slot_ok (zip [10; 100; 0; 100] [5; 0; 7; 20])) as Hok.
  { cbn [zip zip_with]. rewrite !Forall_cons, Forall_nil. unfold slot_ok. cbn [fst snd]. lia. }
  destruct (neutral_distribution 250 4 [10; 100; 0; 100] [5; 0; 7; 20] ltac:(rlia) ltac:(lia) eq_refl
    ltac:(cbn [length]; lia) Hok) as (out & c & t & E & T & _ & _ & _ & _ & F).
  exists out, c, t. split; [exact E|]. split; [exact T | exact F].
Defined.
