(* ===== verification/KaniHarness.v ===== *)
(** * The Kani harnesses ([crates/fusd-math/src/kani_proofs.rs], [crates/fusion-stake-math/src/kani_proofs.rs])

    Each harness of the two arithmetic crates, statement by statement, with what it
    draws from [kani::any] as its parameters. The repository model-checks them on inputs
    of a few bits, because a wide symbolic division is out of a bounded model checker's
    reach, and with the 256-bit division replaced by a shim. Here they are proved for the
    shipped division and, wherever their bodies allow it, at full width. *)

From S2P Require Import Prelude MachineInt Harness FixedPoint Interest Redistribution ReactorMath Recovery StakeMath StakeTargets.

Open Scope Z_scope.

(** The stride and the pool size the harnesses fix. *)
Abbreviation REACTOR_STRIDE := 4.
Abbreviation REACTOR_POOL := 97.

#[export] Instance RedistError_eq_dec : EqDecision RedistError.t.
Proof. solve_decision. Defined.

Section math_harnesses.
Context {U : U256}.

Definition mul_div_floor_matches_reference (a b d : Z) : outcome unit :=
  assume ((a <? 16) && (b <? 16) && (1 <=? d));;
  p ← mul128 a b;
  asserts_eq (mul_div_floor a b d) (Some (p / d));;
  cover (negb (p mod d =? 0));;
  cover (p mod d =? 0).

Definition mul_div_ceil_is_floor_plus_remainder_indicator (a b d : Z) : outcome unit :=
  assume ((a <? 16) && (b <? 16) && (1 <=? d));;
  floor ← unwrap (mul_div_floor a b d);
  ceil ← unwrap (mul_div_ceil a b d);
  p ← mul128 a b;
  let has_rem := negb (p mod d =? 0) in
  expected ← add128 floor (if has_rem then 1 else 0);
  asserts_eq ceil expected;;
  asserts (floor <=? ceil);;
  next ← add128 floor 1;
  cover (has_rem && (ceil =? next));;
  cover (negb has_rem && (ceil =? floor)).

Definition mul_div_zero_denominator_is_none (a b : Z) : outcome unit :=
  asserts_eq (mul_div_floor a b 0) None;;
  asserts_eq (mul_div_ceil a b 0) None.

Definition mul_div_fails_closed_on_overflow : outcome unit :=
  asserts_eq (mul_div_floor U128_MAX 2 1) None;;
  asserts_eq (mul_div_floor U128_MAX U128_MAX 1) None;;
  asserts_eq (mul_div_floor (Z.shiftl 1 100) (Z.shiftl 1 100) 1) None;;
  asserts_eq (mul_div_floor (Z.shiftl 1 127) 4 1) None;;
  asserts_eq (mul_div_floor U128_MAX 1 1) (Some U128_MAX);;
  asserts_eq (mul_div_floor (Z.shiftl 1 64) (Z.shiftl 1 63) 1) (Some (Z.shiftl 1 127));;
  asserts_eq (mul_div_ceil U128_MAX 2 2) (Some U128_MAX);;
  asserts_eq (mul_div_ceil U128_MAX 3 2) None.

Definition present_debt_rounds_up_against_borrower (art y : Z) : outcome unit :=
  rate ← add128 RAY y;
  let floor := art in
  let has_frac := negb (art =? 0) && negb (y =? 0) in
  debt ← unwrap (present_debt art rate);
  expected ← add128 floor (if has_frac then 1 else 0);
  asserts_eq debt expected;;
  asserts (floor <=? debt);;
  next ← add128 art 1;
  cover (has_frac && (debt =? next)).

Definition ray_mul_up_is_floor_or_one_more (x z : Z) : outcome unit :=
  a ← add128 RAY x;
  b ← add128 RAY z;
  lo ← unwrap (ray_mul a b);
  hi ← unwrap (ray_mul_up a b);
  xz ← mul128 x z;
  let has_rem := negb (xz =? 0) in
  next ← add128 lo 1;
  asserts ((hi =? lo) || (hi =? next));;
  expected ← add128 lo (if has_rem then 1 else 0);
  asserts_eq hi expected;;
  cover has_rem.

Definition apply_bps_never_exceeds_notional (amount bps : Z) : outcome unit :=
  assume (bps <=? BPS_DENOMINATOR);;
  out ← unwrap (apply_bps amount bps);
  asserts (out <=? amount);;
  when (bps =? BPS_DENOMINATOR) (asserts_eq out amount);;
  cover (out <? amount);;
  cover (out =? amount).

Definition ray_pow_identities (base : Z) : outcome unit :=
  assume (base <? Z.shiftl 1 100);;
  asserts_eq (ray_pow base 0) (Some RAY);;
  asserts_eq (ray_pow RAY 2) (Some RAY);;
  twice ← mul128 2 RAY;
  four ← mul128 4 RAY;
  asserts_eq (ray_pow twice 2) (Some four).

(** The grid the offset harnesses fix. *)
Definition reactor_grid : list Z := replicate 16 0.

Definition s_idx_none_iff_cell_out_of_range (epoch scale stride len : Z) : outcome unit :=
  let r := s_idx epoch scale stride len in
  row ← mul64 epoch stride;
  idx ← add64 row scale;
  (if (stride <=? scale) || (len <=? idx)
   then asserts (bool_decide (r = None))
   else asserts_eq r (Some idx);; asserts (idx <? len));;
  cover (bool_decide (r = None) && (stride <=? scale));;
  cover (bool_decide (r = None) && (scale <? stride));;
  cover (bool_decide (is_Some r)).

Definition compute_stake_identity_before_first_liquidation (coll tss : Z) : outcome unit :=
  asserts_eq (compute_stake coll tss 0) (Ok coll);;
  cover ((0 <? coll) && (0 <? tss)).

Definition compute_stake_never_over_stakes (coll tss tcs : Z) : outcome unit :=
  assume ((coll <? 16) && (tss <? 16) && (1 <=? tcs) && (tss <=? tcs));;
  stake ← unwrap_ok (compute_stake coll tss tcs);
  asserts (stake <=? coll);;
  cover (stake <? coll);;
  cover ((stake =? coll) && (tss =? tcs)).

(** A fresh pool that holds [total]. *)
Definition reactor_with (total : Z) : PoolState := pool_new <| ps_total_deposits := total |>.

Definition offset_full_drain_rolls_epoch_and_resets (coll : Z) : outcome unit :=
  let total := REACTOR_POOL in
  let st := reactor_with total in
  '(st, _) ← unwrap_ok (offset st reactor_grid REACTOR_STRIDE total coll);
  asserts_eq (ps_total_deposits st) 0;;
  asserts_eq (ps_epoch st) 1;;
  asserts_eq (ps_scale st) 0;;
  asserts_eq (ps_p st) DECIMAL_PRECISION;;
  asserts_eq (ps_last_loss_error st) 0;;
  asserts (ps_last_coll_error st <? total);;
  cover ((0 <? coll) && (0 <? ps_last_coll_error st)).

Definition offset_partial_keeps_pool_solvent (debt coll : Z) : outcome unit :=
  let total := REACTOR_POOL in
  assume ((1 <=? debt) && (debt <? total));;
  let st := reactor_with total in
  let snap := snapshot st reactor_grid REACTOR_STRIDE in
  '(st, _) ← unwrap_ok (offset st reactor_grid REACTOR_STRIDE debt coll);
  left ← sub128 total debt;
  asserts_eq (ps_total_deposits st) left;;
  asserts (ps_last_coll_error st <? total);;
  asserts ((1 <=? ps_last_loss_error st) && (ps_last_loss_error st <=? total));;
  comp ← unwrap (compounded_deposit st total snap);
  asserts (comp <=? ps_total_deposits st);;
  cover (comp <? ps_total_deposits st);;
  cover (0 <? ps_last_coll_error st).

Definition update_product_rescales_above_floor (x y : Z) : outcome unit :=
  p ← add128 SCALE_FACTOR x;
  base ← sub128 SCALE_FACTOR 128;
  factor ← add128 base y;
  '(new_p, bumps) ← unwrap_ok (update_product p factor);
  asserts (SCALE_FACTOR <=? new_p);;
  asserts (bumps <=? 4);;
  cover (bumps =? 1);;
  cover (bumps =? 2).

Definition accumulate_is_proper_division (coll e : Z) : outcome unit :=
  let total_stakes := REACTOR_POOL in
  assume (e <? total_stakes);;
  let st := mkRedistState 0 0 e 0 in
  st ← unwrap_ok (redistribute st total_stakes coll 0);
  scaled ← mul128 coll PRECISION;
  numerator ← add128 scaled e;
  q ← mul128 (rs_l_coll st) total_stakes;
  back ← add128 q (rs_last_coll_error st);
  asserts_eq back numerator;;
  asserts (rs_last_coll_error st <? total_stakes);;
  cover (0 <? rs_last_coll_error st);;
  cover (0 <? e).

Definition redistribute_single_recipient_conserves (coll : Z) : outcome unit :=
  let stake := REACTOR_POOL in
  let st := redist_new in
  let snap := redist_snapshot st in
  st ← unwrap_ok (redistribute st stake coll 0);
  '(pending_coll, pending_art) ← unwrap_ok (pending stake st snap);
  asserts (pending_coll <=? coll);;
  dust ← sub128 coll pending_coll;
  asserts (dust <=? 1);;
  asserts_eq pending_art 0;;
  cover (pending_coll =? coll);;
  cover (dust =? 1).

Definition redistribute_two_recipients_conserve (coll stake1 : Z) : outcome unit :=
  assume ((1 <=? stake1) && (stake1 <? REACTOR_POOL));;
  stake2 ← sub128 REACTOR_POOL stake1;
  let st := redist_new in
  let snap := redist_snapshot st in
  st ← unwrap_ok (redistribute st REACTOR_POOL coll 0);
  '(p1, _) ← unwrap_ok (pending stake1 st snap);
  '(p2, _) ← unwrap_ok (pending stake2 st snap);
  both ← add128 p1 p2;
  asserts (both <=? coll);;
  dust ← sub128 coll both;
  asserts (dust <=? 2);;
  cover (both =? coll);;
  cover (1 <=? dust).

Definition offset_partial_conserves_collateral (debt coll : Z) : outcome unit :=
  let total := REACTOR_POOL in
  assume ((1 <=? debt) && (debt <? total));;
  let st := reactor_with total in
  let snap := snapshot st reactor_grid REACTOR_STRIDE in
  '(st, g) ← unwrap_ok (offset st reactor_grid REACTOR_STRIDE debt coll);
  gain ← unwrap_ok (collateral_gain g REACTOR_STRIDE total snap);
  asserts (gain <=? coll);;
  dust ← sub128 coll gain;
  asserts (dust <=? 1);;
  cover (gain =? coll);;
  cover ((0 <? coll) && (dust =? 1)).

Definition absorb_conserves_debt_exactly (debt reactor_capacity : Z) (has_redist_recipients : bool)
    (buffer_balance global_available : Z) : outcome unit :=
  let a := absorb debt reactor_capacity has_redist_recipients buffer_balance global_available in
  s ← add128 (ab_reactor a) (ab_redist a);
  s ← add128 s (ab_buffer a);
  s ← add128 s (ab_global a);
  s ← add128 s (ab_unhomed a);
  asserts_eq s debt;;
  asserts ((ab_reactor a <=? debt) && (ab_redist a <=? debt) && (ab_buffer a <=? debt)
         && (ab_global a <=? debt) && (ab_unhomed a <=? debt));;
  cover ((ab_reactor a =? debt) && (0 <? debt));;
  cover (0 <? ab_redist a);;
  cover (0 <? ab_buffer a);;
  cover (0 <? ab_global a);;
  cover (0 <? ab_unhomed a).

Definition absorb_is_fail_closed_and_ordered (debt reactor_capacity : Z) (has_redist_recipients : bool)
    (buffer_balance global_available : Z) : outcome unit :=
  let a := absorb debt reactor_capacity has_redist_recipients buffer_balance global_available in
  asserts (ab_reactor a <=? reactor_capacity);;
  asserts (ab_buffer a <=? buffer_balance);;
  asserts (ab_global a <=? global_available);;
  when (negb (ab_redist a =? 0))
    (rest ← sub128 debt (ab_reactor a); asserts (ab_redist a =? rest));;
  when (0 <? ab_buffer a) (asserts (negb has_redist_recipients));;
  when (0 <? ab_global a)
    (asserts (negb has_redist_recipients);;
     asserts_eq (ab_buffer a) buffer_balance);;
  when (0 <? ab_unhomed a)
    (asserts (negb has_redist_recipients);;
     asserts_eq (ab_reactor a) reactor_capacity;;
     asserts_eq (ab_buffer a) buffer_balance;;
     asserts_eq (ab_global a) global_available;;
     s ← add128 reactor_capacity buffer_balance;
     s ← add128 s global_available;
     asserts (s <? debt));;
  cover ((0 <? ab_buffer a) && (ab_unhomed a =? 0));;
  cover ((0 <? ab_global a) && (ab_unhomed a =? 0));;
  cover (0 <? ab_unhomed a);;
  cover ((0 <? ab_redist a) && (ab_buffer a =? 0)).

Definition accrued_one_year_is_debt_times_rate (debt rate : Z) : outcome unit :=
  accrued ← unwrap (accrued_interest debt rate SECONDS_PER_YEAR);
  w ← mul128 debt rate;
  let expected := w / INTEREST_RATE_DENOM in
  asserts_eq accrued expected;;
  cover (INTEREST_RATE_DENOM <=? w);;
  cover (negb (w mod INTEREST_RATE_DENOM =? 0)).

Definition pending_aggregate_one_year_rounds_up (weighted : Z) : outcome unit :=
  pending ← unwrap (pending_aggregate_interest weighted SECONDS_PER_YEAR);
  let floor := weighted / INTEREST_RATE_DENOM in
  let has_rem := negb (weighted mod INTEREST_RATE_DENOM =? 0) in
  expected ← add128 floor (if has_rem then 1 else 0);
  asserts_eq pending expected;;
  asserts (floor <=? pending);;
  next ← add128 floor 1;
  cover (has_rem && (pending =? next));;
  cover (negb has_rem && (pending =? floor)).

Definition aggregate_never_short_of_position (debt rate : Z) : outcome unit :=
  let dt := SECONDS_PER_YEAR in
  w ← unwrap (weighted_debt debt rate);
  agg ← unwrap (pending_aggregate_interest w dt);
  pos ← unwrap (accrued_interest debt rate dt);
  asserts (pos <=? agg);;
  margin ← sub128 agg pos;
  asserts (margin <=? 1);;
  cover (agg =? pos);;
  next ← add128 pos 1;
  cover (agg =? next).

Definition accrued_zero_at_boundaries (d r p : Z) : outcome unit :=
  asserts_eq (accrued_interest d r 0) (Some 0);;
  asserts_eq (accrued_interest d 0 p) (Some 0);;
  asserts_eq (accrued_interest 0 r p) (Some 0).

Definition accrued_fails_closed_on_overflow : outcome unit :=
  asserts_eq (accrued_interest U128_MAX 2 1) None;;
  asserts_eq (accrued_interest (U128_MAX / 100) 2550 1) None;;
  asserts (bool_decide (is_Some (accrued_interest (U128_MAX / 100000) 1 1)));;
  asserts (bool_decide (is_Some (weighted_debt U128_MAX 1)));;
  asserts_eq (weighted_debt U128_MAX 2) None.

End math_harnesses.

(** ** The stake controller's harnesses *)

Definition neutral_round_conserves_and_saturates (remaining epoch c0 c1 c2 : Z) : outcome unit :=
  assume (1 <=? remaining);;
  assume ((1 <=? c0) && (1 <=? c1) && (1 <=? c2));;
  round ← unwrap (begin_round remaining 3 epoch);
  let '(round, g0) := step round c0 in
  let '(round, g1) := step round c1 in
  let '(round, g2) := step round c2 in
  asserts (is_complete round);;
  asserts ((g0 <=? c0) && (g1 <=? c1) && (g2 <=? c2));;
  sum ← add64 g0 g1;
  sum ← add64 sum g2;
  asserts_eq sum (nr_granted round);;
  asserts (sum <=? remaining);;
  rest ← sub64 remaining sum;
  asserts_eq (remaining_after round) rest;;
  asserts_eq (nr_remainder_used round) (nr_remainder round);;
  when (0 <? remaining_after round) (asserts (1 <=? nr_saturated round));;
  let '(round, inert) := step round 7 in
  asserts_eq inert 0;;
  asserts_eq (nr_granted round) sum;;
  cover (0 <? remaining_after round);;
  cover (remaining_after round =? 0);;
  cover (1 <=? nr_saturated round).

Definition directed_target_cap_clamp (p d s cap : Z) : outcome unit :=
  let t := directed_target p d s cap in
  asserts (t <=? cap);;
  when (d <=? s) (asserts (t <=? p));;
  cover ((t =? cap) && (0 <? cap));;
  cover ((d <=? s) && (0 <? s) && (t <? cap)).

(** The [while] loop: one action per [(deviation, source, drain)]. *)
Fixpoint churn_fold (vcap min_action : Z) (actions : list (Z * Z * bool)) (budget spent : Z)
    : outcome (Z * Z) :=
  match actions with
  | [] => mret (budget, spent)
  | (dev, src, drain) :: actions =>
      let a := action_amount dev budget vcap src min_action drain in
      asserts ((a <=? dev) && (a <=? budget) && (a <=? vcap) && (a <=? src));;
      asserts ((a =? 0) || (min_action <=? a) || drain);;
      budget ← sub64 budget a;
      spent ← add64 spent a;
      churn_fold vcap min_action actions budget spent
  end.

Definition churn_budget_bound_over_fold (initial vcap min_action : Z) (actions : list (Z * Z * bool))
    : outcome unit :=
  '(budget, spent) ← churn_fold vcap min_action actions initial 0;
  total ← add64 spent budget;
  asserts_eq total initial;;
  asserts (spent <=? initial);;
  cover (0 <? spent);;
  cover ((spent =? initial) && (0 <? initial)).

Definition reward_payout_bound (r b v : Z) : outcome unit :=
  let p := payout r b v in
  asserts ((p <=? r) && (p <=? b) && (p <=? v));;
  asserts ((p =? r) || (p =? b) || (p =? v));;
  cover ((p =? 0) && (0 <? r));;
  cover (0 <? p).

(** ** What the harnesses establish

    Every harness at every input: a [kani::any] of the source draws a [u8] where a wider
    draw would not finish; the range here is the widest the body asserts anything about
    without overflowing on its own. *)
Record KaniVerified {U : U256} : Prop := {
  kv_mul_div_floor a b d : u128 a -> u128 b -> u128 d -> verified (mul_div_floor_matches_reference a b d);
  kv_mul_div_ceil a b d : u128 a -> u128 b -> u128 d ->
    verified (mul_div_ceil_is_floor_plus_remainder_indicator a b d);
  kv_zero_denominator a b : verified (mul_div_zero_denominator_is_none a b);
  kv_overflow : verified mul_div_fails_closed_on_overflow;
  kv_present_debt art y : u32 art -> u32 y -> verified (present_debt_rounds_up_against_borrower art y);
  kv_ray_mul_up x z : u32 x -> u32 z -> verified (ray_mul_up_is_floor_or_one_more x z);
  kv_apply_bps amount bps : u64 amount -> u16 bps -> verified (apply_bps_never_exceeds_notional amount bps);
  kv_ray_pow base : u128 base -> verified (ray_pow_identities base);
  kv_s_idx epoch scale stride len : u32 epoch -> u32 scale -> u32 stride -> u64 len ->
    verified (s_idx_none_iff_cell_out_of_range epoch scale stride len);
  kv_stake_identity coll tss : verified (compute_stake_identity_before_first_liquidation coll tss);
  kv_stake_bound coll tss tcs : u128 coll -> u128 tss -> u128 tcs ->
    verified (compute_stake_never_over_stakes coll tss tcs);
  kv_offset_drain coll : u8 coll -> verified (offset_full_drain_rolls_epoch_and_resets coll);
  kv_offset_solvent debt coll : u8 coll -> verified (offset_partial_keeps_pool_solvent debt coll);
  kv_update_product x y : u8 x -> u8 y -> verified (update_product_rescales_above_floor x y);
  kv_accumulate coll e : u64 coll -> 0 <= e -> verified (accumulate_is_proper_division coll e);
  kv_single_recipient coll : u64 coll -> verified (redistribute_single_recipient_conserves coll);
  kv_two_recipients coll stake1 : u64 coll -> verified (redistribute_two_recipients_conserve coll stake1);
  kv_offset_collateral debt coll : u8 coll -> verified (offset_partial_conserves_collateral debt coll);
  kv_absorb_conserves debt rc h bb ga : u128 debt -> u128 rc -> u128 bb -> u128 ga ->
    verified (absorb_conserves_debt_exactly debt rc h bb ga);
  kv_absorb_ordered debt rc h bb ga : u128 debt -> u128 rc -> u128 bb -> u128 ga ->
    verified (absorb_is_fail_closed_and_ordered debt rc h bb ga);
  kv_accrued_year debt rate : u64 debt -> u16 rate -> verified (accrued_one_year_is_debt_times_rate debt rate);
  kv_pending_year w : u64 w -> verified (pending_aggregate_one_year_rounds_up w);
  kv_never_short debt rate : u64 debt -> u16 rate -> verified (aggregate_never_short_of_position debt rate);
  kv_zero_boundaries d r p : u64 d -> u16 r -> u64 p -> verified (accrued_zero_at_boundaries d r p);
  kv_accrued_overflow : verified accrued_fails_closed_on_overflow;
  kv_neutral_round remaining epoch c0 c1 c2 : u64 remaining -> u64 epoch -> u64 c0 -> u64 c1 -> u64 c2 ->
    verified (neutral_round_conserves_and_saturates remaining epoch c0 c1 c2);
  kv_directed p d s cap : u64 p -> u64 d -> u64 s -> u64 cap -> verified (directed_target_cap_clamp p d s cap);
  kv_churn initial vcap min_action actions : u64 initial -> u64 vcap ->
    Forall (fun '(dev, src, _) => u64 dev /\ u64 src) actions ->
    verified (churn_budget_bound_over_fold initial vcap min_action actions);
  kv_payout r b v : verified (reward_payout_bound r b v);
}.

(** Every cover point of every harness that has some, at inputs of the source's own
    width: the assertions are not vacuous. *)
Definition kani_covered {U : U256} : bool :=
  all_covered 2 [mul_div_floor_matches_reference 7 3 2; mul_div_floor_matches_reference 4 3 2] &&
  all_covered 2 [mul_div_ceil_is_floor_plus_remainder_indicator 7 3 2;
                 mul_div_ceil_is_floor_plus_remainder_indicator 4 3 2] &&
  all_covered 1 [present_debt_rounds_up_against_borrower 3 1] &&
  all_covered 1 [ray_mul_up_is_floor_or_one_more 1 1] &&
  all_covered 2 [apply_bps_never_exceeds_notional 200 50; apply_bps_never_exceeds_notional 200 10000] &&
  all_covered 3 [s_idx_none_iff_cell_out_of_range 0 4 4 16; s_idx_none_iff_cell_out_of_range 4 0 4 16;
                 s_idx_none_iff_cell_out_of_range 3 3 4 16] &&
  all_covered 1 [compute_stake_identity_before_first_liquidation 5 9] &&
  all_covered 2 [compute_stake_never_over_stakes 5 3 7; compute_stake_never_over_stakes 5 3 3] &&
  all_covered 1 [offset_full_drain_rolls_epoch_and_resets 3] &&
  all_covered 2 [offset_partial_keeps_pool_solvent 5 3] &&
  all_covered 2 [update_product_rescales_above_floor 255 255; update_product_rescales_above_floor 0 0] &&
  all_covered 2 [accumulate_is_proper_division 3 1] &&
  all_covered 2 [redistribute_single_recipient_conserves 0; redistribute_single_recipient_conserves 3] &&
  all_covered 2 [redistribute_two_recipients_conserve 0 40; redistribute_two_recipients_conserve 3 40] &&
  all_covered 2 [offset_partial_conserves_collateral 5 97; offset_partial_conserves_collateral 5 3] &&
  all_covered 5 [absorb_conserves_debt_exactly 10 10 false 0 0; absorb_conserves_debt_exactly 10 4 true 0 0;
                 absorb_conserves_debt_exactly 10 4 false 1 1] &&
  all_covered 4 [absorb_is_fail_closed_and_ordered 10 4 false 6 0;
                 absorb_is_fail_closed_and_ordered 10 4 false 1 5;
                 absorb_is_fail_closed_and_ordered 10 4 false 1 1;
                 absorb_is_fail_closed_and_ordered 10 4 true 1 1] &&
  all_covered 2 [accrued_one_year_is_debt_times_rate 255 255] &&
  all_covered 2 [pending_aggregate_one_year_rounds_up 10001; pending_aggregate_one_year_rounds_up 10000] &&
  all_covered 2 [aggregate_never_short_of_position 200 50; aggregate_never_short_of_position 255 255] &&
  all_covered 3 [neutral_round_conserves_and_saturates 100 1 5 5 5;
                 neutral_round_conserves_and_saturates 100 1 50 50 50] &&
  all_covered 2 [directed_target_cap_clamp 100 50 60 10; directed_target_cap_clamp 100 50 60 90] &&
  all_covered 2 [churn_budget_bound_over_fold 20 15 2 [(9, 9, false); (30, 30, false); (1, 1, true)]] &&
  all_covered 2 [reward_payout_bound 5 9 0; reward_payout_bound 5 9 7].

(** ** The harnesses hold *)

Section math_proofs.
Context {U : U256}.

Lemma floor_in_range a b d : u128 a -> u128 b -> 1 <= d -> u128 d -> a * b <= U128_MAX ->
  mul_div_floor a b d = Some (a * b / d) /\ 0 <= a * b / d <= a * b.
Proof.
  intros Ha Hb Hd Hd' Hp. assert (0 <= a * b) by (unfold u128 in *; nia).
  assert (0 <= a * b / d <= a * b) by (split; [apply Z.div_pos | apply Z.div_le_upper_bound]; nia).
  split; [|done]. apply mul_div_floor_Some; [done..|]. lia.
Qed.

Lemma kani_mul_div_floor a b d : u128 a -> u128 b -> u128 d ->
  verified (mul_div_floor_matches_reference a b d).
Proof.
  intros Ha Hb Hd. unfold mul_div_floor_matches_reference. run.
  assert (0 <= a * b <= 225) by (unfold u128 in *; nia).
  run. apply verified_asserts_eq; [apply floor_in_range; done || lia|]. run.
Qed.

Lemma ceil_is_floor a b d : u128 a -> u128 b -> 1 <= d -> u128 d -> a * b < U128_MAX ->
  mul_div_ceil a b d = Some (a * b / d + (if a * b mod d =? 0 then 0 else 1)).
Proof.
  intros Ha Hb Hd Hd' Hp. destruct (floor_in_range a b d) as [_ ?]; [done..|lia|].
  rewrite mul_div_ceil_spec by done. destruct (Z.eqb_spec d 0); [lia|].
  rewrite cdiv_spec by lia. apply fit_in. destruct (_ =? _); lia.
Qed.

Lemma kani_mul_div_ceil a b d : u128 a -> u128 b -> u128 d ->
  verified (mul_div_ceil_is_floor_plus_remainder_indicator a b d).
Proof.
  intros Ha Hb Hd. unfold mul_div_ceil_is_floor_plus_remainder_indicator. run.
  assert (0 <= a * b <= 225) by (unfold u128 in *; nia).
  destruct (floor_in_range a b d) as [Ef ?]; [done || lia..|].
  apply verified_unwrap with (a * b / d); [done|].
  eapply verified_unwrap; [apply ceil_is_floor; done || lia|]. run.
  destruct (a * b mod d =? 0); cbn; run.
Qed.

Lemma kani_zero_denominator a b : verified (mul_div_zero_denominator_is_none a b).
Proof. done. Qed.

Lemma kani_overflow : verified mul_div_fails_closed_on_overflow.
Proof.
  unfold mul_div_fails_closed_on_overflow.
  rewrite !mul_div_floor_spec, !mul_div_ceil_spec by (split; vm_compute; discriminate).
  vm_compute. exact I.
Qed.

(** A product one unit of [RAY] above a multiple of it. *)
Lemma ray_split q r : 0 <= r < RAY -> (q * RAY + r) / RAY = q /\ (q * RAY + r) mod RAY = r.
Proof.
  intros Hr. split; symmetry; [apply Z.div_unique with r | apply Z.mod_unique with q]; lia.
Qed.

Lemma kani_present_debt art y : u32 art -> u32 y ->
  verified (present_debt_rounds_up_against_borrower art y).
Proof.
  intros Ha Hy. unfold present_debt_rounds_up_against_borrower. range_unfold. run.
  assert (0 <= art * y < RAY) by nia.
  destruct (ray_split art (art * y)) as [Eq Er]; [done|].
  eapply verified_unwrap.
  { apply mul_div_ceil_Some; [rlia..|]. split; [lia|]. split; [done|].
    rewrite cdiv_spec, Z.mul_add_distr_l, Eq, Er by lia. destruct (_ =? _); lia. }
  rewrite cdiv_spec, Z.mul_add_distr_l, Eq, Er by lia.
  destruct (Z.eqb_spec art 0), (Z.eqb_spec y 0), (Z.eqb_spec (art * y) 0); cbn; try nia; run.
Qed.

Lemma kani_ray_mul_up x z : u32 x -> u32 z -> verified (ray_mul_up_is_floor_or_one_more x z).
Proof.
  intros Hx Hz. unfold ray_mul_up_is_floor_or_one_more. range_unfold. run.
  assert (0 <= x * z < RAY) by nia.
  assert ((RAY + x) * (RAY + z) = (RAY + x + z) * RAY + x * z) as E by ring.
  destruct (ray_split (RAY + x + z) (x * z)) as [Eq Er]; [done|].
  apply verified_unwrap with (RAY + x + z).
  { apply mul_div_floor_Some; [rlia..|]. rewrite E, Eq. lia. }
  eapply verified_unwrap.
  { apply mul_div_ceil_Some; [rlia..|]. rewrite cdiv_spec, E, Eq, Er by lia.
    split; [lia|]. split; [done|]. destruct (_ =? _); lia. }
  run. destruct (Z.eqb_spec (x * z) 0); cbn [negb]; run.
Qed.

Lemma kani_apply_bps amount bps : u64 amount -> u16 bps ->
  verified (apply_bps_never_exceeds_notional amount bps).
Proof.
  intros Ha Hb. unfold apply_bps_never_exceeds_notional. range_unfold. run.
  assert (0 <= amount * bps / BPS_DENOMINATOR <= amount).
  { split; [apply Z.div_pos; nia | apply Z.div_le_upper_bound; nia]. }
  apply verified_unwrap with (amount * bps / BPS_DENOMINATOR).
  { unfold apply_bps, checked_mul128, try_u64. rewrite fit_in by nia. apply fit_in. lia. }
  run. apply verified_when; [|run]. intros E. propify. subst bps.
  apply verified_asserts_eq_last. apply Z.div_mul. lia.
Qed.

Lemma kani_ray_pow base : u128 base -> verified (ray_pow_identities base).
Proof.
  intros Hb. unfold ray_pow_identities. run. apply verified_asserts_eq; [done|].
  assert (forall z q, u128 z -> q = z * z / RAY -> q <= U128_MAX -> 0 <= q ->
    ray_mul z z = Some q) as Hm.
  { intros z q Hz -> ? ?. apply mul_div_floor_Some; [rlia..|]. lia. }
  assert (forall z, u128 z -> ray_mul RAY z = Some z) as H1.
  { intros z Hz. apply mul_div_floor_Some; [rlia..|].
    rewrite Z.mul_comm, Z.div_mul by lia. rlia. }
  assert (forall z q, u128 z -> q = z * z / RAY -> 0 <= q <= U128_MAX -> ray_pow z 2 = Some q) as Hp.
  { intros z q Hz Eq Hq. unfold ray_pow. change (Z.odd 2) with false. change (Z.shiftr 2 1) with 1.
    cbn [ray_pow_loop]. rewrite (Hm z q) by (done || lia). step_ok. apply H1. rlia. }
  apply verified_asserts_eq; [apply Hp; [rlia | done | lia]|]. run.
  apply verified_asserts_eq_last. apply Hp; [rlia | done | lia].
Qed.

Lemma kani_s_idx epoch scale stride len : u32 epoch -> u32 scale -> u32 stride -> u64 len ->
  verified (s_idx_none_iff_cell_out_of_range epoch scale stride len).
Proof.
  intros He Hs Hst Hl. unfold s_idx_none_iff_cell_out_of_range. range_unfold.
  assert (0 <= epoch * stride <= U32_MAX * U32_MAX) by nia. run.
  pose proof (s_idx_Some epoch scale stride len (epoch * stride + scale)) as [_ Hin]; [lia..|].
  assert (forall i, s_idx epoch scale stride len = Some i -> scale < stride /\ epoch * stride + scale < len)
    as Hout by (intros i (-> & ? & ? & _)%s_idx_Some; lia).
  apply verified_bind. split; [|by intros ? []; run].
  destruct (_ || _) eqn:E.
  - apply verified_asserts_last, bool_decide_eq_true.
    destruct (s_idx _ _ _ _) as [i|]; [|done]. specialize (Hout i eq_refl). lia.
  - apply orb_false_iff in E as [??]. propify. apply verified_asserts_eq; [apply Hin; lia|]. run.
Qed.

Lemma kani_compute_stake_identity coll tss : verified (compute_stake_identity_before_first_liquidation coll tss).
Proof. unfold compute_stake_identity_before_first_liquidation. by apply verified_asserts_eq. Qed.

Lemma kani_compute_stake coll tss tcs : u128 coll -> u128 tss -> u128 tcs ->
  verified (compute_stake_never_over_stakes coll tss tcs).
Proof.
  intros Hc Ht Htc. unfold compute_stake_never_over_stakes. run.
  assert (coll * tss <= U128_MAX) by (range_unfold; nia).
  destruct (floor_in_range coll tss tcs) as [Ef ?]; [done || lia..|].
  assert (coll * tss / tcs <= coll) by (apply Z.div_le_upper_bound; range_unfold; nia).
  apply verified_unwrap_ok with (coll * tss / tcs); [|run].
  unfold compute_stake. destruct (Z.eqb_spec tcs 0); [lia|]. by rewrite Ef.
Qed.

(** What one redistribution from genesis leaves, for a carried residual [e]. *)
Lemma redistribute_genesis coll e : u64 coll -> 0 <= e < REACTOR_POOL ->
  exists l r, redistribute (mkRedistState 0 0 e 0) REACTOR_POOL coll 0 = Ok (mkRedistState l 0 r 0) /\
    l * REACTOR_POOL + r = coll * PRECISION + e /\ 0 <= r < REACTOR_POOL /\ u128 l.
Proof.
  intros Hc He. remember (coll * PRECISION + e) as n eqn:En.
  assert (0 <= n <= U64_MAX * PRECISION + REACTOR_POOL) by (range_unfold; lia).
  assert (0 <= n / REACTOR_POOL <= n) by (split; [apply Z.div_pos | apply Z.div_le_upper_bound]; lia).
  pose proof (Z.div_mod n REACTOR_POOL ltac:(lia)).
  pose proof (Z.mod_pos_bound n REACTOR_POOL ltac:(lia)).
  exists (n / REACTOR_POOL), (n mod REACTOR_POOL). split; [|rlia].
  unfold redistribute. cbn [Z.eqb rs_l_coll rs_l_art rs_last_coll_error rs_last_art_error].
  rewrite !accumulate_spec by rlia. cbv zeta. rewrite <- En. unfold checked_add128.
  rewrite (fit_in _ (n / _)) by rlia. step_ok. change (0 + n / REACTOR_POOL) with (n / REACTOR_POOL).
  rewrite (fit_in _ (n / _)) by rlia. done.
Qed.

Lemma kani_accumulate coll e : u64 coll -> 0 <= e -> verified (accumulate_is_proper_division coll e).
Proof.
  intros Hc He. unfold accumulate_is_proper_division. run.
  destruct (redistribute_genesis coll e) as (l & r & Er & E & Hr & Hl); [done | lia|].
  apply verified_unwrap_ok with (mkRedistState l 0 r 0); [done|]. cbn. range_unfold. run.
Qed.

(** A recipient's share of it. *)
Lemma pending_genesis stake l r : 0 <= stake <= REACTOR_POOL -> 0 <= l -> l * REACTOR_POOL <= U128_MAX ->
  pending stake (mkRedistState l 0 r 0) (redist_snapshot redist_new) = Ok (stake * l / PRECISION, 0).
Proof.
  intros Hs Hl Hu. unfold pending. cbn [rs_l_coll rs_l_art redist_snapshot snap_l_coll snap_l_art redist_new].
  assert (pending_one stake l 0 = Ok (stake * l / PRECISION)) as ->.
  { unfold pending_one, sat_sub. rewrite Z.sub_0_r, Z.max_r by lia. destruct (_ || _) eqn:E.
    - replace (stake * l) with 0; [done|]. apply orb_true_iff in E. rewrite !Z.eqb_eq in E. nia.
    - destruct (floor_in_range stake l PRECISION) as [-> _]; [rlia..| nia | done]. }
  step_ok. unfold pending_one. cbn [sat_sub]. by rewrite orb_true_r.
Qed.

Lemma kani_single_recipient coll : u64 coll -> verified (redistribute_single_recipient_conserves coll).
Proof.
  intros Hc. unfold redistribute_single_recipient_conserves. cbv zeta.
  destruct (redistribute_genesis coll 0) as (l & r & Er & E & Hr & Hl); [done | lia|].
  apply verified_unwrap_ok with (mkRedistState l 0 r 0); [done|]. range_unfold.
  eapply verified_unwrap_ok; [apply pending_genesis; lia|]. cbv beta iota.
  pose proof (Z.mul_div_le (REACTOR_POOL * l) PRECISION ltac:(lia)).
  pose proof (Z.mul_succ_div_gt (REACTOR_POOL * l) PRECISION ltac:(lia)).
  assert (0 <= REACTOR_POOL * l / PRECISION) by (apply Z.div_pos; lia). run.
Qed.

Lemma kani_two_recipients coll stake1 : u64 coll -> verified (redistribute_two_recipients_conserve coll stake1).
Proof.
  intros Hc. unfold redistribute_two_recipients_conserve. run.
  destruct (redistribute_genesis coll 0) as (l & r & Er & E & Hr & Hl); [done | lia|].
  apply verified_unwrap_ok with (mkRedistState l 0 r 0); [done|]. range_unfold.
  eapply verified_unwrap_ok; [apply pending_genesis; lia|]. cbv beta iota.
  eapply verified_unwrap_ok; [apply pending_genesis; lia|]. cbv beta iota.
  assert (forall s, 0 <= s -> 0 <= s * l / PRECISION /\ PRECISION * (s * l / PRECISION) <= s * l /\
    s * l < PRECISION * (s * l / PRECISION + 1)) as Hq.
  { intros s Hs. pose proof (Z.mul_div_le (s * l) PRECISION ltac:(lia)).
    pose proof (Z.mul_succ_div_gt (s * l) PRECISION ltac:(lia)).
    split; [apply Z.div_pos; nia | lia]. }
  pose proof (Hq stake1 ltac:(lia)). pose proof (Hq (REACTOR_POOL - stake1) ltac:(lia)).
  run.
Qed.

(** The sums the offset harnesses start from, and the state one offset leaves. *)
Lemma reactor_with_ok : pool_ok (reactor_with REACTOR_POOL).
Proof. split; cbn; unfold product_ok; rlia. Qed.

Lemma offset_partial debt coll : 1 <= debt < REACTOR_POOL -> u8 coll ->
  exists st' g', offset (reactor_with REACTOR_POOL) reactor_grid REACTOR_STRIDE debt coll = Ok (st', g') /\
    ps_epoch st' = 0 /\ ps_scale st' = 0 /\ 1 <= ps_last_loss_error st' /\
    g' = <[0%nat := coll * DECIMAL_PRECISION / REACTOR_POOL * DECIMAL_PRECISION]> reactor_grid.
Proof.
  intros Hd Hc. change (reactor_with REACTOR_POOL) with (mkPoolState DECIMAL_PRECISION 0 0 REACTOR_POOL 0 0).
  unfold offset. cbn [update ps_total_deposits ps_p ps_epoch ps_scale ps_last_coll_error ps_last_loss_error Z.eqb].
  destruct (Z.ltb_spec REACTOR_POOL debt); [lia|].
  unfold checked_mul128, checked_add128. range_unfold. rewrite (fit_in _ (coll * _)) by lia. step_ok.
  rewrite Z.add_0_r, (fit_in _ (coll * _)) by lia. step_ok.
  unfold loss_factor, checked_mul128, checked_sub128. cbn [ps_total_deposits ps_last_loss_error].
  destruct (Z.eqb_spec debt REACTOR_POOL); [lia|].
  rewrite (fit_in _ (debt * _)) by lia. step_ok. rewrite Z.sub_0_r, (fit_in _ (debt * _)) by lia. step_ok.
  set (q := debt * DECIMAL_PRECISION / REACTOR_POOL).
  pose proof (Z.mul_div_le (debt * DECIMAL_PRECISION) REACTOR_POOL ltac:(lia)) as Hq1.
  pose proof (Z.mul_succ_div_gt (debt * DECIMAL_PRECISION) REACTOR_POOL ltac:(lia)) as Hq2.
  fold q in Hq1, Hq2. clearbody q. rewrite (fit_in _ ((q + 1) * _)) by lia. step_ok.
  set (c := coll * DECIMAL_PRECISION / REACTOR_POOL).
  assert (0 <= c <= 3 * DECIMAL_PRECISION) by (subst c; split; [apply Z.div_pos | apply Z.div_le_upper_bound]; lia).
  clearbody c. rewrite (fit_in _ (c * _)) by lia. step_ok.
  change (s_idx 0 0 4 (grid_len reactor_grid)) with (Some 0). step_ok.
  change (reactor_grid !! Z.to_nat 0) with (Some 0). step_ok.
  rewrite Z.add_0_l, (fit_in _ (c * _)) by lia. step_ok.
  unfold roll_product. destruct (Z.eqb_spec (DECIMAL_PRECISION - (q + 1)) 0); [lia|].
  cbn [ps_p update]. destruct (update_product_Ok DECIMAL_PRECISION (DECIMAL_PRECISION - (q + 1)))
    as (p' & bumps & -> & _ & Hb & _ & Hbig); [unfold product_ok; lia | lia|]. step_ok.
  destruct (Z.ltb_spec 0 bumps).
  { exfalso. specialize (Hbig ltac:(lia)).
    assert (0 < SCALE_FACTOR ^ (bumps - 1)) by (apply Z.pow_pos_nonneg; lia). nia. }
  step_ok. eexists _, _. split; [done|]. cbn. repeat split; lia || done.
Qed.

Lemma kani_offset_solvent debt coll : u8 coll -> verified (offset_partial_keeps_pool_solvent debt coll).
Proof.
  intros Hc. unfold offset_partial_keeps_pool_solvent. run.
  destruct (offset_partial debt coll) as (st' & g' & Eo & He & Hs & Hl & _); [lia | done|].
  eapply verified_unwrap_ok; [done|]. cbv beta iota.
  apply offset_Ok in Eo as []; [|apply reactor_with_ok | lia | rlia].
  destruct oe_gain as (? & ? & ? & _ & _ & _ & _ & _ & Herr). cbn in *.
  destruct (oe_loss ltac:(lia)) as (f & Hf & Ef & [|(_ & _ & Hp)]); [lia|]. run.
  destruct (compounded_bound st' REACTOR_POOL (snapshot (reactor_with REACTOR_POOL) reactor_grid REACTOR_STRIDE))
    as (c & Ecomp & Hc0 & _ & Hcb); [done | unfold product_ok; cbn; lia | rlia | right; cbn; lia|].
  apply verified_unwrap with c; [done|]. specialize (Hcb ltac:(cbn; lia)).
  rewrite Hs in *. cbn in Hcb, Hp. run.
Qed.

Lemma kani_offset_drain coll : u8 coll -> verified (offset_full_drain_rolls_epoch_and_resets coll).
Proof.
  intros Hc. unfold offset_full_drain_rolls_epoch_and_resets. cbv zeta.
  set (n := coll * DECIMAL_PRECISION). set (c := n / REACTOR_POOL).
  pose proof (Z.mul_div_le n REACTOR_POOL ltac:(lia)) as Hc1.
  pose proof (Z.mul_succ_div_gt n REACTOR_POOL ltac:(lia)) as Hc2. fold c in Hc1, Hc2.
  assert (0 <= n <= 255 * DECIMAL_PRECISION) as Hn by (subst n; rlia).
  assert (0 <= c) by (apply Z.div_pos; lia).
  apply verified_unwrap_ok with (mkPoolState DECIMAL_PRECISION 1 0 0 (n - c * REACTOR_POOL) 0,
    <[0%nat := c * DECIMAL_PRECISION]> reactor_grid); [|cbn; run].
  change (reactor_with REACTOR_POOL) with (mkPoolState DECIMAL_PRECISION 0 0 REACTOR_POOL 0 0).
  unfold offset, checked_mul128, checked_add128.
  cbn [update ps_total_deposits ps_p ps_epoch ps_scale ps_last_coll_error ps_last_loss_error Z.eqb Z.ltb
    Z.compare Pos.compare Pos.compare_cont].
  fold n. rewrite fit_in by lia. step_ok. rewrite Z.add_0_r, fit_in by lia. step_ok. fold c. clearbody c n.
  cbn [loss_factor ps_total_deposits Z.eqb Pos.eqb]. step_ok.
  rewrite (fit_in _ (c * _)) by lia. step_ok.
  change (s_idx 0 0 4 (grid_len reactor_grid)) with (Some 0). step_ok.
  change (reactor_grid !! Z.to_nat 0) with (Some 0). step_ok.
  rewrite Z.add_0_l, (fit_in _ (c * _)) by lia. done.
Qed.

Lemma kani_offset_collateral debt coll : u8 coll -> verified (offset_partial_conserves_collateral debt coll).
Proof.
  intros Hc. unfold offset_partial_conserves_collateral. run.
  destruct (offset_partial debt coll) as (st' & g' & Eo & _ & _ & _ & ->); [lia | done|].
  eapply verified_unwrap_ok; [done|]. cbv beta iota.
  set (c := coll * DECIMAL_PRECISION / REACTOR_POOL).
  pose proof (Z.mul_div_le (coll * DECIMAL_PRECISION) REACTOR_POOL ltac:(lia)) as Hc1.
  pose proof (Z.mul_succ_div_gt (coll * DECIMAL_PRECISION) REACTOR_POOL ltac:(lia)) as Hc2.
  fold c in Hc1, Hc2. range_unfold. assert (0 <= c) by (apply Z.div_pos; lia). clearbody c.
  set (gain := REACTOR_POOL * c / DECIMAL_PRECISION).
  pose proof (Z.mul_div_le (REACTOR_POOL * c) DECIMAL_PRECISION ltac:(lia)) as Hg1.
  pose proof (Z.mul_succ_div_gt (REACTOR_POOL * c) DECIMAL_PRECISION ltac:(lia)) as Hg2.
  fold gain in Hg1, Hg2. assert (0 <= gain) by (apply Z.div_pos; lia).
  apply verified_unwrap_ok with gain; [|clearbody gain; run].
  change (snapshot (reactor_with REACTOR_POOL) reactor_grid REACTOR_STRIDE)
    with (mkSnapshot DECIMAL_PRECISION 0 0 0).
  unfold collateral_gain. cbn [Z.eqb sn_epoch sn_scale sn_s sn_p].
  change (s_at (<[0%nat := c * DECIMAL_PRECISION]> reactor_grid) 0 0 4) with (c * DECIMAL_PRECISION).
  change (s_at (<[0%nat := c * DECIMAL_PRECISION]> reactor_grid) 0 (0 + 1) 4) with 0.
  change (0 / SCALE_FACTOR) with 0. unfold sat_sub. rewrite Z.sub_0_r, Z.max_r by lia.
  unfold checked_add128. rewrite Z.add_0_r, fit_in by lia. step_ok.
  rewrite mul_div_floor_spec by rlia. cbn [Z.eqb]. rewrite Z.mul_assoc, Z.div_mul by lia.
  by rewrite fit_in by lia.
Qed.

Lemma kani_update_product x y : u8 x -> u8 y -> verified (update_product_rescales_above_floor x y).
Proof.
  intros Hx Hy. unfold update_product_rescales_above_floor. range_unfold. run.
  destruct (update_product_Ok (SCALE_FACTOR + x) (SCALE_FACTOR - 128 + y))
    as (p' & bumps & E & Hp & Hb & _); [unfold product_ok; lia | lia|].
  eapply verified_unwrap_ok; [done|]. unfold product_ok in *. cbv beta iota. run.
Qed.

Lemma kani_absorb_conserves debt rc (h : bool) bb ga : u128 debt -> u128 rc -> u128 bb -> u128 ga ->
  verified (absorb_conserves_debt_exactly debt rc h bb ga).
Proof.
  intros Hd Hr Hb Hg. unfold absorb_conserves_debt_exactly. cbv zeta.
  destruct (absorb_spec debt rc h bb ga Hd Hr Hb Hg) as (? & ? & ? & ? & ? & Et & _).
  set (a := absorb _ _ _ _ _) in *. clearbody a. unfold ab_total in Et. range_unfold. run.
Qed.

Lemma kani_absorb_ordered debt rc (h : bool) bb ga : u128 debt -> u128 rc -> u128 bb -> u128 ga ->
  verified (absorb_is_fail_closed_and_ordered debt rc h bb ga).
Proof.
  intros Hd Hr Hb Hg. unfold absorb_is_fail_closed_and_ordered. cbv zeta.
  assert (ab_redist (absorb debt rc h bb ga) = 0 \/
    ab_redist (absorb debt rc h bb ga) = debt - ab_reactor (absorb debt rc h bb ga)) as Hall
    by (unfold absorb; cbn; destruct h; auto).
  destruct (absorb_waterfall debt rc h bb ga Hd Hr Hb Hg) as (Et & Hu & ? & ? & ? & Hrc & Hh & Hbuf & Hga & Eun).
  set (a := absorb _ _ _ _ _) in *. clearbody a. unfold ab_total in Et.
  repeat rewrite Forall_cons in Hu. destruct Hu as (? & ? & ? & ? & ? & _). range_unfold. run.
  apply verified_when; [intros ?; propify; run|].
  apply verified_when; [intros ?; propify; rewrite Hh by lia; run|].
  apply verified_when; [intros ?; propify; rewrite Hh by lia; run|].
  apply verified_when; [|run]. intros ?; propify. rewrite Hh in * by lia. run.
Qed.

(** A year cancels out of the interest denominator. *)
Lemma year_cancels w : w * SECONDS_PER_YEAR / INTEREST_DENOM = w / INTEREST_RATE_DENOM /\
  (w * SECONDS_PER_YEAR mod INTEREST_DENOM =? 0) = (w mod INTEREST_RATE_DENOM =? 0).
Proof.
  change INTEREST_DENOM with (INTEREST_RATE_DENOM * SECONDS_PER_YEAR).
  rewrite Z.div_mul_cancel_r, Z.mul_mod_distr_r by lia. split; [done|].
  destruct (Z.eqb_spec (w mod INTEREST_RATE_DENOM) 0), (Z.eqb_spec (w mod INTEREST_RATE_DENOM * SECONDS_PER_YEAR) 0);
    lia.
Qed.

Lemma accrued_year debt rate : u64 debt -> u16 rate ->
  accrued_interest debt rate SECONDS_PER_YEAR = Some (debt * rate / INTEREST_RATE_DENOM) /\
  0 <= debt * rate <= U64_MAX * U16_MAX.
Proof.
  intros Hd Hr. range_unfold. assert (0 <= debt * rate <= U64_MAX * U16_MAX) by nia. split; [|done].
  unfold accrued_interest, weighted_debt, checked_mul128. rewrite fit_in by lia. step_ok.
  destruct (floor_in_range (debt * rate) SECONDS_PER_YEAR INTEREST_DENOM) as [-> _]; [rlia..|].
  by destruct (year_cancels (debt * rate)) as [-> _].
Qed.

Lemma pending_year w : 0 <= w <= U64_MAX * U16_MAX ->
  pending_aggregate_interest w SECONDS_PER_YEAR
    = Some (w / INTEREST_RATE_DENOM + (if w mod INTEREST_RATE_DENOM =? 0 then 0 else 1)) /\
  0 <= w / INTEREST_RATE_DENOM <= w.
Proof.
  intros Hw. split; [|split; [apply Z.div_pos | apply Z.div_le_upper_bound]; lia].
  unfold pending_aggregate_interest. rewrite ceil_is_floor by rlia.
  by destruct (year_cancels w) as [-> ->].
Qed.

Lemma kani_accrued_year debt rate : u64 debt -> u16 rate ->
  verified (accrued_one_year_is_debt_times_rate debt rate).
Proof.
  intros Hd Hr. unfold accrued_one_year_is_debt_times_rate.
  destruct (accrued_year debt rate Hd Hr) as [Ea ?].
  eapply verified_unwrap; [done|]. run.
Qed.

Lemma kani_pending_year w : u64 w -> verified (pending_aggregate_one_year_rounds_up w).
Proof.
  intros Hw. unfold pending_aggregate_one_year_rounds_up.
  destruct (pending_year w) as [Ep ?]; [rlia|].
  eapply verified_unwrap; [done|]. range_unfold. destruct (_ =? 0); cbn [negb]; run.
Qed.

Lemma kani_never_short debt rate : u64 debt -> u16 rate ->
  verified (aggregate_never_short_of_position debt rate).
Proof.
  intros Hd Hr. unfold aggregate_never_short_of_position.
  destruct (accrued_year debt rate Hd Hr) as [Ea Hw]. destruct (pending_year _ Hw) as [Ep ?].
  apply verified_unwrap with (debt * rate); [apply fit_in; lia|].
  eapply verified_unwrap; [done|]. eapply verified_unwrap; [done|].
  destruct (_ =? 0); run.
Qed.

Lemma kani_zero_boundaries d r p : u64 d -> u16 r -> u64 p -> verified (accrued_zero_at_boundaries d r p).
Proof.
  intros Hd Hr Hp. unfold accrued_zero_at_boundaries.
  assert (forall d r t, u64 d -> u16 r -> u64 t -> d * r * t = 0 -> accrued_interest d r t = Some 0) as Hz.
  { intros d' r' t' ??? E. unfold accrued_interest, weighted_debt, checked_mul128. range_unfold.
    rewrite fit_in by nia. step_ok.
    destruct (floor_in_range (d' * r') t' INTEREST_DENOM) as [-> _]; range_unfold; rewrite ?E; nia || done. }
  apply verified_asserts_eq; [apply Hz; done || rlia|].
  apply verified_asserts_eq; [apply Hz; done || rlia|].
  apply verified_asserts_eq_last, Hz; done || rlia.
Qed.

Lemma kani_accrued_overflow : verified accrued_fails_closed_on_overflow.
Proof.
  unfold accrued_fails_closed_on_overflow.
  apply verified_asserts_eq; [done|]. apply verified_asserts_eq; [done|].
  apply verified_asserts; [|done]. unfold accrued_interest.
  change (weighted_debt (U128_MAX / 100000) 1) with (Some (U128_MAX / 100000)). step_ok.
  rewrite mul_div_floor_spec by (split; vm_compute; discriminate). done.
Qed.

End math_proofs.

Section stake_proofs.

Lemma kani_neutral_round remaining epoch c0 c1 c2 : u64 remaining -> u64 epoch ->
  u64 c0 -> u64 c1 -> u64 c2 -> verified (neutral_round_conserves_and_saturates remaining epoch c0 c1 c2).
Proof.
  intros Hr He H0 H1 H2. unfold neutral_round_conserves_and_saturates. run.
  destruct (begin_round remaining 3 epoch) as [r|] eqn:Er.
  2:{ unfold begin_round in Er. destruct (Z.eqb_spec remaining 0); [lia | done]. }
  apply begin_round_wf in Er as (Hwf & Erem & En & Es & Eg & Esat & _); [|rlia..].
  eapply verified_unwrap; [done|].
  destruct (step r c0) as [r0 g0] eqn:E0. apply step_spec in E0 as (Hw0 & S0 & K0 & B0 & G0 & T0 & _); [|rlia || done..].
  pose proof S0 as (Q0 & N0 & _).
  destruct (step r0 c1) as [r1 g1] eqn:E1. apply step_spec in E1 as (Hw1 & S1 & K1 & B1 & G1 & T1 & _); [|rlia || done..].
  pose proof S1 as (Q1 & N1 & _).
  destruct (step r1 c2) as [r2 g2] eqn:E2. apply step_spec in E2 as (Hw2 & S2 & K2 & B2 & G2 & T2 & _); [|rlia || done..].
  pose proof S2 as (Q2 & N2 & _).
  destruct (round_progress r2 Hw2) as [Hg Hp]; [lia|].
  pose proof (remainder_bounds r2 Hw2) as Hrb. pose proof Hw2 as [_ _ _ _ Hst _ Hu _ Hsat _].
  rewrite K2, K1, K0, Es, N2, N1, N0, En, window_full in Hu by lia.
  assert (remaining_after r2 = remaining - (g0 + g1 + g2)) as Ea by (unfold remaining_after; rlia).
  apply verified_asserts; [apply Z.leb_le; lia|]. range_unfold. run.
  apply verified_when; [intros ?; propify; run|].
  assert (step r2 7 = (r2, 0)) as ->; [|run].
  unfold step, is_complete. destruct (Z.leb_spec (nr_n_unsaturated r2) (nr_steps r2)); [done | lia].
Qed.

Lemma kani_directed_target p d s cap : u64 p -> u64 d -> u64 s -> u64 cap ->
  verified (directed_target_cap_clamp p d s cap).
Proof.
  intros Hp Hd Hs Hc. unfold directed_target_cap_clamp. range_unfold. cbv zeta.
  assert (directed_target p d s cap <= cap /\ (d <= s -> directed_target p d s cap <= p)) as [? ?].
  { unfold directed_target. destruct (Z.eqb_spec s 0); [lia|]. split; [lia|]. intros Hle.
    assert (0 <= p * d / s <= p) by (split; [apply Z.div_pos | apply Z.div_le_upper_bound]; nia).
    unfold try_u64. rewrite fit_in by lia. cbn. lia. }
  run. apply verified_when; [intros ?; propify; run|]. run.
Qed.

Lemma churn_fold_spec vcap min_action actions : forall budget spent, u64 vcap ->
  Forall (fun '(dev, src, _) => u64 dev /\ u64 src) actions ->
  0 <= budget -> 0 <= spent -> budget + spent <= U64_MAX ->
  exists b s, churn_fold vcap min_action actions budget spent = Finished [] (b, s) /\
    0 <= b /\ 0 <= s /\ b + s = budget + spent.
Proof.
  induction actions as [|[[dev src] drain] actions IH]; intros budget spent Hv Hall Hb Hs Hsum; cbn [churn_fold].
  { eexists _, _. split; [done | lia]. }
  apply Forall_cons in Hall as [[Hd Hsr] Hall]. range_unfold.
  destruct (action_amount_bounds dev budget vcap src min_action drain) as (H1 & H2 & H3 & H4 & H5); [lia..|].
  set (a := action_amount _ _ _ _ _ _) in *. clearbody a.
  assert ((a <=? dev) && (a <=? budget) && (a <=? vcap) && (a <=? src) = true) as -> by lia.
  assert ((a =? 0) || (min_action <=? a) || drain = true) as -> by (destruct drain; lia).
  unfold sub64, add64, checked_sub64, checked_add64. rewrite !fit_in by lia. cbn.
  destruct (IH (budget - a) (spent + a)) as (b & s & -> & ? & ? & ?); [done || lia..|].
  eexists _, _. split; [done | lia].
Qed.

Lemma kani_churn initial vcap min_action actions : u64 initial -> u64 vcap ->
  Forall (fun '(dev, src, _) => u64 dev /\ u64 src) actions ->
  verified (churn_budget_bound_over_fold initial vcap min_action actions).
Proof.
  intros Hi Hv Hall. unfold churn_budget_bound_over_fold. range_unfold.
  destruct (churn_fold_spec vcap min_action actions initial 0) as (b & s & -> & ? & ? & ?); [done || rlia..|].
  apply verified_bind. split; [done|]. intros cs x [= <- <-]. run.
Qed.

Lemma kani_payout r b v : verified (reward_payout_bound r b v).
Proof. unfold reward_payout_bound, payout. cbv zeta. run. Qed.

End stake_proofs.

(** C38: every Kani harness of the arithmetic crates passes, for the shipped 256-bit division
    and, for most, at far wider inputs than the repository can model-check (the source draws
    eight bits): no assertion fails, no [unwrap] panics and no arithmetic overflows in any run. The
    assertions are reached: every [cover!] of every harness is hit by a concrete run. *)
Theorem kani_harnesses_hold : (forall U : U256, KaniVerified (U := U)) /\ kani_covered (U := wide_u256) = true.
Proof.
  split; [|vm_compute; reflexivity]. intros U. split.
  - apply kani_mul_div_floor.
  - apply kani_mul_div_ceil.
  - apply kani_zero_denominator.
  - apply kani_overflow.
  - apply kani_present_debt.
  - apply kani_ray_mul_up.
  - apply kani_apply_bps.
  - apply kani_ray_pow.
  - apply kani_s_idx.
  - apply kani_compute_stake_identity.
  - apply kani_compute_stake.
  - apply kani_offset_drain.
  - apply kani_offset_solvent.
  - apply kani_update_product.
  - apply kani_accumulate.
  - apply kani_single_recipient.
  - apply kani_two_recipients.
  - apply kani_offset_collateral.
  - apply kani_absorb_conserves.
  - apply kani_absorb_ordered.
  - apply kani_accrued_year.
  - apply kani_pending_year.
  - apply kani_never_short.
  - apply kani_zero_boundaries.
  - apply kani_accrued_overflow.
  - apply kani_neutral_round.
  - apply kani_directed_target.
  - apply kani_churn.
  - apply kani_payout.
Qed.
