(* ===== verification/StakeView.v ===== *)
(** * The controller's account views ([crates/fusion-stake-view])

    The byte parsers through which the controller reads accounts it does not own:
    fusd-core's positions, the pool and its validator list, vote accounts and
    user stake accounts. Every reader is bounds-checked: a short or hostile
    buffer is an error value, never a fault. The theorems are the layout round
    trips: what the layout stores is what the parser reads. *)

From S2P Require Import Prelude MachineInt State AccountBytes StakeMath.

Open Scope Z_scope.

(** ** [bytes.rs] *)

Definition blen (data : list Z) : Z := Z.of_nat (length data).

(** [data.get(off..end)]; offsets are [usize], 64 bits wide. *)
Definition get_range (data : list Z) (off stop : Z) : option (list Z) :=
  if (off <=? stop) && (stop <=? blen data)
  then Some (read_bytes data (Z.to_nat off) (Z.to_nat (stop - off))) else None.

Definition u8_at (data : list Z) (off : Z) : option Z :=
  if off <? blen data then data !! Z.to_nat off else None.

Definition uint_le (width : Z) (data : list Z) (off : Z) : option Z :=
  stop ← checked_add64 off width;
  bytes ← get_range data off stop;
  Some (le_value bytes).

Definition u32_le (data : list Z) (off : Z) : option Z := uint_le 4 data off.
Definition u64_le (data : list Z) (off : Z) : option Z := uint_le 8 data off.
Definition i64_le (data : list Z) (off : Z) : option Z := as_i64 <$> uint_le 8 data off.
Definition array32 (data : list Z) (off : Z) : option Pubkey := uint_le 32 data off.

(** ** [position.rs] *)

Module PositionBytes.

Inductive Error := TooShort | BadDiscriminator.

Definition POSITION_DISCRIMINATOR : list Z := [170; 188; 143; 228; 122; 64; 247; 208].

Definition parse (data : list Z) : result Error PositionView :=
  if blen data <? 213 then Err TooShort
  else if negb (bool_decide (read_bytes data 0 8 = POSITION_DISCRIMINATOR)) then Err BadDiscriminator
  else
    o ← ok_or (array32 data 8) TooShort;
    mint ← ok_or (array32 data 40) TooShort;
    i ← ok_or (u64_le data 72) TooShort;
    nonce ← ok_or (u64_le data 181) TooShort;
    Ok (mkPositionView o mint i nonce).

End PositionBytes.

(** ** [stake_account.rs] *)

Definition delegation_voter (data : list Z) : option Pubkey :=
  tag ← u32_le data 0;
  if negb (tag =? 2) then None else array32 data 124.

(** ** [stake_pool.rs] *)

Module PoolBytes.

Inductive Error := TooShort | NotStakePool.

Record Lockup := mkLockup { lk_unix_timestamp : Z; lk_epoch : Z; lk_custodian : Pubkey }.
Record Fee := mkFee { fee_denominator : Z; fee_numerator : Z }.

Record StakePoolView := mkStakePoolView {
  pw_manager : Pubkey;
  pw_staker : Pubkey;
  pw_stake_deposit_authority : Pubkey;
  pw_stake_withdraw_bump_seed : Z;
  pw_validator_list : Pubkey;
  pw_reserve_stake : Pubkey;
  pw_pool_mint : Pubkey;
  pw_manager_fee_account : Pubkey;
  pw_token_program : Pubkey;
  pw_total_lamports : Z;
  pw_pool_token_supply : Z;
  pw_last_update_epoch : Z;
  pw_lockup : Lockup;
  pw_epoch_fee : Fee;
}.

Definition parse (data : list Z) : result Error StakePoolView :=
  if blen data <? 346 then Err TooShort
  else if negb (bool_decide (data !! 0%nat = Some 1)) then Err NotStakePool
  else
    let read32 off := ok_or (array32 data off) TooShort in
    let read_u64 off := ok_or (u64_le data off) TooShort in
    manager ← read32 1;
    staker ← read32 33;
    deposit_authority ← read32 65;
    bump ← ok_or (u8_at data 97) TooShort;
    validator_list ← read32 98;
    reserve_stake ← read32 130;
    pool_mint ← read32 162;
    manager_fee_account ← read32 194;
    token_program ← read32 226;
    total ← read_u64 258;
    supply ← read_u64 266;
    last_update_epoch ← read_u64 274;
    lock_ts ← ok_or (i64_le data 282) TooShort;
    lock_epoch ← read_u64 290;
    custodian ← read32 298;
    fee_den ← read_u64 330;
    fee_num ← read_u64 338;
    Ok (mkStakePoolView manager staker deposit_authority bump validator_list reserve_stake pool_mint
          manager_fee_account token_program total supply last_update_epoch
          (mkLockup lock_ts lock_epoch custodian) (mkFee fee_den fee_num)).

End PoolBytes.

(** ** [validator_list.rs] *)

Module ListBytes.

Inductive Error := TooShort | NotValidatorList | EntriesTruncated.

Abbreviation ENTRIES_OFFSET := 9.
Abbreviation ENTRY_LEN := 73.

Record Header := mkHeader { lh_max_validators : Z; lh_len : Z }.

Inductive StakeStatus :=
  SActive | DeactivatingTransient | ReadyForRemoval | DeactivatingValidator | DeactivatingAll.

Definition stake_status_from_u8 (v : Z) : option StakeStatus :=
  match v with
  | 0 => Some SActive
  | 1 => Some DeactivatingTransient
  | 2 => Some ReadyForRemoval
  | 3 => Some DeactivatingValidator
  | 4 => Some DeactivatingAll
  | _ => None
  end.

Record ValidatorEntry := mkValidatorEntry {
  ve_active_stake_lamports : Z;
  ve_transient_stake_lamports : Z;
  ve_last_update_epoch : Z;
  ve_transient_seed_suffix : Z;
  ve_validator_seed_suffix : Z;
  ve_status : Z;
  ve_vote_account_address : Pubkey;
}.

(** [len * 73 + 9] fits [u64] for every [u32] length, so the checked products never fail. *)
Definition parse_header (data : list Z) : result Error Header :=
  if blen data <? ENTRIES_OFFSET then Err TooShort
  else if negb (bool_decide (data !! 0%nat = Some 2)) then Err NotValidatorList
  else
    max_validators ← ok_or (u32_le data 1) TooShort;
    len ← ok_or (u32_le data 5) TooShort;
    declared_end ← ok_or (b ← fit U64_MAX (len * ENTRY_LEN); checked_add64 b ENTRIES_OFFSET) EntriesTruncated;
    if blen data <? declared_end then Err EntriesTruncated
    else Ok (mkHeader max_validators len).

Definition entry_at (data : list Z) (i : Z) : option ValidatorEntry :=
  match parse_header data with
  | Err _ => None
  | Ok header =>
      if lh_len header <=? i then None
      else
        base ← (b ← fit U64_MAX (i * ENTRY_LEN); checked_add64 ENTRIES_OFFSET b);
        active ← u64_le data base;
        transient ← (o ← checked_add64 base 8; u64_le data o);
        last ← (o ← checked_add64 base 16; u64_le data o);
        tseed ← (o ← checked_add64 base 24; u64_le data o);
        vseed ← (o ← checked_add64 base 36; u32_le data o);
        status ← (o ← checked_add64 base 40; u8_at data o);
        vote ← (o ← checked_add64 base 41; array32 data o);
        Some (mkValidatorEntry active transient last tseed vseed status vote)
  end.

End ListBytes.

(** ** [vote_state.rs] *)

Module VoteBytes.

Inductive Error := TooShort | UnsupportedVersion | Malformed.

Record VoteSample := mkVoteSample {
  vs_commission : Z;
  vs_prior_epoch_credit_growth : bool;
  vs_freshness_slot : Z;
}.

Definition ensure_within (data : list Z) (stop : Z) : result Error unit :=
  if stop <=? blen data then Ok tt else Err TooShort.

Definition checked_mul64 (a b : Z) : option Z := fit U64_MAX (a * b).

(** The end of [count] entries of [width] bytes after the count at [cur]. *)
Definition entries_end (cur count width : Z) : result Error Z :=
  start ← ok_or (checked_add64 cur 8) Malformed;
  total ← ok_or (checked_mul64 count width) Malformed;
  ok_or (checked_add64 start total) Malformed.

Definition skip_counted (data : list Z) (cur entry_bytes : Z) : result Error Z :=
  count ← ok_or (u64_le data cur) TooShort;
  stop ← entries_end cur count entry_bytes;
  _ ← ensure_within data stop;
  Ok stop.

(** The [while entry < credits_end] loop. It advances by 24 and [credits_end] is
    [count * 24] after its start, so [count] bounds its iterations exactly. *)
Fixpoint scan_credits (count : nat) (data : list Z) (prior_epoch entry credits_end : Z) (growth : bool)
    : result Error bool :=
  match count with
  | O => Ok growth
  | S count =>
      if entry <? credits_end then
        epoch ← ok_or (u64_le data entry) TooShort;
        growth ← (if epoch =? prior_epoch then
                    credits_off ← ok_or (checked_add64 entry 8) Malformed;
                    credits ← ok_or (u64_le data credits_off) TooShort;
                    prev_off ← ok_or (checked_add64 entry 16) Malformed;
                    prev_credits ← ok_or (u64_le data prev_off) TooShort;
                    Ok (prev_credits <? credits)
                  else Ok growth);
        entry ← ok_or (checked_add64 entry 24) Malformed;
        scan_credits count data prior_epoch entry credits_end growth
      else Ok growth
  end.

(** The [Option<u64>] of [root_slot] at [cur]. *)
Definition skip_option (data : list Z) (cur : Z) : result Error Z :=
  opt_tag ← ok_or (u8_at data cur) TooShort;
  cur ← ok_or (checked_add64 cur 1) Malformed;
  match opt_tag with
  | 0 => Ok cur
  | 1 =>
      cur ← ok_or (checked_add64 cur 8) Malformed;
      _ ← ensure_within data cur;
      Ok cur
  | _ => Err Malformed
  end.

(** The slot of the last tower entry, which ends at [votes_end]. *)
Definition last_vote (data : list Z) (vote_count votes_end entry_bytes : Z) (has_latency : bool)
    : result Error (option Z) :=
  if 0 <? vote_count then
    slot_off ← ok_or (o ← checked_sub64 votes_end entry_bytes;
                      checked_add64 o (if has_latency then 1 else 0)) Malformed;
    slot ← ok_or (u64_le data slot_off) TooShort;
    Ok (Some slot)
  else Ok None.

Definition parse (data : list Z) (prior_epoch : Z) : result Error VoteSample :=
  tag ← ok_or (u32_le data 0) TooShort;
  has_latency ← (match tag with 1 => Ok false | 2 => Ok true | _ => Err UnsupportedVersion end);
  commission ← ok_or (u8_at data 68) TooShort;
  vote_count ← ok_or (u64_le data 69) TooShort;
  let entry_bytes := if (has_latency : bool) then 13 else 12 in
  votes_end ← entries_end 69 vote_count entry_bytes;
  _ ← ensure_within data votes_end;
  last_vote_slot ← last_vote data vote_count votes_end entry_bytes has_latency;
  cur ← skip_option data votes_end;
  cur ← skip_counted data cur 40;
  cur ← ok_or (checked_add64 cur 1545) Malformed;
  _ ← ensure_within data cur;
  credit_count ← ok_or (u64_le data cur) TooShort;
  credits_end ← entries_end cur credit_count 24;
  _ ← ensure_within data credits_end;
  entry ← ok_or (checked_add64 cur 8) Malformed;
  growth ← scan_credits (Z.to_nat credit_count) data prior_epoch entry credits_end false;
  last_timestamp_slot ← ok_or (u64_le data credits_end) TooShort;
  stop ← ok_or (checked_add64 credits_end 16) Malformed;
  _ ← ensure_within data stop;
  let freshness_slot :=
    match last_vote_slot with
    | Some slot => Z.max slot last_timestamp_slot
    | None => last_timestamp_slot
    end in
  Ok (mkVoteSample commission growth freshness_slot).

End VoteBytes.

(** ** Layouts: where bytes sit in a buffer *)

Definition sits (data : list Z) (off : Z) (bytes : list Z) : Prop :=
  exists pre suf, data = pre ++ bytes ++ suf /\ off = blen pre.

Lemma blen_app a b : blen (a ++ b) = blen a + blen b.
Proof. unfold blen. rewrite length_app. lia. Qed.

Lemma blen_le n v : blen (le_bytes n v) = Z.of_nat n.
Proof. unfold blen. by rewrite length_le_bytes. Qed.

Lemma blen_nonneg l : 0 <= blen l.
Proof. unfold blen. lia. Qed.

Lemma sits_whole bytes tail : sits (bytes ++ tail) 0 bytes.
Proof. by exists [], tail. Qed.

Lemma sits_at data off off' bytes : sits data off bytes -> off = off' -> sits data off' bytes.
Proof. by intros ? <-. Qed.

Lemma sits_app data off a b : sits data off (a ++ b) -> sits data off a /\ sits data (off + blen a) b.
Proof.
  intros (pre & suf & -> & ->). split.
  - exists pre, (b ++ suf). by rewrite <- !app_assoc.
  - exists (pre ++ a), suf. rewrite blen_app. by rewrite <- !app_assoc.
Qed.

Lemma sits_bound data off bytes : sits data off bytes -> 0 <= off /\ off + blen bytes <= blen data.
Proof.
  intros (pre & suf & -> & ->). rewrite !blen_app.
  pose proof (blen_nonneg pre). pose proof (blen_nonneg suf). lia.
Qed.

Lemma sits_read data off bytes : sits data off bytes ->
  read_bytes data (Z.to_nat off) (length bytes) = bytes.
Proof.
  intros (pre & suf & -> & ->). unfold read_bytes, blen. rewrite Nat2Z.id.
  by rewrite drop_app_length, take_app_length.
Qed.

Lemma sits_uint data off n v : sits data off (le_bytes n v) -> blen data <= U64_MAX ->
  0 <= v < 256 ^ Z.of_nat n -> uint_le (Z.of_nat n) data off = Some v.
Proof.
  intros H Hd Hv. pose proof (sits_bound _ _ _ H) as [H0 H1]. rewrite blen_le in H1.
  unfold uint_le, checked_add64. rewrite fit_in by lia. cbn [mbind option_bind].
  unfold get_range. destruct (Z.leb_spec off (off + Z.of_nat n)), (Z.leb_spec (off + Z.of_nat n) (blen data)); try lia.
  cbn [andb mbind option_bind]. replace (off + Z.of_nat n - off) with (Z.of_nat n) by lia.
  apply sits_read in H. rewrite length_le_bytes in H. rewrite Nat2Z.id, H.
  by rewrite le_value_bytes.
Qed.

Lemma sits_u64 data off v : sits data off (le_bytes 8 v) -> blen data <= U64_MAX -> u64 v ->
  u64_le data off = Some v.
Proof. intros. apply (sits_uint _ _ 8); [done | done | rlia]. Qed.

Lemma sits_u32 data off v : sits data off (le_bytes 4 v) -> blen data <= U64_MAX -> u32 v ->
  u32_le data off = Some v.
Proof. intros. apply (sits_uint _ _ 4); [done | done | rlia]. Qed.

Lemma sits_key data off v : sits data off (le_bytes 32 v) -> blen data <= U64_MAX -> is_key v ->
  array32 data off = Some v.
Proof. intros. by apply (sits_uint _ _ 32). Qed.

Lemma sits_u8 data off v : sits data off [v] -> u8_at data off = Some v.
Proof.
  intros H. pose proof (sits_bound _ _ _ H) as [H0 H1]. change (blen [v]) with 1 in H1.
  unfold u8_at. destruct (Z.ltb_spec off (blen data)); [|lia].
  destruct H as (pre & suf & -> & ->). unfold blen. rewrite Nat2Z.id.
  by apply list_lookup_middle.
Qed.

(** A run of entries of one width. *)
Definition entries {A} (f : A -> list Z) (xs : list A) : list Z := concat (f <$> xs).

Section entries_facts.
Context {A : Type} (f : A -> list Z) (w : Z) (Hw : forall x, blen (f x) = w).

Lemma blen_entries xs : blen (entries f xs) = Z.of_nat (length xs) * w.
Proof using Hw.
  unfold entries. induction xs as [|x xs IH]; [done|]. cbn [fmap list_fmap concat length].
  rewrite blen_app, Hw, IH. lia.
Qed.

Lemma sits_entry data off xs i x : sits data off (entries f xs) -> xs !! i = Some x ->
  sits data (off + Z.of_nat i * w) (f x).
Proof using Hw.
  revert off i. unfold entries.
  induction xs as [|x' xs IH]; intros off [|i] H Hi; try discriminate Hi.
  - cbn in Hi. injection Hi as ->. apply sits_app in H as [H _].
    replace (off + Z.of_nat 0 * w) with off by lia. done.
  - cbn in Hi. cbn [fmap list_fmap concat] in H. apply sits_app in H as [_ H]. rewrite Hw in H.
    specialize (IH _ _ H Hi). by replace (off + Z.of_nat (S i) * w) with (off + w + Z.of_nat i * w) by lia.
Qed.

Lemma sits_cons data off x xs : sits data off (entries f (x :: xs)) ->
  sits data off (f x) /\ sits data (off + w) (entries f xs).
Proof using Hw. intros H. apply sits_app in H. by rewrite Hw in H. Qed.

End entries_facts.

(** Split where a concatenation sits into where its parts sit. *)
Ltac sits_split H :=
  lazymatch type of H with
  | sits _ _ (_ ++ _) =>
      let H1 := fresh "At" in let H2 := fresh "At" in
      apply sits_app in H as [H1 H2];
      rewrite ?blen_app, ?blen_le in H2; sits_split H2
  | _ => idtac
  end.

(** The facts of a layout, as the readers use them. *)
Ltac read_at :=
  repeat first
    [ erewrite sits_u64 by eassumption | erewrite sits_u32 by eassumption
    | erewrite sits_key by eassumption | erewrite sits_u8 by eassumption ];
  step_ok.

(** *** A position, as fusd-core's Borsh serializer writes it ([state/position.rs]) *)

Definition position_bytes (p : Position) (bump : Z) (reserved : list Z) : list Z :=
  PositionBytes.POSITION_DISCRIMINATOR ++ le_bytes 32 (owner p) ++ le_bytes 32 (pos_collateral_mint p)
  ++ le_bytes 8 (ink p) ++ le_bytes 16 (recorded_debt p) ++ le_bytes 2 (user_rate_bps p) ++ le_bytes 1 bump
  ++ le_bytes 8 (last_debt_update p) ++ le_bytes 16 (stake p) ++ le_bytes 16 (redist_l_coll_snapshot p)
  ++ le_bytes 16 (redist_l_art_snapshot p) ++ le_bytes 8 (pos_reserve_lamports p) ++ le_bytes 2 (bucket p)
  ++ le_bytes 8 (coll_surplus p) ++ le_bytes 8 (last_rate_adjust_ts p) ++ le_bytes 8 (ink_nonce p)
  ++ reserved.

Definition position_view (p : Position) : PositionView :=
  mkPositionView (owner p) (pos_collateral_mint p) (ink p) (ink_nonce p).

Lemma position_view_roundtrip p bump reserved tail :
  length reserved = 24%nat -> is_key (owner p) -> is_key (pos_collateral_mint p) ->
  u64 (ink p) -> u64 (ink_nonce p) -> 213 + blen tail <= U64_MAX ->
  PositionBytes.parse (position_bytes p bump reserved ++ tail) = Ok (position_view p).
Proof.
  intros Hr Ho Hm Hi Hn Ht.
  assert (blen (position_bytes p bump reserved ++ tail) = 213 + blen tail) as Hl.
  { unfold position_bytes. rewrite !blen_app, !blen_le.
    change (blen PositionBytes.POSITION_DISCRIMINATOR) with 8. unfold blen at 1. lia. }
  pose proof (sits_whole (position_bytes p bump reserved) tail) as H.
  set (data := position_bytes p bump reserved ++ tail) in *.
  assert (blen data <= U64_MAX) as Hd by lia. pose proof (blen_nonneg tail).
  unfold position_bytes in H. sits_split H. 
  change (blen PositionBytes.POSITION_DISCRIMINATOR) with 8 in *.
  apply sits_read in At. cbn [length PositionBytes.POSITION_DISCRIMINATOR] in At.
  unfold PositionBytes.parse. destruct (Z.ltb_spec (blen data) 213); [lia|].
  change (Z.to_nat 0) with 0%nat in At. rewrite bool_decide_true by exact At. cbn [negb].
  repeat match goal with
  | H : sits data ?o _ |- _ => let o' := eval vm_compute in o in progress (change o with o' in H)
  end.
  read_at. done.
Qed.

(** *** The validator list, as the pool's Borsh serializer writes it *)

Definition entry_bytes (e : ListBytes.ValidatorEntry) (unused : Z) : list Z :=
  le_bytes 8 (ListBytes.ve_active_stake_lamports e) ++ le_bytes 8 (ListBytes.ve_transient_stake_lamports e)
  ++ le_bytes 8 (ListBytes.ve_last_update_epoch e) ++ le_bytes 8 (ListBytes.ve_transient_seed_suffix e)
  ++ le_bytes 4 unused ++ le_bytes 4 (ListBytes.ve_validator_seed_suffix e)
  ++ [ListBytes.ve_status e] ++ le_bytes 32 (ListBytes.ve_vote_account_address e).

Definition entry_wf (e : ListBytes.ValidatorEntry) : Prop :=
  u64 (ListBytes.ve_active_stake_lamports e) /\ u64 (ListBytes.ve_transient_stake_lamports e) /\
  u64 (ListBytes.ve_last_update_epoch e) /\ u64 (ListBytes.ve_transient_seed_suffix e) /\
  u32 (ListBytes.ve_validator_seed_suffix e) /\ is_key (ListBytes.ve_vote_account_address e).

Definition list_bytes (max_validators : Z) (es : list (ListBytes.ValidatorEntry * Z)) : list Z :=
  [2] ++ le_bytes 4 max_validators ++ le_bytes 4 (Z.of_nat (length es)) ++
  entries (fun eu => entry_bytes eu.1 eu.2) es.

Lemma blen_entry e u : blen (entry_bytes e u) = 73.
Proof. unfold entry_bytes. rewrite !blen_app, !blen_le. done. Qed.

Lemma list_header_roundtrip max_validators es tail :
  u32 max_validators -> u32 (Z.of_nat (length es)) -> blen (list_bytes max_validators es ++ tail) <= U64_MAX ->
  ListBytes.parse_header (list_bytes max_validators es ++ tail)
    = Ok (ListBytes.mkHeader max_validators (Z.of_nat (length es))).
Proof.
  intros Hm Hn Hd. pose proof (sits_whole (list_bytes max_validators es) tail) as H.
  pose proof (blen_app (list_bytes max_validators es) tail) as Hl. pose proof (blen_nonneg tail).
  assert (blen (list_bytes max_validators es) = 9 + 73 * Z.of_nat (length es)) as Hb.
  { unfold list_bytes. rewrite !blen_app, !blen_le, (blen_entries _ 73) by (intros; apply blen_entry).
    change (blen [2]) with 1. lia. }
  assert ((list_bytes max_validators es ++ tail) !! 0%nat = Some 2) as Hz by done.
  set (data := list_bytes max_validators es ++ tail) in *. unfold list_bytes in H. sits_split H.
  change (0 + blen [2]) with 1 in *. cbn [Z.add Z.of_nat] in *.
  unfold ListBytes.parse_header. destruct (Z.ltb_spec (blen data) 9); [lia|].
  rewrite Hz, bool_decide_true by done. cbn [negb].
  change (1 + Z.pos (Pos.of_succ_nat 3)) with 5 in *. read_at.
  rewrite fit_in by rlia. cbn [mbind option_bind]. unfold checked_add64. rewrite fit_in by rlia. step_ok.
  destruct (Z.ltb_spec (blen data) (Z.of_nat (length es) * 73 + 9)); [lia | done].
Qed.

(** The validator list reads back entry by entry: the [i]-th entry of the parsed
    list is the [i]-th entry stored, whatever the pre-allocated capacity behind it
    holds, and every index past the stored length is refused. *)
Lemma validator_list_roundtrip max_validators es tail i :
  u32 max_validators -> u32 (Z.of_nat (length es)) -> Forall (fun eu => entry_wf eu.1) es ->
  blen (list_bytes max_validators es ++ tail) <= U64_MAX -> 0 <= i ->
  ListBytes.entry_at (list_bytes max_validators es ++ tail) i = fst <$> (es !! Z.to_nat i).
Proof.
  intros Hm Hn Hwf Hd Hi. unfold ListBytes.entry_at. rewrite list_header_roundtrip by done. cbn [ListBytes.lh_len].
  destruct (Z.leb_spec (Z.of_nat (length es)) i) as [Hge|Hlt].
  { rewrite lookup_ge_None_2 by lia. done. }
  destruct (lookup_lt_is_Some_2 es (Z.to_nat i)) as [[e u] He]; [lia|]. rewrite He. cbn [fmap option_fmap option_map fst].
  pose proof (Forall_lookup_1 _ _ _ _ Hwf He) as (W1 & W2 & W3 & W4 & W5 & W6). cbn [fst] in *.
  pose proof (sits_whole (list_bytes max_validators es) tail) as H.
  set (data := list_bytes max_validators es ++ tail) in *. unfold list_bytes in H. sits_split H.
  match goal with H : sits _ _ (entries _ es) |- _ => rename H into Hes end.
  apply (sits_entry _ 73 (fun eu => blen_entry eu.1 eu.2) _ _ _ _ _ Hes) in He. cbn [fst snd] in He. change (0 + blen [2] + Z.of_nat 4 + Z.of_nat 4) with 9 in He.
  replace (9 + Z.of_nat (Z.to_nat i) * 73) with (9 + i * 73) in He by lia.
  pose proof (sits_bound _ _ _ He) as [_ Hb]. rewrite blen_entry in Hb.
  rewrite (fit_in U64_MAX (i * 73)) by rlia. cbn [mbind option_bind].
  unfold checked_add64. rewrite (fit_in U64_MAX (9 + i * 73)) by rlia. cbn [mbind option_bind].
  unfold entry_bytes in He. sits_split He. change (blen [ListBytes.ve_status e]) with 1 in *.
  set (base := 9 + i * 73) in *.
  repeat (rewrite (fit_in U64_MAX (base + _)) by rlia). cbn [mbind option_bind].
  rewrite <- ?Z.add_assoc in *.
  repeat match goal with
  | H : sits data (base + ?k) _ |- _ => let k' := eval vm_compute in k in progress (change k with k' in H)
  end.
  read_at. by destruct e.
Qed.

(** *** A vote account, as bincode writes it *)

Record VoteAccount := mkVoteAccount {
  va_latency : bool;
  va_node : Pubkey;
  va_withdrawer : Pubkey;
  va_commission : Z;
  va_votes : list (Z * Z * Z);       (* latency, slot, confirmations; oldest first *)
  va_root : option Z;
  va_voters : list (Z * Pubkey);
  va_prior_voters : list Z;
  va_credits : list (Z * Z * Z);     (* epoch, credits, credits before *)
  va_ts_slot : Z;
  va_timestamp : Z;
}.

Definition landed_bytes (latency : bool) (v : Z * Z * Z) : list Z :=
  (if latency then le_bytes 1 v.1.1 else []) ++ le_bytes 8 v.1.2 ++ le_bytes 4 v.2.
Definition voter_bytes (v : Z * Pubkey) : list Z := le_bytes 8 v.1 ++ le_bytes 32 v.2.
Definition credit_bytes (c : Z * Z * Z) : list Z := le_bytes 8 c.1.1 ++ le_bytes 8 c.1.2 ++ le_bytes 8 c.2.
Definition root_bytes (r : option Z) : list Z :=
  match r with None => [0] | Some s => [1] ++ le_bytes 8 s end.

Definition vote_bytes (v : VoteAccount) : list Z :=
  le_bytes 4 (if va_latency v then 2 else 1) ++ le_bytes 32 (va_node v) ++ le_bytes 32 (va_withdrawer v)
  ++ [va_commission v]
  ++ le_bytes 8 (Z.of_nat (length (va_votes v))) ++ entries (landed_bytes (va_latency v)) (va_votes v)
  ++ root_bytes (va_root v)
  ++ le_bytes 8 (Z.of_nat (length (va_voters v))) ++ entries voter_bytes (va_voters v)
  ++ va_prior_voters v
  ++ le_bytes 8 (Z.of_nat (length (va_credits v))) ++ entries credit_bytes (va_credits v)
  ++ le_bytes 8 (va_ts_slot v) ++ le_bytes 8 (va_timestamp v).

(** What the eligibility check is after. *)
Definition credit_growth (prior_epoch : Z) (credits : list (Z * Z * Z)) (acc : bool) : bool :=
  foldl (fun g c => if c.1.1 =? prior_epoch then c.2 <? c.1.2 else g) acc credits.

Definition vote_sample (v : VoteAccount) (prior_epoch : Z) : VoteBytes.VoteSample :=
  VoteBytes.mkVoteSample (va_commission v) (credit_growth prior_epoch (va_credits v) false)
    (match last (va_votes v) with
     | Some vote => Z.max vote.1.2 (va_ts_slot v)
     | None => va_ts_slot v
     end).

Record vote_wf (v : VoteAccount) : Prop := {
  vw_votes : Forall (fun x => u64 x.1.2) (va_votes v);
  vw_credits : Forall (fun c => u64 c.1.1 /\ u64 c.1.2 /\ u64 c.2) (va_credits v);
  vw_prior : blen (va_prior_voters v) = 1545;
  vw_ts : u64 (va_ts_slot v);
}.

Lemma blen_landed latency v : blen (landed_bytes latency v) = if latency then 13 else 12.
Proof. unfold landed_bytes. rewrite !blen_app, !blen_le. by destruct latency; rewrite ?blen_le. Qed.
Lemma blen_voter v : blen (voter_bytes v) = 40.
Proof. unfold voter_bytes. by rewrite !blen_app, !blen_le. Qed.
Lemma blen_credit v : blen (credit_bytes v) = 24.
Proof. unfold credit_bytes. by rewrite !blen_app, !blen_le. Qed.

Lemma scan_credits_run credits : forall data prior entry growth, blen data <= U64_MAX ->
  sits data entry (entries credit_bytes credits) ->
  Forall (fun c => u64 c.1.1 /\ u64 c.1.2 /\ u64 c.2) credits ->
  VoteBytes.scan_credits (length credits) data prior entry (entry + Z.of_nat (length credits) * 24) growth
    = Ok (credit_growth prior credits growth).
Proof.
  induction credits as [|c cs IH]; intros data prior entry growth Hd H Hwf; [done|].
  apply Forall_cons in Hwf as [(W1 & W2 & W3) Hwf].
  apply (sits_cons _ 24 blen_credit) in H as [Hc H].
  pose proof (sits_bound _ _ _ Hc) as [? Hb]. rewrite blen_credit in Hb.
  unfold credit_bytes in Hc. apply sits_app in Hc as [A1 A2]. apply sits_app in A2 as [A2 A3].
  rewrite !blen_le in *. rewrite <- Z.add_assoc in A3.
  change (Z.of_nat 8 + Z.of_nat 8) with 16 in A3. change (Z.of_nat 8) with 8 in A2.
  cbn [length VoteBytes.scan_credits].
  destruct (Z.ltb_spec entry (entry + Z.of_nat (S (length cs)) * 24)); [|lia].
  unfold checked_add64. rewrite !(fit_in U64_MAX (entry + _)) by lia. step_ok.
  read_at. destruct (c.1.1 =? prior) eqn:E; step_ok.
  all: replace (entry + Z.of_nat (S (length cs)) * 24) with (entry + 24 + Z.of_nat (length cs) * 24) by lia;
    rewrite IH by done; unfold credit_growth; cbn [foldl]; by rewrite E.
Qed.

Lemma add64_run a b : 0 <= a + b <= U64_MAX -> checked_add64 a b = Some (a + b).
Proof. intros. by apply fit_in. Qed.

(** [entries_end] over a run of entries that sits in the buffer. *)
Lemma entries_end_run cur count width data : 0 <= cur -> 0 <= count -> 0 <= width ->
  cur + 8 + count * width <= blen data -> blen data <= U64_MAX ->
  VoteBytes.entries_end cur count width = Ok (cur + 8 + count * width).
Proof.
  intros. assert (0 <= count * width) by (apply Z.mul_nonneg_nonneg; lia).
  unfold VoteBytes.entries_end, VoteBytes.checked_mul64, checked_add64.
  rewrite !fit_in by lia. step_ok. rewrite fit_in by lia. done.
Qed.

Lemma ensure_run data stop : stop <= blen data -> VoteBytes.ensure_within data stop = Ok tt.
Proof. intros. unfold VoteBytes.ensure_within. destruct (Z.leb_spec stop (blen data)); [done | lia]. Qed.

Lemma skip_option_run data cur r : blen data <= U64_MAX -> sits data cur (root_bytes r) ->
  VoteBytes.skip_option data cur = Ok (cur + blen (root_bytes r)).
Proof.
  intros Hd H. pose proof (sits_bound _ _ _ H) as [? Hb]. destruct r as [s|]; cbn [root_bytes] in *.
  - apply sits_app in H as [H _]. rewrite blen_app, blen_le in *. change (blen [1]) with 1 in *.
    change (Z.of_nat 8) with 8 in *. unfold VoteBytes.skip_option. read_at. unfold checked_add64.
    rewrite fit_in by lia. step_ok. rewrite fit_in by lia. step_ok. rewrite ensure_run by lia.
    by rewrite <- Z.add_assoc.
  - change (blen [0]) with 1 in *. unfold VoteBytes.skip_option. read_at. unfold checked_add64.
    rewrite fit_in by lia. done.
Qed.

Lemma skip_counted_run {A} (f : A -> list Z) w xs data cur : (forall x, blen (f x) = w) -> 0 <= w ->
  blen data <= U64_MAX -> sits data cur (le_bytes 8 (Z.of_nat (length xs))) ->
  sits data (cur + 8) (entries f xs) -> Z.of_nat (length xs) <= U64_MAX ->
  VoteBytes.skip_counted data cur w = Ok (cur + 8 + Z.of_nat (length xs) * w).
Proof.
  intros Hf Hw Hd H He Hn. pose proof (sits_bound _ _ _ H) as [? _].
  pose proof (sits_bound _ _ _ He) as [_ Hb]. rewrite (blen_entries f w Hf) in Hb.
  assert (u64 (Z.of_nat (length xs))) by rlia.
  unfold VoteBytes.skip_counted. read_at. rewrite (entries_end_run _ _ _ data) by lia. step_ok.
  rewrite ensure_run by lia. done.
Qed.

(** The slot of the last vote of a tower that sits at offset 77. *)
Lemma last_vote_run data (latency : bool) votes (w := if latency then 13 else 12) : blen data <= U64_MAX ->
  sits data 77 (entries (landed_bytes latency) votes) -> Forall (fun x => u64 x.1.2) votes ->
  VoteBytes.last_vote data (Z.of_nat (length votes)) (77 + Z.of_nat (length votes) * w) w latency
    = Ok ((fun v : Z * Z * Z => v.1.2) <$> last votes).
Proof.
  intros Hd H Hv. destruct votes as [|v vs _] using rev_ind; [done|].
  unfold VoteBytes.last_vote. rewrite length_app in *. cbn [length] in *. destruct (Z.ltb_spec 0 (Z.of_nat (length vs + 1))); [|lia].
  assert (0 <= w) by (unfold w; destruct latency; lia).
  pose proof (sits_entry _ w (blen_landed latency) _ _ _ (length vs) v H (list_lookup_middle _ _ _ _ eq_refl)) as Hs.
  apply Forall_app in Hv as [_ Hv]. apply Forall_cons in Hv as [Hv _].
  pose proof (sits_bound _ _ _ Hs) as [_ Hb]. rewrite blen_landed in Hb. fold w in Hb.
  assert (0 <= Z.of_nat (length vs) * w) by (apply Z.mul_nonneg_nonneg; lia).
  unfold checked_sub64, checked_add64.
  rewrite (fit_in U64_MAX (77 + _ - w)) by lia. cbn [mbind option_bind].
  assert ((if latency then 1 else 0) <= w) by (unfold w; destruct latency; lia).
  rewrite (fit_in U64_MAX (_ + (if latency then 1 else 0))) by (destruct latency; lia). step_ok.
  replace (77 + Z.of_nat (length vs + 1) * w - w) with (77 + Z.of_nat (length vs) * w) by lia.
  rewrite last_snoc. unfold landed_bytes in Hs. destruct latency.
  - sits_split Hs. change (Z.of_nat 1) with 1 in *. read_at. done.
  - cbn [app] in Hs. sits_split Hs. rewrite Z.add_0_r. read_at. done.
Qed.

(** Offsets of the variable-width part, from the lengths of the collections. *)
Lemma vote_layout v tail (w := if va_latency v then 13 else 12) (data := vote_bytes v ++ tail) :
  blen (va_prior_voters v) = 1545 ->
  let votes_end := 77 + Z.of_nat (length (va_votes v)) * w in
  let voters := votes_end + blen (root_bytes (va_root v)) in
  let credits := voters + 8 + Z.of_nat (length (va_voters v)) * 40 + 1545 in
  let stop := credits + 8 + Z.of_nat (length (va_credits v)) * 24 in
  sits data 0 (le_bytes 4 (if va_latency v then 2 else 1)) /\ sits data 68 [va_commission v] /\
  sits data 69 (le_bytes 8 (Z.of_nat (length (va_votes v)))) /\
  sits data 77 (entries (landed_bytes (va_latency v)) (va_votes v)) /\
  sits data votes_end (root_bytes (va_root v)) /\
  sits data voters (le_bytes 8 (Z.of_nat (length (va_voters v)))) /\
  sits data (voters + 8) (entries voter_bytes (va_voters v)) /\
  sits data credits (le_bytes 8 (Z.of_nat (length (va_credits v)))) /\
  sits data (credits + 8) (entries credit_bytes (va_credits v)) /\
  sits data stop (le_bytes 8 (va_ts_slot v)) /\ stop + 16 <= blen data.
Proof.
  intros Hp. cbv zeta. pose proof (sits_whole (vote_bytes v) tail) as H. fold data in H.
  unfold vote_bytes in H. repeat match goal with
  | H : sits data _ (_ ++ _) |- _ => apply sits_app in H; destruct H
  end.
  rewrite ?blen_app, ?blen_le, ?(blen_entries _ _ (blen_landed (va_latency v))), ?(blen_entries _ _ blen_voter),
    ?(blen_entries _ _ blen_credit), ?Hp in *.
  change (blen [va_commission v]) with 1 in *. change (Z.of_nat 8) with 8 in *.
  change (Z.of_nat 4) with 4 in *. change (Z.of_nat 32) with 32 in *. subst w.
  split_and!; try (eapply sits_at; [eassumption | lia]).
  match goal with H : sits data _ (le_bytes 8 (va_timestamp v)) |- _ => apply sits_bound in H as [_ H] end.
  rewrite blen_le in *. lia.
Qed.

(** A vote account reads back: for every account in the supported layouts (with
    or without the latency byte), any tower, root, voter history and credit history,
    and any padding behind them, the walk over the variable-width fields ends at the
    right places: the parsed commission is the stored one, the credit growth is that
    of the queried epoch's entry, and the freshness slot is the later of the last
    landed vote and the last timestamp. *)
Theorem vote_account_roundtrip (v : VoteAccount) (tail : list Z) (prior_epoch : Z) :
  vote_wf v -> blen (vote_bytes v ++ tail) <= U64_MAX ->
  VoteBytes.parse (vote_bytes v ++ tail) prior_epoch = Ok (vote_sample v prior_epoch).
Proof.
  intros [Hv Hc Hp Ht] Hd. pose proof (vote_layout v tail Hp) as L. cbv zeta in L.
  set (data := vote_bytes v ++ tail) in *. set (w := if va_latency v then 13 else 12) in *.
  destruct L as (A0 & A1 & A2 & A3 & A4 & A5 & A6 & A7 & A8 & A9 & Hs).
  assert (0 <= w) by (unfold w; destruct (va_latency v); lia).
  pose proof (Z.mul_nonneg_nonneg (Z.of_nat (length (va_votes v))) w).
  pose proof (blen_nonneg (root_bytes (va_root v))).
  assert (forall A (l : list A), 0 <= Z.of_nat (length l)) as Hpos by (intros; lia).
  pose proof (Hpos _ (va_votes v)). pose proof (Hpos _ (va_voters v)). pose proof (Hpos _ (va_credits v)).
  assert (Z.of_nat (length (va_votes v)) <= Z.of_nat (length (va_votes v)) * w)
    by (unfold w; destruct (va_latency v); lia).
  assert (u64 (Z.of_nat (length (va_votes v)))) by rlia.
  assert (u64 (Z.of_nat (length (va_credits v)))) by rlia.
  assert (u32 (if va_latency v then 2 else 1)) by (destruct (va_latency v); rlia).
  unfold VoteBytes.parse. read_at.
  replace (match (if va_latency v then 2 else 1) with 1 => Ok false | 2 => Ok true | _ => Err VoteBytes.UnsupportedVersion end)
    with (@Ok VoteBytes.Error bool (va_latency v)) by (by destruct (va_latency v)).
  step_ok. read_at. fold w.
  rewrite (entries_end_run _ _ _ data) by lia. step_ok. rewrite ensure_run by lia. step_ok.
  change (69 + 8) with 77.
  pose proof (last_vote_run data (va_latency v) (va_votes v) Hd A3 Hv) as El.
  fold w in El. rewrite El. step_ok.
  rewrite (skip_option_run _ _ (va_root v)) by done. step_ok.
  rewrite (skip_counted_run voter_bytes 40 (va_voters v)) by (done || lia || apply blen_voter). step_ok.
  rewrite add64_run by lia. step_ok. rewrite ensure_run by lia. step_ok. read_at.
  rewrite (entries_end_run _ _ _ data) by lia. step_ok. rewrite ensure_run by lia. step_ok.
  rewrite !add64_run by lia. step_ok. rewrite Nat2Z.id.
  rewrite scan_credits_run by done. step_ok. read_at.
  step_ok. rewrite ensure_run by lia. step_ok.
  unfold vote_sample. by destruct (last (va_votes v)).
Qed.

Definition sample_vote_account : VoteAccount :=
  mkVoteAccount true 5 6 7 [(1, 100, 31); (2, 140, 1)] (Some 90) [(3, 5)] (replicate 1545 0)
    [(10, 50, 40); (11, 60, 50)] 120 1700000000.

