(* ===== verification/Cpi.v ===== *)
(** * Instructions of other programs, as bytes and account lists

    What a call into another program is made of: account metas, instruction data, the
    accounts a handler passes and the privileges the cluster checks. Readers consume a
    prefix of the data; they are how the receiving program sees it. *)

From S2P Require Import Prelude MachineInt State AccountBytes.

Open Scope Z_scope.

Record AccountMeta := mkAccountMeta { am_pubkey : Pubkey; am_is_signer : bool; am_is_writable : bool }.

(** [AccountMeta::new] and [AccountMeta::new_readonly] *)
Definition meta_new (key : Pubkey) (signer : bool) : AccountMeta := mkAccountMeta key signer true.
Definition meta_readonly (key : Pubkey) (signer : bool) : AccountMeta := mkAccountMeta key signer false.

Record Instruction := mkInstruction {
  ix_program_id : Pubkey;
  ix_accounts : list AccountMeta;
  ix_data : list Z;
}.

(** The fixed addresses of the cluster, and the derivation of a program address. *)
Class Addresses := {
  find_program_address : list (list Z) -> Pubkey -> Pubkey;
  FUSION_STAKE_POOL_PROGRAM_ID : Pubkey;
  STAKE_PROGRAM_ID : Pubkey;
  STAKE_CONFIG_ID : Pubkey;
  TOKEN_PROGRAM_ID : Pubkey;
  SYSTEM_PROGRAM_ID : Pubkey;
  MPL_TOKEN_METADATA_PROGRAM_ID : Pubkey;
  RENT_ID : Pubkey;
  CLOCK_ID : Pubkey;
  STAKE_HISTORY_ID : Pubkey;
}.

(** The bytes of a key, as [Pubkey::as_ref]. *)
Definition key_bytes (k : Pubkey) : list Z := le_bytes 32 k.

(** ** Calling another program

    The accounts a handler passes, with the privileges of its own accounts. Each meta of the
    call must be among them, writable only if it is writable there, and a signer only if it
    signed there or is a program address the caller holds the seeds of. *)

Record AccountInfo := mkAccountInfo { in_key : Pubkey; in_signer : bool; in_writable : bool }.

Definition info (key : Pubkey) : AccountInfo := mkAccountInfo key false false.
Definition info_mut (key : Pubkey) : AccountInfo := mkAccountInfo key false true.
Definition info_signer (key : Pubkey) : AccountInfo := mkAccountInfo key true true.

Definition privileged (infos : list AccountInfo) (pdas : list Pubkey) (m : AccountMeta) : bool :=
  let at_key (f : AccountInfo -> bool) := existsb (fun i => (in_key i =? am_pubkey m) && f i) infos in
  at_key (fun _ => true)
  && (negb (am_is_writable m) || at_key in_writable)
  && (negb (am_is_signer m) || at_key in_signer || existsb (Z.eqb (am_pubkey m)) pdas).

Definition privileges_ok (infos : list AccountInfo) (pdas : list Pubkey) (ix : Instruction) : bool :=
  forallb (privileged infos pdas) (ix_accounts ix).

Definition signers (ix : Instruction) : list Pubkey :=
  am_pubkey <$> filter (fun m => am_is_signer m = true) (ix_accounts ix).

Definition writables (ix : Instruction) : list Pubkey :=
  am_pubkey <$> filter (fun m => am_is_writable m = true) (ix_accounts ix).

Lemma privileged_mono infos infos' pdas m : infos ⊆ infos' ->
  privileged infos pdas m = true -> privileged infos' pdas m = true.
Proof.
  intros Hsub. unfold privileged. rewrite !andb_true_iff, !orb_true_iff, !existsb_exists.
  assert (forall x, In x infos -> In x infos') as H by (intros x; rewrite <- !list_elem_of_In; apply Hsub).
  firstorder.
Qed.

Lemma privileged_writable infos pdas key : In (mkAccountInfo key false true) infos ->
  privileged infos pdas (meta_new key false) = true.
Proof.
  intros H. unfold privileged. cbn [am_is_writable am_is_signer am_pubkey meta_new negb orb].
  rewrite !andb_true_iff, !existsb_exists. split; [|done].
  split; exists (mkAccountInfo key false true); cbn; by rewrite Z.eqb_refl.
Qed.

(** With the keys in view, every meta finds its account. *)
Ltac find_accounts :=
  unfold privileges_ok, privileged;
  cbn [ix_accounts forallb existsb am_pubkey am_is_signer am_is_writable
       in_key in_signer in_writable info info_mut info_signer meta_new meta_readonly negb andb orb];
  repeat (rewrite ?Z.eqb_refl, ?orb_true_r, ?andb_true_r; cbn [andb orb]); reflexivity.

(** ** Readers *)

(** A reader consumes a prefix of the bytes. *)
Definition Reader (X : Type) : Type := list Z -> option (X * list Z).

Definition rret {X} (x : X) : Reader X := fun bs => Some (x, bs).
Definition rbind {X Y} (r : Reader X) (k : X -> Reader Y) : Reader Y := fun bs =>
  match r bs with Some (x, bs) => k x bs | None => None end.

Declare Scope reader_scope.
Delimit Scope reader_scope with reader.
Notation "x <~ r ; k" := (rbind r (fun x => k)) (at level 100, r at level 99, right associativity) : reader_scope.
Open Scope reader_scope.

Definition read_le (n : nat) : Reader Z := fun bs =>
  if (n <=? length bs)%nat then Some (le_value (take n bs), drop n bs) else None.

Definition read_bool : Reader bool :=
  b <~ read_le 1; if b =? 0 then rret false else if b =? 1 then rret true else fun _ => None.

(** Borsh's [Option]: a tag byte, then the value. *)
Definition read_option {X} (r : Reader X) : Reader (option X) :=
  some <~ read_bool; if some : bool then (x <~ r; rret (Some x)) else rret None.

(** ** Reading back what was written *)

Lemma read_le_bytes n v rest : 0 <= v < 256 ^ Z.of_nat n -> read_le n (le_bytes n v ++ rest) = Some (v, rest).
Proof.
  intros Hv. unfold read_le. rewrite length_app, length_le_bytes.
  destruct (Nat.leb_spec n (n + length rest)); [|lia].
  rewrite take_app_length', drop_app_length' by (symmetry; apply length_le_bytes). by rewrite le_value_bytes.
Qed.

Lemma read_le_byte b rest : read_le 1 (b :: rest) = Some (b, rest).
Proof. unfold read_le. cbn [length Nat.leb take drop]. unfold le_value. cbn [foldr]. by rewrite Z.mul_0_r, Z.add_0_r. Qed.

(** A value within its type fits the bytes of its width. *)
Ltac in_width :=
  unfold u8, u32, u64 in *;
  match goal with |- 0 <= _ < ?w => let w' := eval vm_compute in w in change w with w' end; lia.
