(* ===== verification/SplCpi.v ===== *)
(** * The stake-pool CPI allowlist ([programs/fusion-stake-controller/src/spl_cpi.rs])

    The instruction builders through which the controller reaches the pool and the native
    stake program: instruction data as bytes, account metas in order, and the program
    addresses they are derived from. The reader of the wire format, written from the
    table of the instructions' arguments, is the specification the builders are compared
    with. *)

From S2P Require Import Prelude MachineInt State AccountBytes Cpi.

Open Scope Z_scope.

Abbreviation IX_INITIALIZE := 0.
Abbreviation IX_ADD_VALIDATOR_TO_POOL := 1.
Abbreviation IX_REMOVE_VALIDATOR_FROM_POOL := 2.
Abbreviation IX_INCREASE_VALIDATOR_STAKE := 4.
Abbreviation IX_SET_PREFERRED_VALIDATOR := 5.
Abbreviation IX_UPDATE_VALIDATOR_LIST_BALANCE := 6.
Abbreviation IX_UPDATE_STAKE_POOL_BALANCE := 7.
Abbreviation IX_CLEANUP_REMOVED_VALIDATOR_ENTRIES := 8.
Abbreviation IX_DEPOSIT_STAKE := 9.
Abbreviation IX_DEPOSIT_SOL := 14.
Abbreviation IX_DECREASE_VALIDATOR_STAKE_WITH_RESERVE := 21.
Abbreviation PREFERRED_VALIDATOR_TYPE_WITHDRAW := 1.
Abbreviation STAKE_IX_AUTHORIZE := 1.
Abbreviation STAKE_IX_GET_MINIMUM_DELEGATION := 13.
Abbreviation STAKE_AUTHORIZE_STAKER := 0.
Abbreviation STAKE_AUTHORIZE_WITHDRAWER := 1.

Module spl_cpi.
Section builders.
Context {A : Addresses}.

(** ** Addresses *)

Definition derive_validator_stake (vote pool : Pubkey) (seed : Z) : Pubkey :=
  let seed_bytes := le_bytes 4 seed in
  let seeds := [key_bytes vote; key_bytes pool] in
  let seeds := if negb (seed =? 0) then seeds ++ [seed_bytes] else seeds in
  find_program_address seeds FUSION_STAKE_POOL_PROGRAM_ID.

(** [b"transient"] *)
Definition TRANSIENT : list Z := [116; 114; 97; 110; 115; 105; 101; 110; 116].

Definition derive_transient_stake (vote pool : Pubkey) (seed : Z) : Pubkey :=
  find_program_address [TRANSIENT; key_bytes vote; key_bytes pool; le_bytes 8 seed]
    FUSION_STAKE_POOL_PROGRAM_ID.

(** ** The pool's instructions *)

Record Fee := mkFee { fee_denominator : Z; fee_numerator : Z }.

Definition write_fee (f : Fee) (out : list Z) : list Z :=
  (out ++ le_bytes 8 (fee_denominator f)) ++ le_bytes 8 (fee_numerator f).

Definition initialize (stake_pool manager staker withdraw_authority validator_list reserve_stake pool_mint
    manager_fee_account token_program deposit_authority : Pubkey) (epoch_fee withdrawal_fee deposit_fee : Fee)
    (referral_fee max_validators : Z) : Instruction :=
  let data := [IX_INITIALIZE] in
  let data := write_fee epoch_fee data in
  let data := write_fee withdrawal_fee data in
  let data := write_fee deposit_fee data in
  let data := data ++ [referral_fee] in
  let data := data ++ le_bytes 4 max_validators in
  {| ix_program_id := FUSION_STAKE_POOL_PROGRAM_ID;
     ix_accounts := [
       meta_new stake_pool false;
       meta_readonly manager true;
       meta_readonly staker false;
       meta_readonly withdraw_authority false;
       meta_new validator_list false;
       meta_readonly reserve_stake false;
       meta_new pool_mint false;
       meta_new manager_fee_account false;
       meta_readonly token_program false;
       meta_readonly deposit_authority true];
     ix_data := data |}.

Definition add_validator_to_pool (stake_pool staker reserve_stake withdraw_authority validator_list
    validator_stake vote_account : Pubkey) (seed : Z) : Instruction :=
  let data := [IX_ADD_VALIDATOR_TO_POOL] in
  let data := data ++ le_bytes 4 seed in
  {| ix_program_id := FUSION_STAKE_POOL_PROGRAM_ID;
     ix_accounts := [
       meta_new stake_pool false;
       meta_readonly staker true;
       meta_new reserve_stake false;
       meta_readonly withdraw_authority false;
       meta_new validator_list false;
       meta_new validator_stake false;
       meta_readonly vote_account false;
       meta_readonly RENT_ID false;
       meta_readonly CLOCK_ID false;
       meta_readonly STAKE_HISTORY_ID false;
       meta_readonly STAKE_CONFIG_ID false;
       meta_readonly SYSTEM_PROGRAM_ID false;
       meta_readonly STAKE_PROGRAM_ID false];
     ix_data := data |}.

Definition remove_validator_from_pool (stake_pool staker withdraw_authority validator_list validator_stake
    transient_stake : Pubkey) : Instruction :=
  {| ix_program_id := FUSION_STAKE_POOL_PROGRAM_ID;
     ix_accounts := [
       meta_new stake_pool false;
       meta_readonly staker true;
       meta_readonly withdraw_authority false;
       meta_new validator_list false;
       meta_new validator_stake false;
       meta_new transient_stake false;
       meta_readonly CLOCK_ID false;
       meta_readonly STAKE_PROGRAM_ID false];
     ix_data := [IX_REMOVE_VALIDATOR_FROM_POOL] |}.

Definition increase_validator_stake (stake_pool staker withdraw_authority validator_list reserve_stake
    transient_stake validator_stake vote_account : Pubkey) (lamports transient_stake_seed : Z) : Instruction :=
  let data := [IX_INCREASE_VALIDATOR_STAKE] in
  let data := data ++ le_bytes 8 lamports in
  let data := data ++ le_bytes 8 transient_stake_seed in
  {| ix_program_id := FUSION_STAKE_POOL_PROGRAM_ID;
     ix_accounts := [
       meta_readonly stake_pool false;
       meta_readonly staker true;
       meta_readonly withdraw_authority false;
       meta_new validator_list false;
       meta_new reserve_stake false;
       meta_new transient_stake false;
       meta_readonly validator_stake false;
       meta_readonly vote_account false;
       meta_readonly CLOCK_ID false;
       meta_readonly RENT_ID false;
       meta_readonly STAKE_HISTORY_ID false;
       meta_readonly STAKE_CONFIG_ID false;
       meta_readonly SYSTEM_PROGRAM_ID false;
       meta_readonly STAKE_PROGRAM_ID false];
     ix_data := data |}.

Definition set_preferred_withdraw_validator (stake_pool staker validator_list : Pubkey)
    (vote_account : option Pubkey) : Instruction :=
  let data := [IX_SET_PREFERRED_VALIDATOR] in
  let data := data ++ [PREFERRED_VALIDATOR_TYPE_WITHDRAW] in
  let data :=
    match vote_account with
    | Some vote => (data ++ [1]) ++ key_bytes vote
    | None => data ++ [0]
    end in
  {| ix_program_id := FUSION_STAKE_POOL_PROGRAM_ID;
     ix_accounts := [
       meta_new stake_pool false;
       meta_readonly staker true;
       meta_readonly validator_list false];
     ix_data := data |}.

Definition update_validator_list_balance (stake_pool withdraw_authority validator_list reserve_stake : Pubkey)
    (stake_pairs : list (Pubkey * Pubkey)) (start_index : Z) (no_merge : bool) : Instruction :=
  let data := [IX_UPDATE_VALIDATOR_LIST_BALANCE] in
  let data := data ++ le_bytes 4 start_index in
  let data := data ++ [if no_merge then 1 else 0] in
  let accounts := [
    meta_readonly stake_pool false;
    meta_readonly withdraw_authority false;
    meta_new validator_list false;
    meta_new reserve_stake false;
    meta_readonly CLOCK_ID false;
    meta_readonly STAKE_HISTORY_ID false;
    meta_readonly STAKE_PROGRAM_ID false] in
  let accounts := foldl (fun acc '(validator_stake, transient_stake) =>
    acc ++ [meta_new validator_stake false; meta_new transient_stake false]) accounts stake_pairs in
  {| ix_program_id := FUSION_STAKE_POOL_PROGRAM_ID; ix_accounts := accounts; ix_data := data |}.

Definition update_stake_pool_balance (stake_pool withdraw_authority validator_list reserve_stake
    manager_fee_account pool_mint token_program : Pubkey) : Instruction :=
  {| ix_program_id := FUSION_STAKE_POOL_PROGRAM_ID;
     ix_accounts := [
       meta_new stake_pool false;
       meta_readonly withdraw_authority false;
       meta_new validator_list false;
       meta_readonly reserve_stake false;
       meta_new manager_fee_account false;
       meta_new pool_mint false;
       meta_readonly token_program false];
     ix_data := [IX_UPDATE_STAKE_POOL_BALANCE] |}.

Definition cleanup_removed_validator_entries (stake_pool validator_list : Pubkey) : Instruction :=
  {| ix_program_id := FUSION_STAKE_POOL_PROGRAM_ID;
     ix_accounts := [
       meta_new stake_pool false;
       meta_new validator_list false];
     ix_data := [IX_CLEANUP_REMOVED_VALIDATOR_ENTRIES] |}.

Definition deposit_stake (stake_pool validator_list deposit_authority withdraw_authority user_stake
    validator_stake reserve_stake user_pool_token_account manager_fee_account referrer_pool_token_account
    pool_mint token_program : Pubkey) : Instruction :=
  {| ix_program_id := FUSION_STAKE_POOL_PROGRAM_ID;
     ix_accounts := [
       meta_new stake_pool false;
       meta_new validator_list false;
       meta_readonly deposit_authority true;
       meta_readonly withdraw_authority false;
       meta_new user_stake false;
       meta_new validator_stake false;
       meta_new reserve_stake false;
       meta_new user_pool_token_account false;
       meta_new manager_fee_account false;
       meta_new referrer_pool_token_account false;
       meta_new pool_mint false;
       meta_readonly CLOCK_ID false;
       meta_readonly STAKE_HISTORY_ID false;
       meta_readonly token_program false;
       meta_readonly STAKE_PROGRAM_ID false];
     ix_data := [IX_DEPOSIT_STAKE] |}.

Definition deposit_sol (stake_pool withdraw_authority reserve_stake lamports_from user_pool_token_account
    manager_fee_account referrer_pool_token_account pool_mint token_program sol_deposit_authority : Pubkey)
    (lamports : Z) : Instruction :=
  let data := [IX_DEPOSIT_SOL] in
  let data := data ++ le_bytes 8 lamports in
  {| ix_program_id := FUSION_STAKE_POOL_PROGRAM_ID;
     ix_accounts := [
       meta_new stake_pool false;
       meta_readonly withdraw_authority false;
       meta_new reserve_stake false;
       meta_new lamports_from true;
       meta_new user_pool_token_account false;
       meta_new manager_fee_account false;
       meta_new referrer_pool_token_account false;
       meta_new pool_mint false;
       meta_readonly SYSTEM_PROGRAM_ID false;
       meta_readonly token_program false;
       meta_readonly sol_deposit_authority true];
     ix_data := data |}.

Definition decrease_validator_stake_with_reserve (stake_pool staker withdraw_authority validator_list
    reserve_stake validator_stake transient_stake : Pubkey) (lamports transient_stake_seed : Z) : Instruction :=
  let data := [IX_DECREASE_VALIDATOR_STAKE_WITH_RESERVE] in
  let data := data ++ le_bytes 8 lamports in
  let data := data ++ le_bytes 8 transient_stake_seed in
  {| ix_program_id := FUSION_STAKE_POOL_PROGRAM_ID;
     ix_accounts := [
       meta_readonly stake_pool false;
       meta_readonly staker true;
       meta_readonly withdraw_authority false;
       meta_new validator_list false;
       meta_new reserve_stake false;
       meta_new validator_stake false;
       meta_new transient_stake false;
       meta_readonly CLOCK_ID false;
       meta_readonly STAKE_HISTORY_ID false;
       meta_readonly SYSTEM_PROGRAM_ID false;
       meta_readonly STAKE_PROGRAM_ID false];
     ix_data := data |}.

(** ** The native stake program's instructions *)

Definition stake_authorize (stake_account current_authority new_authorized : Pubkey) (role : Z) : Instruction :=
  let data := le_bytes 4 STAKE_IX_AUTHORIZE in
  let data := data ++ key_bytes new_authorized in
  let data := data ++ le_bytes 4 role in
  {| ix_program_id := STAKE_PROGRAM_ID;
     ix_accounts := [
       meta_new stake_account false;
       meta_readonly CLOCK_ID false;
       meta_readonly current_authority true];
     ix_data := data |}.

Definition stake_get_minimum_delegation : Instruction :=
  {| ix_program_id := STAKE_PROGRAM_ID; ix_accounts := []; ix_data := le_bytes 4 STAKE_IX_GET_MINIMUM_DELEGATION |}.

End builders.
End spl_cpi.

(** ** Reading the wire format *)

(** The arguments of the pool's instructions the allowlist names. *)
Inductive PoolArgs :=
  | Initialize (epoch_fee withdrawal_fee deposit_fee : spl_cpi.Fee) (referral_fee max_validators : Z)
  | AddValidatorToPool (seed : Z)
  | RemoveValidatorFromPool
  | IncreaseValidatorStake (lamports transient_stake_seed : Z)
  | SetPreferredWithdraw (vote_account : option Pubkey)
  | UpdateValidatorListBalance (start_index : Z) (no_merge : bool)
  | UpdateStakePoolBalance
  | CleanupRemovedValidatorEntries
  | DepositStakeArgs
  | DepositSolArgs (lamports : Z)
  | DecreaseValidatorStakeWithReserve (lamports transient_stake_seed : Z).

Definition tag (w : PoolArgs) : Z :=
  match w with
  | Initialize _ _ _ _ _ => 0
  | AddValidatorToPool _ => 1
  | RemoveValidatorFromPool => 2
  | IncreaseValidatorStake _ _ => 4
  | SetPreferredWithdraw _ => 5
  | UpdateValidatorListBalance _ _ => 6
  | UpdateStakePoolBalance => 7
  | CleanupRemovedValidatorEntries => 8
  | DepositStakeArgs => 9
  | DepositSolArgs _ => 14
  | DecreaseValidatorStakeWithReserve _ _ => 21
  end.

Definition read_fee : Reader spl_cpi.Fee :=
  denominator <~ read_le 8; numerator <~ read_le 8; rret (spl_cpi.mkFee denominator numerator).

Definition read_pool_args : Reader PoolArgs :=
  t <~ read_le 1;
  match t with
  | 0 => e <~ read_fee; w <~ read_fee; d <~ read_fee; r <~ read_le 1; m <~ read_le 4; rret (Initialize e w d r m)
  | 1 => s <~ read_le 4; rret (AddValidatorToPool s)
  | 2 => rret RemoveValidatorFromPool
  | 4 => l <~ read_le 8; s <~ read_le 8; rret (IncreaseValidatorStake l s)
  | 5 => k <~ read_le 1;
         if k =? PREFERRED_VALIDATOR_TYPE_WITHDRAW then (v <~ read_option (read_le 32); rret (SetPreferredWithdraw v))
         else fun _ => None
  | 6 => i <~ read_le 4; b <~ read_bool; rret (UpdateValidatorListBalance i b)
  | 7 => rret UpdateStakePoolBalance
  | 8 => rret CleanupRemovedValidatorEntries
  | 9 => rret DepositStakeArgs
  | 14 => l <~ read_le 8; rret (DepositSolArgs l)
  | 21 => l <~ read_le 8; s <~ read_le 8; rret (DecreaseValidatorStakeWithReserve l s)
  | _ => fun _ => None
  end.

(** The whole input must be consumed. *)
Definition decode_pool_args (data : list Z) : option PoolArgs :=
  match read_pool_args data with Some (w, []) => Some w | _ => None end.

(** The arguments fit the widths of their fields. *)
Definition fee_wf (f : spl_cpi.Fee) : Prop := u64 (spl_cpi.fee_denominator f) /\ u64 (spl_cpi.fee_numerator f).

Definition args_wf (w : PoolArgs) : Prop :=
  match w with
  | Initialize e wd d r m => fee_wf e /\ fee_wf wd /\ fee_wf d /\ u8 r /\ u32 m
  | AddValidatorToPool s => u32 s
  | IncreaseValidatorStake l s | DecreaseValidatorStakeWithReserve l s => u64 l /\ u64 s
  | SetPreferredWithdraw v => match v with Some k => is_key k | None => True end
  | UpdateValidatorListBalance i _ => u32 i
  | DepositSolArgs l => u64 l
  | _ => True
  end.

(** ** Reading back what was written *)

Lemma read_fee_bytes f rest : fee_wf f ->
  read_fee (le_bytes 8 (spl_cpi.fee_denominator f) ++ le_bytes 8 (spl_cpi.fee_numerator f) ++ rest) = Some (f, rest).
Proof.
  intros [Hd Hn]. unfold read_fee, rbind. rewrite !read_le_bytes by in_width. by destruct f.
Qed.

Lemma read_key_option v rest : args_wf (SetPreferredWithdraw v) ->
  read_option (read_le 32) (match v with Some k => 1 :: key_bytes k | None => [0] end ++ rest) = Some (v, rest).
Proof.
  intros Hv. unfold read_option, read_bool, rbind. destruct v as [k|]; cbn [app]; rewrite read_le_byte; [|done].
  change (1 =? 0) with false. change (1 =? 1) with true. unfold rret, key_bytes. cbn match beta.
  by rewrite (read_le_bytes 32) by exact Hv.
Qed.

(** The fields in the order they were appended. *)
Ltac decode_back :=
  match goal with |- decode_pool_args ?d = _ => rewrite <- (app_nil_r d) end;
  unfold decode_pool_args, read_pool_args, spl_cpi.write_fee, args_wf, fee_wf, u8, u32, u64 in *;
  repeat rewrite <- app_assoc; cbn [app]; unfold rbind at 1; rewrite read_le_byte;
  cbn match; unfold rbind, rret;
  repeat first [rewrite read_fee_bytes by (unfold fee_wf, u64; tauto) | rewrite read_le_byte
               |rewrite read_le_bytes by in_width].
