(* ===== verification/Metadata.v ===== *)
(** * The fUSD mint's display metadata ([instructions/create_fusd_metadata.rs])

    The one instruction that calls the Metaplex program: its gate, the length caps, the
    pinned metadata address and the hand-written Borsh bytes. The Metaplex program is a
    parameter. *)

From S2P Require Import Prelude MachineInt State Token AccountBytes Cpi.

Open Scope Z_scope.

Abbreviation CREATE_METADATA_ACCOUNT_V3_IX := 33.
Abbreviation MAX_METADATA_NAME_LEN := 32.
Abbreviation MAX_METADATA_SYMBOL_LEN := 10.
Abbreviation MAX_METADATA_URI_LEN := 200.

(** A string is its UTF-8 bytes; its length is their count. *)
Definition str_len (s : list Z) : Z := Z.of_nat (length s).

Record DataV2 := mkDataV2 {
  dv_name : list Z;
  dv_symbol : list Z;
  dv_uri : list Z;
  dv_seller_fee_basis_points : Z;
  dv_creators : option unit;
  dv_collection : option unit;
  dv_uses : option unit;
}.

Record CreateMetadataAccountArgsV3 := mkCreateMetadataAccountArgsV3 {
  ca_data : DataV2;
  ca_is_mutable : bool;
  ca_collection_details : option unit;
}.

(** Borsh: a string is its length in four bytes, which must fit, and its bytes; an option
    its tag; the fields of a struct follow each other. *)
Definition borsh_string (s : list Z) : option (list Z) :=
  if str_len s <=? U32_MAX then Some (le_bytes 4 (str_len s) ++ s) else None.

Definition borsh_option_unit (o : option unit) : list Z := match o with Some _ => [1] | None => [0] end.
Definition borsh_bool (b : bool) : list Z := [if b then 1 else 0].

Definition borsh_data (d : DataV2) : option (list Z) :=
  name ← borsh_string (dv_name d);
  symbol ← borsh_string (dv_symbol d);
  uri ← borsh_string (dv_uri d);
  Some (name ++ symbol ++ uri ++ le_bytes 2 (dv_seller_fee_basis_points d) ++ borsh_option_unit (dv_creators d)
        ++ borsh_option_unit (dv_collection d) ++ borsh_option_unit (dv_uses d)).

Definition borsh_args (a : CreateMetadataAccountArgsV3) : option (list Z) :=
  data ← borsh_data (ca_data a);
  Some (data ++ borsh_bool (ca_is_mutable a) ++ borsh_option_unit (ca_collection_details a)).

Definition metadata_args (name symbol uri : list Z) : CreateMetadataAccountArgsV3 := {|
  ca_data := mkDataV2 name symbol uri 0 None None None;
  ca_is_mutable := true;
  ca_collection_details := None;
|}.

Definition instruction_data (name symbol uri : list Z) : option (list Z) :=
  args ← borsh_args (metadata_args name symbol uri);
  Some (CREATE_METADATA_ACCOUNT_V3_IX :: args).

(** [b"metadata"] *)
Definition METADATA : list Z := [109; 101; 116; 97; 100; 97; 116; 97].

Section metadata.
Context {R : Runtime} {A : Addresses}.
Context (mint_authority : Pubkey).
Context {M : Type} (metaplex : Instruction -> M -> option M).

Definition expected_metadata : Pubkey :=
  find_program_address [METADATA; key_bytes MPL_TOKEN_METADATA_PROGRAM_ID; key_bytes fusd_mint]
    MPL_TOKEN_METADATA_PROGRAM_ID.

Definition metadata_ix (authority metadata : Pubkey) (data : list Z) : Instruction := {|
  ix_program_id := MPL_TOKEN_METADATA_PROGRAM_ID;
  ix_accounts := [
    meta_new metadata false;
    meta_readonly fusd_mint false;
    meta_readonly mint_authority true;
    meta_new authority true;
    meta_readonly authority true;
    meta_readonly SYSTEM_PROGRAM_ID false;
    meta_readonly RENT_ID false];
  ix_data := data;
|}.

Definition metadata_infos (authority metadata : Pubkey) : list AccountInfo := [
  info_mut metadata;
  info fusd_mint;
  info mint_authority;
  info_signer authority;
  info SYSTEM_PROGRAM_ID;
  info RENT_ID;
  info MPL_TOKEN_METADATA_PROGRAM_ID].

Definition create_fusd_metadata (cfg : ProtocolConfig) (authority metadata : Pubkey) (name symbol uri : list Z)
    (m : M) : result Error M :=
  _ ← check (bool_decide (authority = gov_authority cfg)) FusdError.Unauthorized;
  _ ← check (str_len name <=? MAX_METADATA_NAME_LEN) FusdError.ParamOutOfBounds;
  _ ← check (str_len symbol <=? MAX_METADATA_SYMBOL_LEN) FusdError.ParamOutOfBounds;
  _ ← check (str_len uri <=? MAX_METADATA_URI_LEN) FusdError.ParamOutOfBounds;
  _ ← check (bool_decide (metadata = expected_metadata)) FusdError.InvalidMetadataAccount;
  data ← cpi (instruction_data name symbol uri);
  let ix := metadata_ix authority metadata data in
  _ ← require (privileges_ok (metadata_infos authority metadata) [mint_authority] ix) TokenProgramError;
  cpi (metaplex ix m).

(** ** What the Metaplex program reads *)

Definition read_string : Reader (list Z) :=
  n <~ read_le 4; fun bs => if (Z.to_nat n <=? length bs)%nat then Some (take (Z.to_nat n) bs, drop (Z.to_nat n) bs) else None.

Definition read_args : Reader (list Z * list Z * list Z * Z * bool) :=
  name <~ read_string; symbol <~ read_string; uri <~ read_string; fee <~ read_le 2;
  creators <~ read_bool; collection <~ read_bool; uses <~ read_bool; mutable <~ read_bool; details <~ read_bool;
  if creators || collection || uses || details then fun _ => None else rret (name, symbol, uri, fee, mutable).

Definition decode_metadata (data : list Z) : option (list Z * list Z * list Z * Z * bool) :=
  match data with
  | t :: bs => if t =? CREATE_METADATA_ACCOUNT_V3_IX then
                 match read_args bs with Some (a, []) => Some a | _ => None end
               else None
  | [] => None
  end.

Lemma read_string_bytes s rest : str_len s <= U32_MAX ->
  read_string (le_bytes 4 (str_len s) ++ s ++ rest) = Some (s, rest).
Proof.
  intros H. unfold read_string, rbind. rewrite read_le_bytes; [|unfold str_len in *; change (256 ^ Z.of_nat 4) with 4294967296; lia].
  unfold str_len. rewrite Nat2Z.id, length_app. destruct (Nat.leb_spec (length s) (length s + length rest)); [|lia].
  by rewrite take_app_length, drop_app_length.
Qed.

Lemma metadata_decodes name symbol uri :
  str_len name <= U32_MAX -> str_len symbol <= U32_MAX -> str_len uri <= U32_MAX ->
  exists data, instruction_data name symbol uri = Some data /\
    decode_metadata data = Some (name, symbol, uri, 0, true).
Proof.
  intros H1 H2 H3. unfold instruction_data, borsh_args, borsh_data, borsh_string, metadata_args. cbn [ca_data dv_name dv_symbol dv_uri].
  apply Z.leb_le in H1 as E1. apply Z.leb_le in H2 as E2. apply Z.leb_le in H3 as E3. rewrite E1, E2, E3.
  cbn [mbind option_bind]. eexists. split; [reflexivity|]. unfold decode_metadata. cbn match.
  unfold read_args, rbind. repeat rewrite <- app_assoc. by rewrite !read_string_bytes.
Qed.

(** Within the caps a governance-signed call with the pinned account reaches the Metaplex
    program exactly once, with data it reads as the given strings, royalty-free and mutable;
    it is signed by the mint authority and the governance authority alone, and nothing but
    the metadata account and the payer is writable: not the mint. Any other call is refused
    before anything is called. *)
Lemma create_metadata_spec cfg authority metadata name symbol uri m :
  let granted := bool_decide (authority = gov_authority cfg) && (str_len name <=? MAX_METADATA_NAME_LEN)
    && (str_len symbol <=? MAX_METADATA_SYMBOL_LEN) && (str_len uri <=? MAX_METADATA_URI_LEN)
    && bool_decide (metadata = expected_metadata) in
  if granted then
    exists ix, create_fusd_metadata cfg authority metadata name symbol uri m = cpi (metaplex ix m) /\
      decode_metadata (ix_data ix) = Some (name, symbol, uri, 0, true) /\
      signers ix = [mint_authority; authority; authority] /\ writables ix = [metadata; authority]
  else exists e, create_fusd_metadata cfg authority metadata name symbol uri m = Err (Fusd e).
Proof.
  cbv zeta. unfold create_fusd_metadata, check.
  destruct (bool_decide (authority = _)); [|by eexists]. destruct (Z.leb_spec (str_len name) 32); [|by eexists].
  destruct (Z.leb_spec (str_len symbol) 10); [|by eexists]. destruct (Z.leb_spec (str_len uri) 200); [|by eexists].
  destruct (bool_decide (metadata = _)); [|by eexists]. cbn [andb require mbind result_bind].
  destruct (metadata_decodes name symbol uri) as (data & E & D); [lia..|]. rewrite E. cbn [cpi ok_or mbind result_bind].
  exists (metadata_ix authority metadata data). split; [|done].
  assert (privileges_ok (metadata_infos authority metadata) [mint_authority] (metadata_ix authority metadata data) = true)
    as -> by (unfold metadata_infos, metadata_ix; find_accounts).
  done.
Qed.

End metadata.
