(* ===== verification/StakeState.v ===== *)
(** * The allocation controller's state and decisions ([programs/fusion-stake-controller])

    The accounts of the controller ([state/*.rs]), its errors, the decision glue
    of [logic.rs], the crank reward of [maintenance.rs], and what the handlers use of
    the programs below them: the stake-pool program (a vendored fork), the stake
    program and the derivation of addresses. The pool's behaviour is a parameter:
    the class states only the capacity it was created with and that distinct
    seeds give distinct addresses. *)

From S2P Require Import Prelude MachineInt State Token AccountBytes StakeMath StakeTargets StakeView Cpi SplCpi.

Open Scope Z_scope.

Definition as_u32 (z : Z) : Z := z mod 4294967296.
Definition as_u8 (z : Z) : Z := z mod 256.
Definition sat_mul64 (a b : Z) : Z := Z.min U64_MAX (a * b).

(** ** [constants.rs] *)

Abbreviation LAMPORTS_PER_SOL := 1000000000.
Abbreviation RESERVE_TARGET_BPS := 200.
Abbreviation RESERVE_MINIMUM_LAMPORTS := 10000000000.
Abbreviation ACTIVE_VALIDATOR_CAP_BPS := 200.
Abbreviation CANDIDATE_CAP_BPS := 25.
Abbreviation MIN_ACTIVATION_TARGET_LAMPORTS := 500000000000.
Abbreviation COMMISSION_CAP_PERCENT := 10.
Abbreviation GLOBAL_CHURN_CAP_BPS := 300.
Abbreviation VALIDATOR_MOVE_CAP_BPS := 50.
Abbreviation HYSTERESIS_MIN_LAMPORTS := 50000000000.
Abbreviation HYSTERESIS_BPS := 5.
Abbreviation REMOVAL_DELAY_EPOCHS := 2.
Abbreviation VOTE_FRESHNESS_WINDOW_DIVISOR := 8.
Abbreviation PREFERENCE_WINDOW_SLOT_DIVISOR := 32.
Abbreviation CRANK_REWARD_RECONCILE_BATCH := 1000000.
Abbreviation CRANK_REWARD_FINALIZE_POOL := 1000000.
Abbreviation CRANK_REWARD_PLAN_BATCH := 1000000.
Abbreviation CRANK_REWARD_REBALANCE_ACTION := 2000000.
Abbreviation CRANK_EPOCH_PAYOUT_BUDGET := 500000000.
Abbreviation UPSTREAM_MINIMUM_DELEGATION := 1000000.
Abbreviation VALIDATOR_LIST_INDEX_UNSET := U32_MAX.
Abbreviation POOL_ENTRY_STATUS_NONE := U8_MAX.

(** ** [errors.rs], with the failures of the layers below *)

Module CtlError.
Inductive t :=
  | AlreadySealed | InvalidConfigAddress | AddressMismatch | InvalidFusolMint
  | InvalidMaintenanceVault | InvalidVoteAccount | ZeroAmount | MathOverflow
  | PoolNotInitialized | ValidatorNotInPool | ValidatorCapExceeded | CorruptValidatorStatus
  | InvalidStakePoolAccount | InvalidValidatorListEntry | WrongPhase | EpochNotAdvanced
  | InvalidRemainingAccounts | StaleValidatorRecord | RecordAlreadyPlanned
  | PreferenceWindowClosed | PreferenceWindowStillOpen | PreferenceNotCountable
  | PreferenceChangeLimit | PreferenceOwnerMismatch | InvalidPositionAccount
  | ValidatorNotEligibleForPreference | DirectedSharesExceedSupply | PlanConservationViolated
  | NeutralRoundInconsistent | RebalanceComplete | WrongActionTarget | EpochNotFinished
  | PositionStillOpen | InvalidRentRecipient | InvalidRewardRecipient | PreferenceChangeLimit2
  | InvalidUserStakeAccount | StakeDelegationMismatch | MinimumDelegationUnavailable.
End CtlError.

Inductive CError :=
  | Ctl (e : CtlError.t)
  | AccountInvalid          (* an account that does not deserialize, exists already, or breaks a constraint *)
  | CpiFailed.              (* a CPI into the pool, the stake or the token program *)

Definition ensure (b : bool) (e : CtlError.t) : result CError unit := require b (Ctl e).
Definition or_err {A} (o : option A) (e : CtlError.t) : result CError A := ok_or o (Ctl e).
Definition cmath {A} (o : option A) : result CError A := or_err o CtlError.MathOverflow.
Definition invoke_cpi {A} (o : option A) : result CError A := ok_or o CpiFailed.

(** Invert a successful run of the controller's wrappers. *)
Ltac ctl_ok H := unfold ensure, or_err, cmath, or_err, invoke_cpi in H; inv_ok H.

(** Invert the run of a straight-line handler. *)
Ltac run_ok H := repeat (let x := fresh "x" in let Hx := fresh "Hx" in bind H as x Hx).

(** ** [state/epoch_state.rs] *)

Abbreviation PHASE_IDLE := 0.
Abbreviation PHASE_RECONCILE := 1.
Abbreviation PHASE_FINALIZE := 2.
Abbreviation PHASE_PREFERENCES := 3.
Abbreviation PHASE_PLAN_DIRECTED := 4.
Abbreviation PHASE_PLAN_NEUTRAL := 5.
Abbreviation PHASE_PLAN_FINALIZE := 6.
Abbreviation PHASE_REBALANCE := 7.

(** The nine mirror fields of the current capacity round are one [NeutralRound]. *)
Record EpochState := mkEpochState {
  es_controller_epoch : Z;
  es_reconcile_cursor : Z;
  es_plan_directed_cursor : Z;
  es_rebalance_actions_done : Z;
  es_preference_window_close_slot : Z;
  es_nav_total_lamports : Z;
  es_nav_fusol_supply : Z;
  es_productive_lamports : Z;
  es_reserve_target : Z;
  es_total_directed_shares : Z;
  es_neutral_total : Z;
  es_unsaturated_active_count : Z;
  es_capacity_shortfall : Z;
  es_churn_budget_total : Z;
  es_churn_budget_used : Z;
  es_healthy_delegated_lamports : Z;
  es_total_delegated_lamports : Z;
  es_epoch_payout_budget_used : Z;
  es_round : NeutralRound;
  es_neutral_round_number : Z;
  es_neutral_cursor : Z;
  es_sum_directed_targets : Z;
  es_neutral_granted_total : Z;
  es_rebalance_cursor : Z;
  es_preferred_withdraw_surplus : Z;
  es_preferred_withdraw_vote : Pubkey;
  es_phase : Z;
}.

#[export] Instance EpochState_fields : Fields EpochState := fun s =>
  mkEpochState (es_controller_epoch s) (es_reconcile_cursor s) (es_plan_directed_cursor s)
    (es_rebalance_actions_done s) (es_preference_window_close_slot s) (es_nav_total_lamports s)
    (es_nav_fusol_supply s) (es_productive_lamports s) (es_reserve_target s)
    (es_total_directed_shares s) (es_neutral_total s) (es_unsaturated_active_count s)
    (es_capacity_shortfall s) (es_churn_budget_total s) (es_churn_budget_used s)
    (es_healthy_delegated_lamports s) (es_total_delegated_lamports s) (es_epoch_payout_budget_used s)
    (es_round s) (es_neutral_round_number s) (es_neutral_cursor s) (es_sum_directed_targets s)
    (es_neutral_granted_total s) (es_rebalance_cursor s) (es_preferred_withdraw_surplus s)
    (es_preferred_withdraw_vote s) (es_phase s).

Definition zero_round : NeutralRound := mkNeutralRound 0 0 0 0 0 0 0 0 0.

(** The zeroed account ([load_init]). *)
Definition zero_epoch_state : EpochState :=
  mkEpochState 0 0 0 0 0 0 0 0 0 0 0 0 0 0 0 0 0 0 zero_round 0 0 0 0 0 0 0 0.

Definition reset_plan_state (s : EpochState) : EpochState :=
  s <| es_plan_directed_cursor := 0 |> <| es_total_directed_shares := 0 |>
    <| es_sum_directed_targets := 0 |> <| es_neutral_total := 0 |> <| es_neutral_granted_total := 0 |>
    <| es_unsaturated_active_count := 0 |> <| es_capacity_shortfall := 0 |> <| es_round := zero_round |>
    <| es_neutral_round_number := 0 |> <| es_neutral_cursor := 0 |> <| es_rebalance_cursor := 0 |>
    <| es_rebalance_actions_done := 0 |> <| es_preferred_withdraw_surplus := 0 |>
    <| es_preferred_withdraw_vote := 0 |>.

Definition reset_for_new_epoch (s : EpochState) : EpochState :=
  (reset_plan_state s) <| es_reconcile_cursor := 0 |> <| es_preference_window_close_slot := 0 |>
    <| es_churn_budget_used := 0 |> <| es_healthy_delegated_lamports := 0 |>
    <| es_total_delegated_lamports := 0 |> <| es_epoch_payout_budget_used := 0 |>.

Definition fold_preferred_withdraw (s : EpochState) (vote : Pubkey) (surplus : Z) : EpochState :=
  if es_preferred_withdraw_surplus s <? surplus
  then s <| es_preferred_withdraw_surplus := surplus |> <| es_preferred_withdraw_vote := vote |>
  else s.

(** ** [state/validator_record.rs], [state/preference.rs], [state/controller_config.rs] *)

Record ValidatorRecord := mkValidatorRecord {
  vr_vote_account : Pubkey;
  vr_validator_list_index : Z;
  vr_status : Z;
  vr_consecutive_liveness_failures : Z;
  vr_consecutive_healthy_epochs : Z;
  vr_has_pool_stake : bool;
  vr_last_active_lamports : Z;
  vr_last_transient_lamports : Z;
  vr_directed_shares_epoch : Z;
  vr_directed_shares : Z;
  vr_directed_target : Z;
  vr_neutral_granted : Z;
  vr_final_target : Z;
  vr_remaining_capacity : Z;
  vr_saturated_this_round : bool;
  vr_saturated_round : Z;
  vr_last_increase_epoch : Z;
  vr_last_decrease_epoch : Z;
  vr_removal_delay_start : Z;
  vr_observed_epoch : Z;
  vr_observed_commission_ok : bool;
  vr_observed_liveness_ok : bool;
  vr_plan_epoch : Z;
  vr_pool_entry_status : Z;
}.

#[export] Instance ValidatorRecord_fields : Fields ValidatorRecord := fun r =>
  mkValidatorRecord (vr_vote_account r) (vr_validator_list_index r) (vr_status r)
    (vr_consecutive_liveness_failures r) (vr_consecutive_healthy_epochs r) (vr_has_pool_stake r)
    (vr_last_active_lamports r) (vr_last_transient_lamports r) (vr_directed_shares_epoch r)
    (vr_directed_shares r) (vr_directed_target r) (vr_neutral_granted r) (vr_final_target r)
    (vr_remaining_capacity r) (vr_saturated_this_round r) (vr_saturated_round r)
    (vr_last_increase_epoch r) (vr_last_decrease_epoch r) (vr_removal_delay_start r)
    (vr_observed_epoch r) (vr_observed_commission_ok r) (vr_observed_liveness_ok r)
    (vr_plan_epoch r) (vr_pool_entry_status r).

Record Preference := mkPreference {
  pf_fusion_position : Pubkey;
  pf_owner : Pubkey;
  pf_vote_account : Pubkey;
  pf_observed_ink_nonce : Z;
  pf_observed_ink : Z;
  pf_eligible_from_epoch : Z;
  pf_last_counted_epoch : Z;
  pf_change_epoch : Z;
}.

#[export] Instance Preference_fields : Fields Preference := fun p =>
  mkPreference (pf_fusion_position p) (pf_owner p) (pf_vote_account p) (pf_observed_ink_nonce p)
    (pf_observed_ink p) (pf_eligible_from_epoch p) (pf_last_counted_epoch p) (pf_change_epoch p).

Record ControllerConfig := mkControllerConfig {
  cc_sealed : bool;
  cc_stake_pool : Pubkey;
  cc_validator_list : Pubkey;
  cc_reserve_stake : Pubkey;
  cc_fusol_mint : Pubkey;
  cc_pool_withdraw_authority : Pubkey;
  cc_maintenance_vault : Pubkey;
  cc_fusd_core_program : Pubkey;
  cc_fusol_collateral_mint : Pubkey;
}.

#[export] Instance ControllerConfig_fields : Fields ControllerConfig := fun c =>
  mkControllerConfig (cc_sealed c) (cc_stake_pool c) (cc_validator_list c) (cc_reserve_stake c)
    (cc_fusol_mint c) (cc_pool_withdraw_authority c) (cc_maintenance_vault c)
    (cc_fusd_core_program c) (cc_fusol_collateral_mint c).

(** ** [logic.rs] *)

Definition phase_transition_allowed (from to : Z) : bool :=
  (to =? PHASE_RECONCILE)
  || ((from =? PHASE_RECONCILE) && (to =? PHASE_FINALIZE))
  || ((from =? PHASE_FINALIZE) && (to =? PHASE_PREFERENCES))
  || ((from =? PHASE_PREFERENCES) && (to =? PHASE_PLAN_DIRECTED))
  || ((from =? PHASE_PLAN_DIRECTED) && (to =? PHASE_PLAN_NEUTRAL))
  || ((from =? PHASE_PLAN_NEUTRAL) && (to =? PHASE_PLAN_FINALIZE))
  || ((from =? PHASE_PLAN_FINALIZE) && (to =? PHASE_REBALANCE))
  || ((from =? PHASE_REBALANCE) && (to =? PHASE_IDLE)).

Definition nav_rate_decreased (prev_total prev_supply new_total new_supply : Z) : bool :=
  if (prev_supply =? 0) || (new_supply =? 0) then false
  else new_total * prev_supply <? prev_total * new_supply.

Record VoteObservation := mkVoteObservation { ob_commission_ok : bool; ob_liveness_ok : bool }.

Definition observe_vote (sample : option VoteBytes.VoteSample)
    (commission_cap_percent current_slot freshness_window_slots : Z) : VoteObservation :=
  match sample with
  | None => mkVoteObservation true false
  | Some s =>
      mkVoteObservation (VoteBytes.vs_commission s <=? commission_cap_percent)
        (VoteBytes.vs_prior_epoch_credit_growth s
         && (sat_sub current_slot (VoteBytes.vs_freshness_slot s) <=? freshness_window_slots))
  end.

Record RebalanceSlot := mkRebalanceSlot { sl_pass : Z; sl_index : Z }.

(** [wrapping_add] of [u64]. *)
Definition wrapping_add64 (a b : Z) : Z := (a + b) mod 18446744073709551616.

Definition rebalance_slot (cursor planned_len epoch : Z) : option RebalanceSlot :=
  if (planned_len =? 0) || (sat_mul64 planned_len 2 <=? cursor) then None
  else
    let pass := as_u8 (cursor / planned_len) in
    let ordinal := cursor mod planned_len in
    let start := rotation_start epoch planned_len in
    let index := wrapping_add64 (start mod planned_len) ordinal mod planned_len in
    Some (mkRebalanceSlot pass index).

Inductive Action := Skip | Remove | Decrease (lamports : Z) | Increase (lamports : Z).

#[export] Instance Action_eq_dec : EqDecision Action.
Proof. solve_decision. Defined.

Record ActionInputs := mkActionInputs {
  ai_pass : Z;
  ai_status : ValidatorStatus;
  ai_active_lamports : Z;
  ai_transient_lamports : Z;
  ai_final_target : Z;
  ai_drained_floor : Z;
  ai_hysteresis_threshold : Z;
  ai_budget_remaining : Z;
  ai_validator_move_cap : Z;
  ai_reserve_available_for_increase : Z;
  ai_reserve_lamports : Z;
  ai_stake_rent : Z;
  ai_min_delegation : Z;
  ai_increases_allowed : bool;
  ai_acted_this_epoch : bool;
}.

Definition decide_drain (i : ActionInputs) : Action :=
  if ai_reserve_lamports i <? ai_stake_rent i then Skip
  else
    let deviation := sat_sub (ai_active_lamports i) (ai_drained_floor i) in
    let amount := action_amount deviation (ai_budget_remaining i) (ai_validator_move_cap i)
                    deviation (ai_min_delegation i) false in
    if amount =? 0 then Skip else Decrease amount.

Definition decide_increase (i : ActionInputs) : Action :=
  let deviation := ai_final_target i - ai_active_lamports i in
  if negb (exceeds_hysteresis deviation (ai_hysteresis_threshold i)) || negb (ai_increases_allowed i)
  then Skip
  else
    let amount := action_amount deviation (ai_budget_remaining i) (ai_validator_move_cap i)
                    (ai_reserve_available_for_increase i) (ai_min_delegation i) false in
    if amount =? 0 then Skip else Increase amount.

Definition decide_decrease (i : ActionInputs) : Action :=
  let deviation := ai_active_lamports i - ai_final_target i in
  if negb (exceeds_hysteresis deviation (ai_hysteresis_threshold i)) then Skip
  else if ai_reserve_lamports i <? ai_stake_rent i then Skip
  else
    let source := sat_sub (ai_active_lamports i) (ai_drained_floor i) in
    let amount := action_amount deviation (ai_budget_remaining i) (ai_validator_move_cap i)
                    source (ai_min_delegation i) false in
    if amount =? 0 then Skip else Decrease amount.

Definition decide_action (i : ActionInputs) : Action :=
  if (0 <? ai_transient_lamports i) || ai_acted_this_epoch i then Skip
  else
    match ai_pass i, ai_status i with
    | 0, Removable => Remove
    | 0, Draining => decide_drain i
    | 1, (Candidate | Active) =>
        if ai_active_lamports i <? ai_final_target i then decide_increase i else decide_decrease i
    | _, _ => Skip
    end.

(** ** Below the controller: the pool program, addresses, sysvars *)

(** The pool program is one function of the instruction it is sent; what it does is its own. *)
Class StakeRuntime {R : Runtime} := {
  pool : Type;
  pool_account : pool -> list Z;           (* the [StakePool] account's bytes *)
  pool_list : pool -> list Z;              (* the [ValidatorList] account's bytes *)
  pool_reserve : pool -> Z;                (* lamports of the reserve stake account *)

  (** the pool program on an instruction: its effect on the pool's accounts and on the
      token ledger *)
  process_instruction : Clock -> Instruction -> pool -> ledger -> option (pool * ledger);

  (** program addresses *)
  stake_addresses :: Addresses;
  FUSD_CORE_PROGRAM_ID : Pubkey;
  VOTE_PROGRAM_ID : Pubkey;
  validator_pda : Pubkey -> Pubkey;         (* [b"validator", vote] *)
  preference_pda : Pubkey -> Pubkey;        (* [b"preference", position] *)
  pool_authority : Pubkey;                  (* [b"pool_authority"] *)
  deposit_authority : Pubkey;               (* [b"deposit_authority"] *)
  maintenance_pda : Pubkey;                 (* [b"maintenance"] *)
  withdraw_authority : Pubkey -> Pubkey;    (* [pool, b"withdraw"] under the fork *)

  validator_pda_inj v v' : validator_pda v = validator_pda v' -> v = v';
  preference_pda_inj p p' : preference_pda p = preference_pda p' -> p = p';
  (** the list account is created at exactly [MAX_VALIDATORS] entries and never resized *)
  pool_capacity p h : ListBytes.parse_header (pool_list p) = Ok h -> ListBytes.lh_len h <= MAX_VALIDATORS;
  (** account data are bytes *)
  pool_list_bytes p : Forall u8 (pool_list p);
  pool_account_bytes p : Forall u8 (pool_account p);
}.

(** What an instruction reads of the cluster: the clock, the slots of its epoch, the rent of
    a stake account, the native stake program (whether it accepts a sequence of
    instructions, and the return data of one, [None] when the call fails),
    and the owner, data and lamports of the foreign accounts passed to it. *)
Record StakeEnv := mkStakeEnv {
  se_clock : Clock;
  se_slots_in_epoch : Z;
  se_stake_rent : Z;
  se_stake_program : list Instruction -> bool;
  se_return_data : Instruction -> option (option (Pubkey * list Z));
  se_owner : Pubkey -> Pubkey;
  se_data : Pubkey -> list Z;
  se_lamports : Pubkey -> Z;
}.

(** An entry of [remaining_accounts]. *)
Record AccountRef := mkAccountRef { ar_key : Pubkey; ar_writable : bool }.

(** Its privileges in a call it is passed on to. *)
Definition ref_info (r : AccountRef) : AccountInfo := mkAccountInfo (ar_key r) false (ar_writable r).

Section controller.
Context {R : Runtime} {S : StakeRuntime}.

Record Controller := mkController {
  ct_config : option ControllerConfig;
  ct_es : EpochState;
  ct_records : gmap Pubkey ValidatorRecord;
  ct_preferences : gmap Pubkey Preference;
  ct_pool : pool;
  ct_ledger : ledger;
}.

#[export] Instance Controller_fields : Fields Controller := fun c =>
  mkController (ct_config c) (ct_es c) (ct_records c) (ct_preferences c) (ct_pool c) (ct_ledger c).

(** [invoke_signed] and [invoke]: the privileges of the passed accounts, then the program. *)
Definition invoke_signed (clock : Clock) (infos : list AccountInfo) (pdas : list Pubkey) (ix : Instruction)
    (p : pool) (l : ledger) : result CError (pool * ledger) :=
  _ ← require (privileges_ok infos pdas ix) CpiFailed;
  invoke_cpi (process_instruction clock ix p l).

Definition invoke (clock : Clock) (infos : list AccountInfo) : Instruction -> pool -> ledger -> result CError (pool * ledger) :=
  invoke_signed clock infos [].

(** [config]: the account of seeds [b"controller"]; [sealed]: with the constraint of the
    same name. *)
Definition config_of (c : Controller) : result CError ControllerConfig := ok_or (ct_config c) AccountInvalid.

Definition sealed_config (c : Controller) : result CError ControllerConfig :=
  cfg ← config_of c;
  _ ← ensure (cc_sealed cfg) CtlError.PoolNotInitialized;
  Ok cfg.

(** [Account::<ValidatorRecord>::try_from(info)] *)
Definition load_record (records : gmap Pubkey ValidatorRecord) (key : Pubkey) : result CError ValidatorRecord :=
  ok_or (records !! key) AccountInvalid.

(** [spl_cpi::effective_minimum_delegation] *)
Definition effective_minimum_delegation (env : StakeEnv) : result CError Z :=
  returned ← invoke_cpi (se_return_data env spl_cpi.stake_get_minimum_delegation);
  '(program_id, data) ← or_err returned CtlError.MinimumDelegationUnavailable;
  _ ← ensure (bool_decide (program_id = STAKE_PROGRAM_ID)) CtlError.MinimumDelegationUnavailable;
  _ ← ensure (bool_decide (length data = 8%nat)) CtlError.MinimumDelegationUnavailable;
  Ok (Z.max (le_value data) UPSTREAM_MINIMUM_DELEGATION).

(** [maintenance.rs]: the ledger, the budget used and the amount paid. *)
Definition pay_crank_reward (l : ledger) (vault recipient : Pubkey) (task_reward budget_used : Z)
    : result CError (ledger * Z * Z) :=
  _ ← ensure (negb (bool_decide (recipient = vault))) CtlError.InvalidRewardRecipient;
  let remaining := sat_sub CRANK_EPOCH_PAYOUT_BUDGET budget_used in
  let amount := payout task_reward remaining (tok_amount l vault) in
  if amount =? 0 then Ok (l, budget_used, 0)
  else
    l ← invoke_cpi (token_transfer l vault recipient maintenance_pda amount);
    budget_used ← cmath (checked_add64 budget_used amount);
    Ok (l, budget_used, amount).

(** The reward step of a crank: [paid = if due {pay_crank_reward(..)?} else {0}], charged to
    the epoch's payout budget. *)
Definition reward (due : bool) (cfg : ControllerConfig) (recipient : Pubkey) (task_reward : Z)
    (es : EpochState) (l : ledger) : result CError (EpochState * ledger) :=
  if due then
    '(l, used, _) ← pay_crank_reward l (cc_maintenance_vault cfg) recipient task_reward
                      (es_epoch_payout_budget_used es);
    Ok (es <| es_epoch_payout_budget_used := used |>, l)
  else Ok (es, l).

(** The constraint on [crank_reward_account]: a fuSOL token account. *)
Definition reward_account (cfg : ControllerConfig) (l : ledger) (recipient : Pubkey) : result CError unit :=
  ensure (bool_decide (tok_mint l recipient = cc_fusol_mint cfg)) CtlError.AddressMismatch.

(** The vote account's sample, [None] when it is not the vote program's or does not parse. *)
Definition vote_sample_of (env : StakeEnv) (vote : Pubkey) (prior_epoch : Z) : option VoteBytes.VoteSample :=
  if bool_decide (se_owner env vote = VOTE_PROGRAM_ID) then
    match VoteBytes.parse (se_data env vote) prior_epoch with Ok s => Some s | Err _ => None end
  else None.

End controller.
