(* ===== verification/StakeAccounts.v ===== *)
(** * Controller accounts: genesis, registration, deposits, preferences

    The instructions of the controller that users and deployers call:
    [initialize_controller], [initialize_pool], [register_validator],
    [deposit_sol], [deposit_stake], and the life of a preference ([set_preference],
    [sync_preference], [snapshot_preference], [close_preference]). Accounts whose
    address a constraint pins to the configuration are not arguments. *)

From S2P Require Import Prelude MachineInt State Token StakeMath StakeTargets StakeView Cpi SplCpi StakeState.

Open Scope Z_scope.

Section accounts.
Context {R : Runtime} {S : StakeRuntime}.

(** ** Genesis *)

Record InitializeControllerArgs := mkInitializeControllerArgs {
  ic_stake_pool : Pubkey;
  ic_validator_list : Pubkey;
  ic_reserve_stake : Pubkey;
  ic_fusol_mint : Pubkey;
  ic_maintenance_vault : Pubkey;
}.

(** [init] of the two singletons fails once they exist. *)
Definition initialize_controller (upgrade_authority : option Pubkey) (payer : Pubkey)
    (args : InitializeControllerArgs) (c : Controller) : result CError Controller :=
  _ ← ensure (bool_decide (upgrade_authority = Some payer)) CtlError.InvalidConfigAddress;
  _ ← require (bool_decide (ct_config c = None)) AccountInvalid;
  _ ← ensure (forallb (fun a => negb (a =? 0))
                [ic_stake_pool args; ic_validator_list args; ic_reserve_stake args; ic_fusol_mint args;
                 ic_maintenance_vault args]) CtlError.InvalidConfigAddress;
  let config := {|
    cc_sealed := false;
    cc_stake_pool := ic_stake_pool args;
    cc_validator_list := ic_validator_list args;
    cc_reserve_stake := ic_reserve_stake args;
    cc_fusol_mint := ic_fusol_mint args;
    cc_pool_withdraw_authority := withdraw_authority (ic_stake_pool args);
    cc_maintenance_vault := ic_maintenance_vault args;
    cc_fusd_core_program := FUSD_CORE_PROGRAM_ID;
    cc_fusol_collateral_mint := ic_fusol_mint args;
  |} in
  Ok (c <| ct_config := Some config |> <| ct_es := zero_epoch_state |>).

(** What [initialize_pool] reads of the mint and of the vault beyond the ledger. *)
Record MintFacts := mkMintFacts {
  mf_decimals : Z;
  mf_freeze_authority : option Pubkey;
  mf_mint_authority : option Pubkey;
  mf_vault_delegate : option Pubkey;
  mf_vault_close_authority : option Pubkey;
}.

(** The accounts of [InitializePool], as the call is passed them. *)
Definition initialize_infos (cfg : ControllerConfig) : list AccountInfo := [
  info_mut (cc_stake_pool cfg);
  info pool_authority;
  info (cc_pool_withdraw_authority cfg);
  info_mut (cc_validator_list cfg);
  info (cc_reserve_stake cfg);
  info_mut (cc_fusol_mint cfg);
  info_mut (cc_maintenance_vault cfg);
  info TOKEN_PROGRAM_ID;
  info deposit_authority;
  info FUSION_STAKE_POOL_PROGRAM_ID].

Definition initialize_ix (cfg : ControllerConfig) : Instruction :=
  spl_cpi.initialize (cc_stake_pool cfg) pool_authority pool_authority (cc_pool_withdraw_authority cfg)
    (cc_validator_list cfg) (cc_reserve_stake cfg) (cc_fusol_mint cfg) (cc_maintenance_vault cfg)
    TOKEN_PROGRAM_ID deposit_authority (spl_cpi.mkFee 100 1) (spl_cpi.mkFee 10000 5) (spl_cpi.mkFee 10000 5)
    0 MAX_VALIDATORS.

Definition initialize_pool (env : StakeEnv) (facts : MintFacts) (c : Controller) : result CError Controller :=
  cfg ← config_of c;
  let l := ct_ledger c in
  _ ← ensure (negb (cc_sealed cfg)) CtlError.AlreadySealed;
  _ ← ensure (mf_decimals facts =? 9) CtlError.InvalidFusolMint;
  _ ← ensure (bool_decide (mf_freeze_authority facts = None)) CtlError.InvalidFusolMint;
  _ ← ensure (mint_supply l (cc_fusol_mint cfg) =? 0) CtlError.InvalidFusolMint;
  _ ← ensure (bool_decide (mf_mint_authority facts = Some (cc_pool_withdraw_authority cfg)))
        CtlError.InvalidFusolMint;
  _ ← ensure (bool_decide (tok_mint l (cc_maintenance_vault cfg) = cc_fusol_mint cfg))
        CtlError.InvalidMaintenanceVault;
  _ ← ensure (bool_decide (tok_owner l (cc_maintenance_vault cfg) = maintenance_pda))
        CtlError.InvalidMaintenanceVault;
  _ ← ensure (bool_decide (mf_vault_delegate facts = None)) CtlError.InvalidMaintenanceVault;
  _ ← ensure (bool_decide (mf_vault_close_authority facts = None)) CtlError.InvalidMaintenanceVault;
  '(p, l) ← invoke_signed (se_clock env) (initialize_infos cfg) [pool_authority; deposit_authority]
              (initialize_ix cfg) (ct_pool c) l;
  Ok (c <| ct_pool := p |> <| ct_ledger := l |> <| ct_config := Some (cfg <| cc_sealed := true |>) |>).

(** ** Validators *)

Definition fresh_record (vote : Pubkey) : ValidatorRecord :=
  mkValidatorRecord vote VALIDATOR_LIST_INDEX_UNSET (status_as_u8 Registered) 0 0 false 0 0 0 0 0 0 0 0
    false 0 0 0 0 0 false false 0 0.

Definition register_validator (env : StakeEnv) (vote : Pubkey) (c : Controller) : result CError Controller :=
  _ ← config_of c;
  _ ← require (bool_decide (ct_records c !! validator_pda vote = None)) AccountInvalid;
  _ ← ensure (bool_decide (se_owner env vote = VOTE_PROGRAM_ID)) CtlError.InvalidVoteAccount;
  let prior_epoch := sat_sub (epoch (se_clock env)) 1 in
  _ ← map_err (fun _ => Ctl CtlError.InvalidVoteAccount) (VoteBytes.parse (se_data env vote) prior_epoch);
  Ok (c <| ct_records := <[validator_pda vote := fresh_record vote]> (ct_records c) |>).

(** ** Deposits *)

Definition deposit_sol_infos (cfg : ControllerConfig) (depositor user_account : Pubkey) : list AccountInfo := [
  info_mut (cc_stake_pool cfg);
  info (cc_pool_withdraw_authority cfg);
  info_mut (cc_reserve_stake cfg);
  info_signer depositor;
  info_mut user_account;
  info_mut (cc_maintenance_vault cfg);
  info_mut (cc_fusol_mint cfg);
  info SYSTEM_PROGRAM_ID;
  info TOKEN_PROGRAM_ID;
  info deposit_authority;
  info FUSION_STAKE_POOL_PROGRAM_ID].

Definition deposit_sol_ix (cfg : ControllerConfig) (depositor user_account : Pubkey) (lamports_in : Z) : Instruction :=
  spl_cpi.deposit_sol (cc_stake_pool cfg) (cc_pool_withdraw_authority cfg) (cc_reserve_stake cfg) depositor
    user_account (cc_maintenance_vault cfg) (cc_maintenance_vault cfg) (cc_fusol_mint cfg) TOKEN_PROGRAM_ID
    deposit_authority lamports_in.

Definition deposit_sol (env : StakeEnv) (depositor user_account : Pubkey) (lamports_in : Z) (c : Controller)
    : result CError Controller :=
  cfg ← sealed_config c;
  _ ← require (bool_decide (tok_mint (ct_ledger c) user_account = cc_fusol_mint cfg)) AccountInvalid;
  _ ← ensure (0 <? lamports_in) CtlError.ZeroAmount;
  '(p, l) ← invoke_signed (se_clock env) (deposit_sol_infos cfg depositor user_account) [deposit_authority]
              (deposit_sol_ix cfg depositor user_account lamports_in) (ct_pool c) (ct_ledger c);
  Ok (c <| ct_pool := p |> <| ct_ledger := l |>).

(** The hand-over of the user's stake account: staker, then withdrawer. It changes only that
    account; whether it succeeds is the stake program's answer. *)
Definition authorize_infos (depositor user_stake : Pubkey) : list AccountInfo := [
  info_mut user_stake;
  info CLOCK_ID;
  info_signer depositor;
  info STAKE_PROGRAM_ID].

Definition authorize_ixs (depositor user_stake : Pubkey) : list Instruction :=
  spl_cpi.stake_authorize user_stake depositor deposit_authority
    <$> [STAKE_AUTHORIZE_STAKER; STAKE_AUTHORIZE_WITHDRAWER].

Definition hand_over (env : StakeEnv) (depositor user_stake : Pubkey) : result CError unit :=
  let ixs := authorize_ixs depositor user_stake in
  _ ← require (forallb (privileges_ok (authorize_infos depositor user_stake) []) ixs) CpiFailed;
  require (se_stake_program env ixs) CpiFailed.

Definition deposit_stake_infos (cfg : ControllerConfig) (user_stake validator_stake user_account : Pubkey)
    : list AccountInfo := [
  info_mut (cc_stake_pool cfg);
  info_mut (cc_validator_list cfg);
  info deposit_authority;
  info (cc_pool_withdraw_authority cfg);
  info_mut user_stake;
  info_mut validator_stake;
  info_mut (cc_reserve_stake cfg);
  info_mut user_account;
  info_mut (cc_maintenance_vault cfg);
  info_mut (cc_fusol_mint cfg);
  info CLOCK_ID;
  info STAKE_HISTORY_ID;
  info TOKEN_PROGRAM_ID;
  info STAKE_PROGRAM_ID;
  info FUSION_STAKE_POOL_PROGRAM_ID].

Definition deposit_stake_ix (cfg : ControllerConfig) (user_stake validator_stake user_account : Pubkey) : Instruction :=
  spl_cpi.deposit_stake (cc_stake_pool cfg) (cc_validator_list cfg) deposit_authority
    (cc_pool_withdraw_authority cfg) user_stake validator_stake (cc_reserve_stake cfg) user_account
    (cc_maintenance_vault cfg) (cc_maintenance_vault cfg) (cc_fusol_mint cfg) TOKEN_PROGRAM_ID.

Definition deposit_stake (env : StakeEnv) (depositor user_stake vote validator_stake user_account : Pubkey)
    (c : Controller) : result CError Controller :=
  cfg ← sealed_config c;
  record ← load_record (ct_records c) (validator_pda vote);
  _ ← ensure (bool_decide (se_owner env user_stake = STAKE_PROGRAM_ID)) CtlError.InvalidUserStakeAccount;
  _ ← require (bool_decide (tok_mint (ct_ledger c) user_account = cc_fusol_mint cfg)) AccountInvalid;
  status ← or_err (status_from_u8 (vr_status record)) CtlError.CorruptValidatorStatus;
  _ ← ensure (bool_decide (status = Candidate) || bool_decide (status = Active)) CtlError.ValidatorNotInPool;
  _ ← ensure (negb (vr_validator_list_index record =? VALIDATOR_LIST_INDEX_UNSET)) CtlError.ValidatorNotInPool;
  voter ← or_err (delegation_voter (se_data env user_stake)) CtlError.InvalidUserStakeAccount;
  _ ← ensure (bool_decide (voter = vr_vote_account record)) CtlError.StakeDelegationMismatch;
  pool_view ← map_err (fun _ => Ctl CtlError.InvalidStakePoolAccount) (PoolBytes.parse (pool_account (ct_pool c)));
  entry ← or_err (ListBytes.entry_at (pool_list (ct_pool c)) (vr_validator_list_index record))
            CtlError.InvalidValidatorListEntry;
  _ ← ensure (bool_decide (ListBytes.ve_vote_account_address entry = vr_vote_account record))
        CtlError.InvalidValidatorListEntry;
  let deposit_lamports := se_lamports env user_stake in
  _ ← ensure (0 <? deposit_lamports) CtlError.ZeroAmount;
  physical_after ← cmath (v ← checked_add64 (ListBytes.ve_active_stake_lamports entry)
                                (ListBytes.ve_transient_stake_lamports entry);
                          checked_add64 v deposit_lamports);
  let cap := lifecycle_cap status (PoolBytes.pw_total_lamports pool_view) CANDIDATE_CAP_BPS
               ACTIVE_VALIDATOR_CAP_BPS in
  _ ← ensure (physical_after <=? cap) CtlError.ValidatorCapExceeded;
  let expect := spl_cpi.derive_validator_stake (vr_vote_account record) (cc_stake_pool cfg)
                  (ListBytes.ve_validator_seed_suffix entry) in
  _ ← ensure (bool_decide (validator_stake = expect)) CtlError.AddressMismatch;
  _ ← hand_over env depositor user_stake;
  '(p, l) ← invoke_signed (se_clock env) (deposit_stake_infos cfg user_stake validator_stake user_account)
              [deposit_authority] (deposit_stake_ix cfg user_stake validator_stake user_account)
              (ct_pool c) (ct_ledger c);
  Ok (c <| ct_pool := p |> <| ct_ledger := l |>).

(** ** Preferences *)

(** The live position: the owner check, then the byte parse. *)
Definition live_position (env : StakeEnv) (cfg : ControllerConfig) (position : Pubkey)
    : result CError PositionView :=
  _ ← ensure (bool_decide (se_owner env position = cc_fusd_core_program cfg)) CtlError.InvalidPositionAccount;
  map_err (fun _ => Ctl CtlError.InvalidPositionAccount) (PositionBytes.parse (se_data env position)).

Definition dead_end (status : ValidatorStatus) : bool :=
  bool_decide (status = Draining) || bool_decide (status = Removable).

(** [init_if_needed]: a preference that does not exist yet is the fresh one, whose change
    limit does not apply. *)
Definition set_preference (env : StakeEnv) (signer position vote : Pubkey) (c : Controller)
    : result CError Controller :=
  cfg ← config_of c;
  record ← load_record (ct_records c) (validator_pda vote);
  pos ← live_position env cfg position;
  _ ← ensure (bool_decide (ps_collateral_mint pos = cc_fusol_collateral_mint cfg)) CtlError.InvalidPositionAccount;
  _ ← ensure (bool_decide (ps_owner pos = signer)) CtlError.PreferenceOwnerMismatch;
  status ← or_err (status_from_u8 (vr_status record)) CtlError.CorruptValidatorStatus;
  _ ← ensure (negb (dead_end status)) CtlError.ValidatorNotEligibleForPreference;
  let now := epoch (se_clock env) in
  last_counted ←
    match ct_preferences c !! preference_pda position with
    | None => Ok 0
    | Some pref =>
        _ ← ensure (negb (pf_change_epoch pref =? now)) CtlError.PreferenceChangeLimit;
        Ok (pf_last_counted_epoch pref)
    end;
  eligible ← cmath (checked_add64 now 1);
  let pref := mkPreference position signer vote (ps_ink_nonce pos) (ps_ink pos) eligible last_counted now in
  Ok (c <| ct_preferences := <[preference_pda position := pref]> (ct_preferences c) |>).

Definition sync_preference (env : StakeEnv) (position : Pubkey) (c : Controller) : result CError Controller :=
  cfg ← config_of c;
  pref ← ok_or (ct_preferences c !! preference_pda position) AccountInvalid;
  pos ← live_position env cfg position;
  _ ← ensure (bool_decide (ps_collateral_mint pos = cc_fusol_collateral_mint cfg)) CtlError.InvalidPositionAccount;
  if (ps_ink_nonce pos =? pf_observed_ink_nonce pref) && bool_decide (ps_owner pos = pf_owner pref)
  then Ok c
  else
    eligible ← cmath (checked_add64 (epoch (se_clock env)) 1);
    let pref := pref <| pf_owner := ps_owner pos |> <| pf_observed_ink_nonce := ps_ink_nonce pos |>
                     <| pf_observed_ink := ps_ink pos |> <| pf_eligible_from_epoch := eligible |> in
    Ok (c <| ct_preferences := <[preference_pda position := pref]> (ct_preferences c) |>).

Definition snapshot_preference (env : StakeEnv) (position : Pubkey) (c : Controller) : result CError Controller :=
  cfg ← config_of c;
  pref ← ok_or (ct_preferences c !! preference_pda position) AccountInvalid;
  record ← load_record (ct_records c) (validator_pda (pf_vote_account pref));
  let es := ct_es c in
  _ ← ensure (es_phase es =? PHASE_PREFERENCES) CtlError.PreferenceWindowClosed;
  _ ← ensure (slot (se_clock env) <? es_preference_window_close_slot es) CtlError.PreferenceWindowClosed;
  pos ← live_position env cfg position;
  let pref_view := mkPreferenceView (pf_owner pref) (pf_observed_ink_nonce pref)
                     (pf_eligible_from_epoch pref) (pf_last_counted_epoch pref) in
  _ ← ensure (countable pref_view pos (cc_fusol_collateral_mint cfg) (es_controller_epoch es))
        CtlError.PreferenceNotCountable;
  status ← or_err (status_from_u8 (vr_status record)) CtlError.CorruptValidatorStatus;
  _ ← ensure (negb (dead_end status)) CtlError.ValidatorNotEligibleForPreference;
  let record :=
    if negb (vr_directed_shares_epoch record =? es_controller_epoch es)
    then record <| vr_directed_shares_epoch := es_controller_epoch es |> <| vr_directed_shares := 0 |>
    else record in
  shares ← cmath (checked_add64 (vr_directed_shares record) (ps_ink pos));
  let record := record <| vr_directed_shares := shares |> in
  let pref := pref <| pf_last_counted_epoch := es_controller_epoch es |> in
  Ok (c <| ct_records := <[validator_pda (pf_vote_account pref) := record]> (ct_records c) |>
        <| ct_preferences := <[preference_pda position := pref]> (ct_preferences c) |>).

Definition close_preference (env : StakeEnv) (closer position rent_recipient : Pubkey) (c : Controller)
    : result CError Controller :=
  cfg ← config_of c;
  pref ← ok_or (ct_preferences c !! preference_pda position) AccountInvalid;
  _ ← ensure (bool_decide (rent_recipient = pf_owner pref)) CtlError.InvalidRentRecipient;
  let live_ink :=
    if bool_decide (se_owner env position = cc_fusd_core_program cfg) then
      match PositionBytes.parse (se_data env position) with Ok p => ps_ink p | Err _ => 0 end
    else 0 in
  _ ← (if 0 <? live_ink then
         _ ← ensure (bool_decide (closer = pf_owner pref)) CtlError.PositionStillOpen;
         ensure (negb (pf_change_epoch pref =? epoch (se_clock env))) CtlError.PreferenceChangeLimit2
       else Ok tt);
  Ok (c <| ct_preferences := delete (preference_pda position) (ct_preferences c) |>).

End accounts.
