(* ===== verification/StakeCrank.v ===== *)
(** * The controller's crank ([programs/fusion-stake-controller/src/instructions])

    The epoch machine: [start_epoch], [reconcile_batch], [finalize_pool],
    [close_preference_window], [plan_directed_batch], [plan_neutral_batch],
    [finalize_plan], [execute_next_action], [finish_epoch]. Records passed in
    [remaining_accounts] are loaded and written back one by one, as the handlers do,
    so a record passed twice is seen as the first visit left it. *)

From S2P Require Import Prelude MachineInt State Token StakeMath StakeTargets StakeView Cpi SplCpi StakeState.

Open Scope Z_scope.

Section crank.
Context {R : Runtime} {S : StakeRuntime}.

Definition transition (es : EpochState) (to : Z) : result CError EpochState :=
  _ ← ensure (phase_transition_allowed (es_phase es) to) CtlError.WrongPhase;
  Ok (es <| es_phase := to |>).

(** ** [start_epoch.rs], [close_preference_window.rs] *)

Definition start_epoch (env : StakeEnv) (c : Controller) : result CError Controller :=
  _ ← sealed_config c;
  let es := ct_es c in
  _ ← ensure (es_controller_epoch es <? epoch (se_clock env)) CtlError.EpochNotAdvanced;
  _ ← ensure (phase_transition_allowed (es_phase es) PHASE_RECONCILE) CtlError.WrongPhase;
  let es := reset_for_new_epoch es in
  let es := es <| es_controller_epoch := epoch (se_clock env) |> in
  let es := es <| es_churn_budget_total := global_churn_budget (es_nav_total_lamports es) GLOBAL_CHURN_CAP_BPS |> in
  Ok (c <| ct_es := es <| es_phase := PHASE_RECONCILE |> |>).

Definition close_preference_window (env : StakeEnv) (c : Controller) : result CError Controller :=
  _ ← sealed_config c;
  let es := ct_es c in
  _ ← ensure (es_phase es =? PHASE_PREFERENCES) CtlError.WrongPhase;
  _ ← ensure (es_preference_window_close_slot es <=? slot (se_clock env)) CtlError.PreferenceWindowStillOpen;
  _ ← ensure (phase_transition_allowed (es_phase es) PHASE_PLAN_DIRECTED) CtlError.WrongPhase;
  Ok (c <| ct_es := (reset_plan_state es) <| es_phase := PHASE_PLAN_DIRECTED |> |>).

(** ** [reconcile_batch.rs] *)

Record Quad := mkQuad { qd_stake : AccountRef; qd_transient : AccountRef; qd_record : AccountRef; qd_vote : AccountRef }.

(** [remaining_accounts] in fours; [None] when the count is not a multiple of four. *)
Fixpoint quads_of (accounts : list AccountRef) : option (list Quad) :=
  match accounts with
  | [] => Some []
  | a :: b :: d :: e :: rest => qs ← quads_of rest; Some (mkQuad a b d e :: qs)
  | _ => None
  end.

(** A list entry the batch covers: its vote account, its index, whether it was stale. *)
Record Expected := mkExpected { ex_vote : Pubkey; ex_index : Z; ex_stale : bool }.

Fixpoint bind_quads (env : StakeEnv) (cfg : ControllerConfig) (list_data : list Z) (index : Z)
    (quads : list Quad) : result CError (list Expected) :=
  match quads with
  | [] => Ok []
  | q :: quads =>
      entry ← or_err (ListBytes.entry_at list_data (as_u32 index)) CtlError.InvalidValidatorListEntry;
      let vote := ListBytes.ve_vote_account_address entry in
      _ ← ensure (bool_decide (ar_key (qd_stake q)
                     = spl_cpi.derive_validator_stake vote (cc_stake_pool cfg) (ListBytes.ve_validator_seed_suffix entry))
                  && bool_decide (ar_key (qd_transient q)
                     = spl_cpi.derive_transient_stake vote (cc_stake_pool cfg) (ListBytes.ve_transient_seed_suffix entry))
                  && bool_decide (ar_key (qd_vote q) = vote)) CtlError.InvalidRemainingAccounts;
      rest ← bind_quads env cfg list_data (index + 1) quads;
      Ok (mkExpected vote index (ListBytes.ve_last_update_epoch entry <? epoch (se_clock env)) :: rest)
  end.

(** The observation of one covered validator: its record, and the guard aggregates. *)
Definition observe_one (env : StakeEnv) (controller_epoch freshness_window : Z) (list_data : list Z)
    (q : Quad) (e : Expected) (es : EpochState) (records : gmap Pubkey ValidatorRecord)
    : result CError (EpochState * gmap Pubkey ValidatorRecord * bool) :=
  entry ← or_err (ListBytes.entry_at list_data (as_u32 (ex_index e))) CtlError.InvalidValidatorListEntry;
  let became_current := ex_stale e && (ListBytes.ve_last_update_epoch entry =? epoch (se_clock env)) in
  _ ← ensure (ar_writable (qd_record q)) CtlError.InvalidRemainingAccounts;
  record ← load_record records (ar_key (qd_record q));
  _ ← ensure (bool_decide (vr_vote_account record = ex_vote e)) CtlError.InvalidRemainingAccounts;
  let sample := vote_sample_of env (ar_key (qd_vote q)) (sat_sub controller_epoch 1) in
  let obs := observe_vote sample COMMISSION_CAP_PERCENT (slot (se_clock env)) freshness_window in
  let active := ListBytes.ve_active_stake_lamports entry in
  let transient := ListBytes.ve_transient_stake_lamports entry in
  let record := record <| vr_last_active_lamports := active |> <| vr_last_transient_lamports := transient |>
    <| vr_has_pool_stake := (0 <? active) || (0 <? transient) |>
    <| vr_validator_list_index := as_u32 (ex_index e) |> <| vr_observed_epoch := controller_epoch |>
    <| vr_observed_commission_ok := ob_commission_ok obs |>
    <| vr_observed_liveness_ok := ob_liveness_ok obs |> in
  delegated ← cmath (checked_add64 active transient);
  total ← cmath (checked_add64 (es_total_delegated_lamports es) delegated);
  let es := es <| es_total_delegated_lamports := total |> in
  es ← (if ob_liveness_ok obs then
          healthy ← cmath (checked_add64 (es_healthy_delegated_lamports es) delegated);
          Ok (es <| es_healthy_delegated_lamports := healthy |>)
        else Ok es);
  Ok (es, <[ar_key (qd_record q) := record]> records, became_current).

Fixpoint observe_all (env : StakeEnv) (controller_epoch freshness_window : Z) (list_data : list Z)
    (covered : list (Quad * Expected)) (es : EpochState) (records : gmap Pubkey ValidatorRecord)
    (any_became_current : bool) : result CError (EpochState * gmap Pubkey ValidatorRecord * bool) :=
  match covered with
  | [] => Ok (es, records, any_became_current)
  | (q, e) :: covered =>
      '(es, records, current) ← observe_one env controller_epoch freshness_window list_data q e es records;
      observe_all env controller_epoch freshness_window list_data covered es records
        (any_became_current || current)
  end.

(** The pair of each quad, and the accounts of [UpdateValidatorListBalance]. *)
Definition update_list_infos (cfg : ControllerConfig) (quads : list Quad) : list AccountInfo :=
  [info (cc_stake_pool cfg);
   info (cc_pool_withdraw_authority cfg);
   info_mut (cc_validator_list cfg);
   info_mut (cc_reserve_stake cfg);
   info CLOCK_ID;
   info STAKE_HISTORY_ID;
   info STAKE_PROGRAM_ID]
  ++ (q ← quads; [ref_info (qd_stake q); ref_info (qd_transient q)])
  ++ [info FUSION_STAKE_POOL_PROGRAM_ID].

Definition update_list_ix (cfg : ControllerConfig) (quads : list Quad) (start_index : Z) : Instruction :=
  let pairs := (fun q => (ar_key (qd_stake q), ar_key (qd_transient q))) <$> quads in
  spl_cpi.update_validator_list_balance (cc_stake_pool cfg) (cc_pool_withdraw_authority cfg)
    (cc_validator_list cfg) (cc_reserve_stake cfg) pairs start_index false.

Definition reconcile_batch (env : StakeEnv) (accounts : list AccountRef) (recipient : Pubkey) (c : Controller)
    : result CError Controller :=
  cfg ← sealed_config c;
  _ ← reward_account cfg (ct_ledger c) recipient;
  let freshness_window := se_slots_in_epoch env / VOTE_FRESHNESS_WINDOW_DIVISOR in
  let es := ct_es c in
  _ ← ensure (es_phase es =? PHASE_RECONCILE) CtlError.WrongPhase;
  let cursor := es_reconcile_cursor es in
  quads ← or_err (quads_of accounts) CtlError.InvalidRemainingAccounts;
  let n := Z.of_nat (length quads) in
  header ← map_err (fun _ => Ctl CtlError.InvalidValidatorListEntry)
             (ListBytes.parse_header (pool_list (ct_pool c)));
  let list_len := ListBytes.lh_len header in
  stop ← cmath (checked_add64 cursor n);
  _ ← ensure (stop <=? list_len) CtlError.InvalidRemainingAccounts;
  _ ← ensure ((0 <? n) || (cursor =? list_len)) CtlError.InvalidRemainingAccounts;
  expected ← bind_quads env cfg (pool_list (ct_pool c)) cursor quads;
  '(p, l) ← (if 0 <? n then
         invoke (se_clock env) (update_list_infos cfg quads) (update_list_ix cfg quads (as_u32 cursor))
           (ct_pool c) (ct_ledger c)
       else Ok (ct_pool c, ct_ledger c));
  '(es, records, any_became_current) ←
    observe_all env (es_controller_epoch es) freshness_window (pool_list p) (zip quads expected)
      es (ct_records c) false;
  let es := es <| es_reconcile_cursor := cursor + n |> in
  es ← (if es_reconcile_cursor es =? list_len then transition es PHASE_FINALIZE else Ok es);
  '(es, l) ← reward any_became_current cfg recipient CRANK_REWARD_RECONCILE_BATCH es l;
  Ok (mkController (ct_config c) es records (ct_preferences c) p l).

(** ** [finalize_pool.rs] *)

Definition update_pool_infos (cfg : ControllerConfig) : list AccountInfo := [
  info_mut (cc_stake_pool cfg);
  info (cc_pool_withdraw_authority cfg);
  info_mut (cc_validator_list cfg);
  info (cc_reserve_stake cfg);
  info_mut (cc_maintenance_vault cfg);
  info_mut (cc_fusol_mint cfg);
  info TOKEN_PROGRAM_ID;
  info FUSION_STAKE_POOL_PROGRAM_ID].

Definition update_pool_ix (cfg : ControllerConfig) : Instruction :=
  spl_cpi.update_stake_pool_balance (cc_stake_pool cfg) (cc_pool_withdraw_authority cfg)
    (cc_validator_list cfg) (cc_reserve_stake cfg) (cc_maintenance_vault cfg) (cc_fusol_mint cfg) TOKEN_PROGRAM_ID.

Definition cleanup_infos (cfg : ControllerConfig) : list AccountInfo := [
  info_mut (cc_stake_pool cfg);
  info_mut (cc_validator_list cfg);
  info FUSION_STAKE_POOL_PROGRAM_ID].

Definition cleanup_ix (cfg : ControllerConfig) : Instruction :=
  spl_cpi.cleanup_removed_validator_entries (cc_stake_pool cfg) (cc_validator_list cfg).

Definition finalize_pool (env : StakeEnv) (recipient : Pubkey) (c : Controller) : result CError Controller :=
  cfg ← sealed_config c;
  _ ← reward_account cfg (ct_ledger c) recipient;
  let es := ct_es c in
  _ ← ensure (es_phase es =? PHASE_FINALIZE) CtlError.WrongPhase;
  before ← map_err (fun _ => Ctl CtlError.InvalidStakePoolAccount) (PoolBytes.parse (pool_account (ct_pool c)));
  let pre_update_epoch := PoolBytes.pw_last_update_epoch before in
  '(p, l) ← invoke (se_clock env) (update_pool_infos cfg) (update_pool_ix cfg) (ct_pool c) (ct_ledger c);
  '(p, l) ← invoke (se_clock env) (cleanup_infos cfg) (cleanup_ix cfg) p l;
  after ← map_err (fun _ => Ctl CtlError.InvalidStakePoolAccount) (PoolBytes.parse (pool_account p));
  let new_total := PoolBytes.pw_total_lamports after in
  let new_supply := PoolBytes.pw_pool_token_supply after in
  window_close_slot ← cmath (checked_add64 (slot (se_clock env))
                               (se_slots_in_epoch env / PREFERENCE_WINDOW_SLOT_DIVISOR));
  let es := es <| es_nav_total_lamports := new_total |> <| es_nav_fusol_supply := new_supply |> in
  let es := es <| es_reserve_target := reserve_target new_total RESERVE_MINIMUM_LAMPORTS RESERVE_TARGET_BPS |> in
  let es := es <| es_productive_lamports := productive_lamports new_total (es_reserve_target es) |> in
  let es := es <| es_churn_budget_total := global_churn_budget new_total GLOBAL_CHURN_CAP_BPS |> in
  let es := es <| es_preference_window_close_slot := window_close_slot |> in
  es ← transition es PHASE_PREFERENCES;
  '(es, l) ← reward (pre_update_epoch <? epoch (se_clock env)) cfg recipient CRANK_REWARD_FINALIZE_POOL es l;
  Ok (mkController (ct_config c) es (ct_records c) (ct_preferences c) p l).

(** The negative-NAV observation [finalize_pool] emits. *)
Definition nav_observed_negative (before after : EpochState) : bool :=
  nav_rate_decreased (es_nav_total_lamports before) (es_nav_fusol_supply before)
    (es_nav_total_lamports after) (es_nav_fusol_supply after).

(** ** [plan_directed_batch.rs] *)

Record Pair := mkPair { pr_record : AccountRef; pr_vote : AccountRef }.

Fixpoint pairs_of (accounts : list AccountRef) : option (list Pair) :=
  match accounts with
  | [] => Some []
  | a :: b :: rest => ps ← pairs_of rest; Some (mkPair a b :: ps)
  | _ => None
  end.

(** What every record of a batch is planned against. *)
Record PlanContext := mkPlanContext {
  pc_epoch : Z;
  pc_guard_active : bool;
  pc_productive : Z;
  pc_supply : Z;
  pc_snapshot_total : Z;
  pc_drained_threshold : Z;
  pc_freshness_window : Z;
  pc_list_len : Z;
  pc_list_data : list Z;
}.

(** The cursor slice or an admission extra: the record with its observation and index
    refreshed, the observation, the list entry's status byte, and the cursor. *)
Definition plan_binding (env : StakeEnv) (pc : PlanContext) (vote : Pubkey) (record : ValidatorRecord)
    (cursor : Z) : result CError (ValidatorRecord * VoteObservation * Z * Z) :=
  if cursor <? pc_list_len pc then
    entry ← or_err (ListBytes.entry_at (pc_list_data pc) (as_u32 cursor)) CtlError.InvalidValidatorListEntry;
    _ ← ensure (bool_decide (ListBytes.ve_vote_account_address entry = vote)) CtlError.InvalidRemainingAccounts;
    _ ← ensure (vr_observed_epoch record =? pc_epoch pc) CtlError.StaleValidatorRecord;
    Ok (record <| vr_validator_list_index := as_u32 cursor |>,
        mkVoteObservation (vr_observed_commission_ok record) (vr_observed_liveness_ok record),
        ListBytes.ve_status entry, cursor + 1)
  else
    _ ← ensure (vr_validator_list_index record =? VALIDATOR_LIST_INDEX_UNSET) CtlError.InvalidRemainingAccounts;
    let sample := vote_sample_of env vote (sat_sub (pc_epoch pc) 1) in
    let obs := observe_vote sample COMMISSION_CAP_PERCENT (slot (se_clock env)) (pc_freshness_window pc) in
    Ok (record <| vr_observed_epoch := pc_epoch pc |> <| vr_observed_commission_ok := ob_commission_ok obs |>
          <| vr_observed_liveness_ok := ob_liveness_ok obs |> <| vr_has_pool_stake := false |>,
        obs, POOL_ENTRY_STATUS_NONE, cursor).

Definition current_shares (pc_ep : Z) (record : ValidatorRecord) : Z :=
  if vr_directed_shares_epoch record =? pc_ep then vr_directed_shares record else 0.

(** Lifecycle advancement and admission. *)
Definition plan_lifecycle (pc : PlanContext) (obs : VoteObservation) (old_status : ValidatorStatus)
    (shares : Z) (record : ValidatorRecord) : ValidatorRecord * ValidatorStatus :=
  let outcome := advance_lifecycle old_status {|
    li_commission_ok := ob_commission_ok obs;
    li_liveness_ok := ob_liveness_ok obs;
    li_consecutive_failures := vr_consecutive_liveness_failures record;
    li_consecutive_healthy := vr_consecutive_healthy_epochs record;
    li_has_pool_stake := vr_has_pool_stake record;
    li_guard_active := pc_guard_active pc;
    li_zero_stake_and_target :=
      (vr_last_transient_lamports record =? 0) && (vr_last_active_lamports record <? pc_drained_threshold pc);
    li_removal_delay_elapsed :=
      (0 <? vr_removal_delay_start record)
      && (sat_add64 (vr_removal_delay_start record) REMOVAL_DELAY_EPOCHS <=? pc_epoch pc);
  |} in
  let record := record <| vr_consecutive_liveness_failures := lo_consecutive_failures outcome |>
                       <| vr_consecutive_healthy_epochs := lo_consecutive_healthy outcome |> in
  let new_status :=
    if bool_decide (lo_status outcome = Registered) && ob_commission_ok obs && ob_liveness_ok obs
       && (0 <? pc_supply pc)
    then if MIN_ACTIVATION_TARGET_LAMPORTS <=? pc_productive pc * shares / pc_supply pc
         then Candidate else lo_status outcome
    else lo_status outcome in
  let record :=
    if negb (bool_decide (new_status = old_status)) && bool_decide (new_status = Draining)
    then record <| vr_removal_delay_start := pc_epoch pc |> else record in
  (record, new_status).

(** Targets and capacity from the finalized snapshot. *)
Definition plan_targets (pc : PlanContext) (in_list : bool) (new_status : ValidatorStatus)
    (shares entry_status : Z) (record : ValidatorRecord) : ValidatorRecord :=
  let cap := lifecycle_cap new_status (pc_snapshot_total pc) CANDIDATE_CAP_BPS ACTIVE_VALIDATOR_CAP_BPS in
  let target := directed_target (pc_productive pc) shares (pc_supply pc) cap in
  record <| vr_status := status_as_u8 new_status |> <| vr_pool_entry_status := entry_status |>
    <| vr_directed_target := target |> <| vr_neutral_granted := 0 |> <| vr_final_target := target |>
    <| vr_remaining_capacity := if in_list then neutral_capacity new_status cap target else 0 |>
    <| vr_saturated_this_round := false |> <| vr_saturated_round := 0 |> <| vr_plan_epoch := pc_epoch pc |>.

(** One record's contribution to the plan aggregates. *)
Definition plan_aggregates (shares entry_status : Z) (record : ValidatorRecord) (es : EpochState)
    : result CError EpochState :=
  total ← cmath (checked_add64 (es_total_directed_shares es) shares);
  let es := es <| es_total_directed_shares := total |> in
  sum ← cmath (checked_add64 (es_sum_directed_targets es) (vr_directed_target record));
  let es := es <| es_sum_directed_targets := sum |> in
  let es := if 0 <? vr_remaining_capacity record
            then es <| es_unsaturated_active_count := es_unsaturated_active_count es + 1 |> else es in
  Ok (if entry_status =? 0
      then fold_preferred_withdraw es (vr_vote_account record)
             (sat_sub (vr_last_active_lamports record) (vr_final_target record))
      else es).

Definition plan_one (env : StakeEnv) (pc : PlanContext) (p : Pair) (es : EpochState)
    (records : gmap Pubkey ValidatorRecord) : result CError (EpochState * gmap Pubkey ValidatorRecord) :=
  _ ← ensure (ar_writable (pr_record p)) CtlError.InvalidRemainingAccounts;
  record ← load_record records (ar_key (pr_record p));
  _ ← ensure (bool_decide (vr_vote_account record = ar_key (pr_vote p))) CtlError.InvalidRemainingAccounts;
  _ ← ensure (negb (vr_plan_epoch record =? pc_epoch pc)) CtlError.RecordAlreadyPlanned;
  let in_list := es_plan_directed_cursor es <? pc_list_len pc in
  '(record, obs, entry_status, cursor) ←
    plan_binding env pc (ar_key (pr_vote p)) record (es_plan_directed_cursor es);
  let es := es <| es_plan_directed_cursor := cursor |> in
  old_status ← or_err (status_from_u8 (vr_status record)) CtlError.CorruptValidatorStatus;
  let shares := current_shares (pc_epoch pc) record in
  let '(record, new_status) := plan_lifecycle pc obs old_status shares record in
  let record := plan_targets pc in_list new_status shares entry_status record in
  es ← plan_aggregates shares entry_status record es;
  Ok (es, <[ar_key (pr_record p) := record]> records).

Fixpoint plan_all (env : StakeEnv) (pc : PlanContext) (ps : list Pair) (es : EpochState)
    (records : gmap Pubkey ValidatorRecord) : result CError (EpochState * gmap Pubkey ValidatorRecord) :=
  match ps with
  | [] => Ok (es, records)
  | p :: ps => '(es, records) ← plan_one env pc p es records; plan_all env pc ps es records
  end.

Definition plan_directed_batch (env : StakeEnv) (accounts : list AccountRef) (recipient : Pubkey)
    (c : Controller) : result CError Controller :=
  cfg ← sealed_config c;
  _ ← reward_account cfg (ct_ledger c) recipient;
  min_delegation ← effective_minimum_delegation env;
  drained_threshold ← cmath (checked_add64 (se_stake_rent env) (sat_mul64 min_delegation 2));
  let freshness_window := se_slots_in_epoch env / VOTE_FRESHNESS_WINDOW_DIVISOR in
  ps ← or_err (pairs_of accounts) CtlError.InvalidRemainingAccounts;
  let es := ct_es c in
  _ ← ensure (es_phase es =? PHASE_PLAN_DIRECTED) CtlError.WrongPhase;
  header ← map_err (fun _ => Ctl CtlError.InvalidValidatorListEntry)
             (ListBytes.parse_header (pool_list (ct_pool c)));
  let pc := {|
    pc_epoch := es_controller_epoch es;
    pc_guard_active := global_liveness_guard (es_healthy_delegated_lamports es) (es_total_delegated_lamports es);
    pc_productive := es_productive_lamports es;
    pc_supply := es_nav_fusol_supply es;
    pc_snapshot_total := es_nav_total_lamports es;
    pc_drained_threshold := drained_threshold;
    pc_freshness_window := freshness_window;
    pc_list_len := ListBytes.lh_len header;
    pc_list_data := pool_list (ct_pool c);
  |} in
  _ ← ensure (negb (bool_decide (ps = [])) || (es_plan_directed_cursor es =? pc_list_len pc))
        CtlError.InvalidRemainingAccounts;
  '(es, records) ← plan_all env pc ps es (ct_records c);
  es ← (if es_plan_directed_cursor es =? pc_list_len pc then
          neutral ← or_err (neutral_total (pc_productive pc) (es_sum_directed_targets es)
                              (es_total_directed_shares es) (pc_supply pc)) CtlError.DirectedSharesExceedSupply;
          transition (es <| es_neutral_total := neutral |>) PHASE_PLAN_NEUTRAL
        else Ok es);
  '(es, l) ← reward (negb (bool_decide (ps = []))) cfg recipient CRANK_REWARD_PLAN_BATCH es (ct_ledger c);
  Ok (mkController (ct_config c) es records (ct_preferences c) (ct_pool c) l).

(** ** [plan_neutral_batch.rs] *)

Definition open_round (es : EpochState) (round : NeutralRound) (number : Z) : EpochState :=
  es <| es_round := round |> <| es_neutral_round_number := number |> <| es_neutral_cursor := 0 |>
     <| es_preferred_withdraw_surplus := 0 |> <| es_preferred_withdraw_vote := 0 |>.

(** A member's grant, applied to its record and to the plan's second leg. *)
Definition apply_grant (grant : Z) (es : EpochState) (record : ValidatorRecord)
    : result CError (EpochState * ValidatorRecord) :=
  if 0 <? grant then
    granted ← cmath (checked_add64 (vr_neutral_granted record) grant);
    target ← cmath (checked_add64 (vr_final_target record) grant);
    capacity ← cmath (checked_sub64 (vr_remaining_capacity record) grant);
    total ← cmath (checked_add64 (es_neutral_granted_total es) grant);
    let record := record <| vr_neutral_granted := granted |> <| vr_final_target := target |>
                         <| vr_remaining_capacity := capacity |> in
    let record := if capacity =? 0
                  then record <| vr_saturated_this_round := true |>
                              <| vr_saturated_round := es_neutral_round_number es |>
                  else record in
    Ok (es <| es_neutral_granted_total := total |>, record)
  else Ok (es, record).

Definition neutral_one (controller_epoch : Z) (a : AccountRef) (round : NeutralRound) (es : EpochState)
    (records : gmap Pubkey ValidatorRecord)
    : result CError (NeutralRound * EpochState * gmap Pubkey ValidatorRecord) :=
  _ ← ensure (ar_writable a) CtlError.InvalidRemainingAccounts;
  record ← load_record records (ar_key a);
  _ ← ensure ((vr_plan_epoch record =? controller_epoch)
              && (vr_validator_list_index record =? es_neutral_cursor es)) CtlError.InvalidRemainingAccounts;
  status ← or_err (status_from_u8 (vr_status record)) CtlError.CorruptValidatorStatus;
  let is_member := bool_decide (status = Active) && (0 <? vr_remaining_capacity record) in
  let '(round, grant) := if is_member then step round (vr_remaining_capacity record) else (round, 0) in
  '(es, record) ← apply_grant grant es record;
  let es := if vr_pool_entry_status record =? 0
            then fold_preferred_withdraw es (vr_vote_account record)
                   (sat_sub (vr_last_active_lamports record) (vr_final_target record))
            else es in
  Ok (round, es <| es_neutral_cursor := es_neutral_cursor es + 1 |>, <[ar_key a := record]> records).

Fixpoint neutral_all (controller_epoch : Z) (accounts : list AccountRef) (round : NeutralRound)
    (es : EpochState) (records : gmap Pubkey ValidatorRecord)
    : result CError (NeutralRound * EpochState * gmap Pubkey ValidatorRecord) :=
  match accounts with
  | [] => Ok (round, es, records)
  | a :: accounts =>
      '(round, es, records) ← neutral_one controller_epoch a round es records;
      neutral_all controller_epoch accounts round es records
  end.

(** Round completion: the next round, or the end of the phase with the shortfall. *)
Definition complete_round (controller_epoch : Z) (round : NeutralRound) (es : EpochState)
    : result CError (EpochState * bool) :=
  _ ← ensure (is_complete round) CtlError.NeutralRoundInconsistent;
  let remaining := remaining_after round in
  next_unsaturated ← or_err (checked_sub64 (nr_n_unsaturated round) (nr_saturated round))
                       CtlError.NeutralRoundInconsistent;
  let es := es <| es_neutral_total := remaining |> <| es_unsaturated_active_count := next_unsaturated |> in
  if (remaining =? 0) || (next_unsaturated =? 0) then
    Ok (es <| es_capacity_shortfall := remaining |>, true)
  else
    _ ← ensure (es_neutral_round_number es <? MAX_NEUTRAL_ROUNDS) CtlError.NeutralRoundInconsistent;
    next ← or_err (begin_round remaining next_unsaturated controller_epoch) CtlError.NeutralRoundInconsistent;
    Ok (open_round es next (es_neutral_round_number es + 1), false).

(** The fold of one slice, once a round is open. *)
Definition fold_slice (accounts : list AccountRef) (es : EpochState) (records : gmap Pubkey ValidatorRecord)
    : result CError (EpochState * gmap Pubkey ValidatorRecord * bool) :=
  let planned_len := es_plan_directed_cursor es in
  let n := Z.of_nat (length accounts) in
  stop ← cmath (checked_add64 (es_neutral_cursor es) n);
  _ ← ensure (stop <=? planned_len) CtlError.InvalidRemainingAccounts;
  _ ← ensure ((0 <? n) || (planned_len =? 0)) CtlError.InvalidRemainingAccounts;
  '(round, es, records) ← neutral_all (es_controller_epoch es) accounts (es_round es) es records;
  let es := es <| es_round := round |> in
  if es_neutral_cursor es =? planned_len then
    '(es, finished) ← complete_round (es_controller_epoch es) round es;
    Ok (es, records, finished)
  else Ok (es, records, false).

(** The entry of the phase opens the first round, or ends the phase at once. *)
Definition enter_neutral (es : EpochState) : EpochState * bool :=
  if es_neutral_round_number es =? 0 then
    match begin_round (es_neutral_total es) (es_unsaturated_active_count es) (es_controller_epoch es) with
    | None => (es <| es_capacity_shortfall := es_neutral_total es |>, true)
    | Some round => (open_round es round 1, false)
    end
  else (es, false).

Definition plan_neutral_batch (env : StakeEnv) (accounts : list AccountRef) (recipient : Pubkey)
    (c : Controller) : result CError Controller :=
  cfg ← sealed_config c;
  _ ← reward_account cfg (ct_ledger c) recipient;
  let es := ct_es c in
  _ ← ensure (es_phase es =? PHASE_PLAN_NEUTRAL) CtlError.WrongPhase;
  let '(es, finished) := enter_neutral es in
  '(es, records, finished, visited) ←
    (if finished then Ok (es, ct_records c, true, false)
     else
       '(es, records, finished) ← fold_slice accounts es (ct_records c);
       Ok (es, records, finished, negb (bool_decide (accounts = []))));
  es ← (if finished : bool then transition es PHASE_PLAN_FINALIZE else Ok es);
  '(es, l) ← reward visited cfg recipient CRANK_REWARD_PLAN_BATCH es (ct_ledger c);
  Ok (mkController (ct_config c) es records (ct_preferences c) (ct_pool c) l).

(** ** [finalize_plan.rs] *)

Definition set_preferred_infos (cfg : ControllerConfig) : list AccountInfo := [
  info_mut (cc_stake_pool cfg);
  info pool_authority;
  info (cc_validator_list cfg);
  info FUSION_STAKE_POOL_PROGRAM_ID].

Definition set_preferred_ix (cfg : ControllerConfig) (preferred : option Pubkey) : Instruction :=
  spl_cpi.set_preferred_withdraw_validator (cc_stake_pool cfg) pool_authority (cc_validator_list cfg) preferred.

Definition finalize_plan (env : StakeEnv) (recipient : Pubkey) (c : Controller) : result CError Controller :=
  cfg ← sealed_config c;
  _ ← reward_account cfg (ct_ledger c) recipient;
  let es := ct_es c in
  _ ← ensure (es_phase es =? PHASE_PLAN_FINALIZE) CtlError.WrongPhase;
  assigned ← cmath (v ← checked_add64 (es_sum_directed_targets es) (es_neutral_granted_total es);
                    checked_add64 v (es_capacity_shortfall es));
  _ ← ensure (assigned =? es_productive_lamports es) CtlError.PlanConservationViolated;
  let preferred :=
    if 0 <? es_preferred_withdraw_surplus es then Some (es_preferred_withdraw_vote es) else None in
  '(p, l) ← invoke_signed (se_clock env) (set_preferred_infos cfg) [pool_authority]
              (set_preferred_ix cfg preferred) (ct_pool c) (ct_ledger c);
  es ← transition es PHASE_REBALANCE;
  let es := es <| es_rebalance_cursor := 0 |> <| es_rebalance_actions_done := 0 |> in
  '(es, l) ← reward true cfg recipient CRANK_REWARD_PLAN_BATCH es l;
  Ok (mkController (ct_config c) es (ct_records c) (ct_preferences c) p l).

(** ** [execute_next_action.rs] *)

Definition add_validator_infos (cfg : ControllerConfig) (validator_stake vote : Pubkey) : list AccountInfo := [
  info_mut (cc_stake_pool cfg);
  info pool_authority;
  info_mut (cc_reserve_stake cfg);
  info (cc_pool_withdraw_authority cfg);
  info_mut (cc_validator_list cfg);
  info_mut validator_stake;
  info vote;
  info RENT_ID;
  info CLOCK_ID;
  info STAKE_HISTORY_ID;
  info STAKE_CONFIG_ID;
  info SYSTEM_PROGRAM_ID;
  info STAKE_PROGRAM_ID;
  info FUSION_STAKE_POOL_PROGRAM_ID].

Definition add_validator_ix (cfg : ControllerConfig) (expect_stake vote : Pubkey) : Instruction :=
  spl_cpi.add_validator_to_pool (cc_stake_pool cfg) pool_authority (cc_reserve_stake cfg)
    (cc_pool_withdraw_authority cfg) (cc_validator_list cfg) expect_stake vote 0.

(** Admission mode: a planned candidate without a list slot. *)
Definition admission (env : StakeEnv) (cfg : ControllerConfig) (vote validator_stake : Pubkey)
    (status : ValidatorStatus) (record : ValidatorRecord) (es : EpochState) (p : pool) (l : ledger)
    : result CError (ValidatorRecord * EpochState * pool * ledger) :=
  _ ← ensure (bool_decide (status = Candidate)) CtlError.WrongActionTarget;
  _ ← ensure ((vr_observed_epoch record =? es_controller_epoch es) && vr_observed_liveness_ok record
              && vr_observed_commission_ok record) CtlError.WrongActionTarget;
  let shares := current_shares (es_controller_epoch es) record in
  _ ← ensure (0 <? es_nav_fusol_supply es) CtlError.WrongActionTarget;
  let raw := es_productive_lamports es * shares / es_nav_fusol_supply es in
  _ ← ensure (MIN_ACTIVATION_TARGET_LAMPORTS <=? raw) CtlError.WrongActionTarget;
  let expect_stake := spl_cpi.derive_validator_stake vote (cc_stake_pool cfg) 0 in
  _ ← ensure (bool_decide (validator_stake = expect_stake)) CtlError.AddressMismatch;
  header ← map_err (fun _ => Ctl CtlError.InvalidValidatorListEntry) (ListBytes.parse_header (pool_list p));
  let new_index := ListBytes.lh_len header in
  '(p, l) ← invoke_signed (se_clock env) (add_validator_infos cfg validator_stake vote) [pool_authority]
              (add_validator_ix cfg expect_stake vote) p l;
  Ok (record <| vr_validator_list_index := new_index |> <| vr_pool_entry_status := 0 |>,
      es <| es_rebalance_actions_done := es_rebalance_actions_done es + 1 |>, p, l).

Definition action_inputs (env : StakeEnv) (slot_ : RebalanceSlot) (status : ValidatorStatus)
    (entry : ListBytes.ValidatorEntry) (record : ValidatorRecord) (es : EpochState) (min_delegation : Z)
    (p : pool) : ActionInputs :=
  let reserve_lamports := pool_reserve p in
  {| ai_pass := sl_pass slot_;
     ai_status := status;
     ai_active_lamports := ListBytes.ve_active_stake_lamports entry;
     ai_transient_lamports := ListBytes.ve_transient_stake_lamports entry;
     ai_final_target := vr_final_target record;
     ai_drained_floor := sat_add64 (se_stake_rent env) min_delegation;
     ai_hysteresis_threshold := hysteresis (es_nav_total_lamports es) HYSTERESIS_MIN_LAMPORTS HYSTERESIS_BPS;
     ai_budget_remaining := sat_sub (es_churn_budget_total es) (es_churn_budget_used es);
     ai_validator_move_cap := validator_move_cap (es_nav_total_lamports es) VALIDATOR_MOVE_CAP_BPS;
     ai_reserve_available_for_increase :=
       sat_sub (sat_sub reserve_lamports (es_reserve_target es)) (se_stake_rent env);
     ai_reserve_lamports := reserve_lamports;
     ai_stake_rent := se_stake_rent env;
     ai_min_delegation := min_delegation;
     ai_increases_allowed := (vr_observed_epoch record =? es_controller_epoch es) && vr_observed_liveness_ok record;
     ai_acted_this_epoch := (vr_last_increase_epoch record =? es_controller_epoch es)
                            || (vr_last_decrease_epoch record =? es_controller_epoch es) |}.

Definition remove_infos (cfg : ControllerConfig) (validator_stake transient_stake : Pubkey) : list AccountInfo := [
  info_mut (cc_stake_pool cfg);
  info pool_authority;
  info (cc_pool_withdraw_authority cfg);
  info_mut (cc_validator_list cfg);
  info_mut validator_stake;
  info_mut transient_stake;
  info CLOCK_ID;
  info STAKE_PROGRAM_ID;
  info FUSION_STAKE_POOL_PROGRAM_ID].

Definition remove_ix (cfg : ControllerConfig) (validator_stake transient_stake : Pubkey) : Instruction :=
  spl_cpi.remove_validator_from_pool (cc_stake_pool cfg) pool_authority (cc_pool_withdraw_authority cfg)
    (cc_validator_list cfg) validator_stake transient_stake.

Definition decrease_infos (cfg : ControllerConfig) (validator_stake transient_stake : Pubkey) : list AccountInfo := [
  info_mut (cc_stake_pool cfg);
  info pool_authority;
  info (cc_pool_withdraw_authority cfg);
  info_mut (cc_validator_list cfg);
  info_mut (cc_reserve_stake cfg);
  info_mut validator_stake;
  info_mut transient_stake;
  info CLOCK_ID;
  info STAKE_HISTORY_ID;
  info SYSTEM_PROGRAM_ID;
  info STAKE_PROGRAM_ID;
  info FUSION_STAKE_POOL_PROGRAM_ID].

Definition decrease_ix (cfg : ControllerConfig) (validator_stake transient_stake : Pubkey)
    (amount transient_seed : Z) : Instruction :=
  spl_cpi.decrease_validator_stake_with_reserve (cc_stake_pool cfg) pool_authority
    (cc_pool_withdraw_authority cfg) (cc_validator_list cfg) (cc_reserve_stake cfg) validator_stake
    transient_stake amount transient_seed.

Definition increase_infos (cfg : ControllerConfig) (transient_stake validator_stake vote : Pubkey)
    : list AccountInfo := [
  info_mut (cc_stake_pool cfg);
  info pool_authority;
  info (cc_pool_withdraw_authority cfg);
  info_mut (cc_validator_list cfg);
  info_mut (cc_reserve_stake cfg);
  info_mut transient_stake;
  info_mut validator_stake;
  info vote;
  info CLOCK_ID;
  info RENT_ID;
  info STAKE_HISTORY_ID;
  info STAKE_CONFIG_ID;
  info SYSTEM_PROGRAM_ID;
  info STAKE_PROGRAM_ID;
  info FUSION_STAKE_POOL_PROGRAM_ID].

Definition increase_ix (cfg : ControllerConfig) (transient_stake validator_stake vote : Pubkey)
    (amount transient_seed : Z) : Instruction :=
  spl_cpi.increase_validator_stake (cc_stake_pool cfg) pool_authority (cc_pool_withdraw_authority cfg)
    (cc_validator_list cfg) (cc_reserve_stake cfg) transient_stake validator_stake vote amount transient_seed.

(** The CPI of an action and what it writes. *)
Definition perform (env : StakeEnv) (cfg : ControllerConfig) (action : Action)
    (vote validator_stake transient_stake : Pubkey) (transient_seed : Z) (record : ValidatorRecord)
    (es : EpochState) (p : pool) (l : ledger) : result CError (ValidatorRecord * EpochState * pool * ledger) :=
  let call infos ix := invoke_signed (se_clock env) infos [pool_authority] ix p l in
  let spend amount := cmath (checked_add64 (es_churn_budget_used es) amount) in
  match action with
  | Skip => Ok (record, es, p, l)
  | Remove =>
      '(p, l) ← call (remove_infos cfg validator_stake transient_stake) (remove_ix cfg validator_stake transient_stake);
      Ok (record <| vr_pool_entry_status := 3 |>, es, p, l)
  | Decrease amount =>
      '(p, l) ← call (decrease_infos cfg validator_stake transient_stake)
                  (decrease_ix cfg validator_stake transient_stake amount transient_seed);
      used ← spend amount;
      Ok (record <| vr_last_decrease_epoch := es_controller_epoch es |>, es <| es_churn_budget_used := used |>, p, l)
  | Increase amount =>
      '(p, l) ← call (increase_infos cfg transient_stake validator_stake vote)
                  (increase_ix cfg transient_stake validator_stake vote amount transient_seed);
      used ← spend amount;
      Ok (record <| vr_last_increase_epoch := es_controller_epoch es |>, es <| es_churn_budget_used := used |>, p, l)
  end.

(** Cursor mode: the walk names the validator, the rules name the action. *)
Definition walk_visit (env : StakeEnv) (cfg : ControllerConfig) (vote validator_stake transient_stake : Pubkey)
    (status : ValidatorStatus) (record : ValidatorRecord) (es : EpochState) (p : pool) (l : ledger)
    : result CError (ValidatorRecord * EpochState * pool * ledger * Action) :=
  slot_ ← or_err (rebalance_slot (es_rebalance_cursor es) (es_plan_directed_cursor es) (es_controller_epoch es))
            CtlError.RebalanceComplete;
  _ ← ensure (vr_validator_list_index record =? sl_index slot_) CtlError.WrongActionTarget;
  entry ← or_err (ListBytes.entry_at (pool_list p) (vr_validator_list_index record))
            CtlError.InvalidValidatorListEntry;
  _ ← ensure (bool_decide (ListBytes.ve_vote_account_address entry = vote)) CtlError.InvalidValidatorListEntry;
  min_delegation ← effective_minimum_delegation env;
  let action := decide_action (action_inputs env slot_ status entry record es min_delegation p) in
  _ ← (if negb (bool_decide (action = Skip)) then
         ensure (bool_decide (validator_stake = spl_cpi.derive_validator_stake vote (cc_stake_pool cfg)
                                                  (ListBytes.ve_validator_seed_suffix entry))
                 && bool_decide (transient_stake = spl_cpi.derive_transient_stake vote (cc_stake_pool cfg)
                                                     (ListBytes.ve_transient_seed_suffix entry)))
           CtlError.AddressMismatch
       else Ok tt);
  '(record, es, p, l) ← perform env cfg action vote validator_stake transient_stake
                          (ListBytes.ve_transient_seed_suffix entry) record es p l;
  let es := es <| es_rebalance_cursor := es_rebalance_cursor es + 1 |> in
  let es := if negb (bool_decide (action = Skip))
            then es <| es_rebalance_actions_done := es_rebalance_actions_done es + 1 |> else es in
  Ok (record, es, p, l, action).

Definition execute_next_action (env : StakeEnv) (vote validator_stake transient_stake recipient : Pubkey)
    (c : Controller) : result CError Controller :=
  cfg ← sealed_config c;
  _ ← reward_account cfg (ct_ledger c) recipient;
  record ← load_record (ct_records c) (validator_pda vote);
  let es := ct_es c in
  _ ← ensure (es_phase es =? PHASE_REBALANCE) CtlError.WrongPhase;
  _ ← ensure (vr_plan_epoch record =? es_controller_epoch es) CtlError.StaleValidatorRecord;
  status ← or_err (status_from_u8 (vr_status record)) CtlError.CorruptValidatorStatus;
  '(record, es, p, l, due) ←
    (if vr_validator_list_index record =? VALIDATOR_LIST_INDEX_UNSET then
       '(record, es, p, l) ← admission env cfg vote validator_stake status record es (ct_pool c) (ct_ledger c);
       Ok (record, es, p, l, true)
     else
       '(record, es, p, l, action) ←
         walk_visit env cfg vote validator_stake transient_stake status record es (ct_pool c) (ct_ledger c);
       Ok (record, es, p, l, negb (bool_decide (action = Skip))));
  '(es, l) ← reward due cfg recipient CRANK_REWARD_REBALANCE_ACTION es l;
  Ok (mkController (ct_config c) es (<[validator_pda vote := record]> (ct_records c)) (ct_preferences c) p l).

(** ** [finish_epoch.rs] *)

Definition finish_epoch (env : StakeEnv) (recipient : Pubkey) (c : Controller) : result CError Controller :=
  cfg ← sealed_config c;
  _ ← reward_account cfg (ct_ledger c) recipient;
  let es := ct_es c in
  _ ← ensure (es_phase es =? PHASE_REBALANCE) CtlError.WrongPhase;
  let walk_complete := sat_mul64 (es_plan_directed_cursor es) 2 <=? es_rebalance_cursor es in
  min_delegation ← effective_minimum_delegation env;
  let budget_exhausted := sat_sub (es_churn_budget_total es) (es_churn_budget_used es) <? min_delegation in
  _ ← ensure (walk_complete || budget_exhausted) CtlError.EpochNotFinished;
  es ← transition es PHASE_IDLE;
  '(es, l) ← reward true cfg recipient CRANK_REWARD_FINALIZE_POOL es (ct_ledger c);
  Ok (mkController (ct_config c) es (ct_records c) (ct_preferences c) (ct_pool c) l).

End crank.
