(* ===== verification/StakeSystem.v ===== *)
(** * The controller as a system

    Every instruction of the controller program ([lib.rs]) as one type, its
    dispatch, and the steps of the controller among everything else on the cluster:
    an instruction that succeeds, or a change of the pool and of the token ledger by
    others (the pool program is open to everybody: withdrawals, deposits and its
    permissionless cranks need not pass through the controller). *)

From S2P Require Import Prelude MachineInt State Token StakeMath StakeTargets StakeView Cpi SplCpi StakeState.
From S2P Require Import StakeAccounts StakeCrank.

Open Scope Z_scope.

Section system.
Context {R : Runtime} {S : StakeRuntime}.

Inductive SInstr :=
  | InitializeController (upgrade_authority : option Pubkey) (payer : Pubkey) (args : InitializeControllerArgs)
  | InitializePool (facts : MintFacts)
  | RegisterValidator (payer vote : Pubkey)
  | DepositSol (depositor user_account : Pubkey) (lamports_in : Z)
  | DepositStake (depositor user_stake vote validator_stake user_account : Pubkey)
  | SetPreference (signer position vote : Pubkey)
  | SyncPreference (position : Pubkey)
  | SnapshotPreference (position : Pubkey)
  | ClosePreference (closer position rent_recipient : Pubkey)
  | StartEpoch
  | ReconcileBatch (accounts : list AccountRef) (recipient : Pubkey)
  | FinalizePool (recipient : Pubkey)
  | ClosePreferenceWindow
  | PlanDirectedBatch (accounts : list AccountRef) (recipient : Pubkey)
  | PlanNeutralBatch (accounts : list AccountRef) (recipient : Pubkey)
  | FinalizePlan (recipient : Pubkey)
  | ExecuteNextAction (vote validator_stake transient_stake recipient : Pubkey)
  | FinishEpoch (recipient : Pubkey).

Definition stake_exec (env : StakeEnv) (i : SInstr) (c : Controller) : result CError Controller :=
  match i with
  | InitializeController ua payer args => initialize_controller ua payer args c
  | InitializePool facts => initialize_pool env facts c
  | RegisterValidator _ vote => register_validator env vote c
  | DepositSol depositor acct n => deposit_sol env depositor acct n c
  | DepositStake depositor us vote vs acct => deposit_stake env depositor us vote vs acct c
  | SetPreference signer position vote => set_preference env signer position vote c
  | SyncPreference position => sync_preference env position c
  | SnapshotPreference position => snapshot_preference env position c
  | ClosePreference closer position rent => close_preference env closer position rent c
  | StartEpoch => start_epoch env c
  | ReconcileBatch accounts recipient => reconcile_batch env accounts recipient c
  | FinalizePool recipient => finalize_pool env recipient c
  | ClosePreferenceWindow => close_preference_window env c
  | PlanDirectedBatch accounts recipient => plan_directed_batch env accounts recipient c
  | PlanNeutralBatch accounts recipient => plan_neutral_batch env accounts recipient c
  | FinalizePlan recipient => finalize_plan env recipient c
  | ExecuteNextAction vote vs ts recipient => execute_next_action env vote vs ts recipient c
  | FinishEpoch recipient => finish_epoch env recipient c
  end.

(** The cluster's clock and sysvars are machine integers, and the clock does not run
    backwards: the controller's epoch was read from it. *)
Record env_ok (env : StakeEnv) (c : Controller) : Prop := {
  eo_epoch : u64 (epoch (se_clock env));
  eo_slot : u64 (slot (se_clock env));
  eo_forward : es_controller_epoch (ct_es c) <= epoch (se_clock env);
  eo_slots : u64 (se_slots_in_epoch env);
  eo_rent : u64 (se_stake_rent env);
  eo_bytes : forall a, Forall u8 (se_data env a);
  eo_return : forall ix pid data, se_return_data env ix = Some (Some (pid, data)) -> Forall u8 data;
}.

Inductive stake_step : Controller -> Controller -> Prop :=
  | step_instr env i c c' : env_ok env c -> stake_exec env i c = Ok c' -> stake_step c c'
  | step_outside c p l : stake_step c (c <| ct_pool := p |> <| ct_ledger := l |>).

(** Before [initialize_controller]. *)
Definition stake_genesis (c : Controller) : Prop :=
  ct_config c = None /\ ct_es c = zero_epoch_state /\ ct_records c = ∅ /\ ct_preferences c = ∅.

Definition stake_reachable (c : Controller) : Prop :=
  exists c0, stake_genesis c0 /\ rtc stake_step c0 c.

(** An invariant of genesis and of every step holds in every reachable state. *)
Lemma stake_reachable_ind (P : Controller -> Prop) :
  (forall c, stake_genesis c -> P c) -> (forall c c', P c -> stake_step c c' -> P c') ->
  forall c, stake_reachable c -> P c.
Proof.
  intros H0 H1 c (c0 & Hg & Hr). revert c Hr. apply (rtc_ind_r P); [by apply H0|].
  intros c1 c2 _ Hs IH. by eapply H1.
Qed.

End system.
