(* ===== verification/StakeEvents.v ===== *)
(** * The controller's event stream ([programs/fusion-stake-controller/src/events.rs])

    The events of the controller, one constructor per struct of the source, and what each
    instruction emits. What a handler has in a local variable is recomputed from the state
    before, with the handler's own definitions, or read from the state after: the reward a
    crank [paid] is what it added to the epoch's payout budget, and a phase is [completed]
    when the state is in the next one. *)

From S2P Require Import Prelude MachineInt State Token StakeMath StakeTargets StakeView Cpi SplCpi StakeState.
From S2P Require Import StakeAccounts StakeCrank StakeSystem.

Open Scope Z_scope.

Abbreviation DEPOSIT_KIND_SOL := 0.
Abbreviation DEPOSIT_KIND_STAKE := 1.
Abbreviation PREF_OP_SET := 0.
Abbreviation PREF_OP_SYNCED := 1.
Abbreviation PREF_OP_COUNTED := 2.
Abbreviation PREF_OP_CLOSED := 3.
Abbreviation TASK_RECONCILE_BATCH := 0.
Abbreviation TASK_FINALIZE_POOL := 1.
Abbreviation TASK_PLAN_BATCH := 2.
Abbreviation TASK_REBALANCE_ACTION := 3.
Abbreviation TASK_FINISH_EPOCH := 4.
Abbreviation ACTION_SKIP := U8_MAX.

Inductive StakeEvent :=
  | ControllerInitialized (stake_pool validator_list reserve_stake fusol_mint pool_withdraw_authority
      maintenance_vault fusd_core_program : Pubkey)
  | PoolInitialized (stake_pool fusol_mint : Pubkey) (max_validators : Z)
  | ValidatorRegistered (vote_account payer : Pubkey)
  | ValidatorStatusChanged (vote_account : Pubkey) (old_status new_status epoch : Z)
  | PoolDeposit (depositor : Pubkey) (kind : Z) (vote_account : Pubkey) (lamports : Z)
  | PreferenceUpdated (fusion_position owner vote_account : Pubkey)
      (op observed_ink observed_ink_nonce eligible_from_epoch epoch : Z)
  | EpochPhaseChanged (epoch from_phase to_phase slot : Z)
  | PlanFinalized (epoch productive_lamports reserve_target total_directed_shares neutral_total
      capacity_shortfall churn_budget : Z)
  | RebalanceActionExecuted (epoch action : Z) (vote_account : Pubkey) (lamports : Z)
  | MaintenanceRewardPaid (crank : Pubkey) (task amount epoch : Z)
  | NegativeNavObserved (epoch previous_total_lamports new_total_lamports fusol_supply : Z).

Section stake_emission.
Context {R : Runtime} {S : StakeRuntime}.

(** ** The parts the cranks share *)

Definition phase_event (env : StakeEnv) (es : EpochState) (from to : Z) : list StakeEvent :=
  [EpochPhaseChanged (es_controller_epoch es) from to (slot (se_clock env))].

(** [if completed { emit }] *)
Definition completion_event (env : StakeEnv) (es es' : EpochState) (from to : Z) : list StakeEvent :=
  if es_phase es' =? to then phase_event env es from to else [].

(** [if paid > 0 { emit }] *)
Definition reward_event (recipient : Pubkey) (task : Z) (es es' : EpochState) : list StakeEvent :=
  let paid := es_epoch_payout_budget_used es' - es_epoch_payout_budget_used es in
  if 0 <? paid then [MaintenanceRewardPaid recipient task paid (es_controller_epoch es)] else [].

Definition preference_event (position : Pubkey) (op ink nonce epoch : Z) (p : Preference) : StakeEvent :=
  PreferenceUpdated position (pf_owner p) (pf_vote_account p) op ink nonce (pf_eligible_from_epoch p) epoch.

(** ** Preferences *)

Definition preference_of (c : Controller) (position : Pubkey) : result CError Preference :=
  ok_or (ct_preferences c !! preference_pda position) AccountInvalid.

Definition sync_events (env : StakeEnv) (position : Pubkey) (c c' : Controller) : result CError (list StakeEvent) :=
  cfg ← config_of c;
  p ← preference_of c position;
  pos ← live_position env cfg position;
  if (ps_ink_nonce pos =? pf_observed_ink_nonce p) && bool_decide (ps_owner pos = pf_owner p) then Ok []
  else
    p' ← preference_of c' position;
    Ok [preference_event position PREF_OP_SYNCED (ps_ink pos) (ps_ink_nonce pos) (epoch (se_clock env)) p'].

(** The ink and the nonce of a counted preference are the live position's. *)
Definition snapshot_events (env : StakeEnv) (position : Pubkey) (c c' : Controller)
    : result CError (list StakeEvent) :=
  cfg ← config_of c;
  pos ← live_position env cfg position;
  p' ← preference_of c' position;
  Ok [preference_event position PREF_OP_COUNTED (ps_ink pos) (ps_ink_nonce pos) (es_controller_epoch (ct_es c)) p'].

(** ** The plan and the walk *)

(** [status_changes.push] when the planned record's status moved. *)
Definition status_change (controller_epoch : Z) (key : Pubkey) (records records' : gmap Pubkey ValidatorRecord)
    : list StakeEvent :=
  match records !! key, records' !! key with
  | Some r, Some r' =>
      if vr_status r' =? vr_status r then []
      else [ValidatorStatusChanged (vr_vote_account r') (vr_status r) (vr_status r') controller_epoch]
  | _, _ => []
  end.

Fixpoint status_events (env : StakeEnv) (pc : PlanContext) (ps : list Pair) (es : EpochState)
    (records : gmap Pubkey ValidatorRecord) : result CError (list StakeEvent) :=
  match ps with
  | [] => Ok []
  | p :: ps =>
      '(es, records') ← plan_one env pc p es records;
      rest ← status_events env pc ps es records';
      Ok (status_change (pc_epoch pc) (ar_key (pr_record p)) records records' ++ rest)
  end.

Definition directed_events (env : StakeEnv) (accounts : list AccountRef) (recipient : Pubkey) (c c' : Controller)
    : result CError (list StakeEvent) :=
  min_delegation ← effective_minimum_delegation env;
  drained_threshold ← cmath (checked_add64 (se_stake_rent env) (sat_mul64 min_delegation 2));
  ps ← or_err (pairs_of accounts) CtlError.InvalidRemainingAccounts;
  let es := ct_es c in
  header ← map_err (fun _ => Ctl CtlError.InvalidValidatorListEntry)
             (ListBytes.parse_header (pool_list (ct_pool c)));
  let pc := {|
    pc_epoch := es_controller_epoch es;
    pc_guard_active := global_liveness_guard (es_healthy_delegated_lamports es) (es_total_delegated_lamports es);
    pc_productive := es_productive_lamports es;
    pc_supply := es_nav_fusol_supply es;
    pc_snapshot_total := es_nav_total_lamports es;
    pc_drained_threshold := drained_threshold;
    pc_freshness_window := se_slots_in_epoch env / VOTE_FRESHNESS_WINDOW_DIVISOR;
    pc_list_len := ListBytes.lh_len header;
    pc_list_data := pool_list (ct_pool c);
  |} in
  changes ← status_events env pc ps es (ct_records c);
  Ok (changes ++ completion_event env es (ct_es c') PHASE_PLAN_DIRECTED PHASE_PLAN_NEUTRAL
      ++ reward_event recipient TASK_PLAN_BATCH es (ct_es c')).

Definition finalize_pool_events (env : StakeEnv) (recipient : Pubkey) (es es' : EpochState) : list StakeEvent :=
  (if nav_observed_negative es es' then
     [NegativeNavObserved (es_controller_epoch es) (es_nav_total_lamports es) (es_nav_total_lamports es')
        (es_nav_fusol_supply es')]
   else []) ++
  phase_event env es PHASE_FINALIZE PHASE_PREFERENCES ++ reward_event recipient TASK_FINALIZE_POOL es es'.

Definition finalize_plan_events (env : StakeEnv) (recipient : Pubkey) (es es' : EpochState) : list StakeEvent :=
  [PlanFinalized (es_controller_epoch es) (es_productive_lamports es) (es_reserve_target es)
     (es_total_directed_shares es) (es_neutral_total es) (es_capacity_shortfall es) (es_churn_budget_total es)] ++
  phase_event env es PHASE_PLAN_FINALIZE PHASE_REBALANCE ++ reward_event recipient TASK_PLAN_BATCH es es'.

(** The tag of an action and the lamports it reports. *)
Definition action_tag (action : Action) (entry_active : Z) : Z * Z :=
  match action with
  | Skip => (ACTION_SKIP, 0)
  | Remove => (IX_REMOVE_VALIDATOR_FROM_POOL, entry_active)
  | Decrease amount => (IX_DECREASE_VALIDATOR_STAKE_WITH_RESERVE, amount)
  | Increase amount => (IX_INCREASE_VALIDATOR_STAKE, amount)
  end.

(** The admission of a candidate, or the action the walk decides. *)
Definition action_event (env : StakeEnv) (vote : Pubkey) (c : Controller) : result CError StakeEvent :=
  record ← load_record (ct_records c) (validator_pda vote);
  let es := ct_es c in
  status ← or_err (status_from_u8 (vr_status record)) CtlError.CorruptValidatorStatus;
  if vr_validator_list_index record =? VALIDATOR_LIST_INDEX_UNSET
  then Ok (RebalanceActionExecuted (es_controller_epoch es) IX_ADD_VALIDATOR_TO_POOL vote 0)
  else
    slot_ ← or_err (rebalance_slot (es_rebalance_cursor es) (es_plan_directed_cursor es) (es_controller_epoch es))
              CtlError.RebalanceComplete;
    entry ← or_err (ListBytes.entry_at (pool_list (ct_pool c)) (vr_validator_list_index record))
              CtlError.InvalidValidatorListEntry;
    min_delegation ← effective_minimum_delegation env;
    let action := decide_action (action_inputs env slot_ status entry record es min_delegation (ct_pool c)) in
    let '(tag, moved) := action_tag action (ListBytes.ve_active_stake_lamports entry) in
    Ok (RebalanceActionExecuted (es_controller_epoch es) tag vote moved).

(** ** Every instruction *)

Definition stake_emits (env : StakeEnv) (i : SInstr) (c c' : Controller) : result CError (list StakeEvent) :=
  let es := ct_es c in let es' := ct_es c' in
  let now := epoch (se_clock env) in
  match i with
  | InitializeController _ _ args =>
      Ok [ControllerInitialized (ic_stake_pool args) (ic_validator_list args) (ic_reserve_stake args)
            (ic_fusol_mint args) (withdraw_authority (ic_stake_pool args)) (ic_maintenance_vault args)
            FUSD_CORE_PROGRAM_ID]
  | InitializePool _ =>
      cfg ← config_of c; Ok [PoolInitialized (cc_stake_pool cfg) (cc_fusol_mint cfg) MAX_VALIDATORS]
  | RegisterValidator payer vote => Ok [ValidatorRegistered vote payer]
  | DepositSol depositor _ lamports_in => Ok [PoolDeposit depositor DEPOSIT_KIND_SOL 0 lamports_in]
  | DepositStake depositor user_stake vote _ _ =>
      Ok [PoolDeposit depositor DEPOSIT_KIND_STAKE vote (se_lamports env user_stake)]
  | SetPreference _ position _ =>
      p' ← preference_of c' position;
      Ok [preference_event position PREF_OP_SET (pf_observed_ink p') (pf_observed_ink_nonce p') now p']
  | SyncPreference position => sync_events env position c c'
  | SnapshotPreference position => snapshot_events env position c c'
  | ClosePreference _ position _ =>
      p ← preference_of c position;
      Ok [preference_event position PREF_OP_CLOSED (pf_observed_ink p) (pf_observed_ink_nonce p) now p]
  | StartEpoch => Ok (phase_event env es' (es_phase es) PHASE_RECONCILE)
  | ReconcileBatch _ recipient =>
      Ok (completion_event env es es' PHASE_RECONCILE PHASE_FINALIZE
          ++ reward_event recipient TASK_RECONCILE_BATCH es es')
  | FinalizePool recipient => Ok (finalize_pool_events env recipient es es')
  | ClosePreferenceWindow => Ok (phase_event env es PHASE_PREFERENCES PHASE_PLAN_DIRECTED)
  | PlanDirectedBatch accounts recipient => directed_events env accounts recipient c c'
  | PlanNeutralBatch _ recipient =>
      Ok (completion_event env es es' PHASE_PLAN_NEUTRAL PHASE_PLAN_FINALIZE
          ++ reward_event recipient TASK_PLAN_BATCH es es')
  | FinalizePlan recipient => Ok (finalize_plan_events env recipient es es')
  | ExecuteNextAction vote _ _ recipient =>
      e ← action_event env vote c; Ok ([e] ++ reward_event recipient TASK_REBALANCE_ACTION es es')
  | FinishEpoch recipient =>
      Ok (phase_event env es PHASE_REBALANCE PHASE_IDLE ++ reward_event recipient TASK_FINISH_EPOCH es es')
  end.

End stake_emission.
