(* ===== verification/StakePlan.v ===== *)
(** * The plan of an epoch: invariant of the crank

    What the epoch state and the validator records say about each other in every
    phase: which records the plan covers, that the aggregates are the sums over
    them, and where the capacity round in progress stands. *)

From S2P Require Import Prelude MachineInt State Token AccountBytes StakeMath StakeTargets StakeView Cpi SplCpi StakeState.
From S2P Require Import StakeAccounts StakeCrank StakeSystem.

Open Scope Z_scope.

(** ** What a planned record holds *)

Definition cap_of (nav_total : Z) (status : ValidatorStatus) : Z :=
  lifecycle_cap status nav_total CANDIDATE_CAP_BPS ACTIVE_VALIDATOR_CAP_BPS.

(** The target is the directed floor plus the neutral grants, under the lifecycle cap
    with the remaining capacity; only an active validator has capacity or grants. *)
Record planned_ok (nav_total : Z) (r : ValidatorRecord) : Prop := {
  po_directed : 0 <= vr_directed_target r;
  po_granted : 0 <= vr_neutral_granted r;
  po_final : vr_final_target r = vr_directed_target r + vr_neutral_granted r;
  po_capacity : 0 <= vr_remaining_capacity r;
  po_status : exists s, status_from_u8 (vr_status r) = Some s;
  po_cap : forall s, status_from_u8 (vr_status r) = Some s ->
    vr_final_target r + vr_remaining_capacity r <= cap_of nav_total s;
  po_active : 0 < vr_remaining_capacity r -> vr_status r = status_as_u8 Active;
}.

Lemma planned_slot_ok nav_total r : u64 nav_total -> planned_ok nav_total r ->
  slot_ok (vr_remaining_capacity r, vr_final_target r).
Proof.
  intros Hn []. destruct po_status0 as [s Hs]. specialize (po_cap0 s Hs).
  pose proof (lifecycle_cap_range s nav_total CANDIDATE_CAP_BPS ACTIVE_VALIDATOR_CAP_BPS Hn ltac:(rlia) ltac:(rlia)) as Hr.
  unfold cap_of in *. unfold slot_ok. cbn. rlia.
Qed.

Definition all_planned (nav_total e : Z) (records : gmap Pubkey ValidatorRecord) : Prop :=
  forall k r, records !! k = Some r -> vr_plan_epoch r = e -> planned_ok nav_total r.

(** A field of the records the plan of epoch [e] covers. *)
Definition planned (e : Z) (f : ValidatorRecord -> Z) (r : ValidatorRecord) : Z :=
  if vr_plan_epoch r =? e then f r else 0.

Definition planned_sum (e : Z) (f : ValidatorRecord -> Z) (records : gmap Pubkey ValidatorRecord) : Z :=
  msum (planned e f) records.

Definition slot_of (records : gmap Pubkey ValidatorRecord) (k : Pubkey) : Slot :=
  match records !! k with
  | Some r => (vr_remaining_capacity r, vr_final_target r)
  | None => (0, 0)
  end.

Definition slots_of (records : gmap Pubkey ValidatorRecord) (keys : list Pubkey) : list Slot :=
  slot_of records <$> keys.

(** [keys] are the records of the planned list ordinals, in order; every other planned
    record is an admission extra, without capacity. *)
Record covers (e : Z) (keys : list Pubkey) (records : gmap Pubkey ValidatorRecord) : Prop := {
  cv_index : forall i k, keys !! i = Some k -> exists r, records !! k = Some r /\
    vr_plan_epoch r = e /\ vr_validator_list_index r = Z.of_nat i;
  cv_extra : forall k r, records !! k = Some r -> vr_plan_epoch r = e -> k ∉ keys ->
    vr_validator_list_index r = VALIDATOR_LIST_INDEX_UNSET /\ vr_remaining_capacity r = 0;
  cv_length : Z.of_nat (length keys) <= MAX_VALIDATORS;
}.

(** The same records, with the same vote accounts, plan stamps and counted shares. *)
Definition kept (records records' : gmap Pubkey ValidatorRecord) : Prop :=
  forall k r', records' !! k = Some r' -> exists r, records !! k = Some r /\
    vr_vote_account r' = vr_vote_account r /\ vr_plan_epoch r' = vr_plan_epoch r /\
    vr_directed_shares r' = vr_directed_shares r.

#[export] Instance kept_preorder : PreOrder kept.
Proof.
  split; [intros x k r ?; eauto|]. intros x y z H1 H2 k r Hr.
  destruct (H2 _ _ Hr) as (r1 & Hr1 & ? & ? & ?). destruct (H1 _ _ Hr1) as (r2 & Hr2 & ? & ? & ?).
  exists r2. split_and!; congruence.
Qed.

Lemma kept_insert records k r r' : records !! k = Some r -> vr_vote_account r' = vr_vote_account r ->
  vr_plan_epoch r' = vr_plan_epoch r -> vr_directed_shares r' = vr_directed_shares r ->
  kept records (<[k := r']> records).
Proof.
  intros Hr ??? k' r'' H. destruct (decide (k' = k)) as [->|].
  - rewrite lookup_insert_eq in H. simplify_eq. eauto.
  - rewrite lookup_insert_ne in H by done. eauto.
Qed.

(** The round in progress: its cursor splits the slots into those already stepped and
    those still to be stepped. *)
Record in_round (es : EpochState) (slots : list Slot) : Prop := {
  ir_wf : wf_round (es_round es);
  ir_cursor : 0 <= es_neutral_cursor es <= Z.of_nat (length slots);
  ir_steps : nr_steps (es_round es) + unsaturated (drop (Z.to_nat (es_neutral_cursor es)) slots)
             = nr_n_unsaturated (es_round es);
  ir_saturated : nr_n_unsaturated (es_round es) - nr_saturated (es_round es) = unsaturated slots;
  ir_number : 1 <= es_neutral_round_number es /\
    es_neutral_round_number es + nr_n_unsaturated (es_round es) <= Z.of_nat (length slots) + 1;
  ir_total : es_sum_directed_targets es + (es_neutral_granted_total es - nr_granted (es_round es))
             + nr_remaining (es_round es) = es_productive_lamports es;
}.

(** The plan's aggregates over the records it covers. *)
Record sums_ok (es : EpochState) (records : gmap Pubkey ValidatorRecord) : Prop := {
  so_directed : es_sum_directed_targets es
                = planned_sum (es_controller_epoch es) vr_directed_target records;
  so_granted : es_neutral_granted_total es
               = planned_sum (es_controller_epoch es) vr_neutral_granted records;
  so_shares : es_sum_directed_targets es * es_nav_fusol_supply es
              <= es_productive_lamports es * es_total_directed_shares es;
  so_shares_pos : 0 <= es_total_directed_shares es;
  so_no_supply : es_nav_fusol_supply es = 0 -> es_sum_directed_targets es = 0;
}.

Definition directed_phase (es : EpochState) (records : gmap Pubkey ValidatorRecord) (keys : list Pubkey) : Prop :=
  covers (es_controller_epoch es) keys records /\ sums_ok es records /\
  es_plan_directed_cursor es = Z.of_nat (length keys) /\ es_neutral_granted_total es = 0 /\
  es_neutral_round_number es = 0 /\
  es_unsaturated_active_count es = unsaturated (slots_of records keys).

(** Before the first round the whole neutral pool is left; then a round is open. *)
Definition neutral_progress (es : EpochState) (slots : list Slot) : Prop :=
  if es_neutral_round_number es =? 0 then
    es_neutral_granted_total es = 0 /\
    es_unsaturated_active_count es = unsaturated slots /\
    es_sum_directed_targets es + es_neutral_total es = es_productive_lamports es /\
    0 <= es_neutral_total es
  else in_round es slots.

Definition neutral_phase (es : EpochState) (records : gmap Pubkey ValidatorRecord) (keys : list Pubkey) : Prop :=
  covers (es_controller_epoch es) keys records /\ sums_ok es records /\
  es_plan_directed_cursor es = Z.of_nat (length keys) /\
  neutral_progress es (slots_of records keys).

(** A finished plan: every productive lamport is a target or the shortfall. *)
Definition plan_conserved (es : EpochState) (records : gmap Pubkey ValidatorRecord) : Prop :=
  sums_ok es records /\ 0 <= es_capacity_shortfall es /\
  es_sum_directed_targets es + es_neutral_granted_total es + es_capacity_shortfall es
  = es_productive_lamports es.

(** Records planned before this epoch, and none yet in it. *)
Definition unplanned (es : EpochState) (records : gmap Pubkey ValidatorRecord) : Prop :=
  forall k r, records !! k = Some r -> vr_plan_epoch r < es_controller_epoch es.

Definition phase_ok (es : EpochState) (records : gmap Pubkey ValidatorRecord) : Prop :=
  match es_phase es with
  | 0 => True
  | 1 | 2 | 3 => unplanned es records
  | 4 => exists keys, directed_phase es records keys
  | 5 => exists keys, neutral_phase es records keys
  | 6 | 7 => plan_conserved es records
  | _ => False
  end.

Record es_ok (es : EpochState) : Prop := {
  eo_controller_epoch : u64 (es_controller_epoch es);
  eo_started : es_phase es <> PHASE_IDLE -> 0 < es_controller_epoch es;
  eo_nav : u64 (es_nav_total_lamports es);
  eo_supply : u64 (es_nav_fusol_supply es);
  eo_reserve : 0 <= es_reserve_target es;
  eo_split : es_reserve_target es + es_productive_lamports es = es_nav_total_lamports es;
  eo_productive : 0 <= es_productive_lamports es;
  eo_payout : 0 <= es_epoch_payout_budget_used es <= CRANK_EPOCH_PAYOUT_BUDGET;
  eo_budget : es_churn_budget_total es = bps_of (es_nav_total_lamports es) GLOBAL_CHURN_CAP_BPS;
  eo_churn : 0 <= es_churn_budget_used es <= es_churn_budget_total es;
  eo_unspent : es_phase es <> PHASE_IDLE -> es_phase es <> PHASE_REBALANCE -> es_churn_budget_used es = 0;
}.

(** ** The invariant does not see the rest of the epoch state *)

Definition plan_part (es : EpochState) :=
  (es_controller_epoch es, es_plan_directed_cursor es, es_nav_fusol_supply es, es_productive_lamports es,
   es_total_directed_shares es, es_neutral_total es, es_unsaturated_active_count es, es_capacity_shortfall es,
   (es_round es, es_neutral_round_number es, es_neutral_cursor es, es_sum_directed_targets es,
    es_neutral_granted_total es, es_phase es)).

Ltac use_plan_part H := unfold plan_part in H; injection H as ????? ????? ????.
Ltac same_fields es es' := repeat match goal with H : ?f es = ?f es' |- _ => rewrite <- H end.

Definition sums_part (es : EpochState) :=
  (es_controller_epoch es, es_nav_fusol_supply es, es_productive_lamports es, es_total_directed_shares es,
   es_sum_directed_targets es, es_neutral_granted_total es).

Lemma sums_ok_ext es es' records : sums_part es = sums_part es' -> sums_ok es records -> sums_ok es' records.
Proof.
  intros E []. unfold sums_part in E. injection E as ??????. split; same_fields es es'; assumption.
Qed.

Lemma plan_sums_part es es' : plan_part es = plan_part es' -> sums_part es = sums_part es'.
Proof. intros E. use_plan_part E. unfold sums_part. congruence. Qed.

Lemma in_round_ext es es' slots : plan_part es = plan_part es' -> in_round es slots -> in_round es' slots.
Proof. intros E []. use_plan_part E. split; same_fields es es'; assumption. Qed.

Lemma neutral_progress_ext es es' slots : plan_part es = plan_part es' ->
  neutral_progress es slots -> neutral_progress es' slots.
Proof.
  intros E. pose proof (in_round_ext es es' slots E) as Hr. use_plan_part E.
  unfold neutral_progress. same_fields es es'. destruct (_ =? 0); auto.
Qed.

Lemma phase_ok_ext es es' records : plan_part es = plan_part es' -> phase_ok es records -> phase_ok es' records.
Proof.
  intros E. pose proof (sums_ok_ext es es' records (plan_sums_part _ _ E)) as Hs.
  pose proof (fun sl => neutral_progress_ext es es' sl E) as Hn. use_plan_part E.
  unfold phase_ok, unplanned, directed_phase, neutral_phase, plan_conserved. same_fields es es'.
  repeat case_match; naive_solver.
Qed.

Section invariant.
Context {R : Runtime} {S : StakeRuntime}.

Record records_ok (nav_total e : Z) (records : gmap Pubkey ValidatorRecord) : Prop := {
  ro_key : forall k r, records !! k = Some r -> k = validator_pda (vr_vote_account r);
  ro_epoch : forall k r, records !! k = Some r -> 0 <= vr_plan_epoch r <= e;
  ro_shares : forall k r, records !! k = Some r -> 0 <= vr_directed_shares r;
  ro_planned : 0 < e -> all_planned nav_total e records;
}.

(** The epoch state and the records, together. *)
Record crank_inv (es : EpochState) (records : gmap Pubkey ValidatorRecord) : Prop := {
  ci_es : es_ok es;
  ci_records : records_ok (es_nav_total_lamports es) (es_controller_epoch es) records;
  ci_phase : phase_ok es records;
}.

Record stake_inv (c : Controller) : Prop := {
  si_crank : crank_inv (ct_es c) (ct_records c);
  si_config : ct_config c = None -> ct_records c = ∅ /\ ct_es c = zero_epoch_state;
}.

End invariant.
