(* ===== verification/StakeNeutral.v ===== *)
(** * The neutral phase: slices of the crank against the reference driver

    [plan_neutral_batch] folds whatever slice of the planned records its caller
    passes; these lemmas relate a slice to a piece of one pass of
    [walk_round], and the whole phase to [distribute_loop]. *)

From S2P Require Import Prelude MachineInt State Token StakeMath StakeTargets StakeView Cpi SplCpi StakeState.
From S2P Require Import StakeAccounts StakeCrank StakeSystem StakePlan.

Open Scope Z_scope.

(** ** Passes in pieces *)

Lemma walk_round_app r s1 s2 : walk_round r (s1 ++ s2) =
  let '(r1, t1) := walk_round r s1 in let '(r2, t2) := walk_round r1 s2 in (r2, t1 ++ t2).
Proof.
  revert r. induction s1 as [|[c t] s1 IH]; intros r; cbn [app walk_round].
  - by destruct (walk_round r s2).
  - destruct (c =? 0).
    + rewrite IH. destruct (walk_round r s1) as [r1 t1]. by destruct (walk_round r1 s2).
    + destruct (step r c) as [r0 g]. rewrite IH. destruct (walk_round r0 s1) as [r1 t1].
      by destruct (walk_round r1 s2).
Qed.

Lemma walk_round_length r s r' s' : walk_round r s = (r', s') -> length s' = length s.
Proof.
  revert r r' s'. induction s as [|[c t] s IH]; intros r r' s' H; cbn in H; [by injection H as <- <-|].
  destruct (c =? 0).
  - destruct (walk_round r s) eqn:E. injection H as <- <-. cbn. f_equal. by eapply IH.
  - destruct (step r c) as [r0 g]. destruct (walk_round r0 s) eqn:E. injection H as <- <-.
    cbn. f_equal. by eapply IH.
Qed.

Lemma total_target_app a b : total_target (a ++ b) = total_target a + total_target b.
Proof. induction a as [|s a IH]; [done|]. cbn [app]. rewrite !total_target_cons, IH. lia. Qed.

Lemma unsaturated_app a b : unsaturated (a ++ b) = unsaturated a + unsaturated b.
Proof. unfold unsaturated. rewrite filter_app, length_app. lia. Qed.

(** ** The records behind the slots *)

Section keys.
Context (e : Z) (keys : list Pubkey) (records : gmap Pubkey ValidatorRecord) (Hc : covers e keys records).

Lemma covers_NoDup : NoDup keys.
Proof using Hc.
  apply NoDup_alt. intros i j k Hi Hj.
  destruct (cv_index _ _ _ Hc i k Hi) as (r & Hr & _ & Ei).
  destruct (cv_index _ _ _ Hc j k Hj) as (r' & Hr' & _ & Ej).
  simplify_eq. lia.
Qed.

Lemma slots_insert j k r : keys !! j = Some k ->
  slots_of (<[k := r]> records) keys = <[j := (vr_remaining_capacity r, vr_final_target r)]> (slots_of records keys).
Proof using Hc.
  intros Hj. apply list_eq. intros i. unfold slots_of. rewrite list_lookup_fmap.
  destruct (decide (i = j)) as [->|Hne].
  - rewrite Hj. cbn. unfold slot_of. rewrite lookup_insert_eq.
    rewrite list_lookup_insert_eq; [done|]. rewrite length_fmap. by eapply lookup_lt_Some.
  - rewrite list_lookup_insert_ne by done. rewrite list_lookup_fmap.
    destruct (keys !! i) as [k'|] eqn:Ei; [|done]. cbn. unfold slot_of.
    rewrite lookup_insert_ne; [done|]. intros ->.
    pose proof covers_NoDup as Hnd. rewrite NoDup_alt in Hnd. by specialize (Hnd _ _ _ Hj Ei).
Qed.

(** Overwriting a covered record within its ordinal keeps the cover. *)
Lemma covers_insert j k r : keys !! j = Some k -> vr_plan_epoch r = e ->
  vr_validator_list_index r = Z.of_nat j -> covers e keys (<[k := r]> records).
Proof using Hc.
  intros Hj He Hi. split.
  - intros i k' Hk'. destruct (decide (k' = k)) as [->|Hne].
    + exists r. rewrite lookup_insert_eq. pose proof covers_NoDup as Hnd. rewrite NoDup_alt in Hnd.
      by rewrite (Hnd _ _ _ Hk' Hj).
    + rewrite lookup_insert_ne by done. by apply (cv_index _ _ _ Hc).
  - intros k' r' Hr' He' Hn. destruct (decide (k' = k)) as [->|Hne].
    + destruct Hn. by eapply list_elem_of_lookup_2.
    + rewrite lookup_insert_ne in Hr' by done. by apply (cv_extra _ _ _ Hc k').
  - apply (cv_length _ _ _ Hc).
Qed.

Lemma slots_lookup j k r : keys !! j = Some k -> records !! k = Some r ->
  slots_of records keys !! j = Some (vr_remaining_capacity r, vr_final_target r).
Proof using. intros Hj Hr. unfold slots_of. rewrite list_lookup_fmap, Hj. cbn. unfold slot_of. by rewrite Hr. Qed.

End keys.

Lemma planned_sum_insert e f records k r r' : records !! k = Some r -> vr_plan_epoch r = e ->
  vr_plan_epoch r' = e -> planned_sum e f (<[k := r']> records) = planned_sum e f records - f r + f r'.
Proof.
  intros Hk He He'. unfold planned_sum. rewrite (msum_update _ _ _ _ _ Hk). unfold planned.
  by rewrite He, He', Z.eqb_refl.
Qed.

(** What the fold leaves of the epoch state: all but its own accumulators. *)
Definition fold_frame (es : EpochState) : EpochState :=
  es <| es_neutral_granted_total := 0 |> <| es_neutral_cursor := 0 |>
     <| es_preferred_withdraw_surplus := 0 |> <| es_preferred_withdraw_vote := 0 |>.

Lemma fold_frame_preferred es vote surplus :
  fold_frame (fold_preferred_withdraw es vote surplus) = fold_frame es.
Proof. unfold fold_preferred_withdraw. by destruct (_ <? _). Qed.

Lemma preferred_cursor es vote surplus :
  es_neutral_cursor (fold_preferred_withdraw es vote surplus) = es_neutral_cursor es /\
  es_neutral_granted_total (fold_preferred_withdraw es vote surplus) = es_neutral_granted_total es.
Proof. unfold fold_preferred_withdraw. by destruct (_ <? _). Qed.

(** ** One record of a slice *)

Record visited (e nav : Z) (keys : list Pubkey) (records : gmap Pubkey ValidatorRecord) (es : EpochState)
    (round : NeutralRound) (n : nat) (records' : gmap Pubkey ValidatorRecord) (es' : EpochState)
    (round' : NeutralRound) : Prop := {
  vi_covers : covers e keys records';
  vi_planned : all_planned nav e records';
  vi_kept : kept records records';
  vi_cursor : es_neutral_cursor es' = es_neutral_cursor es + Z.of_nat n;
  vi_frame : fold_frame es' = fold_frame es;
  vi_bound : (Z.to_nat (es_neutral_cursor es) + n <= length keys)%nat;
  vi_walk : exists mid,
    walk_round round (take n (drop (Z.to_nat (es_neutral_cursor es)) (slots_of records keys))) = (round', mid) /\
    slots_of records' keys = take (Z.to_nat (es_neutral_cursor es)) (slots_of records keys) ++ mid
      ++ drop (Z.to_nat (es_neutral_cursor es) + n) (slots_of records keys);
  vi_total : es_neutral_granted_total es' = es_neutral_granted_total es
    + (total_target (slots_of records' keys) - total_target (slots_of records keys));
  vi_granted : planned_sum e vr_neutral_granted records' = planned_sum e vr_neutral_granted records
    + (total_target (slots_of records' keys) - total_target (slots_of records keys));
  vi_directed : planned_sum e vr_directed_target records' = planned_sum e vr_directed_target records;
}.

(** The record a cursor position binds. *)
Lemma bound_key e keys records a r cursor : covers e keys records -> 0 <= cursor <= Z.of_nat (length keys) ->
  records !! a = Some r -> vr_plan_epoch r = e -> vr_validator_list_index r = cursor ->
  keys !! Z.to_nat cursor = Some a.
Proof.
  intros Hc Hcur Hr He Hi. destruct (decide (a ∈ keys)) as [Hin|Hout].
  - apply list_elem_of_lookup_1 in Hin as [i Hi'].
    destruct (cv_index _ _ _ Hc i a Hi') as (r' & Hr' & _ & Ei). simplify_eq.
    by rewrite Ei, Nat2Z.id.
  - destruct (cv_extra _ _ _ Hc a r Hr He Hout) as [Hu _]. pose proof (cv_length _ _ _ Hc). lia.
Qed.

(** A grant moves capacity into the target, and the plan's second leg. *)
Lemma apply_grant_spec grant es r es' r' : 0 <= grant -> apply_grant grant es r = Ok (es', r') ->
  vr_neutral_granted r' = vr_neutral_granted r + grant /\ vr_final_target r' = vr_final_target r + grant /\
  vr_remaining_capacity r' = vr_remaining_capacity r - grant /\ vr_directed_target r' = vr_directed_target r /\
  vr_status r' = vr_status r /\ vr_plan_epoch r' = vr_plan_epoch r /\
  vr_validator_list_index r' = vr_validator_list_index r /\ vr_vote_account r' = vr_vote_account r /\
  vr_directed_shares r' = vr_directed_shares r /\
  es_neutral_granted_total es' = es_neutral_granted_total es + grant /\
  es_neutral_cursor es' = es_neutral_cursor es /\ fold_frame es' = fold_frame es.
Proof.
  intros Hg H. unfold apply_grant in H. destruct (Z.ltb_spec 0 grant).
  - ctl_ok H. injection H as <- <-. checked. subst.
    destruct (_ =? 0); cbn; split_and!; done || lia.
  - inv_ok H. injection H as <- <-. split_and!; done || lia.
Qed.

(** The slot a member's step turns its record into. *)
Lemma walk_one round c t round' g : 0 <= c -> 0 <= g <= c -> 0 <= t -> c + t <= U64_MAX ->
  (if 0 <? c then step round c else (round, 0)) = (round', g) ->
  walk_round round [(c, t)] = (round', [(c - g, t + g)]).
Proof.
  intros Hc Hg Ht Hct H. cbn [walk_round]. destruct (Z.ltb_spec 0 c), (Z.eqb_spec c 0); try lia.
  - rewrite H. repeat f_equal; rlia.
  - injection H as <- <-. by rewrite Z.sub_0_r, Z.add_0_r.
Qed.

Lemma planned_ok_grant nav r r' g : planned_ok nav r -> 0 <= g <= vr_remaining_capacity r ->
  vr_neutral_granted r' = vr_neutral_granted r + g -> vr_final_target r' = vr_final_target r + g ->
  vr_remaining_capacity r' = vr_remaining_capacity r - g -> vr_directed_target r' = vr_directed_target r ->
  vr_status r' = vr_status r -> planned_ok nav r'.
Proof.
  intros [] ? E1 E2 E3 E4 E5. split; rewrite ?E1, ?E2, ?E3, ?E4, ?E5; try done; try lia.
  intros s Hs. specialize (po_cap s Hs). lia.
Qed.

Lemma list_split_at {A} (l : list A) j x : l !! j = Some x -> l = take j l ++ x :: drop (S j) l.
Proof. intros. symmetry. by apply take_drop_middle. Qed.

Lemma neutral_one_spec e nav keys a round es records round' es' records' :
  covers e keys records -> all_planned nav e records -> u64 nav -> wf_round round ->
  0 <= es_neutral_cursor es <= Z.of_nat (length keys) ->
  nr_steps round + unsaturated (drop (Z.to_nat (es_neutral_cursor es)) (slots_of records keys))
    <= nr_n_unsaturated round ->
  neutral_one e a round es records = Ok (round', es', records') ->
  visited e nav keys records es round 1 records' es' round'.
Proof.
  intros Hc Hp Hnav Hwf Hcur Hst H. unfold neutral_one in H. ctl_ok H.
  match goal with H : load_record _ _ = Ok ?x |- _ => rename H into Hr, x into r; apply ok_or_Ok in Hr end.
  assert (exists s, status_from_u8 (vr_status r) = Some s) as [s Hs] by eauto.
  match goal with H : status_from_u8 (vr_status r) = Some ?x |- _ => assert (x = s) as -> by congruence end.
  assert (vr_plan_epoch r = e) as He by lia.
  pose proof (bound_key e keys records (ar_key a) r _ Hc Hcur Hr He ltac:(lia)) as Hk.
  pose proof (Hp _ _ Hr He) as Pr. pose proof (planned_slot_ok nav r Hnav Pr) as (S1 & S2 & S3). cbn in S1, S2, S3.
  set (j := Z.to_nat (es_neutral_cursor es)) in *.
  pose proof (slots_lookup keys records j _ r Hk Hr) as Hsl.
  pose proof (lookup_lt_Some _ _ _ Hk) as Hjl.
  set (slots := slots_of records keys) in *.
  assert (length slots = length keys) as Hlen by apply length_fmap.
  pose proof (list_split_at _ _ _ Hsl) as Hsplit.
  assert (drop j slots = (vr_remaining_capacity r, vr_final_target r) :: drop (Datatypes.S j) slots) as Hd.
  { rewrite Hsplit at 1. rewrite drop_app_length' by (rewrite length_take; lia). done. }
  rewrite Hd, unsaturated_cons in Hst. pose proof (unsaturated_nonneg (drop (Datatypes.S j) slots)).
  (* the member test is the slot's capacity test *)
  assert (bool_decide (s = Active) && (0 <? vr_remaining_capacity r) = (0 <? vr_remaining_capacity r)) as Em.
  { destruct (Z.ltb_spec 0 (vr_remaining_capacity r)); [|apply andb_false_r].
    rewrite (po_active _ _ Pr), status_from_as in Hs by done. injection Hs as <-. done. }
  rewrite Em in H.
  destruct (if 0 <? vr_remaining_capacity r then step round (vr_remaining_capacity r) else (round, 0))
    as [round1 g] eqn:Eg.
  assert (0 <= g <= vr_remaining_capacity r) as Hg.
  { destruct (Z.ltb_spec 0 (vr_remaining_capacity r)); [|by injection Eg as <- <-; lia].
    rewrite bool_decide_true in Hst by done.
    apply step_spec in Eg as (_ & _ & _ & ? & _); [done | done | lia | lia]. }
  bind H as [es1 r1] Ha. injection H as <- Hes' <-.
  apply apply_grant_spec in Ha as (A1 & A2 & A3 & A4 & A5 & A6 & A7 & A8 & A9 & A10 & A11 & A12); [|lia].
  pose proof (walk_one round _ (vr_final_target r) round1 g S1 Hg S2 S3 Eg) as Hw.
  assert (slots_of (<[ar_key a := r1]> records) keys = take j slots ++
    (vr_remaining_capacity r - g, vr_final_target r + g) :: drop (Datatypes.S j) slots) as Hslots.
  { rewrite (slots_insert e keys records Hc j) by done. fold slots. rewrite A3, A2.
    rewrite insert_take_drop by lia. done. }
  assert (total_target slots = total_target (take j slots) + (vr_final_target r + total_target (drop (Datatypes.S j) slots)))
    as Ht by (rewrite Hsplit at 1; by rewrite total_target_app, total_target_cons).
  assert (total_target (slots_of (<[ar_key a := r1]> records) keys) - total_target slots = g) as Hg'
    by (rewrite Hslots, total_target_app, total_target_cons; cbn [snd]; lia).
  assert (all_planned nav e (<[ar_key a := r1]> records)) as Hp'.
  { intros k x Hx Hxe. destruct (decide (k = ar_key a)) as [->|].
    - rewrite lookup_insert_eq in Hx. injection Hx as <-. by eapply planned_ok_grant.
    - rewrite lookup_insert_ne in Hx by done. by eapply Hp. }
  assert (exists es2, es' = es2 <| es_neutral_cursor := es_neutral_cursor es2 + 1 |> /\
    es_neutral_cursor es2 = es_neutral_cursor es /\ fold_frame es2 = fold_frame es /\
    es_neutral_granted_total es2 = es_neutral_granted_total es + g) as (es2 & -> & F1 & F2 & F3).
  { subst es'. eexists (if vr_pool_entry_status r1 =? 0 then _ else es1). split; [reflexivity|]. destruct (vr_pool_entry_status r1 =? 0); [|done].
    destruct (preferred_cursor es1 (vr_vote_account r1)
      (sat_sub (vr_last_active_lamports r1) (vr_final_target r1))) as [-> ->].
    by rewrite fold_frame_preferred. }
  split.
  - apply (covers_insert e keys records Hc j); [done | congruence | rewrite A7; lia].
  - done.
  - by eapply kept_insert.
  - cbn [es_neutral_cursor update]. lia.
  - done.
  - lia.
  - exists [(vr_remaining_capacity r - g, vr_final_target r + g)]. fold j slots. rewrite Hd, firstn_cons, take_0.
    rewrite Hw. split; [done|]. by replace (j + 1)%nat with (Datatypes.S j) by lia.
  - fold slots. rewrite Hg'. done.
  - fold slots. rewrite Hg'. rewrite (planned_sum_insert _ _ _ _ _ _ Hr) by congruence. lia.
  - rewrite (planned_sum_insert _ _ _ _ _ _ Hr) by congruence. lia.
Qed.

(** ** A slice *)

Definition can_step (round : NeutralRound) (es : EpochState) (slots : list Slot) : Prop :=
  wf_round round /\ 0 <= es_neutral_cursor es <= Z.of_nat (length slots) /\
  nr_steps round + unsaturated (drop (Z.to_nat (es_neutral_cursor es)) slots) <= nr_n_unsaturated round.

Lemma slots_ok nav e keys records : u64 nav -> covers e keys records -> all_planned nav e records ->
  Forall slot_ok (slots_of records keys).
Proof.
  intros Hn Hc Hp. apply Forall_lookup. intros i s Hi. unfold slots_of in Hi.
  rewrite list_lookup_fmap in Hi. destruct (keys !! i) as [k|] eqn:Ek; [|done].
  destruct (cv_index _ _ _ Hc i k Ek) as (r & Hr & He & _). cbn in Hi. injection Hi as <-.
  unfold slot_of. rewrite Hr. eapply planned_slot_ok; eauto.
Qed.

Lemma length_slots records keys : length (slots_of records keys) = length keys.
Proof. apply length_fmap. Qed.

Section visit.
Context (e nav : Z) (keys : list Pubkey) (records records' : gmap Pubkey ValidatorRecord).
Context (es es' : EpochState) (round round' : NeutralRound) (n : nat).
Context (Hnav : u64 nav) (Hc : covers e keys records) (Hp : all_planned nav e records).
Context (Hcs : can_step round es (slots_of records keys)).
Context (Hv : visited e nav keys records es round n records' es' round').

(** What a slice does to the round: it advances the pass it is part of. *)
Lemma visited_round :
  can_step round' es' (slots_of records' keys) /\ same_round round round' /\
  nr_steps round' + unsaturated (drop (Z.to_nat (es_neutral_cursor es')) (slots_of records' keys))
    = nr_steps round + unsaturated (drop (Z.to_nat (es_neutral_cursor es)) (slots_of records keys)) /\
  nr_granted round' = nr_granted round
    + (total_target (slots_of records' keys) - total_target (slots_of records keys)) /\
  nr_saturated round' = nr_saturated round
    + (unsaturated (slots_of records keys) - unsaturated (slots_of records' keys)).
Proof using Hnav Hc Hp Hcs Hv.
  destruct Hv as [_ _ _ Hcur _ Hb (mid & Hw & Hs) _ _ _]. destruct Hcs as (Hwf & Hr & Hst).
  pose proof (slots_ok nav e keys records Hnav Hc Hp) as Hok.
  rewrite length_slots in *. set (slots := slots_of records keys) in *.
  set (j := Z.to_nat (es_neutral_cursor es)) in *.
  assert (length slots = length keys) as Hl by apply length_slots.
  assert (slots = take j slots ++ take n (drop j slots) ++ drop (j + n) slots) as Esl.
  { rewrite <- drop_drop, (take_drop n). by rewrite take_drop. }
  assert (drop j slots = take n (drop j slots) ++ drop (j + n) slots) as Ed
    by (by rewrite <- drop_drop, take_drop).
  rewrite Ed, unsaturated_app in Hst. pose proof (unsaturated_nonneg (drop (j + n) slots)).
  assert (Forall slot_ok (take n (drop j slots))) as Hok' by (by apply Forall_take, Forall_drop).
  apply walk_round_spec in Hw as (W & SR & K & G & _ & A & B); [|done|done|lia].
  pose proof (Forall2_length _ _ _ G) as Hml. rewrite length_take, length_drop in Hml.
  assert (Z.to_nat (es_neutral_cursor es') = j + n)%nat as Ej by lia.
  assert (drop (j + n) (slots_of records' keys) = drop (j + n) slots) as Ed'.
  { rewrite Hs, app_assoc. rewrite drop_app_length' by (rewrite length_app, length_take; lia). done. }
  pose proof (f_equal total_target Esl) as Et. pose proof (f_equal total_target Hs) as Et'.
  pose proof (f_equal unsaturated Esl) as Eu. pose proof (f_equal unsaturated Hs) as Eu'.
  rewrite !total_target_app in Et, Et'. rewrite !unsaturated_app in Eu, Eu'.
  unfold can_step. rewrite length_slots, Ej, Ed', Ed, unsaturated_app.
  pose proof SR as (_ & SR2 & _). rewrite SR2, K. split_and!; done || lia.
Qed.

End visit.

Lemma visited_refl e nav keys records es round : covers e keys records -> all_planned nav e records ->
  0 <= es_neutral_cursor es <= Z.of_nat (length keys) ->
  visited e nav keys records es round 0 records es round.
Proof.
  intros Hc Hp Hr. split; try done; try lia.
  exists []. split; [by rewrite take_0|]. by rewrite Nat.add_0_r, app_nil_l, take_drop.
Qed.

(** Two consecutive slices are one. *)
Lemma visited_trans e nav keys records es round n1 records1 es1 round1 n2 records2 es2 round2 :
  0 <= es_neutral_cursor es ->
  visited e nav keys records es round n1 records1 es1 round1 ->
  visited e nav keys records1 es1 round1 n2 records2 es2 round2 ->
  visited e nav keys records es round (n1 + n2) records2 es2 round2.
Proof.
  intros H0 [C1 P1 K1 U1 F1 B1 (m1 & W1 & S1) T1 G1 D1] [C2 P2 K2 U2 F2 B2 (m2 & W2 & S2) T2 G2 D2].
  set (j := Z.to_nat (es_neutral_cursor es)) in *.
  assert (Z.to_nat (es_neutral_cursor es1) = j + n1)%nat as Ej by lia. rewrite Ej in *.
  set (slots := slots_of records keys) in *.
  assert (length slots = length keys) as Hl by apply length_slots.
  pose proof (walk_round_length _ _ _ _ W1) as Hm1. rewrite length_take, length_drop in Hm1.
  assert (drop (j + n1) (slots_of records1 keys) = drop (j + n1) slots) as Ed.
  { rewrite S1, app_assoc. by rewrite drop_app_length' by (rewrite length_app, length_take; lia). }
  assert (drop (j + n1 + n2) (slots_of records1 keys) = drop (j + (n1 + n2)) slots) as Ed2
    by (rewrite <- drop_drop, Ed, drop_drop; f_equal; lia).
  split; fold slots; try done; try lia.
  - by transitivity records1.
  - congruence.
  - exists (m1 ++ m2). split.
    + rewrite <- take_take_drop, drop_drop, walk_round_app. fold j slots. rewrite W1.
      rewrite Ed in W2. by rewrite W2.
    + rewrite S2. rewrite S1 at 1. rewrite app_assoc, (app_assoc (take j slots)).
      rewrite take_app_length' by (rewrite length_app, length_take; lia).
      rewrite <- !app_assoc, Ed2. done.
Qed.

Lemma neutral_all_spec e nav keys accounts : forall round es records round' es' records',
  covers e keys records -> all_planned nav e records -> u64 nav ->
  can_step round es (slots_of records keys) ->
  neutral_all e accounts round es records = Ok (round', es', records') ->
  visited e nav keys records es round (length accounts) records' es' round'.
Proof.
  induction accounts as [|a accounts IH]; intros round es records round' es' records' Hc Hp Hn Hcs H.
  - injection H as <- <- <-. apply visited_refl; [done|done|]. destruct Hcs as (_ & H & _).
    by rewrite length_slots in H.
  - cbn [neutral_all] in H. bind H as [[round1 es1] records1] H1.
    pose proof Hcs as (Hwf & Hr & Hst). rewrite length_slots in Hr.
    pose proof (neutral_one_spec e nav keys a _ _ _ _ _ _ Hc Hp Hn Hwf Hr Hst H1) as V1.
    pose proof (visited_round e nav keys _ _ _ _ _ _ _ Hn Hc Hp Hcs V1) as (Hcs1 & _).
    pose proof (IH _ _ _ _ _ _ (vi_covers _ _ _ _ _ _ _ _ _ _ V1) (vi_planned _ _ _ _ _ _ _ _ _ _ V1) Hn Hcs1 H) as V2.
    exact (visited_trans _ _ _ _ _ _ 1 _ _ _ _ _ _ _ (proj1 Hr) V1 V2).
Qed.

(** ** The end of a round *)

Definition round_closed (es : EpochState) (round : NeutralRound) : EpochState :=
  es <| es_neutral_total := remaining_after round |>
     <| es_unsaturated_active_count := nr_n_unsaturated round - nr_saturated round |>.

Section round_end.
Context (es : EpochState) (slots : list Slot).
Context (Hin : in_round es slots) (Hdone : es_neutral_cursor es = Z.of_nat (length slots)).
Context (He : 0 <= es_controller_epoch es) (Hlen : Z.of_nat (length slots) <= MAX_VALIDATORS).

Lemma round_end_facts :
  nr_steps (es_round es) = nr_n_unsaturated (es_round es) /\
  remaining_after (es_round es) = nr_remaining (es_round es) - nr_granted (es_round es) /\
  0 <= remaining_after (es_round es) <= U64_MAX /\
  (0 < remaining_after (es_round es) -> 1 <= nr_saturated (es_round es)).
Proof using Hin Hdone.
  destruct Hin as [W _ St Sa _ _]. rewrite Hdone, Nat2Z.id, drop_all in St.
  change (unsaturated []) with 0 in St. rewrite Z.add_0_r in St.
  destruct (round_progress _ W St) as [P1 P2]. pose proof W as [].
  assert (remaining_after (es_round es) = nr_remaining (es_round es) - nr_granted (es_round es))
    by (unfold remaining_after, sat_sub; lia).
  split_and!; done || rlia.
Qed.

(** The completion never fails: it ends the phase with what nobody could take, or opens
    the next round over whoever has capacity left. *)
Lemma complete_round_run (closed := round_closed es (es_round es)) :
  complete_round (es_controller_epoch es) (es_round es) es =
  if (remaining_after (es_round es) =? 0) || (unsaturated slots =? 0)
  then Ok (closed <| es_capacity_shortfall := remaining_after (es_round es) |>, true)
  else match begin_round (remaining_after (es_round es)) (unsaturated slots) (es_controller_epoch es) with
       | Some next => Ok (open_round closed next (es_neutral_round_number es + 1), false)
       | None => Err (Ctl CtlError.NeutralRoundInconsistent)
       end.
Proof using Hin Hdone Hlen.
  destruct round_end_facts as (Est & Er & Hr & Hsat).
  pose proof Hin as [W _ _ Sa [N1 N2] _]. pose proof W as [].
  pose proof (unsaturated_nonneg slots) as Hu. pose proof (unsaturated_le_length slots) as Hul.
  unfold complete_round, is_complete, or_err, ensure, checked_sub64.
  destruct (Z.leb_spec (nr_n_unsaturated (es_round es)) (nr_steps (es_round es))); [|lia]. step_ok.
  rewrite fit_in by lia. step_ok. rewrite Sa.
  destruct (_ || _) eqn:E; [unfold closed, round_closed; by rewrite Sa|]. propify.
  specialize (Hsat ltac:(lia)).
  destruct (Z.ltb_spec (es_neutral_round_number es) MAX_NEUTRAL_ROUNDS) as [Hlt|Hge]; cbn; [|lia].
  destruct (Z.ltb_spec (es_neutral_round_number es) 1024); [|lia]. step_ok.
  destruct (begin_round _ _ _); [|done]. step_ok. unfold closed, round_closed. by rewrite Sa.
Qed.

Lemma next_round_opens : (remaining_after (es_round es) =? 0) || (unsaturated slots =? 0) = false ->
  exists next, begin_round (remaining_after (es_round es)) (unsaturated slots) (es_controller_epoch es) = Some next.
Proof using. unfold begin_round. intros ->. eauto. Qed.

End round_end.

(** What the whole phase leaves of the epoch state. *)
Definition neutral_frame (es : EpochState) : EpochState :=
  (fold_frame es) <| es_neutral_total := 0 |> <| es_unsaturated_active_count := 0 |>
    <| es_capacity_shortfall := 0 |> <| es_round := zero_round |> <| es_neutral_round_number := 0 |>.

Lemma neutral_frame_fold es es' : fold_frame es' = fold_frame es -> neutral_frame es' = neutral_frame es.
Proof. intros E. unfold neutral_frame. by rewrite E. Qed.

(** The reference run resumed from a state of the phase: the rest of the pass in progress,
    then the driver's loop. *)
Definition resumed (fuel : nat) (es : EpochState) (slots : list Slot) : option (NeutralOutcome * list Slot) :=
  if es_neutral_round_number es =? 0 then
    distribute_loop fuel (es_controller_epoch es) (es_neutral_total es) 0 slots
  else
    let j := Z.to_nat (es_neutral_cursor es) in
    let '(round, rest) := walk_round (es_round es) (drop j slots) in
    distribute_loop fuel (es_controller_epoch es) (remaining_after round) (es_neutral_round_number es)
      (take j slots ++ rest).

Definition resumes_to (es : EpochState) (slots : list Slot) (x : NeutralOutcome * list Slot) : Prop :=
  exists fuel, resumed fuel es slots = Some x.

(** A slice within a round moves along the same reference run. *)
Lemma resumed_slice e nav keys records es round n records' es' round' fuel :
  visited e nav keys records es round n records' es' round' -> es_round es = round ->
  0 <= es_neutral_cursor es -> es_neutral_round_number es <> 0 ->
  resumed fuel (es' <| es_round := round' |>) (slots_of records' keys) = resumed fuel es (slots_of records keys).
Proof.
  intros [_ _ _ Hcur Hf Hb (mid & Hw & Hs) _ _ _] <- H0 Hn.
  pose proof (f_equal es_neutral_round_number Hf) as En. pose proof (f_equal es_controller_epoch Hf) as Ee.
  cbn in En, Ee. unfold resumed. cbn. rewrite En, Ee.
  destruct (Z.eqb_spec (es_neutral_round_number es) 0); [done|].
  set (slots := slots_of records keys) in *. set (j := Z.to_nat (es_neutral_cursor es)) in *.
  assert (length slots = length keys) as Hl by apply length_slots.
  replace (Z.to_nat (es_neutral_cursor es')) with (j + n)%nat by lia.
  pose proof (walk_round_length _ _ _ _ Hw) as Hm. rewrite length_take, length_drop in Hm.
  assert (drop (j + n) (slots_of records' keys) = drop (j + n) slots) as ->.
  { rewrite Hs, app_assoc. by rewrite drop_app_length' by (rewrite length_app, length_take; lia). }
  assert (take (j + n) (slots_of records' keys) = take j slots ++ mid) as ->.
  { rewrite Hs, app_assoc. by rewrite take_app_length' by (rewrite length_app, length_take; lia). }
  rewrite <- (take_drop n (drop j slots)), drop_drop, walk_round_app, Hw.
  destruct (walk_round round' (drop (j + n) slots)) as [r2 rest]. by rewrite <- app_assoc.
Qed.

(** A slice keeps the round's books. *)
Lemma in_round_slice nav keys records es n records' es' round' :
  u64 nav -> covers (es_controller_epoch es) keys records -> all_planned nav (es_controller_epoch es) records ->
  in_round es (slots_of records keys) ->
  visited (es_controller_epoch es) nav keys records es (es_round es) n records' es' round' ->
  in_round (es' <| es_round := round' |>) (slots_of records' keys).
Proof.
  intros Hn Hc Hp [W Hcur St Sa Hnum Ht] V.
  assert (can_step (es_round es) es (slots_of records keys)) as Hcs by (split_and!; done || lia).
  destruct (visited_round _ nav keys _ _ _ _ _ _ _ Hn Hc Hp Hcs V) as ((W' & Hcur' & _) & SR & K & G & B).
  destruct V as [_ _ _ _ Hf _ _ Htot _ _].
  pose proof (f_equal es_neutral_round_number Hf) as F1. pose proof (f_equal es_sum_directed_targets Hf) as F2.
  pose proof (f_equal es_productive_lamports Hf) as F3. cbn in F1, F2, F3.
  pose proof SR as (R1 & R2 & _).
  split; cbn; rewrite ?F1, ?F2, ?F3, ?length_slots in *; try done; lia.
Qed.

(** The sums stay the sums. *)
Lemma sums_ok_slice nav keys records es n records' es' round round' :
  sums_ok es records ->
  visited (es_controller_epoch es) nav keys records es round n records' es' round' ->
  sums_ok (es' <| es_round := round' |>) records'.
Proof.
  intros [] [_ _ _ _ Hf _ _ Ht Hg Hd].
  pose proof (f_equal es_controller_epoch Hf) as F1. pose proof (f_equal es_sum_directed_targets Hf) as F2.
  pose proof (f_equal es_productive_lamports Hf) as F3. pose proof (f_equal es_nav_fusol_supply Hf) as F4.
  pose proof (f_equal es_total_directed_shares Hf) as F5. cbn in F1, F2, F3, F4, F5.
  split; cbn; rewrite ?F1, ?F2, ?F3, ?F4, ?F5, ?Hd, ?Hg; try done. lia.
Qed.

(** ** A whole call *)

(** What [fold_slice] and the opening of the first round leave: the phase goes on along
    the same reference run, or is over with that run's result. *)
Record neutral_result (nav : Z) (keys : list Pubkey) (es : EpochState) (records : gmap Pubkey ValidatorRecord)
    (es' : EpochState) (records' : gmap Pubkey ValidatorRecord) (finished : bool) : Prop := {
  nx_covers : covers (es_controller_epoch es) keys records';
  nx_planned : all_planned nav (es_controller_epoch es) records';
  nx_kept : kept records records';
  nx_frame : neutral_frame es' = neutral_frame es;
  nx_sums : sums_ok es' records';
  nx_progress : if finished then plan_conserved es' records' else neutral_progress es' (slots_of records' keys);
  nx_refines : forall x, resumes_to es (slots_of records keys) x ->
    if finished
    then x = (mkNeutralOutcome (es_neutral_round_number es') (es_capacity_shortfall es'), slots_of records' keys)
    else resumes_to es' (slots_of records' keys) x;
}.

(** The next round, opened over the closed one. *)
Lemma in_round_next es slots next : in_round es slots -> es_neutral_cursor es = Z.of_nat (length slots) ->
  0 <= es_controller_epoch es -> Z.of_nat (length slots) <= MAX_VALIDATORS ->
  begin_round (remaining_after (es_round es)) (unsaturated slots) (es_controller_epoch es) = Some next ->
  in_round (open_round (round_closed es (es_round es)) next (es_neutral_round_number es + 1)) slots.
Proof.
  intros Hin Hd He Hl Hb. destruct (round_end_facts es slots Hin Hd) as (Est & Er & Hr & Hsat).
  destruct Hin as [W _ _ Sa [N1 N2] Ht].
  pose proof (unsaturated_nonneg slots). pose proof (unsaturated_le_length slots).
  apply begin_round_wf in Hb as (W' & B1 & B2 & B3 & B4 & B5 & B6 & B7); [|rlia|lia|done].
  specialize (Hsat ltac:(lia)).
  split; cbn; rewrite ?B1, ?B2, ?B3, ?B4, ?B5; try done; try lia.
Qed.

(** At the end of a pass the reference run goes on with the driver's loop. *)
Lemma resumed_end fuel es slots : es_neutral_cursor es = Z.of_nat (length slots) ->
  es_neutral_round_number es <> 0 ->
  resumed fuel es slots = distribute_loop fuel (es_controller_epoch es) (remaining_after (es_round es))
    (es_neutral_round_number es) slots.
Proof.
  intros Hd Hn. unfold resumed. destruct (Z.eqb_spec (es_neutral_round_number es) 0); [done|].
  rewrite Hd, Nat2Z.id, drop_all, firstn_all. cbn [walk_round]. by rewrite app_nil_r.
Qed.

Lemma end_of_round nav keys es records es' finished :
  covers (es_controller_epoch es) keys records -> all_planned nav (es_controller_epoch es) records ->
  sums_ok es records -> in_round es (slots_of records keys) ->
  es_neutral_cursor es = Z.of_nat (length keys) -> 0 <= es_controller_epoch es ->
  complete_round (es_controller_epoch es) (es_round es) es = Ok (es', finished) ->
  neutral_result nav keys es records es' records finished.
Proof.
  intros Hc Hp Hs Hin Hd He H. pose proof (cv_length _ _ _ Hc) as Hl. rewrite <- (length_slots records) in Hd, Hl.
  set (slots := slots_of records keys) in *.
  rewrite (complete_round_run es slots Hin Hd Hl) in H.
  destruct (round_end_facts es slots Hin Hd) as (Est & Er & Hr & Hsat).
  pose proof Hin as [_ _ _ _ [N1 N2] Ht]. pose proof (unsaturated_nonneg slots) as Hu.
  assert (es_neutral_round_number es <> 0) as Hn by lia.
  destruct (_ || _) eqn:E.
  - injection H as <- <-. split; try done.
    + by apply (sums_ok_ext es).
    + split; [by apply (sums_ok_ext es)|]. cbn. lia.
    + intros x [fuel Hx]. rewrite (resumed_end _ _ _ Hd Hn) in Hx. destruct fuel as [|fuel]; [done|].
      cbn [distribute_loop] in Hx. unfold begin_round in Hx. rewrite E in Hx. by injection Hx as <-.
  - destruct (begin_round _ _ _) as [next|] eqn:Eb; [|done]. injection H as <- <-.
    split; try done.
    + by apply (sums_ok_ext es).
    + unfold neutral_progress. cbn [es_neutral_round_number open_round update].
      destruct (Z.eqb_spec (es_neutral_round_number es + 1) 0); [lia|]. by apply in_round_next.
    + intros x [fuel Hx]. rewrite (resumed_end _ _ _ Hd Hn) in Hx. destruct fuel as [|fuel]; [done|].
      cbn [distribute_loop] in Hx. fold slots in Hx. rewrite Eb in Hx.
      exists fuel. unfold resumed. cbn. destruct (Z.eqb_spec (es_neutral_round_number es + 1) 0); [lia|].
      change (Z.to_nat 0) with 0%nat. rewrite drop_0, take_0. cbn [app]. fold slots.
      destruct (walk_round next slots) as [r2 rest].
      replace (sat_add64 (es_neutral_round_number es) 1) with (es_neutral_round_number es + 1) in Hx
        by (pose proof (wr_n _ (ir_wf _ _ Hin)); rlia).
      done.
Qed.

Lemma neutral_progress_round es slots : es_neutral_round_number es <> 0 ->
  neutral_progress es slots <-> in_round es slots.
Proof. intros. unfold neutral_progress. destruct (Z.eqb_spec (es_neutral_round_number es) 0); done. Qed.

Lemma fold_slice_spec nav keys accounts es records es' records' finished :
  u64 nav -> 0 <= es_controller_epoch es ->
  covers (es_controller_epoch es) keys records -> all_planned nav (es_controller_epoch es) records ->
  sums_ok es records -> in_round es (slots_of records keys) ->
  es_plan_directed_cursor es = Z.of_nat (length keys) ->
  fold_slice accounts es records = Ok (es', records', finished) ->
  neutral_result nav keys es records es' records' finished.
Proof.
  intros Hnav He Hc Hp Hs Hin Hplan H. unfold fold_slice in H.
  bind H as stop Hstop. bind H as u1 Hu1. bind H as u2 Hu2. bind H as [[round es1] records1] Hall.
  clear stop Hstop u1 Hu1 u2 Hu2. pose proof Hin as [W Hcur St _ [N1 _] _].
  assert (can_step (es_round es) es (slots_of records keys)) as Hcs by (split_and!; done || lia).
  pose proof (neutral_all_spec _ nav keys accounts _ _ _ _ _ _ Hc Hp Hnav Hcs Hall) as V.
  pose proof (in_round_slice nav keys _ _ _ _ _ _ Hnav Hc Hp Hin V) as Hin1.
  pose proof (sums_ok_slice nav keys _ _ _ _ _ _ _ Hs V) as Hs1.
  assert (forall fuel, resumed fuel (es1 <| es_round := round |>) (slots_of records1 keys)
          = resumed fuel es (slots_of records keys)) as Hres
    by (intros fuel; eapply resumed_slice; [exact V | done | lia | lia]).
  destruct V as [C1 P1 K1 U1 F1 _ _ _ _ _].
  pose proof (f_equal es_controller_epoch F1) as Fe. pose proof (f_equal es_plan_directed_cursor F1) as Fc.
  pose proof (f_equal es_neutral_round_number F1) as Fn. cbn in Fe, Fc, Fn.
  set (es2 := es1 <| es_round := round |>) in *.
  assert (neutral_frame es2 = neutral_frame es) as Fr by (rewrite <- (neutral_frame_fold es es1 F1); done).
  change (es_neutral_cursor es2) with (es_neutral_cursor es1) in H.
  change (es_controller_epoch es2) with (es_controller_epoch es1) in H. rewrite Fe in H.
  assert (es_controller_epoch es2 = es_controller_epoch es) as Fe2 by exact Fe.
  destruct (Z.eqb_spec (es_neutral_cursor es1) (es_plan_directed_cursor es)) as [Ec|Ec].
  - bind H as [es3 fin] Hcr. injection H as <- <- <-. rewrite <- Fe2 in Hcr, C1, P1, He.
    destruct (end_of_round nav keys es2 records1 es3 fin C1 P1 Hs1 Hin1 ltac:(cbn; lia) He Hcr)
      as [X1 X2 X3 X4 X5 X6 X7].
    split; try (rewrite <- Fe2; done); try done; [congruence|].
    intros x [fuel Hx]. apply X7. exists fuel. by rewrite Hres.
  - injection H as <- <- <-. split; try done.
    + apply neutral_progress_round; [cbn; lia | done].
    + intros x [fuel Hx]. exists fuel. by rewrite Hres.
Qed.

(** The first round, opened over the whole neutral pool. *)
Lemma in_round_first es slots round : neutral_progress es slots -> es_neutral_round_number es = 0 ->
  0 <= es_controller_epoch es -> u64 (es_neutral_total es) -> Z.of_nat (length slots) <= MAX_VALIDATORS ->
  begin_round (es_neutral_total es) (unsaturated slots) (es_controller_epoch es) = Some round ->
  in_round (open_round es round 1) slots.
Proof.
  intros Hp Hn He Hu Hl Hb. unfold neutral_progress in Hp. rewrite Hn in Hp. cbn in Hp.
  destruct Hp as (G & U & T & P). pose proof (unsaturated_nonneg slots). pose proof (unsaturated_le_length slots).
  apply begin_round_wf in Hb as (W' & B1 & B2 & B3 & B4 & B5 & B6 & B7); [|done|rlia|done].
  split; cbn; rewrite ?B1, ?B2, ?B3, ?B4, ?B5; try done; try lia.
Qed.

Lemma open_first nav keys es records round :
  covers (es_controller_epoch es) keys records -> all_planned nav (es_controller_epoch es) records ->
  sums_ok es records -> neutral_progress es (slots_of records keys) -> es_neutral_round_number es = 0 ->
  0 <= es_controller_epoch es -> u64 (es_neutral_total es) ->
  begin_round (es_neutral_total es) (es_unsaturated_active_count es) (es_controller_epoch es) = Some round ->
  neutral_result nav keys es records (open_round es round 1) records false.
Proof.
  intros Hc Hp Hs Hpr Hn He Hu Hb. pose proof Hpr as Hpr'. unfold neutral_progress in Hpr'.
  rewrite Hn in Hpr'. cbn in Hpr'. destruct Hpr' as (_ & U & _). rewrite U in Hb.
  assert (in_round (open_round es round 1) (slots_of records keys)) as Hin.
  { apply in_round_first; try done. rewrite length_slots. by destruct Hc. }
  split; try done; [by apply (sums_ok_ext es)|].
  intros x [fuel Hx]. unfold resumed in Hx. rewrite Hn in Hx. destruct fuel as [|fuel]; [done|].
  cbn [distribute_loop Z.eqb] in Hx. rewrite Hb in Hx. exists fuel. unfold resumed. cbn.
  change (Z.to_nat 0) with 0%nat. rewrite drop_0, take_0. cbn [app].
  destruct (walk_round round _) as [r2 rest]. done.
Qed.

(** No round to open: the pool is the shortfall. *)
Lemma no_round nav keys es records :
  covers (es_controller_epoch es) keys records -> all_planned nav (es_controller_epoch es) records ->
  sums_ok es records -> neutral_progress es (slots_of records keys) -> es_neutral_round_number es = 0 ->
  begin_round (es_neutral_total es) (es_unsaturated_active_count es) (es_controller_epoch es) = None ->
  neutral_result nav keys es records (es <| es_capacity_shortfall := es_neutral_total es |>) records true.
Proof.
  intros Hc Hp Hs Hpr Hn Hb. unfold neutral_progress in Hpr. rewrite Hn in Hpr. cbn in Hpr.
  destruct Hpr as (G & U & T & P). rewrite U in Hb.
  split; try done; [by apply (sums_ok_ext es)| |].
  - split; [by apply (sums_ok_ext es)|]. cbn. lia.
  - intros x [fuel Hx]. unfold resumed in Hx. rewrite Hn in Hx. destruct fuel as [|fuel]; [done|].
    cbn [distribute_loop Z.eqb] in Hx. rewrite Hb in Hx. injection Hx as <-. cbn. by rewrite Hn.
Qed.

Lemma neutral_result_trans nav keys es records es1 records1 es2 records2 finished :
  neutral_result nav keys es records es1 records1 false ->
  neutral_result nav keys es1 records1 es2 records2 finished ->
  neutral_result nav keys es records es2 records2 finished.
Proof.
  intros [C1 P1 K1 F1 S1 Q1 X1] [C2 P2 K2 F2 S2 Q2 X2].
  pose proof (f_equal es_controller_epoch F1) as Fe. cbn in Fe. rewrite Fe in *.
  split; try done; [by transitivity records1 | congruence | naive_solver].
Qed.

Lemma neutral_result_refl nav keys es records :
  covers (es_controller_epoch es) keys records -> all_planned nav (es_controller_epoch es) records ->
  sums_ok es records -> in_round es (slots_of records keys) ->
  neutral_result nav keys es records es records false.
Proof.
  intros Hc Hp Hs Hin. split; try done. apply neutral_progress_round; [|done]. destruct Hin as [_ _ _ _ [? _] _]. lia.
Qed.
