(* ===== verification/StakeDirected.v ===== *)
(** * The directed phase of the plan

    One record of [plan_directed_batch] and a batch of them: the cursor slice binds
    the next list ordinal, an admission extra binds none, and the aggregates stay
    the sums over the planned records. *)

From S2P Require Import Prelude MachineInt State Token AccountBytes StakeMath StakeTargets StakeView Cpi SplCpi StakeState.
From S2P Require Import StakeAccounts StakeCrank StakeSystem StakePlan StakeNeutral.

Open Scope Z_scope.

(** The directed target is the floor of the validator's share of the productive pool,
    under its cap. *)
Lemma directed_target_spec productive shares supply cap :
  0 <= productive -> 0 <= shares -> 0 <= supply -> u64 cap ->
  let t := directed_target productive shares supply cap in
  0 <= t <= cap /\ t * supply <= productive * shares /\ (supply = 0 -> t = 0).
Proof.
  intros Hp Hs Hu Hc t. subst t. unfold directed_target. destruct (Z.eqb_spec supply 0) as [->|Hne]; [rlia|].
  set (raw := productive * shares / supply). assert (0 <= raw) by (apply Z.div_pos; nia).
  assert (raw * supply <= productive * shares) by (pose proof (Z.mul_div_le (productive * shares) supply); lia).
  assert (0 <= default U64_MAX (try_u64 raw) <= Z.max raw U64_MAX /\
          default U64_MAX (try_u64 raw) <= raw) as [? ?].
  { unfold try_u64. destruct (fit U64_MAX raw) as [v|] eqn:E; cbn.
    - apply fit_Some in E. rlia.
    - apply fit_None in E. rlia. }
  split_and!; [rlia|rlia|nia|lia].
Qed.

(** ** A record joins the plan *)

Section join.
Context (e : Z) (keys : list Pubkey) (records : gmap Pubkey ValidatorRecord) (k : Pubkey) (r r' : ValidatorRecord).
Context (Hc : covers e keys records) (Hk : records !! k = Some r) (Hr : vr_plan_epoch r <> e) (Hr' : vr_plan_epoch r' = e).

Lemma not_covered : k ∉ keys.
Proof using Hc Hk Hr.
  intros [i Hi]%list_elem_of_lookup_1. destruct (cv_index _ _ _ Hc i k Hi) as (r0 & H0 & H1 & _).
  rewrite Hk in H0. injection H0 as <-. exact (Hr H1).
Qed.

Lemma slots_join : slots_of (<[k := r']> records) keys = slots_of records keys.
Proof using Hc Hk Hr.
  apply list_fmap_ext. intros i k' Hi. unfold slot_of. rewrite lookup_insert_ne; [done|]. intros <-.
  apply not_covered. by eapply list_elem_of_lookup_2.
Qed.

Lemma covers_join_extra : vr_validator_list_index r' = VALIDATOR_LIST_INDEX_UNSET ->
  vr_remaining_capacity r' = 0 -> covers e keys (<[k := r']> records).
Proof using Hc Hk Hr Hr'.
  intros Hi Hz. pose proof not_covered as Hn. destruct Hc as [H1 H2 H3]. split; [| |done].
  - intros i k' Hk'. rewrite lookup_insert_ne; [by apply H1|]. intros <-. apply Hn. by eapply list_elem_of_lookup_2.
  - intros k' r0 H0. destruct (decide (k' = k)) as [->|Hne].
    + rewrite lookup_insert_eq in H0. by simplify_eq.
    + rewrite lookup_insert_ne in H0 by done. by apply (H2 k').
Qed.

Lemma covers_join : vr_validator_list_index r' = Z.of_nat (length keys) ->
  Z.of_nat (length keys) < MAX_VALIDATORS -> covers e (keys ++ [k]) (<[k := r']> records).
Proof using Hc Hk Hr Hr'.
  intros Hi Hl. pose proof not_covered as Hn. destruct Hc as [H1 H2 _]. split.
  - intros i k' Hk'. apply lookup_app_Some in Hk' as [Hk'|[Hge Hk']].
    + rewrite lookup_insert_ne; [by apply H1|]. intros <-. apply Hn. by eapply list_elem_of_lookup_2.
    + apply list_lookup_singleton_Some in Hk' as [Hz ->]. exists r'. rewrite lookup_insert_eq. split_and!; done || lia.
  - intros k' r0 H0 He Hni. rewrite not_elem_of_app, not_elem_of_cons in Hni.
    destruct Hni as [Hni [Hne _]]. rewrite lookup_insert_ne in H0 by congruence. by apply (H2 k').
  - rewrite length_app. cbn. lia.
Qed.

Lemma planned_sum_join f : planned_sum e f (<[k := r']> records) = planned_sum e f records + f r'.
Proof using Hk Hr Hr'.
  unfold planned_sum. rewrite (msum_update _ _ _ _ _ Hk). unfold planned. rewrite Hr', Z.eqb_refl.
  destruct (Z.eqb_spec (vr_plan_epoch r) e); [done|lia].
Qed.

End join.

Section directed.
Context {R : Runtime} {S : StakeRuntime}.

(** What a batch leaves of the epoch state. *)
Definition directed_frame (es : EpochState) : EpochState :=
  es <| es_plan_directed_cursor := 0 |> <| es_total_directed_shares := 0 |> <| es_sum_directed_targets := 0 |>
     <| es_unsaturated_active_count := 0 |> <| es_preferred_withdraw_surplus := 0 |>
     <| es_preferred_withdraw_vote := 0 |>.

Lemma directed_frame_preferred es vote surplus :
  directed_frame (fold_preferred_withdraw es vote surplus) = directed_frame es.
Proof. unfold fold_preferred_withdraw. by destruct (_ <? _). Qed.

Lemma plan_binding_spec env pc vote record cursor record' obs st cursor' :
  plan_binding env pc vote record cursor = Ok (record', obs, st, cursor') ->
  vr_vote_account record' = vr_vote_account record /\
  vr_directed_shares record' = vr_directed_shares record /\
  (if cursor <? pc_list_len pc
   then cursor' = cursor + 1 /\ vr_validator_list_index record' = as_u32 cursor
   else cursor' = cursor /\ vr_validator_list_index record' = VALIDATOR_LIST_INDEX_UNSET).
Proof.
  unfold plan_binding. intros H. destruct (_ <? _).
  - bind H as entry E. bind H as u1 E1. bind H as u2 E2. by injection H as <- <- <- <-.
  - bind H as u1 E1. ctl_ok E1. injection H as <- <- <- <-. cbn. split_and!; [done..|lia].
Qed.

Lemma plan_lifecycle_spec pc obs old shares record record' st :
  plan_lifecycle pc obs old shares record = (record', st) ->
  vr_vote_account record' = vr_vote_account record /\
  vr_directed_shares record' = vr_directed_shares record /\
  vr_validator_list_index record' = vr_validator_list_index record.
Proof. unfold plan_lifecycle. intros H. injection H as <- _. by destruct (_ && _). Qed.

Lemma plan_targets_ok pc in_list st shares entry record :
  u64 (pc_snapshot_total pc) -> 0 <= pc_productive pc -> 0 <= shares -> 0 <= pc_supply pc ->
  planned_ok (pc_snapshot_total pc) (plan_targets pc in_list st shares entry record).
Proof.
  intros Hn Hp Hs Hu. unfold plan_targets. cbv zeta.
  set (cap := lifecycle_cap st _ _ _). assert (u64 cap) as Hc by (apply lifecycle_cap_range; rlia).
  pose proof (directed_target_spec _ _ _ cap Hp Hs Hu Hc) as (Ht & _).
  set (t := directed_target _ _ _ cap) in *.
  split; cbn; rewrite ?status_from_as; try lia; eauto.
  - destruct in_list; [|done]. destruct st; cbn; rlia.
  - intros s [= <-]. change (cap_of _ st) with cap. destruct in_list; [|lia].
    clearbody t cap. unfold neutral_capacity, sat_sub. destruct st; lia.
  - destruct in_list; [|lia]. by destruct st.
Qed.

Lemma plan_aggregates_spec shares entry record es es' :
  plan_aggregates shares entry record es = Ok es' ->
  directed_frame es' = directed_frame es /\
  es_plan_directed_cursor es' = es_plan_directed_cursor es /\
  es_total_directed_shares es' = es_total_directed_shares es + shares /\
  es_sum_directed_targets es' = es_sum_directed_targets es + vr_directed_target record /\
  es_unsaturated_active_count es' =
    es_unsaturated_active_count es + (if 0 <? vr_remaining_capacity record then 1 else 0).
Proof.
  unfold plan_aggregates. intros H. bind H as total Ht. bind H as sum Hsum. injection H as <-.
  ctl_ok Ht. ctl_ok Hsum. unfold checked_add64 in *.
  repeat match goal with E : fit _ _ = Some _ |- _ => apply fit_Some in E end.
  unfold fold_preferred_withdraw. cbn in *.
  destruct (entry =? 0), (0 <? vr_remaining_capacity record); try destruct (_ <? _); cbn; split_and!; done || lia.
Qed.


(** ** One record of a batch *)

(** The context a batch plans against, read from the epoch state and from the list. *)
Record plans (pc : PlanContext) (es : EpochState) : Prop := {
  pl_epoch : pc_epoch pc = es_controller_epoch es;
  pl_productive : pc_productive pc = es_productive_lamports es;
  pl_supply : pc_supply pc = es_nav_fusol_supply es;
  pl_total : pc_snapshot_total pc = es_nav_total_lamports es;
  pl_len : pc_list_len pc <= MAX_VALIDATORS;
}.

(** What a visit writes: a new record in place of an unplanned one. *)
Record planned_visit (pc : PlanContext) (k : Pubkey) (es : EpochState) (records : gmap Pubkey ValidatorRecord)
    (es' : EpochState) (records' : gmap Pubkey ValidatorRecord) (r r' : ValidatorRecord) : Prop := {
  pw_old : records !! k = Some r;
  pw_new : records' = <[k := r']> records;
  pw_unplanned : vr_plan_epoch r <> pc_epoch pc;
  pw_stamp : vr_plan_epoch r' = pc_epoch pc;
  pw_vote : vr_vote_account r' = vr_vote_account r;
  pw_kept_shares : vr_directed_shares r' = vr_directed_shares r;
  pw_shares : exists n, (n = 0 \/ n = vr_directed_shares r) /\
    es_total_directed_shares es' = es_total_directed_shares es + n /\
    vr_directed_target r' * pc_supply pc <= pc_productive pc * n;
  pw_no_supply : pc_supply pc = 0 -> vr_directed_target r' = 0;
  pw_ok : planned_ok (pc_snapshot_total pc) r';
  pw_ungranted : vr_neutral_granted r' = 0;
  pw_sum : es_sum_directed_targets es' = es_sum_directed_targets es + vr_directed_target r';
  pw_count : es_unsaturated_active_count es' =
    es_unsaturated_active_count es + (if 0 <? vr_remaining_capacity r' then 1 else 0);
  pw_frame : directed_frame es' = directed_frame es;
  pw_index : if es_plan_directed_cursor es <? pc_list_len pc
    then es_plan_directed_cursor es' = es_plan_directed_cursor es + 1 /\
         vr_validator_list_index r' = as_u32 (es_plan_directed_cursor es)
    else es_plan_directed_cursor es' = es_plan_directed_cursor es /\
         vr_validator_list_index r' = VALIDATOR_LIST_INDEX_UNSET /\ vr_remaining_capacity r' = 0;
}.

Lemma plan_one_visit env pc p es records es' records' :
  u64 (pc_snapshot_total pc) -> 0 <= pc_productive pc -> 0 <= pc_supply pc ->
  (forall k r, records !! k = Some r -> 0 <= vr_directed_shares r) ->
  plan_one env pc p es records = Ok (es', records') ->
  exists r r', planned_visit pc (ar_key (pr_record p)) es records es' records' r r'.
Proof.
  intros Hn Hp Hu Hsh H. unfold plan_one in H. bind H as u1 H1. bind H as r Hr. bind H as u2 H2. bind H as u3 H3.
  bind H as [[[r1 obs] st] cursor] Hb. bind H as old Hold.
  destruct (plan_lifecycle _ _ _ _ _) as [r2 new] eqn:El. bind H as es1 Ha. injection H as <- <-.
  ctl_ok H3. propify. unfold load_record in Hr. ctl_ok Hr.
  apply plan_binding_spec in Hb as (B1 & B2 & B3). apply plan_lifecycle_spec in El as (L1 & L2 & L3).
  apply plan_aggregates_spec in Ha as (A1 & A2 & A3 & A4 & A5).
  set (n := current_shares (pc_epoch pc) r1) in *.
  assert (n = 0 \/ n = vr_directed_shares r) as Hn' by (subst n; unfold current_shares; destruct (_ =? _); auto).
  assert (0 <= n) as Hn0 by (specialize (Hsh _ _ Hr); lia).
  pose proof (directed_target_spec _ _ _ (cap_of (pc_snapshot_total pc) new) Hp Hn0 Hu) as (T1 & T2 & T3).
  { apply lifecycle_cap_range; rlia. }
  eexists r, _. split; [exact Hr|reflexivity|lia|done|cbn; congruence|cbn; congruence| |exact T3| |done|exact A4|exact A5| |].
  - exists n. split_and!; [done|exact A3|exact T2].
  - by apply plan_targets_ok.
  - rewrite A1. done.
  - cbn [update] in *. cbn in A2 |- *. rewrite A2, L3. destruct (_ <? _); naive_solver.
Qed.

Section visit.
Context (pc : PlanContext) (k : Pubkey) (es es' : EpochState) (records records' : gmap Pubkey ValidatorRecord).
Context (r r' : ValidatorRecord) (keys : list Pubkey).
Context (Hpl : plans pc es) (Hv : planned_visit pc k es records es' records' r r').
Context (Hd : directed_phase es records keys).
Context (Hro : records_ok (es_nav_total_lamports es) (es_controller_epoch es) records).

Lemma visit_frame : es_controller_epoch es' = es_controller_epoch es /\
  es_nav_total_lamports es' = es_nav_total_lamports es /\ es_nav_fusol_supply es' = es_nav_fusol_supply es /\
  es_productive_lamports es' = es_productive_lamports es /\
  es_neutral_granted_total es' = es_neutral_granted_total es /\
  es_neutral_round_number es' = es_neutral_round_number es.
Proof using Hv.
  pose proof (pw_frame _ _ _ _ _ _ _ _ Hv) as F.
  pose proof (f_equal es_controller_epoch F) as F1. pose proof (f_equal es_nav_total_lamports F) as F2.
  pose proof (f_equal es_nav_fusol_supply F) as F3. pose proof (f_equal es_productive_lamports F) as F4.
  pose proof (f_equal es_neutral_granted_total F) as F5. pose proof (f_equal es_neutral_round_number F) as F6.
  by cbn in *.
Qed.

Lemma visit_sums : sums_ok es' records'.
Proof using Hpl Hv Hd Hro.
  destruct visit_frame as (F1 & _ & F3 & F4 & F5 & _). destruct Hd as (_ & [S1 S2 S3 S4 S5] & _).
  destruct Hv as [V1 -> V3 V4 V5 V6 (n & Vn & V7 & V8) V9 V10 V11 V12 _ _ _].
  destruct Hpl as [P1 P2 P3 P4 _]. rewrite P1 in *. rewrite P2, P3 in *.
  pose proof (ro_shares _ _ _ Hro _ _ V1) as Hs.
  split; rewrite ?F1, ?F3, ?F4, ?F5, ?(planned_sum_join _ _ _ _ _ V1 V3 V4), ?V12, ?V7, ?V11; try lia.
  all: nia.
Qed.

Lemma visit_records : records_ok (es_nav_total_lamports es) (es_controller_epoch es) records'.
Proof using Hpl Hv Hro.
  destruct Hv as [V1 -> V3 V4 V5 V6 _ _ V10 _ _ _ _ _]. destruct Hpl as [P1 _ _ P4 _].
  rewrite P1 in V3, V4. rewrite P4 in V10. destruct Hro as [R1 R2 R3 R4].
  split; [| | |intros He]; intros k' r0 H0; destruct (decide (k' = k)) as [->|Hne].
  all: rewrite ?lookup_insert_eq in H0; try (rewrite lookup_insert_ne in H0 by done); simplify_eq; eauto.
  - rewrite V5. eauto.
  - pose proof (R2 _ _ V1). rewrite V4. lia.
  - rewrite V6. eauto.
  - by apply (R4 He k').
Qed.

Lemma visit_cover : exists keys', directed_phase es' records' keys'.
Proof using Hpl Hv Hd Hro.
  pose proof visit_sums as Hs'. destruct visit_frame as (F1 & _ & _ & _ & F5 & F6).
  destruct Hd as (Hc & _ & D3 & D4 & D5 & D6).
  destruct Hv as [V1 -> V3 V4 _ _ _ _ _ _ _ V13 _ V14]. destruct Hpl as [P1 _ _ _ P5]. rewrite P1 in *.
  unfold directed_phase. rewrite F1, F5, F6.
  destruct (Z.ltb_spec (es_plan_directed_cursor es) (pc_list_len pc)) as [Hlt|Hge]; destruct V14 as [V14 V15].
  - assert (as_u32 (es_plan_directed_cursor es) = Z.of_nat (length keys)) as Ei
      by (unfold as_u32; rewrite Z.mod_small; lia).
    rewrite Ei in V15. exists (keys ++ [k]). split_and!; try done.
    + apply (covers_join _ _ _ _ r); try done. lia.
    + rewrite length_app. cbn. lia.
    + unfold slots_of. rewrite fmap_app, unsaturated_app. fold (slots_of (<[k := r']> records) keys).
      rewrite (slots_join _ _ _ _ r r' Hc V1 V3), V13, D6. f_equal. cbn [fmap list_fmap]. unfold slot_of.
      rewrite lookup_insert_eq, unsaturated_cons. change (unsaturated []) with 0.
      case_bool_decide; destruct (Z.ltb_spec 0 (vr_remaining_capacity r')); lia.
  - destruct V15 as [V15 V16]. exists keys. split_and!; try done; try lia.
    + by apply (covers_join_extra _ _ _ _ r).
    + rewrite (slots_join _ _ _ _ r r' Hc V1 V3), V13, D6, V16. cbn. lia.
Qed.

End visit.

(** ** A batch *)

Lemma plan_all_frame env pc ps : forall es records es' records',
  plan_all env pc ps es records = Ok (es', records') -> directed_frame es' = directed_frame es.
Proof.
  induction ps as [|p ps IH]; intros es records es' records' H; [by injection H as <- <-|].
  cbn [plan_all] in H. bind H as [es1 records1] H1. rewrite (IH _ _ _ _ H). clear IH H. unfold plan_one in H1.
  bind H1 as u1 E1. bind H1 as r Hr. bind H1 as u2 E2. bind H1 as u3 E3. bind H1 as [[[r1 obs] st] cursor] Hb.
  bind H1 as old Hold. destruct (plan_lifecycle _ _ _ _ _) as [r2 new]. bind H1 as es2 Ha. injection H1 as <- _.
  apply plan_aggregates_spec in Ha as (-> & _). done.
Qed.

Lemma plan_all_spec env pc ps : forall es records keys es' records',
  plans pc es -> u64 (es_nav_total_lamports es) -> 0 <= es_productive_lamports es -> 0 <= es_nav_fusol_supply es ->
  directed_phase es records keys ->
  records_ok (es_nav_total_lamports es) (es_controller_epoch es) records ->
  plan_all env pc ps es records = Ok (es', records') ->
  directed_frame es' = directed_frame es /\
  records_ok (es_nav_total_lamports es) (es_controller_epoch es) records' /\
  exists keys', directed_phase es' records' keys'.
Proof.
  induction ps as [|p ps IH]; intros es records keys es' records' Hpl Hn Hp Hu Hd Hro H.
  - injection H as <- <-. eauto.
  - cbn [plan_all] in H. bind H as [es1 records1] H1.
    pose proof Hpl as [P1 P2 P3 P4 P5].
    destruct (plan_one_visit env pc p es records es1 records1) as (r & r' & V); [congruence|lia|lia| |done|].
    { apply (ro_shares _ _ _ Hro). }
    pose proof (visit_records _ _ _ _ _ _ _ _ Hpl V Hro) as Hro1.
    destruct (visit_cover _ _ _ _ _ _ _ _ _ Hpl V Hd Hro) as [keys1 Hd1].
    destruct (visit_frame _ _ _ _ _ _ _ _ V) as (F1 & F2 & F3 & F4 & _).
    pose proof (pw_frame _ _ _ _ _ _ _ _ V) as F.
    rewrite <- F, <- F1, <- F2 in *. eapply IH; try exact H; try exact Hd1; try done; try lia.
    split; congruence.
Qed.

End directed.
