(* ===== verification/StakeInv.v ===== *)
(** * Every instruction keeps the crank's invariant

    The invariant of [StakePlan] through each instruction of the controller, and so
    in every reachable state. *)

From S2P Require Import Prelude MachineInt State Token AccountBytes StakeMath StakeTargets StakeView Cpi SplCpi StakeState.
From S2P Require Import StakeAccounts StakeCrank StakeSystem StakePlan StakeNeutral StakeDirected.

Open Scope Z_scope.

(** ** Integers read from account bytes *)

Lemma u64_le_range data off v : Forall u8 data -> u64_le data off = Some v -> u64 v.
Proof.
  intros Hd H. unfold u64_le, uint_le in H. destruct (checked_add64 off 8) as [stop|] eqn:E; [|done].
  apply fit_Some in E as [-> _]. cbn in H. unfold get_range in H.
  destruct (_ && _); [|done]. cbn in H. injection H as <-. replace (off + 8 - off) with 8 by lia.
  apply (read_u64_range data (Z.to_nat off)). eapply Forall_impl; [exact Hd|]. unfold u8. lia.
Qed.

Lemma pool_view_range data v : Forall u8 data -> PoolBytes.parse data = Ok v ->
  u64 (PoolBytes.pw_total_lamports v) /\ u64 (PoolBytes.pw_pool_token_supply v).
Proof.
  intros Hd H. unfold PoolBytes.parse in H. destruct (_ <? _); [done|]. destruct (negb _); [done|].
  do 9 (let x := fresh in let Hx := fresh in bind H as x Hx). bind H as total Ht. bind H as supply Hs. do 6 (let x := fresh in let Hx := fresh in bind H as x Hx).
  injection H as <-. cbn. ctl_ok Ht. ctl_ok Hs. eauto using u64_le_range.
Qed.

(** What [es_ok] reads. *)
Definition es_part (es : EpochState) :=
  (es_controller_epoch es, es_phase es, es_nav_total_lamports es, es_nav_fusol_supply es, es_reserve_target es,
   es_productive_lamports es, es_epoch_payout_budget_used es, es_churn_budget_total es, es_churn_budget_used es).

Lemma es_ok_ext es es' : es_part es = es_part es' -> es_ok es -> es_ok es'.
Proof. unfold es_part. intros E []. injection E as ?????????. split; same_fields es es'; assumption. Qed.

(** What [planned_ok] and the sums read of a record. *)
Definition planned_part (r : ValidatorRecord) :=
  (vr_directed_target r, vr_neutral_granted r, vr_final_target r, vr_remaining_capacity r, vr_status r).

Lemma planned_ok_ext nav r r' : planned_part r' = planned_part r -> planned_ok nav r -> planned_ok nav r'.
Proof. unfold planned_part. intros E []. injection E as E1 E2 E3 E4 E5. split; rewrite ?E1, ?E2, ?E3, ?E4, ?E5; done. Qed.

Section inv.
Context {R : Runtime} {S : StakeRuntime}.

(** ** Rewards *)

Lemma reward_effect due cfg recipient n es l es' l' : reward due cfg recipient n es l = Ok (es', l') ->
  exists used, es' = es <| es_epoch_payout_budget_used := used |> /\
    (0 <= n -> 0 <= es_epoch_payout_budget_used es <= CRANK_EPOCH_PAYOUT_BUDGET ->
     es_epoch_payout_budget_used es <= used <= CRANK_EPOCH_PAYOUT_BUDGET).
Proof.
  intros H. unfold reward in H. destruct due.
  - bind H as [[l1 used] paid] Hp. injection H as <- <-. exists used. split; [done|]. intros Hn Hu.
    unfold pay_crank_reward in Hp. bind Hp as u Hx. destruct (_ =? 0).
    + injection Hp as _ <- _. lia.
    + bind Hp as l2 Ht. bind Hp as v Hv. injection Hp as _ <- _. ctl_ok Hv. apply fit_Some in Hv as [-> _].
      pose proof (tok_amount_range l (cc_maintenance_vault cfg)). unfold payout. rlia.
  - injection H as <- <-. exists (es_epoch_payout_budget_used es). split; [by destruct es|lia].
Qed.

Lemma reward_spec due cfg recipient n es l es' l' :
  0 <= n -> 0 <= es_epoch_payout_budget_used es <= CRANK_EPOCH_PAYOUT_BUDGET ->
  reward due cfg recipient n es l = Ok (es', l') ->
  exists used, es' = es <| es_epoch_payout_budget_used := used |> /\
    es_epoch_payout_budget_used es <= used <= CRANK_EPOCH_PAYOUT_BUDGET.
Proof. intros Hn Hu H. apply reward_effect in H as (used & E & Hs). eauto. Qed.

Lemma es_ok_payout es used : 0 <= used <= CRANK_EPOCH_PAYOUT_BUDGET -> es_ok es ->
  es_ok (es <| es_epoch_payout_budget_used := used |>).
Proof. intros Hu []. by split. Qed.

Lemma crank_inv_payout es records used : 0 <= used <= CRANK_EPOCH_PAYOUT_BUDGET -> crank_inv es records ->
  crank_inv (es <| es_epoch_payout_budget_used := used |>) records.
Proof. intros Hu [He Hr Hp]. split; [by apply es_ok_payout|done|by apply (phase_ok_ext es)]. Qed.

Lemma reward_inv due cfg recipient n es l es' l' records : 0 <= n ->
  crank_inv es records -> reward due cfg recipient n es l = Ok (es', l') -> crank_inv es' records.
Proof.
  intros Hn C H. pose proof (eo_payout _ (ci_es _ _ C)) as He.
  destruct (reward_spec _ _ _ _ _ _ _ _ Hn He H) as (used & -> & Hu). apply crank_inv_payout; [lia|done].
Qed.

Lemma planned_sum_nonneg nav e records : all_planned nav e records ->
  0 <= planned_sum e vr_directed_target records.
Proof.
  intros H. apply msum_nonneg. intros k r Hk. unfold planned.
  destruct (Z.eqb_spec (vr_plan_epoch r) e) as [E|]; [|lia]. by destruct (H _ _ Hk E).
Qed.

(** ** Reconciliation and the pool update: nothing is planned yet *)

Lemma unplanned_early es records : 1 <= es_phase es <= 3 -> crank_inv es records -> unplanned es records.
Proof.
  intros Hp [_ _ H]. unfold phase_ok in H.
  assert (es_phase es = 1 \/ es_phase es = 2 \/ es_phase es = 3) as [E|[E|E]] by lia; by rewrite E in H.
Qed.

Lemma early_phase_ok es records : 1 <= es_phase es <= 3 -> unplanned es records -> phase_ok es records.
Proof.
  intros Hp H. unfold phase_ok.
  assert (es_phase es = 1 \/ es_phase es = 2 \/ es_phase es = 3) as [E|[E|E]] by lia; by rewrite E.
Qed.

Lemma unplanned_all nav es records : unplanned es records -> all_planned nav (es_controller_epoch es) records.
Proof. intros H k r Hk E. specialize (H _ _ Hk). lia. Qed.

Lemma kept_records nav nav' e records records' : records_ok nav e records -> kept records records' ->
  (0 < e -> all_planned nav' e records') -> records_ok nav' e records'.
Proof.
  intros [R1 R2 R3 R4] K A.
  split; [| | |done]; intros k r' Hr; destruct (K _ _ Hr) as (r & Hk & E1 & E2 & E3); rewrite ?E1, ?E2, ?E3; eauto.
Qed.

Lemma early_inv es es' records records' : crank_inv es records -> 1 <= es_phase es <= 3 ->
  kept records records' -> es_ok es' -> 1 <= es_phase es' <= 3 ->
  es_controller_epoch es' = es_controller_epoch es -> crank_inv es' records'.
Proof.
  intros C Hp K He Hp' Ee. pose proof (unplanned_early es records Hp C) as Hu.
  assert (unplanned es' records') as Hu'.
  { intros k r' Hk. destruct (K _ _ Hk) as (r & Hr & _ & E & _). rewrite E, Ee. by apply (Hu k). }
  split; [done| |by apply early_phase_ok].
  rewrite Ee. apply (kept_records _ _ _ _ _ (ci_records _ _ C) K). intros _. rewrite <- Ee. by apply unplanned_all.
Qed.

(** What reconciliation writes of the epoch state. *)
Definition observe_frame (es : EpochState) : EpochState :=
  es <| es_total_delegated_lamports := 0 |> <| es_healthy_delegated_lamports := 0 |> <| es_reconcile_cursor := 0 |>.

Lemma observe_one_spec env e w data q ex es records es' records' cur :
  observe_one env e w data q ex es records = Ok (es', records', cur) ->
  observe_frame es' = observe_frame es /\ kept records records'.
Proof.
  intros H. unfold observe_one in H. bind H as entry H1. bind H as u1 H2. bind H as r Hr. bind H as u2 H3.
  bind H as d H4. bind H as t H5. bind H as es1 H6. injection H as <- <- <-.
  unfold load_record in Hr. ctl_ok Hr. split; [|by eapply kept_insert].
  destruct (ob_liveness_ok _); [bind H6 as h H7|]; by injection H6 as <-.
Qed.

Lemma observe_all_spec env e w data covered : forall es records cur es' records' cur',
  observe_all env e w data covered es records cur = Ok (es', records', cur') ->
  observe_frame es' = observe_frame es /\ kept records records'.
Proof.
  induction covered as [|[q ex] covered IH]; intros es records cur es' records' cur' H.
  - by injection H as <- <- <-.
  - cbn [observe_all] in H. bind H as [[es1 records1] c1] H1. apply observe_one_spec in H1 as [F1 K1].
    destruct (IH _ _ _ _ _ _ H) as [F2 K2]. split; [congruence|by transitivity records1].
Qed.

Lemma observe_frame_ok es es' : observe_frame es' = observe_frame es -> es_ok es -> es_ok es'.
Proof. intros F. exact (es_ok_ext es es' (eq_sym (f_equal es_part F))). Qed.

Lemma directed_frame_ok es es' : directed_frame es' = directed_frame es -> es_ok es -> es_ok es'.
Proof. intros F. exact (es_ok_ext es es' (eq_sym (f_equal es_part F))). Qed.

Lemma neutral_frame_ok es es' : neutral_frame es' = neutral_frame es -> es_ok es -> es_ok es'.
Proof. intros F. exact (es_ok_ext es es' (eq_sym (f_equal es_part F))). Qed.

Lemma es_ok_phase es ph : es_ok es -> es_phase es <> PHASE_IDLE -> es_phase es <> PHASE_REBALANCE ->
  es_ok (es <| es_phase := ph |>).
Proof. intros [] H1 H2. split; cbn; auto. Qed.

(** ** The instructions *)

Lemma config_some c cfg : config_of c = Ok cfg -> ct_config c = Some cfg.
Proof. unfold config_of. intros H. by ctl_ok H. Qed.

Lemma sealed_some c cfg : sealed_config c = Ok cfg -> ct_config c = Some cfg.
Proof. unfold sealed_config. intros H. bind H as cfg' Hc. bind H as u Hs. injection H as <-. by apply config_some. Qed.

Lemma configured_inv c cfg es records prefs p l : ct_config c = Some cfg -> crank_inv es records ->
  stake_inv (mkController (ct_config c) es records prefs p l).
Proof. intros E C. split; [done|]. cbn. by rewrite E. Qed.

Lemma transition_Ok es to es' : transition es to = Ok es' -> es' = es <| es_phase := to |>.
Proof. unfold transition. intros H. bind H as u Hu. by injection H as <-. Qed.

Lemma start_epoch_inv env c c' : stake_inv c -> env_ok env c -> start_epoch env c = Ok c' -> stake_inv c'.
Proof.
  intros [[He Hr Hp] _] Henv H. unfold start_epoch in H. bind H as cfg Hs. apply sealed_some in Hs.
  bind H as u1 H1. bind H as u2 H2. injection H as <-. ctl_ok H1. propify.
  pose proof (eo_epoch _ _ Henv) as Hu. pose proof He as [E1 E2 E3 E4 E5 E6 E7 E8 E9 E10 E11].
  pose proof (bps_of_range _ GLOBAL_CHURN_CAP_BPS E3 ltac:(rlia)) as Hb.
  split; [|cbn; by rewrite Hs]. match goal with |- crank_inv ?x ?y => change y with (ct_records c); set (es' := x) end.
  assert (unplanned es' (ct_records c)) as Hun.
  { intros k r Hk. pose proof (ro_epoch _ _ _ Hr k r Hk). cbn. lia. }
  split; [split; cbn; unfold global_churn_budget; try done; rlia| |by apply early_phase_ok].
  destruct Hr as [R1 R2 R3 _]. split; [done| |done|].
  - intros k r Hk. specialize (R2 k r Hk). cbn. lia.
  - intros _. by apply unplanned_all.
Qed.

Lemma reconcile_batch_inv env accounts recipient c c' : stake_inv c ->
  reconcile_batch env accounts recipient c = Ok c' -> stake_inv c'.
Proof.
  intros [C _] H. unfold reconcile_batch in H. bind H as cfg Hs. apply sealed_some in Hs. bind H as u1 H1.
  bind H as u2 H2. bind H as quads H3. bind H as header H4. bind H as stop H5. bind H as u6 H6. bind H as u7 H7.
  bind H as expected H8. bind H as [p l0] H9. bind H as [[es1 records1] cur] H10. bind H as es2 H11.
  bind H as [es3 l] H12. injection H as <-. ctl_ok H2. propify.
  apply observe_all_spec in H10 as [F K]. apply (configured_inv _ cfg); [done|].
  refine (reward_inv _ _ _ _ _ _ _ _ _ _ _ H12); [lia|].
  set (es1' := es1 <| es_reconcile_cursor := es_reconcile_cursor (ct_es c) + Z.of_nat (length quads) |>) in *.
  assert (observe_frame es1' = observe_frame (ct_es c)) as F' by exact F.
  pose proof (f_equal es_controller_epoch F') as Fe. pose proof (f_equal es_phase F') as Fp. cbn in Fe, Fp.
  pose proof (observe_frame_ok _ _ F' (ci_es _ _ C)) as He1.
  assert (es2 = es1' \/ es2 = es1' <| es_phase := PHASE_FINALIZE |>) as E2.
  { split_if H11; [right; by apply transition_Ok in H11|left; by injection H11]. }
  apply (early_inv (ct_es c) _ (ct_records c)); try done; [lia| | |]; destruct E2 as [-> | ->]; cbn; try done; try lia.
  destruct He1 as [E1 E3 E4 E5 E6 E7 E8 E9 E10 E11 E12]. cbn in *. split; cbn; try done; intros; first [apply E3|apply E12]; lia.
Qed.

Lemma finalize_pool_inv env recipient c c' : stake_inv c -> finalize_pool env recipient c = Ok c' -> stake_inv c'.
Proof.
  intros [C _] H. unfold finalize_pool in H. bind H as cfg Hs. apply sealed_some in Hs. bind H as u1 H1.
  bind H as u2 H2. bind H as before H3. bind H as [p l] H4. bind H as [p' l0] H5. bind H as after H6.
  bind H as close H7. bind H as es1 H8. bind H as [es2 l'] H9. injection H as <-.
  ctl_ok H2. propify. apply transition_Ok in H8. unfold map_err in H6.
  destruct (PoolBytes.parse (pool_account p')) as [v|] eqn:Ev; [|done]. injection H6 as ->.
  apply pool_view_range in Ev as [Hn Hu]; [|apply pool_account_bytes].
  apply (configured_inv _ cfg); [done|].
  refine (reward_inv _ _ _ _ _ _ _ _ _ _ _ H9); [lia|]. subst es1.
  pose proof (reserve_split _ RESERVE_MINIMUM_LAMPORTS RESERVE_TARGET_BPS Hn ltac:(rlia) ltac:(rlia)) as [Hr1 Hr2].
  pose proof (bps_of_range _ GLOBAL_CHURN_CAP_BPS Hn ltac:(rlia)) as Hb.
  apply (early_inv (ct_es c) _ (ct_records c)); try done; try (cbn; lia).
  destruct (ci_es _ _ C) as [E1 E2 E3 E4 E5 E6 E7 E8 E9 E10 E11].
  split; cbn; try done; try lia; try (intros; first [apply E2|apply E11]; lia).
  rewrite E11 by lia. unfold global_churn_budget. rlia.
Qed.

(** ** The plan *)

Lemma close_preference_window_inv env c c' : stake_inv c -> close_preference_window env c = Ok c' -> stake_inv c'.
Proof.
  intros [C _] H. unfold close_preference_window in H. bind H as cfg Hs. apply sealed_some in Hs.
  bind H as u1 H1. bind H as u2 H2. bind H as u3 H3. injection H as <-. ctl_ok H1. propify.
  pose proof (unplanned_early (ct_es c) (ct_records c) ltac:(lia) C) as Hu.
  destruct C as [[E1 E2 E3 E4 E5 E6 E7 E8 E9 E10 E11] Hr _].
  split; [|cbn; by rewrite Hs].
  assert (forall f, planned_sum (es_controller_epoch (ct_es c)) f (ct_records c) = 0) as Hz.
  { intros f. apply msum_zero. intros k r Hk. specialize (Hu _ _ Hk). unfold planned.
    destruct (Z.eqb_spec (vr_plan_epoch r) (es_controller_epoch (ct_es c))); [lia|done]. }
  split; [split; cbn; try done; intros; first [apply E2|apply E11]; lia|done|].
  exists []. split_and!; try done.
  - split; [done| |cbn; lia]. intros k r Hk E _. specialize (Hu _ _ Hk). cbn in E. lia.
  - split; cbn; rewrite ?Hz; try done. lia.
Qed.

Lemma plan_directed_batch_inv env accounts recipient c c' : stake_inv c ->
  plan_directed_batch env accounts recipient c = Ok c' -> stake_inv c'.
Proof.
  intros [C _] H. unfold plan_directed_batch in H. bind H as cfg Hs. apply sealed_some in Hs. bind H as u1 H1.
  bind H as md H2. bind H as dt H3. bind H as ps H4. bind H as u5 H5. bind H as header H6. bind H as u7 H7.
  bind H as [es1 records1] H8. bind H as es2 H9. bind H as [es3 l] H10. injection H as <-. ctl_ok H5. propify.
  unfold map_err in H6. destruct (ListBytes.parse_header _) as [h|] eqn:Eh; [|done]. injection H6 as ->.
  apply pool_capacity in Eh. destruct C as [He Hr Hp]. unfold phase_ok in Hp. rewrite H5 in Hp.
  destruct Hp as [keys Hd].
  pose proof (eo_nav _ He) as Hn. pose proof (proj1 (eo_supply _ He)) as Hu. pose proof (eo_productive _ He) as Hpr.
  apply (plan_all_spec _ _ _ _ _ keys) in H8 as (F & Hr1 & keys1 & Hd1); try done.
  apply (configured_inv _ cfg); [done|]. refine (reward_inv _ _ _ _ _ _ _ _ _ _ _ H10); [lia|].
  pose proof (directed_frame_ok _ _ F He) as He1.
  pose proof (f_equal es_controller_epoch F) as Fe. pose proof (f_equal es_phase F) as Fp.
  pose proof (f_equal es_nav_total_lamports F) as Fn. pose proof (f_equal es_productive_lamports F) as Fr.
  cbn in Fe, Fp, Fn, Fr. rewrite <- Fe, <- Fn in Hr1.
  split_if H9.
  - bind H9 as neutral Hneu. apply transition_Ok in H9 as ->. ctl_ok Hneu. unfold neutral_total in Hneu.
    destruct (_ <? _); [done|]. apply fit_Some in Hneu as [Hneu Hneu'].
    destruct Hd1 as (D1 & D2 & D3 & D4 & D5 & D6).
    split; [apply es_ok_phase; [by apply (es_ok_ext es1)|cbn; lia|cbn; lia]|done|]. exists keys1. split_and!; try done.
    + by apply (sums_ok_ext es1).
    + unfold neutral_progress. cbn. rewrite D5. cbn in Hneu, Hneu' |- *. rewrite <- Fr in Hneu. split_and!; done || lia.
  - injection H9 as <-. split; [done|done|]. unfold phase_ok. rewrite Fp, H5. by exists keys1.
Qed.

Lemma neutral_total_range es records slots : es_ok es ->
  all_planned (es_nav_total_lamports es) (es_controller_epoch es) records -> sums_ok es records ->
  neutral_progress es slots -> es_neutral_round_number es = 0 -> u64 (es_neutral_total es).
Proof.
  intros He Hap Hsum Hpr En. pose proof (planned_sum_nonneg _ _ _ Hap) as Hpos. unfold neutral_progress in Hpr.
  rewrite En in Hpr. cbn in Hpr. rewrite (so_directed _ _ Hsum) in Hpr. pose proof (eo_split _ He).
  pose proof (eo_reserve _ He). pose proof (eo_nav _ He). unfold u64 in *. lia.
Qed.

(** The entry of the neutral phase. *)
Lemma enter_neutral_result keys es records es0 f0 : es_ok es -> neutral_phase es records keys ->
  all_planned (es_nav_total_lamports es) (es_controller_epoch es) records ->
  enter_neutral es = (es0, f0) ->
  neutral_result (es_nav_total_lamports es) keys es records es0 records f0 /\
  (f0 = false -> in_round es0 (slots_of records keys)).
Proof.
  intros He (Hc & Hsum & Hcur & Hpr) Hap Eo. pose proof (proj1 (eo_controller_epoch _ He)) as Hep. unfold enter_neutral in Eo.
  destruct (Z.eqb_spec (es_neutral_round_number es) 0) as [En|En].
  - destruct (begin_round _ _ _) as [round|] eqn:Eb; injection Eo as <- <-; [|by split; [apply no_round|]].
    pose proof (neutral_total_range _ _ _ He Hap Hsum Hpr En) as Hu.
    assert (neutral_result (es_nav_total_lamports es) keys es records (open_round es round 1) records false) as N
      by (by apply open_first).
    split; [done|]. intros _. exact (nx_progress _ _ _ _ _ _ _ N).
  - injection Eo as <- <-. apply (neutral_progress_round _ _ En) in Hpr. split; [|done].
    by apply neutral_result_refl.
Qed.

(** A call of [plan_neutral_batch] moves along the reference run, whatever its slice. *)
Lemma neutral_batch_result env accounts recipient c c' keys : crank_inv (ct_es c) (ct_records c) ->
  neutral_phase (ct_es c) (ct_records c) keys ->
  plan_neutral_batch env accounts recipient c = Ok c' ->
  exists es1 (finished : bool) used,
    ct_es c' = (if finished then es1 <| es_phase := PHASE_PLAN_FINALIZE |> else es1)
                 <| es_epoch_payout_budget_used := used |> /\
    0 <= used <= CRANK_EPOCH_PAYOUT_BUDGET /\ ct_config c' = ct_config c /\ ct_config c <> None /\
    neutral_result (es_nav_total_lamports (ct_es c)) keys (ct_es c) (ct_records c) es1 (ct_records c') finished.
Proof.
  intros [He Hr _] Hph H. unfold plan_neutral_batch in H. bind H as cfg Hs. bind H as u1 H1.
  bind H as u2 H2. ctl_ok H2. propify. apply sealed_some in Hs.
  pose proof (eo_started _ He ltac:(lia)) as Hst. pose proof (ro_planned _ _ _ Hr Hst) as Hap.
  destruct (enter_neutral (ct_es c)) as [es0 f0] eqn:Eo.
  apply (enter_neutral_result keys _ (ct_records c)) in Eo as [N0 I0]; try done.
  destruct Hph as (_ & _ & Hcur & _).
  bind H as [[[es1 records1] fin] vis] H3. bind H as es2 H4. bind H as [es3 l] H5. injection H as <-.
  assert (neutral_result (es_nav_total_lamports (ct_es c)) keys (ct_es c) (ct_records c) es1 records1 fin) as N1.
  { destruct f0.
    - by injection H3 as <- <- <- _.
    - bind H3 as [[es1' records1'] fin'] H6. injection H3 as <- <- <- _. specialize (I0 eq_refl).
      apply (neutral_result_trans _ _ _ _ _ _ _ _ _ N0). destruct N0 as [C0 A0 _ F0 S0 _ _].
      pose proof (f_equal es_controller_epoch F0) as Fe. pose proof (f_equal es_plan_directed_cursor F0) as Fd.
      cbn in Fe, Fd. rewrite <- Fe in C0, A0.
      apply (fold_slice_spec _ _ accounts); try done; [apply (eo_nav _ He)|lia|lia]. }
  assert (es_epoch_payout_budget_used es2 = es_epoch_payout_budget_used (ct_es c)) as Ep.
  { pose proof (f_equal es_epoch_payout_budget_used (nx_frame _ _ _ _ _ _ _ N1)) as Fp. cbn in Fp. rewrite <- Fp.
    destruct fin; [by apply transition_Ok in H4 as ->|by injection H4 as <-]. }
  destruct (reward_spec _ _ _ _ _ _ _ _ (ltac:(lia) : 0 <= CRANK_REWARD_PLAN_BATCH) ltac:(rewrite Ep; apply (eo_payout _ He)) H5)
    as (used & -> & Hused).
  pose proof (eo_payout _ He). exists es1, fin, used. split_and!; [|lia|lia|done|congruence|done]. cbn [ct_es]. f_equal.
  destruct fin; [by apply transition_Ok in H4|by injection H4 as <-].
Qed.

Lemma plan_neutral_phase env accounts recipient c c' :
  plan_neutral_batch env accounts recipient c = Ok c' -> es_phase (ct_es c) = PHASE_PLAN_NEUTRAL.
Proof. intros H. unfold plan_neutral_batch in H. bind H as cfg Hs. bind H as u1 H1. bind H as u2 H2. by ctl_ok H2. Qed.

Lemma plan_neutral_batch_inv env accounts recipient c c' : stake_inv c ->
  plan_neutral_batch env accounts recipient c = Ok c' -> stake_inv c'.
Proof.
  intros [C _] H. pose proof C as [He Hr Hp].
  pose proof (plan_neutral_phase _ _ _ _ _ H) as Hph.
  unfold phase_ok in Hp. rewrite Hph in Hp. destruct Hp as [keys Hn].
  destruct (neutral_batch_result _ _ _ _ _ keys C Hn H) as (es1 & fin & used & E & Hu & Ec & Hc & [N1 N2 N3 N4 N5 N6 _]).
  split; [|by rewrite Ec].
  pose proof (neutral_frame_ok _ _ N4 He) as He1.
  pose proof (f_equal es_controller_epoch N4) as Fe. pose proof (f_equal es_phase N4) as Fp.
  pose proof (f_equal es_nav_total_lamports N4) as Fn. pose proof (f_equal es_plan_directed_cursor N4) as Fd.
  cbn in Fe, Fp, Fn, Fd. rewrite <- Fe, <- Fn in *.
  assert (records_ok (es_nav_total_lamports es1) (es_controller_epoch es1) (ct_records c')) as Hr1
    by (by apply (kept_records _ _ _ _ _ Hr N3)).
  assert (crank_inv (if fin then es1 <| es_phase := PHASE_PLAN_FINALIZE |> else es1) (ct_records c')) as X.
  { destruct fin.
    - split; [apply es_ok_phase; [done|lia|lia]|done|]. destruct N6 as (Q1 & Q2). split; [by apply (sums_ok_ext es1)|exact Q2].
    - split; [done|done|]. unfold phase_ok. rewrite Fp, Hph. exists keys. destruct Hn as (_ & _ & Hcur & _). split_and!; done || lia. }
  rewrite E. by apply crank_inv_payout.
Qed.

(** What [finalize_plan] and [finish_epoch] write: the phase, the walk's cursor, a reward. *)
Lemma finalize_plan_spec env recipient c c' : finalize_plan env recipient c = Ok c' ->
  exists used, ct_es c' = (ct_es c) <| es_phase := PHASE_REBALANCE |> <| es_rebalance_cursor := 0 |>
                 <| es_rebalance_actions_done := 0 |> <| es_epoch_payout_budget_used := used |> /\
    (0 <= es_epoch_payout_budget_used (ct_es c) <= CRANK_EPOCH_PAYOUT_BUDGET ->
     0 <= used <= CRANK_EPOCH_PAYOUT_BUDGET) /\
    es_phase (ct_es c) = PHASE_PLAN_FINALIZE /\ ct_records c' = ct_records c /\
    ct_config c' = ct_config c /\ ct_config c <> None.
Proof.
  intros H. unfold finalize_plan in H. bind H as cfg Hs. apply sealed_some in Hs. bind H as u1 H1.
  bind H as u2 H2. bind H as assigned H3. bind H as u4 H4. bind H as [p l0] H5. bind H as es1 H6. bind H as [es2 l] H7.
  injection H as <-. ctl_ok H2. propify. apply transition_Ok in H6 as ->.
  apply reward_effect in H7 as (used & -> & Hu). exists used. split_and!; try done; [|congruence].
  intros Hb. specialize (Hu ltac:(lia) Hb). cbn in Hu. lia.
Qed.

Lemma finalize_plan_inv env recipient c c' : stake_inv c -> finalize_plan env recipient c = Ok c' -> stake_inv c'.
Proof.
  intros [[He Hr Hp] _] H. apply finalize_plan_spec in H as (used & E & Hu & H2 & Er & Ec & Hc).
  split; [|by rewrite Ec]. rewrite E, Er. apply crank_inv_payout; [apply Hu, (eo_payout _ He)|].
  unfold phase_ok in Hp. rewrite H2 in Hp. destruct Hp as (Q1 & Q2).
  split; [|done|].
  - apply (es_ok_ext ((ct_es c) <| es_phase := PHASE_REBALANCE |>)); [done|]. apply es_ok_phase; [done|lia|lia].
  - split; [by apply (sums_ok_ext (ct_es c))|done].
Qed.

Lemma finish_epoch_spec env recipient c c' : finish_epoch env recipient c = Ok c' ->
  exists used, ct_es c' = (ct_es c) <| es_phase := PHASE_IDLE |> <| es_epoch_payout_budget_used := used |> /\
    (0 <= es_epoch_payout_budget_used (ct_es c) <= CRANK_EPOCH_PAYOUT_BUDGET ->
     0 <= used <= CRANK_EPOCH_PAYOUT_BUDGET) /\
    es_phase (ct_es c) = PHASE_REBALANCE /\ ct_records c' = ct_records c /\
    ct_config c' = ct_config c /\ ct_config c <> None.
Proof.
  intros H. unfold finish_epoch in H. bind H as cfg Hs. apply sealed_some in Hs. bind H as u1 H1.
  bind H as u2 H2. bind H as md H3. bind H as u4 H4. bind H as es1 H6. bind H as [es2 l] H7.
  injection H as <-. ctl_ok H2. propify. apply transition_Ok in H6 as ->.
  apply reward_effect in H7 as (used & -> & Hu). exists used. split_and!; try done; [|congruence].
  intros Hb. specialize (Hu ltac:(lia) Hb). cbn in Hu. lia.
Qed.

Lemma finish_epoch_inv env recipient c c' : stake_inv c -> finish_epoch env recipient c = Ok c' -> stake_inv c'.
Proof.
  intros [[He Hr Hp] _] H. apply finish_epoch_spec in H as (used & E & Hu & H2 & Er & Ec & Hc).
  split; [|by rewrite Ec]. rewrite E, Er. apply crank_inv_payout; [apply Hu, (eo_payout _ He)|].
  split; [|done|done]. destruct He. by split.
Qed.

(** ** Rebalancing *)

(** A move never exceeds what is left of the epoch's budget. *)
Lemma decide_action_budget i n : 0 <= ai_budget_remaining i -> 0 <= ai_validator_move_cap i ->
  0 <= ai_reserve_available_for_increase i ->
  decide_action i = Decrease n \/ decide_action i = Increase n ->
  0 < n <= ai_budget_remaining i /\ n <= ai_validator_move_cap i.
Proof.
  intros Hb Hm Hr H. unfold decide_action, decide_drain, decide_increase, decide_decrease in H.
  repeat case_match; destruct H as [H|H]; try done; injection H as <-; propify;
    match goal with |- context [action_amount ?d ?b ?cp ?sr ?fl ?fu] =>
      pose proof (action_amount_bounds d b cp sr fl fu) as A end;
    cbv zeta in A; unfold sat_sub in *; lia.
Qed.

Lemma perform_spec env cfg action vote vs ts seed record es p l record' es' p' l' :
  perform env cfg action vote vs ts seed record es p l = Ok (record', es', p', l') ->
  (exists used, es' = es <| es_churn_budget_used := used |> /\
    (used = es_churn_budget_used es \/
     exists n, (action = Decrease n \/ action = Increase n) /\ used = es_churn_budget_used es + n)) /\
  vr_vote_account record' = vr_vote_account record /\ vr_plan_epoch record' = vr_plan_epoch record /\
  vr_directed_shares record' = vr_directed_shares record /\
  planned_part record' = planned_part record.
Proof.
  intros H. unfold perform in H. destruct action.
  - injection H as <- <- <- <-. split; [|done]. exists (es_churn_budget_used es). split; [by destruct es|by left].
  - bind H as [p1 l1] Hp. injection H as <- <- <- <-. split; [|done]. exists (es_churn_budget_used es).
    split; [by destruct es|by left].
  - bind H as [p1 l1] Hp. bind H as used Hu. injection H as <- <- <- <-. ctl_ok Hu. apply fit_Some in Hu as [-> _].
    split; [|done]. eexists. split; [reflexivity|]. right. eauto.
  - bind H as [p1 l1] Hp. bind H as used Hu. injection H as <- <- <- <-. ctl_ok Hu. apply fit_Some in Hu as [-> _].
    split; [|done]. eexists. split; [reflexivity|]. right. eauto.
Qed.

(** A record rewritten outside what the plan reads. *)
Section rewrite_record.
Context (nav e : Z) (records : gmap Pubkey ValidatorRecord) (k : Pubkey) (r r' : ValidatorRecord).
Context (Hk : records !! k = Some r) (Hv : vr_vote_account r' = vr_vote_account r).
Context (He : vr_plan_epoch r' = vr_plan_epoch r) (Hs : 0 <= vr_directed_shares r').
Context (Hpart : planned_part r' = planned_part r).

Lemma rewrite_records_ok : records_ok nav e records -> records_ok nav e (<[k := r']> records).
Proof using Hk Hv He Hs Hpart.
  intros [R1 R2 R3 R4]. split; [| | |intros Hpos; specialize (R4 Hpos)];
    intros k' r0 H0; destruct (decide (k' = k)) as [->|Hne];
    rewrite ?lookup_insert_eq in H0; try (rewrite lookup_insert_ne in H0 by done); try (injection H0 as <-); eauto.
  - rewrite Hv. eauto.
  - rewrite He. eauto.
  - rewrite He. intros E. exact (planned_ok_ext _ _ _ Hpart (R4 _ _ Hk E)).
Qed.

Lemma rewrite_planned_sum f : (forall x y, planned_part x = planned_part y -> f x = f y) ->
  planned_sum e f (<[k := r']> records) = planned_sum e f records.
Proof using Hk He Hpart.
  intros Hf. unfold planned_sum. rewrite (msum_update _ _ _ _ _ Hk). unfold planned. rewrite He, (Hf _ _ Hpart). lia.
Qed.

Lemma rewrite_conserved es : es_controller_epoch es = e -> plan_conserved es records ->
  plan_conserved es (<[k := r']> records).
Proof using Hk He Hpart.
  intros Ee ([S1 S2 S3 S4 S5] & Q). split; [|done]. rewrite Ee in S1, S2. split; rewrite ?Ee; try done.
  - rewrite rewrite_planned_sum; [done|]. unfold planned_part. congruence.
  - rewrite rewrite_planned_sum; [done|]. unfold planned_part. congruence.
Qed.

End rewrite_record.

(** What a visit of the walk writes of the epoch state. *)
Definition rebalance_frame (es : EpochState) : EpochState :=
  es <| es_churn_budget_used := 0 |> <| es_rebalance_cursor := 0 |> <| es_rebalance_actions_done := 0 |>.

Record rebalanced (es es' : EpochState) (r r' : ValidatorRecord) : Prop := {
  rb_frame : rebalance_frame es' = rebalance_frame es;
  rb_churn : es_churn_budget_used es <= es_churn_budget_used es' <= es_churn_budget_total es;
  rb_vote : vr_vote_account r' = vr_vote_account r;
  rb_epoch : vr_plan_epoch r' = vr_plan_epoch r;
  rb_shares : vr_directed_shares r' = vr_directed_shares r;
  rb_part : planned_part r' = planned_part r;
}.

Lemma admission_rebalanced env cfg vote vs st record es p l record' es' p' l' : es_ok es ->
  admission env cfg vote vs st record es p l = Ok (record', es', p', l') -> rebalanced es es' record record'.
Proof.
  intros He H. unfold admission in H. bind H as u1 H1. bind H as u2 H2. bind H as u3 H3. bind H as u4 H4. bind H as u5 H5.
  bind H as h H6. bind H as [p1 l1] H7. injection H as <- <- <- <-. split; try done. pose proof (eo_churn _ He). cbn. lia.
Qed.

Lemma walk_visit_rebalanced env cfg vote vs ts st record es p l record' es' p' l' action : es_ok es ->
  walk_visit env cfg vote vs ts st record es p l = Ok (record', es', p', l', action) -> rebalanced es es' record record'.
Proof.
  intros He H. unfold walk_visit in H. bind H as sl H1. bind H as u2 H2. bind H as entry H3. bind H as u4 H4.
  bind H as md H5. bind H as u6 H6. bind H as [[[record1 es1] p1] l1] H7. injection H as <- <- <- <- <-.
  apply perform_spec in H7 as ((used & -> & Hu) & P1 & P2 & P3 & P4).
  pose proof (eo_churn _ He) as Hch. pose proof (eo_nav _ He) as Hn.
  assert (es_churn_budget_used es <= used <= es_churn_budget_total es) as Hused.
  { destruct Hu as [-> | (n & Ha & ->)]; [lia|].
    apply decide_action_budget in Ha; unfold action_inputs in *; cbn in *; try (unfold sat_sub in *; lia).
    apply bps_of_range; [done|rlia]. }
  split; try done; destruct (negb _); done.
Qed.

Lemma rebalance_frame_ok es es' : rebalance_frame es' = rebalance_frame es -> es_phase es = PHASE_REBALANCE ->
  es_churn_budget_used es <= es_churn_budget_used es' <= es_churn_budget_total es -> es_ok es -> es_ok es'.
Proof.
  intros F Hp Hc [E1 E2 E3 E4 E5 E6 E7 E8 E9 E10 E11].
  pose proof (f_equal es_part F) as G. unfold es_part in G. cbn in G. injection G as G1 G2 G3 G4 G5 G6 G7 G8.
  split; rewrite ?G1, ?G2, ?G3, ?G4, ?G5, ?G6, ?G7, ?G8; try done; lia.
Qed.

(** What [execute_next_action] writes. *)
Lemma execute_rebalanced env vote vs ts recipient c c' : es_ok (ct_es c) ->
  execute_next_action env vote vs ts recipient c = Ok c' ->
  exists r r' es1 used, ct_es c' = es1 <| es_epoch_payout_budget_used := used |> /\
    rebalanced (ct_es c) es1 r r' /\ 0 <= used <= CRANK_EPOCH_PAYOUT_BUDGET /\
    es_phase (ct_es c) = PHASE_REBALANCE /\ ct_records c !! validator_pda vote = Some r /\
    ct_records c' = <[validator_pda vote := r']> (ct_records c) /\
    ct_config c' = ct_config c /\ ct_config c <> None.
Proof.
  intros He H. unfold execute_next_action in H. bind H as cfg Hs. apply sealed_some in Hs. bind H as u1 H1.
  bind H as r Hr0. bind H as u2 H2. bind H as u3 H3. bind H as st H4. bind H as [[[[r' es1] p] l0] due] H5.
  bind H as [es2 l] H6. injection H as <-. ctl_ok H2. propify. unfold load_record in Hr0. ctl_ok Hr0.
  assert (rebalanced (ct_es c) es1 r r') as B.
  { split_if H5.
    - bind H5 as [[[r1 es0] p0] l1] H7. injection H5 as <- <- <- <- <-. by eapply admission_rebalanced.
    - bind H5 as [[[[r1 es0] p0] l1] act] H7. injection H5 as <- <- <- <- <-. by eapply walk_visit_rebalanced. }
  pose proof (f_equal es_epoch_payout_budget_used (rb_frame _ _ _ _ B)) as Fp. cbn in Fp.
  pose proof (eo_payout _ He) as Hpay. rewrite <- Fp in Hpay.
  destruct (reward_spec _ _ _ _ _ _ _ _ (ltac:(lia) : 0 <= CRANK_REWARD_REBALANCE_ACTION) Hpay H6) as (used & -> & Hu).
  exists r, r', es1, used. split_and!; done || lia || congruence.
Qed.

Lemma execute_next_action_inv env vote vs ts recipient c c' : stake_inv c ->
  execute_next_action env vote vs ts recipient c = Ok c' -> stake_inv c'.
Proof.
  intros [[He Hr Hp] _] H.
  apply execute_rebalanced in H as (r & r' & es1 & used & E & [F B1 B2 B3 B4 B5] & Hu & H2 & Hr0 & Er & Ec & Hc); [|done].
  split; [|by rewrite Ec]. rewrite E, Er. apply crank_inv_payout; [done|].
  pose proof (f_equal es_controller_epoch F) as Fe. pose proof (f_equal es_phase F) as Fp.
  pose proof (f_equal es_nav_total_lamports F) as Fn. cbn in Fe, Fp, Fn.
  pose proof (ro_shares _ _ _ Hr _ _ Hr0) as Hsh.
  split; [by apply (rebalance_frame_ok (ct_es c))| |].
  - rewrite Fe, Fn. apply (rewrite_records_ok _ _ _ _ r); try done. by rewrite B4.
  - unfold phase_ok in *. rewrite Fp, H2 in *. apply (rewrite_conserved (es_controller_epoch es1) _ _ r); try done.
    destruct Hp as (Q1 & Q2). pose proof (f_equal es_capacity_shortfall F) as F1.
    pose proof (f_equal sums_part F) as F2. pose proof (f_equal es_sum_directed_targets F) as F3.
    pose proof (f_equal es_neutral_granted_total F) as F4. pose proof (f_equal es_productive_lamports F) as F5.
    cbn in F1, F3, F4, F5. split; [by apply (sums_ok_ext (ct_es c))|]. lia.
Qed.

(** ** Accounts *)

(** A fresh record is planned in no epoch. *)
Section fresh.
Context (e : Z) (records : gmap Pubkey ValidatorRecord) (k : Pubkey) (r : ValidatorRecord).
Context (Hk : records !! k = None) (He : vr_plan_epoch r < e).

Lemma fresh_covers keys : covers e keys records -> covers e keys (<[k := r]> records).
Proof using Hk He.
  intros [C1 C2 C3]. split; [| |done].
  - intros i k' Hi. destruct (C1 i k' Hi) as (r0 & H0 & ?). exists r0. rewrite lookup_insert_ne; [done|]. congruence.
  - intros k' r0 H0. destruct (decide (k' = k)) as [->|Hne].
    + rewrite lookup_insert_eq in H0. injection H0 as <-. lia.
    + rewrite lookup_insert_ne in H0 by done. by apply (C2 k').
Qed.

Lemma fresh_slots keys : covers e keys records -> slots_of (<[k := r]> records) keys = slots_of records keys.
Proof using Hk.
  intros C. apply list_fmap_ext. intros i k' Hi. destruct (cv_index _ _ _ C i k' Hi) as (r0 & H0 & _).
  unfold slot_of. rewrite lookup_insert_ne; [done|]. congruence.
Qed.

Lemma fresh_sums es : es_controller_epoch es = e -> sums_ok es records -> sums_ok es (<[k := r]> records).
Proof using Hk He.
  intros Ee [S1 S2 S3 S4 S5].
  assert (forall f, planned_sum e f (<[k := r]> records) = planned_sum e f records) as Hp.
  { intros f. unfold planned_sum. rewrite msum_insert by done. unfold planned at 1.
    destruct (Z.eqb_spec (vr_plan_epoch r) e); lia. }
  rewrite Ee in S1, S2. split; rewrite ?Ee, ?Hp; done.
Qed.

End fresh.

Lemma fresh_phase es records k r : records !! k = None -> vr_plan_epoch r < es_controller_epoch es ->
  phase_ok es records -> phase_ok es (<[k := r]> records).
Proof.
  intros Hk He. pose proof (fresh_covers _ _ _ _ Hk He) as F1. pose proof (fresh_slots (es_controller_epoch es) _ _ r Hk) as F2.
  pose proof (fresh_sums _ _ _ _ Hk He es eq_refl) as F3.
  assert (unplanned es records -> unplanned es (<[k := r]> records)) as F4.
  { intros H k' r0 H0. destruct (decide (k' = k)) as [->|Hne].
    - rewrite lookup_insert_eq in H0. by injection H0 as <-.
    - rewrite lookup_insert_ne in H0 by done. by apply (H k'). }
  unfold phase_ok. repeat case_match; try done; try exact F4.
  - intros (D & E). split; auto.
  - intros [keys (C & D & E)]. exists keys. unfold neutral_phase. rewrite (F2 _ C). auto.
  - intros (D & E). split; auto.
  - intros [keys (C & D & E)]. exists keys. unfold directed_phase. rewrite (F2 _ C). auto.
Qed.

Lemma register_validator_inv env vote c c' : stake_inv c -> register_validator env vote c = Ok c' -> stake_inv c'.
Proof.
  intros [[He [R1 R2 R3 R4] Hp] _] H. unfold register_validator in H. bind H as cfg Hc. apply config_some in Hc.
  bind H as u1 H1. bind H as u2 H2. bind H as s H3. injection H as <-. ctl_ok H1. propify.
  split; [|cbn; by rewrite Hc]. split; [done| |].
  - cbn. split; [| | |intros Hpos; specialize (R4 Hpos)]; intros k r H0;
      destruct (decide (k = validator_pda vote)) as [->|Hne];
      rewrite ?lookup_insert_eq in H0; try (rewrite lookup_insert_ne in H0 by done); try (injection H0 as <-); eauto.
    + cbn. pose proof (eo_controller_epoch _ He). rlia.
    + cbn. lia.
    + cbn. lia.
  - destruct (decide (es_phase (ct_es c) = PHASE_IDLE)) as [E|E].
    + unfold phase_ok. cbn. by rewrite E.
    + apply fresh_phase; [done| |done]. cbn. by apply (eo_started _ He).
Qed.

Lemma snapshot_preference_inv env position c c' : stake_inv c ->
  snapshot_preference env position c = Ok c' -> stake_inv c'.
Proof.
  intros [C _] H. unfold snapshot_preference in H. bind H as cfg Hc. apply config_some in Hc. bind H as pref H1.
  bind H as r Hr. bind H as u2 H2. bind H as u3 H3. bind H as pos H4. bind H as u5 H5. bind H as st H6.
  bind H as u7 H7. bind H as sh H8. injection H as <-. ctl_ok H2. propify. unfold load_record in Hr. ctl_ok Hr.
  ctl_ok H8. apply fit_Some in H8 as [Hsh Hsh0]. pose proof (unplanned_early (ct_es c) (ct_records c) ltac:(lia) C) as Hu.
  split; [|cbn; by rewrite Hc]. cbn [ct_es ct_records update]. destruct C as [He HR Hp].
  match goal with |- crank_inv _ (<[_ := ?x]> _) => set (r' := x) end.
  assert (vr_vote_account r' = vr_vote_account r /\ vr_plan_epoch r' = vr_plan_epoch r /\
          planned_part r' = planned_part r /\ vr_directed_shares r' = sh) as (V1 & V2 & V3 & V4)
    by (subst r'; split_and!; destruct (vr_directed_shares_epoch r =? _); done).
  clearbody r'.
  split; [done|by apply (rewrite_records_ok _ _ _ _ r); [..|lia|done|done]|].
  apply early_phase_ok; [cbn; lia|]. intros k r0 H0.
  destruct (decide (k = validator_pda (pf_vote_account pref))) as [->|Hne].
  - rewrite lookup_insert_eq in H0. injection H0 as <-. rewrite V2. by apply (Hu _ _ Hr).
  - rewrite lookup_insert_ne in H0 by done. by apply (Hu k).
Qed.

(** An instruction that leaves the epoch state and the records alone, and the
    configuration in place. *)
Lemma crank_untouched c c' : stake_inv c -> ct_es c' = ct_es c -> ct_records c' = ct_records c ->
  (ct_config c' = None -> ct_config c = None) -> stake_inv c'.
Proof. intros [C1 C2] E1 E2 H. split; rewrite ?E1, E2; auto. Qed.

Lemma initialize_controller_inv ua payer args c c' : stake_inv c ->
  initialize_controller ua payer args c = Ok c' -> stake_inv c'.
Proof.
  intros C H. unfold initialize_controller in H. bind H as u1 H1. bind H as u2 H2. bind H as u3 H3. injection H as <-.
  ctl_ok H2. propify. pose proof (si_config _ C ltac:(done)) as [Hr _]. split; [|done]. cbn. rewrite Hr.
  split; [split; cbn; try done; rlia| |done]. split; by intros.
Qed.

(** The instructions that only move tokens, the pool, or a preference. *)
Definition outside_crank (i : SInstr) : bool :=
  match i with
  | InitializePool _ | DepositSol _ _ _ | DepositStake _ _ _ _ _ | SetPreference _ _ _ | SyncPreference _
  | ClosePreference _ _ _ => true
  | _ => false
  end.

Lemma outside_crank_frame env i c c' : outside_crank i = true -> stake_exec env i c = Ok c' ->
  ct_es c' = ct_es c /\ ct_records c' = ct_records c /\ (ct_config c' = None -> ct_config c = None).
Proof.
  intros Hi H. destruct i; try done; cbn [stake_exec] in H.
  1-3: first [unfold initialize_pool in H|unfold deposit_sol in H|unfold deposit_stake in H]; run_ok H;
    match type of H with (let '(p, l) := ?x in _) = _ => destruct x as [p l] end; by injection H as <-.
  - unfold set_preference in H. run_ok H. by injection H as <-.
  - unfold sync_preference in H. run_ok H. split_if H; [by injection H as <-|]. run_ok H. by injection H as <-.
  - unfold close_preference in H. run_ok H. by injection H as <-.
Qed.

Lemma outside_crank_inv env i c c' : stake_inv c -> outside_crank i = true -> stake_exec env i c = Ok c' -> stake_inv c'.
Proof. intros C Hi H. destruct (outside_crank_frame _ _ _ _ Hi H) as (E1 & E2 & E3). by apply (crank_untouched c). Qed.

End inv.
