(* ===== verification/StakeProofs.v ===== *)
(** * What the controller guarantees

    The invariant in every reachable state, the phases of the epoch machine, and the
    guarantees built on them: the plan accounts for the whole pool, batches of any
    size compute the reference distribution, budgets hold, and a preference counts
    once per epoch. *)

From S2P Require Import Prelude MachineInt State Token AccountBytes StakeMath StakeTargets StakeView Cpi SplCpi StakeState.
From S2P Require Import StakeAccounts StakeCrank StakeSystem StakePlan StakeNeutral StakeDirected StakeInv.

Open Scope Z_scope.

(** ** Errors that do not occur *)

(** [m] does not fail with [e]. *)
Definition avoids {A} (e : CtlError.t) (m : result CError A) : Prop := m <> Err (Ctl e).

Lemma avoids_Ok {A} e (x : A) : avoids e (Ok x).
Proof. done. Qed.

Lemma avoids_bind {A B} e (m : result CError A) (k : A -> result CError B) :
  avoids e m -> (forall x, m = Ok x -> avoids e (k x)) -> avoids e (mbind k m).
Proof. destruct m as [x|e']; intros Hm Hk; [by apply Hk|]. cbn. unfold avoids in *. congruence. Qed.

Lemma avoids_ok_or {A} e e' (o : option A) : e' <> Ctl e -> avoids e (ok_or o e').
Proof. destruct o; unfold avoids; cbn; congruence. Qed.

Lemma avoids_require e e' b : e' <> Ctl e -> avoids e (require b e').
Proof. destruct b; unfold avoids; cbn; congruence. Qed.

Lemma avoids_map_err {A E} e (f : E -> CError) (m : result E A) : (forall x, f x <> Ctl e) -> avoids e (map_err f m).
Proof. destruct m; unfold avoids; cbn; [done|]. intros H [= H1]. by apply (H e0). Qed.

Create HintDb avoids.
#[local] Hint Resolve avoids_Ok avoids_ok_or avoids_require avoids_map_err : avoids.
#[local] Hint Extern 1 (_ <> _) => done : avoids.
#[local] Hint Unfold ensure or_err cmath invoke_cpi config_of load_record reward_account : avoids.

(** Split a run into its computations; discharge those that fail otherwise. *)
Ltac avoid := repeat first
  [ apply avoids_bind; [|intros ? ?]
  | progress autounfold with avoids
  | solve [auto with avoids]
  | match goal with |- avoids _ (let '(_, _) := ?x in _) => destruct x end
  | match goal with |- avoids _ (if ?b then _ else _) => destruct b end ].

Section guarantees.
Context {R : Runtime} {S : StakeRuntime}.

Lemma stake_exec_inv env i c c' : stake_inv c -> env_ok env c -> stake_exec env i c = Ok c' -> stake_inv c'.
Proof.
  intros C Henv H. destruct (outside_crank i) eqn:Hi; [by eapply outside_crank_inv|].
  destruct i; try done; cbn [stake_exec] in H.
  - exact (initialize_controller_inv _ _ _ _ _ C H).
  - exact (register_validator_inv _ _ _ _ C H).
  - exact (snapshot_preference_inv _ _ _ _ C H).
  - exact (start_epoch_inv _ _ _ C Henv H).
  - exact (reconcile_batch_inv _ _ _ _ _ C H).
  - exact (finalize_pool_inv _ _ _ _ C H).
  - exact (close_preference_window_inv _ _ _ C H).
  - exact (plan_directed_batch_inv _ _ _ _ _ C H).
  - exact (plan_neutral_batch_inv _ _ _ _ _ C H).
  - exact (finalize_plan_inv _ _ _ _ C H).
  - exact (execute_next_action_inv _ _ _ _ _ _ _ C H).
  - exact (finish_epoch_inv _ _ _ _ C H).
Qed.

Lemma zero_crank_inv : crank_inv zero_epoch_state ∅.
Proof. split; [split; cbn; try done; rlia| |done]. split; by intros. Qed.

Lemma stake_invariant c : stake_reachable c -> stake_inv c.
Proof.
  apply stake_reachable_ind.
  - intros c0 (E1 & E2 & E3 & _). split; [rewrite E2, E3; apply zero_crank_inv|done].
  - intros c1 c2 C Hs. destruct Hs as [env i c1 c2 Henv H|c1 p l]; [by eapply stake_exec_inv|].
    by apply (crank_untouched c1).
Qed.

(** ** The phases *)

(** The edges of the epoch machine. *)
Inductive phase_edge : Z -> Z -> Prop :=
  | edge_finalize : phase_edge PHASE_RECONCILE PHASE_FINALIZE
  | edge_preferences : phase_edge PHASE_FINALIZE PHASE_PREFERENCES
  | edge_directed : phase_edge PHASE_PREFERENCES PHASE_PLAN_DIRECTED
  | edge_neutral : phase_edge PHASE_PLAN_DIRECTED PHASE_PLAN_NEUTRAL
  | edge_plan_finalize : phase_edge PHASE_PLAN_NEUTRAL PHASE_PLAN_FINALIZE
  | edge_rebalance : phase_edge PHASE_PLAN_FINALIZE PHASE_REBALANCE
  | edge_idle : phase_edge PHASE_REBALANCE PHASE_IDLE.

(** An instruction stays in its epoch and moves along at most one edge, or starts an epoch. *)
Definition phase_moves (es es' : EpochState) : Prop :=
  (es_controller_epoch es' = es_controller_epoch es /\
    (es_phase es' = es_phase es \/ phase_edge (es_phase es) (es_phase es'))) \/
  (es_controller_epoch es < es_controller_epoch es' /\ es_phase es' = PHASE_RECONCILE).

Lemma stays es es' : es' = es -> phase_moves es es'.
Proof. intros ->. left. auto. Qed.

Lemma reward_moves due cfg recipient n es0 es l es' l' : reward due cfg recipient n es l = Ok (es', l') ->
  phase_moves es0 es -> phase_moves es0 es'.
Proof.
  unfold reward. destruct due; intros H; [bind H as [[l1 used] paid] Hp|]; by injection H as <- <-.
Qed.

(** A run within the phase [from], which may end with the transition to [to]. *)
Lemma moves_along es es1 es2 from to : es_phase es = from -> phase_edge from to ->
  es_controller_epoch es1 = es_controller_epoch es -> es_phase es1 = es_phase es ->
  es2 = es1 \/ es2 = es1 <| es_phase := to |> -> phase_moves es es2.
Proof. intros Hf He E1 E2 [-> | ->]; left; cbn; split; auto. right. by rewrite Hf. Qed.

Lemma reconcile_moves env accounts recipient c c' :
  reconcile_batch env accounts recipient c = Ok c' -> phase_moves (ct_es c) (ct_es c').
Proof.
  intros H. unfold reconcile_batch in H. bind H as cfg Hs. bind H as u1 H1. bind H as u2 H2. bind H as quads H3.
  bind H as header H4. bind H as stop H5. bind H as u6 H6. bind H as u7 H7. bind H as expected H8. bind H as [p l0] H9.
  bind H as [[es1 records1] cur] H10. bind H as es2 H11. bind H as [es3 l] H12. injection H as <-. ctl_ok H2. propify.
  apply observe_all_spec in H10 as [F _]. refine (reward_moves _ _ _ _ _ _ _ _ _ H12 _).
  pose proof (f_equal es_controller_epoch F) as Fe. pose proof (f_equal es_phase F) as Fp. cbn in Fe, Fp.
  eapply (moves_along _ (es1 <| es_reconcile_cursor := _ |>) _ _ PHASE_FINALIZE); [done|constructor|exact Fe|exact Fp|].
  split_if H11; [right; by apply transition_Ok in H11|left; by injection H11].
Qed.

Lemma finalize_pool_moves env recipient c c' : finalize_pool env recipient c = Ok c' ->
  phase_moves (ct_es c) (ct_es c').
Proof.
  intros H. unfold finalize_pool in H. bind H as cfg Hs. bind H as u1 H1. bind H as u2 H2. bind H as before H3.
  bind H as [p l] H4. bind H as [p' l0] H5. bind H as after H6. bind H as close H7. bind H as es1 H8. bind H as [es2 l'] H9.
  injection H as <-. ctl_ok H2. propify. apply transition_Ok in H8. refine (reward_moves _ _ _ _ _ _ _ _ _ H9 _).
  subst es1. left. cbn. split; [done|]. right. rewrite H2. constructor.
Qed.

Lemma plan_directed_moves env accounts recipient c c' :
  plan_directed_batch env accounts recipient c = Ok c' -> phase_moves (ct_es c) (ct_es c').
Proof.
  intros H. unfold plan_directed_batch in H. bind H as cfg Hs. bind H as u1 H1.
  bind H as md H2. bind H as dt H3. bind H as ps H4. bind H as u5 H5. bind H as header H6. bind H as u7 H7.
  bind H as [es1 records1] H8. bind H as es2 H9. bind H as [es3 l] H10. injection H as <-. ctl_ok H5. propify.
  refine (reward_moves _ _ _ _ _ _ _ _ _ H10 _). apply plan_all_frame in H8 as F.
  pose proof (f_equal es_controller_epoch F) as Fe. pose proof (f_equal es_phase F) as Fp. cbn in Fe, Fp.
  split_if H9.
  - bind H9 as neutral Hneu. apply transition_Ok in H9 as ->. left. cbn. split; [done|]. right. rewrite H5. constructor.
  - injection H9 as <-. left. auto.
Qed.

Lemma plan_neutral_moves env accounts recipient c c' : stake_inv c ->
  plan_neutral_batch env accounts recipient c = Ok c' -> phase_moves (ct_es c) (ct_es c').
Proof.
  intros [C _] H. pose proof (ci_phase _ _ C) as Hp.
  assert (es_phase (ct_es c) = PHASE_PLAN_NEUTRAL) as Hph by by apply plan_neutral_phase in H.
  unfold phase_ok in Hp. rewrite Hph in Hp. destruct Hp as [keys Hn].
  destruct (neutral_batch_result _ _ _ _ _ keys C Hn H) as (es1 & fin & used & -> & _ & _ & _ & N).
  pose proof (nx_frame _ _ _ _ _ _ _ N) as F.
  pose proof (f_equal es_controller_epoch F) as Fe. pose proof (f_equal es_phase F) as Fp. cbn in Fe, Fp.
  destruct fin; left; cbn; [|auto]. split; [done|]. right. rewrite Hph. constructor.
Qed.

Lemma execute_moves env vote vs ts recipient c c' : stake_inv c ->
  execute_next_action env vote vs ts recipient c = Ok c' -> phase_moves (ct_es c) (ct_es c').
Proof.
  intros [[He _ _] _] H. apply execute_rebalanced in H as (r & r' & es1 & used & -> & [F _ _ _ _ _] & _); [|done].
  pose proof (f_equal es_controller_epoch F) as Fe. pose proof (f_equal es_phase F) as Fp. cbn in Fe, Fp.
  left. cbn. auto.
Qed.

Lemma exec_moves env i c c' : stake_inv c -> stake_exec env i c = Ok c' -> phase_moves (ct_es c) (ct_es c').
Proof.
  intros C H. destruct (outside_crank i) eqn:Hi; [apply stays; exact (proj1 (outside_crank_frame _ _ _ _ Hi H))|].
  destruct i; try done; cbn [stake_exec] in H.
  - unfold initialize_controller in H. bind H as u1 H1. bind H as u2 H2. bind H as u3 H3. injection H as <-.
    ctl_ok H2. propify. destruct (si_config _ C ltac:(done)) as [_ ->]. by apply stays.
  - unfold register_validator in H. run_ok H. injection H as <-. by apply stays.
  - unfold snapshot_preference in H. run_ok H. injection H as <-. by apply stays.
  - unfold start_epoch in H. bind H as cfg Hs. bind H as u1 H1. run_ok H. injection H as <-. ctl_ok H1. right. cbn. lia.
  - exact (reconcile_moves _ _ _ _ _ H).
  - exact (finalize_pool_moves _ _ _ _ H).
  - unfold close_preference_window in H. bind H as cfg Hs. bind H as u1 H1. run_ok H. injection H as <-. ctl_ok H1.
    left. cbn. split; [done|]. right. rewrite H1. constructor.
  - exact (plan_directed_moves _ _ _ _ _ H).
  - exact (plan_neutral_moves _ _ _ _ _ C H).
  - apply finalize_plan_spec in H as (used & -> & _ & E & _). left. cbn. split; [done|]. right. rewrite E. constructor.
  - exact (execute_moves _ _ _ _ _ _ _ C H).
  - apply finish_epoch_spec in H as (used & -> & _ & E & _). left. cbn. split; [done|]. right. rewrite E. constructor.
Qed.

(** C31: The epoch machine. From every reachable state, a step stays in its controller
    epoch and moves along at most one edge of the phase cycle, or it starts a later
    epoch in the reconcile phase; and no crank state is a dead end: whatever the
    phase, once the cluster's epoch has advanced and the pool is sealed, [start_epoch]
    succeeds and discards the unfinished plan. *)
Theorem epoch_machine (c : Controller) : stake_reachable c ->
  (forall c', stake_step c c' -> phase_moves (ct_es c) (ct_es c')) /\
  (forall env cfg, ct_config c = Some cfg -> cc_sealed cfg = true ->
    es_controller_epoch (ct_es c) < epoch (se_clock env) ->
    exists c', start_epoch env c = Ok c' /\ es_phase (ct_es c') = PHASE_RECONCILE /\
      es_controller_epoch (ct_es c') = epoch (se_clock env) /\ unplanned (ct_es c') (ct_records c')).
Proof.
  intros Hr. pose proof (stake_invariant c Hr) as C. split.
  - intros c' Hs. destruct Hs as [env i c c' _ H|c p l]; [by apply exec_moves in H|by apply stays].
  - intros env cfg Hc Hsealed Hlt. unfold start_epoch, sealed_config, config_of. rewrite Hc. cbn. rewrite Hsealed. cbn.
    unfold ensure. destruct (Z.ltb_spec (es_controller_epoch (ct_es c)) (epoch (se_clock env))); [|lia]. cbn.
    eexists. split; [reflexivity|]. split_and!; try done.
    intros k r Hk. pose proof (ro_epoch _ _ _ (ci_records _ _ (si_crank _ C)) k r Hk). cbn. lia.
Qed.

(** ** Budgets *)



(** ** Conservation *)

Lemma planned_targets nav e records : all_planned nav e records ->
  planned_sum e vr_final_target records
  = planned_sum e vr_directed_target records + planned_sum e vr_neutral_granted records.
Proof.
  intros H. unfold planned_sum. rewrite <- msum_add.
  apply Z.le_antisymm; apply msum_le; intros k r Hk; unfold planned;
    destruct (Z.eqb_spec (vr_plan_epoch r) e) as [E|]; try lia; destruct (H _ _ Hk E); lia.
Qed.

(** C25: The finished plan accounts for the whole pool. In every reachable state between
    the end of planning and the end of the epoch, the targets of the planned
    records, the recorded shortfall and the reserve target add up to exactly the
    pool's recorded lamports, however the records were batched; every planned target
    lies between zero and the cap of the record's lifecycle status. *)
Theorem plan_accounts_for_pool (c : Controller) : stake_reachable c ->
  es_phase (ct_es c) = PHASE_PLAN_FINALIZE \/ es_phase (ct_es c) = PHASE_REBALANCE ->
  let es := ct_es c in
  planned_sum (es_controller_epoch es) vr_final_target (ct_records c)
    + es_capacity_shortfall es + es_reserve_target es = es_nav_total_lamports es /\
  0 <= es_capacity_shortfall es /\
  (forall k r, ct_records c !! k = Some r -> vr_plan_epoch r = es_controller_epoch es ->
    exists s, status_from_u8 (vr_status r) = Some s /\
      0 <= vr_final_target r <= cap_of (es_nav_total_lamports es) s).
Proof.
  intros Hr Hph es. destruct (stake_invariant c Hr) as [[He HR Hp] _].
  assert (plan_conserved es (ct_records c)) as ([S1 S2 _ _ _] & Q1 & Q2).
  { unfold phase_ok in Hp. destruct Hph as [E|E]; by rewrite E in Hp. }
  pose proof (eo_started _ He ltac:(lia)) as Hst. pose proof (ro_planned _ _ _ HR Hst) as Hap.
  pose proof (eo_split _ He) as Hsp. subst es. split_and!; [|done|].
  - rewrite (planned_targets _ _ _ Hap). lia.
  - intros k r Hk E. destruct (Hap k r Hk E) as [P1 P2 P3 P4 (s & Es) P6 _]. exists s. split; [done|].
    specialize (P6 s Es). lia.
Qed.

Lemma sealed_avoids e c : e <> CtlError.PoolNotInitialized -> avoids e (sealed_config c).
Proof. intros He. unfold sealed_config. avoid. apply avoids_require. congruence. Qed.

Lemma reward_avoids e due cfg recipient n es l : e <> CtlError.InvalidRewardRecipient -> e <> CtlError.MathOverflow ->
  avoids e (reward due cfg recipient n es l).
Proof.
  intros H1 H2. unfold reward, pay_crank_reward. avoid; try (apply avoids_require; congruence);
    try (apply avoids_ok_or; congruence).
Qed.

Lemma finalize_plan_consistent env recipient c : stake_inv c ->
  avoids CtlError.PlanConservationViolated (finalize_plan env recipient c).
Proof.
  intros [[He HR Hp] _]. unfold finalize_plan.
  apply avoids_bind; [by apply sealed_avoids|intros cfg _]. apply avoids_bind; [by avoid|intros u1 _].
  apply avoids_bind; [by avoid|intros u2 H2]. ctl_ok H2. propify.
  unfold phase_ok in Hp. rewrite H2 in Hp. destruct Hp as (_ & _ & Q).
  apply avoids_bind; [by avoid|intros assigned Ha]. ctl_ok Ha.
  apply fit_Some in Hrun as [-> _]. apply fit_Some in Ha as [-> _].
  apply avoids_bind; [|intros; avoid; by apply reward_avoids].
  unfold ensure. destruct (Z.eqb_spec (es_sum_directed_targets (ct_es c) + es_neutral_granted_total (ct_es c)
    + es_capacity_shortfall (ct_es c)) (es_productive_lamports (ct_es c))); [apply avoids_Ok|lia].
Qed.

Lemma neutral_all_avoids e accounts : forall round es records,
  avoids CtlError.NeutralRoundInconsistent (neutral_all e accounts round es records).
Proof.
  induction accounts as [|a accounts IH]; intros round es records; cbn [neutral_all]; [avoid|].
  apply avoids_bind; [|by intros [[round1 es1] records1] _].
  unfold neutral_one. avoid. unfold apply_grant. avoid.
Qed.

(** With a round open, a slice fails only for what the caller passed. *)
Lemma fold_slice_consistent nav keys accounts es records :
  u64 nav -> 0 <= es_controller_epoch es -> covers (es_controller_epoch es) keys records ->
  all_planned nav (es_controller_epoch es) records -> in_round es (slots_of records keys) ->
  es_plan_directed_cursor es = Z.of_nat (length keys) ->
  avoids CtlError.NeutralRoundInconsistent (fold_slice accounts es records).
Proof.
  intros Hnav He Hc Hp Hin Hplan. unfold fold_slice.
  apply avoids_bind; [by avoid|intros stop _]. apply avoids_bind; [by avoid|intros u1 _].
  apply avoids_bind; [by avoid|intros u2 _]. apply avoids_bind; [apply neutral_all_avoids|intros [[round es1] records1] Hall].
  pose proof Hin as [W Hcur St _ [N1 _] _].
  assert (can_step (es_round es) es (slots_of records keys)) as Hcs by (split_and!; done || lia).
  pose proof (neutral_all_spec _ nav keys accounts _ _ _ _ _ _ Hc Hp Hnav Hcs Hall) as V.
  pose proof (in_round_slice nav keys _ _ _ _ _ _ Hnav Hc Hp Hin V) as Hin1.
  pose proof (f_equal es_controller_epoch (vi_frame _ _ _ _ _ _ _ _ _ _ V)) as Fe. cbn in Fe.
  destruct (_ =? _) eqn:Ec; [|apply avoids_Ok]. apply avoids_bind; [|by intros [es3 fin] _].
  pose proof (cv_length _ _ _ (vi_covers _ _ _ _ _ _ _ _ _ _ V)) as Hl.
  rewrite <- (length_slots records1) in Hplan, Hl. cbn in Ec. propify.
  rewrite <- Fe in He.
  pose proof (complete_round_run (es1 <| es_round := round |>) _ Hin1 ltac:(cbn; lia) Hl) as Run.
  cbn zeta in Run. cbn [es_round es_controller_epoch update] in Run |- *. rewrite Run.
  destruct (_ || _) eqn:E; [apply avoids_Ok|]. unfold begin_round. rewrite E. apply avoids_Ok.
Qed.

Lemma neutral_consistent env accounts recipient c : stake_inv c ->
  avoids CtlError.NeutralRoundInconsistent (plan_neutral_batch env accounts recipient c).
Proof.
  intros [[He HR Hp] _]. unfold plan_neutral_batch.
  apply avoids_bind; [by apply sealed_avoids|intros cfg _]. apply avoids_bind; [by avoid|intros u1 _].
  apply avoids_bind; [by avoid|intros u2 H2]. ctl_ok H2. propify.
  unfold phase_ok in Hp. rewrite H2 in Hp. destruct Hp as [keys Hn].
  pose proof (eo_started _ He ltac:(lia)) as Hst. pose proof (ro_planned _ _ _ HR Hst) as Hap.
  destruct (enter_neutral (ct_es c)) as [es0 f0] eqn:Eo.
  apply (enter_neutral_result keys _ (ct_records c)) in Eo as [[C0 A0 _ F0 _ _ _] I0]; try done.
  destruct Hn as (_ & _ & Hcur & _).
  apply avoids_bind; [|intros [[[es1 records1] fin] vis] _; avoid; try by apply reward_avoids].
  destruct f0; [apply avoids_Ok|]. apply avoids_bind; [|by intros [[es1 records1] fin] _].
  pose proof (f_equal es_controller_epoch F0) as Fe. pose proof (f_equal es_plan_directed_cursor F0) as Fd.
  cbn in Fe, Fd. rewrite <- Fe in C0, A0.
  apply (fold_slice_consistent (es_nav_total_lamports (ct_es c)) keys); auto; [apply (eo_nav _ He)|lia|lia].
Qed.

(** C28: The controller's consistency errors do not occur. In every reachable state,
    whatever accounts a caller passes, [plan_neutral_batch] does not fail with
    [NeutralRoundInconsistent] and [finalize_plan] does not fail with
    [PlanConservationViolated]: the persisted round mirrors and the plan's aggregates
    always agree with the records. *)
Theorem consistency_errors_unreachable (c : Controller) : stake_reachable c ->
  (forall env accounts recipient,
    avoids CtlError.NeutralRoundInconsistent (plan_neutral_batch env accounts recipient c)) /\
  (forall env recipient, avoids CtlError.PlanConservationViolated (finalize_plan env recipient c)).
Proof.
  intros Hr. pose proof (stake_invariant c Hr) as C. split; intros; [by apply neutral_consistent|].
  by apply finalize_plan_consistent.
Qed.

End guarantees.
