(* ===== verification/StakeRefine.v ===== *)
(** * The persisted neutral rounds compute the reference distribution

    [plan_neutral_batch] folds the capacity rounds in whatever slices its callers pass,
    with the round's state mirrored in the epoch account between calls and other
    instructions in between. Here: it computes what the one-shot driver
    [distribute_neutral] computes. *)

From S2P Require Import Prelude MachineInt State Token AccountBytes StakeMath StakeTargets StakeView Cpi SplCpi StakeState.
From S2P Require Import StakeAccounts StakeCrank StakeSystem StakePlan StakeNeutral StakeDirected StakeInv StakeProofs.

Open Scope Z_scope.

Section refine.
Context {R : Runtime} {S : StakeRuntime}.

(** The phase a crank instruction requires. *)
Definition needs_phase (i : SInstr) : option Z :=
  match i with
  | ReconcileBatch _ _ => Some PHASE_RECONCILE
  | FinalizePool _ => Some PHASE_FINALIZE
  | SnapshotPreference _ | ClosePreferenceWindow => Some PHASE_PREFERENCES
  | PlanDirectedBatch _ _ => Some PHASE_PLAN_DIRECTED
  | PlanNeutralBatch _ _ => Some PHASE_PLAN_NEUTRAL
  | FinalizePlan _ => Some PHASE_PLAN_FINALIZE
  | ExecuteNextAction _ _ _ _ | FinishEpoch _ => Some PHASE_REBALANCE
  | _ => None
  end.

Lemma exec_phase env i c c' ph : stake_exec env i c = Ok c' -> needs_phase i = Some ph -> es_phase (ct_es c) = ph.
Proof.
  intros H Hp. destruct i; try done; cbn [stake_exec] in H; injection Hp as <-.
  - unfold snapshot_preference in H. do 3 (let x := fresh in let Hx := fresh in bind H as x Hx). bind H as u Hu. by ctl_ok Hu.
  - unfold reconcile_batch in H. do 2 (let x := fresh in let Hx := fresh in bind H as x Hx). bind H as u Hu. by ctl_ok Hu.
  - unfold finalize_pool in H. do 2 (let x := fresh in let Hx := fresh in bind H as x Hx). bind H as u Hu. by ctl_ok Hu.
  - unfold close_preference_window in H. bind H as cfg Hs. bind H as u Hu. by ctl_ok Hu.
  - unfold plan_directed_batch in H. do 5 (let x := fresh in let Hx := fresh in bind H as x Hx). bind H as u Hu. by ctl_ok Hu.
  - by apply plan_neutral_phase in H.
  - by apply finalize_plan_spec in H as (used & _ & _ & E & _).
  - unfold execute_next_action in H. do 3 (let x := fresh in let Hx := fresh in bind H as x Hx). bind H as u Hu. by ctl_ok Hu.
  - by apply finish_epoch_spec in H as (used & _ & _ & E & _).
Qed.

(** ** Following the reference run *)

Definition outcome_of (es : EpochState) : NeutralOutcome :=
  mkNeutralOutcome (es_neutral_round_number es) (es_capacity_shortfall es).

(** The phase is on the way to [x], or was left with it. *)
Definition on_course (keys : list Pubkey) (x : NeutralOutcome * list Slot) (es : EpochState)
    (records : gmap Pubkey ValidatorRecord) : Prop :=
  (es_phase es = PHASE_PLAN_NEUTRAL /\ neutral_phase es records keys /\ resumes_to es (slots_of records keys) x) \/
  ((es_phase es = PHASE_PLAN_FINALIZE \/ es_phase es = PHASE_REBALANCE \/ es_phase es = PHASE_IDLE) /\
   Forall (fun k => is_Some (records !! k)) keys /\ x = (outcome_of es, slots_of records keys)).

Section course.
Context (e : Z) (keys : list Pubkey) (x : NeutralOutcome * list Slot) (He : 0 < e).

Definition follows (c : Controller) : Prop :=
  stake_inv c /\ e <= es_controller_epoch (ct_es c) /\
  (es_controller_epoch (ct_es c) = e -> on_course keys x (ct_es c) (ct_records c)).

Lemma covers_present records : covers e keys records -> Forall (fun k => is_Some (records !! k)) keys.
Proof using. intros C. apply Forall_lookup. intros i k Hi. destruct (cv_index _ _ _ C i k Hi) as (r & Hr & _). eauto. Qed.

(** A record registered meanwhile is not among the planned ones. *)
Lemma register_on_course es records k r : records !! k = None -> vr_plan_epoch r < es_controller_epoch es ->
  on_course keys x es records -> on_course keys x es (<[k := r]> records).
Proof using.
  intros Hk Hr [(Hp & (C & Sm & Cu & Pr) & Run)|(Hp & Hpres & ->)].
  - left. pose proof (fresh_slots _ _ _ r Hk keys C) as Es. unfold neutral_phase. rewrite Es.
    split_and!; try done; [by apply fresh_covers|by apply (fresh_sums (es_controller_epoch es))].
  - right. split; [done|]. split.
    + eapply Forall_impl; [exact Hpres|]. cbn. intros k' [r' Hr']. exists r'. rewrite lookup_insert_ne; [done|]. congruence.
    + f_equal. apply list_fmap_ext. intros i k' Hi. unfold slot_of. rewrite lookup_insert_ne; [done|].
      rewrite Forall_lookup in Hpres. destruct (Hpres _ _ Hi). congruence.
Qed.

(** The walk does not touch capacities and targets. *)
Lemma rewrite_slots records k r r' : records !! k = Some r -> planned_part r' = planned_part r ->
  slots_of (<[k := r']> records) keys = slots_of records keys.
Proof using.
  intros Hk Hp. apply list_fmap_ext. intros i k' _. unfold slot_of. destruct (decide (k' = k)) as [->|Hne].
  - rewrite lookup_insert_eq, Hk. unfold planned_part in Hp. congruence.
  - by rewrite lookup_insert_ne.
Qed.

Lemma neutral_on_course env accounts recipient c c' : stake_inv c -> es_controller_epoch (ct_es c) = e ->
  on_course keys x (ct_es c) (ct_records c) ->
  plan_neutral_batch env accounts recipient c = Ok c' -> on_course keys x (ct_es c') (ct_records c').
Proof using.
  intros [C _] Ee Hc H. pose proof (plan_neutral_phase _ _ _ _ _ H) as Hph.
  destruct Hc as [(_ & Hn & Run)|(Hp & _)]; [|lia].
  destruct (neutral_batch_result _ _ _ _ _ keys C Hn H) as (es1 & fin & used & -> & _ & _ & _ & [N1 _ _ N4 N5 N6 N7]).
  pose proof (f_equal es_controller_epoch N4) as Fe. pose proof (f_equal es_phase N4) as Fp.
  pose proof (f_equal es_plan_directed_cursor N4) as Fd. cbn in Fe, Fp, Fd. rewrite Ee in N1. specialize (N7 x Run).
  destruct fin.
  - right. cbn. split; [by left|]. split; [by apply covers_present|done].
  - left. split; [cbn; lia|]. destruct Hn as (_ & _ & Hcur & _).
    split; [|exact N7]. split_and!; [cbn; by rewrite Fe, Ee|by apply (sums_ok_ext es1)|cbn; lia|by apply (neutral_progress_ext es1)].
Qed.

Lemma exec_on_course env i c c' : stake_inv c -> es_controller_epoch (ct_es c) = e ->
  es_controller_epoch (ct_es c') = e -> on_course keys x (ct_es c) (ct_records c) ->
  stake_exec env i c = Ok c' -> on_course keys x (ct_es c') (ct_records c').
Proof using He.
  intros C Ee Ee' Hc H. assert (0 < es_controller_epoch (ct_es c)) as Hpos by lia. destruct (outside_crank i) eqn:Hi.
  { destruct (outside_crank_frame _ _ _ _ Hi H) as (-> & -> & _). done. }
  pose proof (fun ph => exec_phase env i c c' ph H) as Hph.
  assert (es_phase (ct_es c) = 0 \/ 5 <= es_phase (ct_es c)) as Hlate by (destruct Hc as [(E & _)|(E & _)]; lia).
  destruct i; try done; try (specialize (Hph _ eq_refl); lia); cbn [stake_exec] in H.
  - unfold initialize_controller in H. bind H as u1 H1. bind H as u2 H2. ctl_ok H2. propify.
    destruct (si_config _ C ltac:(done)) as [_ E]. rewrite E in Hpos. cbn in Hpos. lia.
  - unfold register_validator in H. bind H as cfg Hs. bind H as u1 H1. run_ok H. injection H as <-. ctl_ok H1. propify.
    apply register_on_course; [done|cbn; lia|done].
  - unfold start_epoch in H. bind H as cfg Hs. bind H as u1 H1. run_ok H. injection H as <-. ctl_ok H1. cbn in Ee'. lia.
  - by eapply neutral_on_course.
  - apply finalize_plan_spec in H as (used & -> & _ & E & -> & _). destruct Hc as [(E' & _)|(_ & Hc)]; [lia|].
    right. split; [by right; left|exact Hc].
  - apply execute_rebalanced in H as (r & r' & es1 & used & -> & [F _ _ _ _ B] & _ & E & Hr & -> & _);
      [|apply (si_crank _ C)]. destruct Hc as [(E' & _)|(_ & Hpres & ->)]; [lia|]. right.
    pose proof (f_equal es_phase F) as Fp. pose proof (f_equal outcome_of F) as Fo. cbn in Fp.
    split; [cbn; lia|].
    split; [|rewrite (rewrite_slots _ _ r) by done; f_equal; exact (eq_sym Fo)].
    eapply Forall_impl; [exact Hpres|]. cbn. intros k Hk. by apply lookup_insert_is_Some'; right.
  - apply finish_epoch_spec in H as (used & -> & _ & E & -> & _). destruct Hc as [(E' & _)|(_ & Hc)]; [lia|].
    right. split; [by right; right|exact Hc].
Qed.

Lemma follows_step c c' : follows c -> stake_step c c' -> follows c'.
Proof using He.
  intros (C & Hle & Hc) Hs. destruct Hs as [env i c c' Henv H|c p l].
  - pose proof (stake_exec_inv _ _ _ _ C Henv H) as C'. split; [done|].
    destruct (exec_moves _ _ _ _ C H) as [(E & _)|(E & _)]; (split; [lia|]); intros Ee'; [|lia].
    assert (es_controller_epoch (ct_es c) = e) as Ee by lia.
    by apply (exec_on_course env i c c' C Ee Ee' (Hc Ee)).
  - split; [by apply (crank_untouched c)|]. done.
Qed.

End course.

Lemma follows_run e keys x c c' : 0 < e -> follows e keys x c -> rtc stake_step c c' -> follows e keys x c'.
Proof. intros He Hf Hr. induction Hr as [|c1 c2 c3 Hs _ IH]; [done|]. apply IH. by eapply follows_step. Qed.

(** The entry of the phase stands at the start of the driver's run. *)
Lemma entry_on_course es records keys : es_ok es -> 0 < es_controller_epoch es ->
  all_planned (es_nav_total_lamports es) (es_controller_epoch es) records ->
  es_phase es = PHASE_PLAN_NEUTRAL -> es_neutral_round_number es = 0 -> neutral_phase es records keys ->
  exists out slots,
    distribute_neutral (es_neutral_total es) (es_controller_epoch es) (slots_of records keys).*1
      (slots_of records keys).*2 = Some (out, slots.*1, slots.*2) /\
    on_course keys (out, slots) es records.
Proof.
  intros He Hpos Hap Hph Hn Hnp. pose proof Hnp as (Hc & Hsum & _ & Hpr).
  pose proof (neutral_total_range _ _ _ He Hap Hsum Hpr Hn) as Hu. pose proof (cv_length _ _ _ Hc) as Hl.
  set (sl := slots_of records keys) in *. assert (length sl = length keys) as Hsl by apply length_slots.
  pose proof (unsaturated_le_length sl) as Hul.
  destruct (distribute_loop_spec (Datatypes.S (length sl)) (es_controller_epoch es) (es_neutral_total es) 0 sl)
    as (out & slots & E & _); try done; try rlia.
  { by apply (slots_ok _ _ _ _ (eo_nav _ He) Hc). }
  exists out, slots. split.
  - unfold distribute_neutral. rewrite bool_decide_true by (by rewrite !length_fmap).
    rewrite zip_fst_snd, length_fmap, E. done.
  - left. split_and!; [done|done|]. exists (Datatypes.S (length sl)). unfold resumed. by rewrite Hn.
Qed.

(** C26: Batching refines the reference. Start from any reachable state at the entry of
    the neutral phase and let anything happen: calls of [plan_neutral_batch] over
    slices of any size, by anyone, with registrations, deposits, preferences and
    changes of the pool in between. When the phase has been left in the same epoch,
    the capacities and targets of the planned validators, the number of rounds and the
    shortfall are exactly those [distribute_neutral] returns in one call on the
    entry's capacities and targets. *)
Theorem neutral_batches_refine (c c' : Controller) : stake_reachable c ->
  es_phase (ct_es c) = PHASE_PLAN_NEUTRAL -> es_neutral_round_number (ct_es c) = 0 ->
  rtc stake_step c c' -> es_controller_epoch (ct_es c') = es_controller_epoch (ct_es c) ->
  es_phase (ct_es c') <> PHASE_PLAN_NEUTRAL ->
  exists keys,
    covers (es_controller_epoch (ct_es c)) keys (ct_records c) /\
    es_plan_directed_cursor (ct_es c) = Z.of_nat (length keys) /\
    distribute_neutral (es_neutral_total (ct_es c)) (es_controller_epoch (ct_es c))
      (slots_of (ct_records c) keys).*1 (slots_of (ct_records c) keys).*2
    = Some (outcome_of (ct_es c'), (slots_of (ct_records c') keys).*1, (slots_of (ct_records c') keys).*2).
Proof.
  intros Hr Hph Hn Hrun Ee Hph'. pose proof (stake_invariant c Hr) as C. pose proof C as [[He HR Hp] _].
  unfold phase_ok in Hp. rewrite Hph in Hp. destruct Hp as [keys Hnp].
  pose proof (eo_started _ He ltac:(lia)) as Hpos. pose proof (ro_planned _ _ _ HR Hpos) as Hap.
  destruct (entry_on_course _ _ keys He Hpos Hap Hph Hn Hnp) as (out & slots & E & Hcourse).
  exists keys. destruct Hnp as (Hc & _ & Hcur & _). split_and!; [done|done|]. rewrite E.
  destruct (follows_run (es_controller_epoch (ct_es c)) keys (out, slots) c c' Hpos ltac:(done) Hrun) as (_ & _ & Hend).
  destruct (Hend Ee) as [(? & _)|(_ & _ & [= -> ->])]; done.
Qed.

End refine.
