(* ===== verification/StakePreference.v ===== *)
(** * A preference counts once per epoch

    Which instructions write preferences, and that no interleaving of closing,
    re-creating, changing and syncing lets the shares of one position be counted twice
    in a controller epoch. *)

From S2P Require Import Prelude MachineInt State Token AccountBytes StakeMath StakeTargets StakeView Cpi SplCpi StakeState.
From S2P Require Import StakeAccounts StakeCrank StakeSystem StakePlan StakeNeutral StakeDirected StakeInv StakeProofs.

Open Scope Z_scope.

(** Invert a run through its binds and the pairs they return. *)
Ltac run_through H :=
  repeat first
    [ let x := fresh "x" in let Hx := fresh "Hx" in bind H as x Hx
    | match type of H with (let '(_, _) := ?x in _) = _ => destruct x end ].

Section preference.
Context {R : Runtime} {S : StakeRuntime}.

Definition writes_preference (i : SInstr) : bool :=
  match i with
  | SetPreference _ _ _ | SyncPreference _ | SnapshotPreference _ | ClosePreference _ _ _ => true
  | _ => false
  end.

Lemma preferences_frame env i c c' : writes_preference i = false -> stake_exec env i c = Ok c' ->
  ct_preferences c' = ct_preferences c.
Proof.
  intros Hi H. destruct i; try done; cbn [stake_exec] in H;
    [ unfold initialize_controller in H | unfold initialize_pool in H | unfold register_validator in H
    | unfold deposit_sol in H | unfold deposit_stake in H | unfold start_epoch in H | unfold reconcile_batch in H
    | unfold finalize_pool in H | unfold close_preference_window in H | unfold plan_directed_batch in H
    | unfold plan_neutral_batch in H | unfold finalize_plan in H | unfold execute_next_action in H
    | unfold finish_epoch in H ]; run_through H; by injection H as <-.
Qed.

(** The preference of [k] is not countable in epoch [e]: it was counted, or it waits for a
    later epoch. *)
Definition spent (e : Z) (k : Pubkey) (prefs : gmap Pubkey Preference) : Prop :=
  forall pf, prefs !! k = Some pf -> pf_last_counted_epoch pf = e \/ e < pf_eligible_from_epoch pf.

Lemma spent_insert e k k' pf prefs : spent e k prefs ->
  (k = k' -> pf_last_counted_epoch pf = e \/ e < pf_eligible_from_epoch pf) -> spent e k (<[k' := pf]> prefs).
Proof.
  intros Hs Hpf pf' H. destruct (decide (k = k')) as [->|Hne].
  - rewrite lookup_insert_eq in H. injection H as <-. auto.
  - rewrite lookup_insert_ne in H by done. auto.
Qed.

Lemma spent_delete e k k' prefs : spent e k prefs -> spent e k (delete k' prefs).
Proof. intros Hs pf [_ H]%lookup_delete_Some. auto. Qed.

Lemma exec_spent env i c c' e k : env_ok env c -> es_controller_epoch (ct_es c) = e ->
  spent e k (ct_preferences c) -> stake_exec env i c = Ok c' -> spent e k (ct_preferences c').
Proof.
  intros Henv Ee Hs H. pose proof (eo_forward _ _ Henv) as Hfw.
  destruct (writes_preference i) eqn:Hi; [|by rewrite (preferences_frame _ _ _ _ Hi H)].
  destruct i; try done; cbn [stake_exec] in H.
  - unfold set_preference in H. do 8 (let x := fresh in let Hx := fresh in bind H as x Hx).
    bind H as eligible Hel. injection H as <-. ctl_ok Hel. apply fit_Some in Hel as [-> _].
    apply spent_insert; [done|]. intros _. right. cbn. lia.
  - unfold sync_preference in H. do 4 (let x := fresh in let Hx := fresh in bind H as x Hx).
    split_if H; [by injection H as <-|]. bind H as eligible Hel. injection H as <-. ctl_ok Hel.
    apply fit_Some in Hel as [-> _]. apply spent_insert; [done|]. intros _. right. cbn. lia.
  - unfold snapshot_preference in H. run_ok H. injection H as <-. apply spent_insert; [done|]. intros _. left. done.
  - unfold close_preference in H. run_ok H. injection H as <-. by apply spent_delete.
Qed.

Definition stays_spent (e : Z) (k : Pubkey) (c : Controller) : Prop :=
  stake_inv c /\ e <= es_controller_epoch (ct_es c) /\
  (es_controller_epoch (ct_es c) = e -> spent e k (ct_preferences c)).

Lemma spent_step e k c c' : stays_spent e k c -> stake_step c c' -> stays_spent e k c'.
Proof.
  intros (C & Hle & Hs) Hst. destruct Hst as [env i c c' Henv H|c p l].
  - split; [by eapply stake_exec_inv|]. pose proof (exec_moves _ _ _ _ C H) as Hm.
    split; [destruct Hm; lia|]. intros Ee. assert (es_controller_epoch (ct_es c) = e) as Ec by (destruct Hm; lia).
    by eapply exec_spent; eauto.
  - split; [by apply (crank_untouched c)|done].
Qed.

Lemma spent_run e k c c' : stays_spent e k c -> rtc stake_step c c' -> stays_spent e k c'.
Proof. intros H Hr. induction Hr as [|c1 c2 c3 Hst _ IH]; [done|]. apply IH. by eapply spent_step. Qed.

Lemma snapshot_needs env position c c' : snapshot_preference env position c = Ok c' ->
  exists pf, ct_preferences c !! preference_pda position = Some pf /\
    pf_last_counted_epoch pf <> es_controller_epoch (ct_es c) /\
    pf_eligible_from_epoch pf <= es_controller_epoch (ct_es c).
Proof.
  intros H. unfold snapshot_preference in H. bind H as cfg Hc. bind H as pf Hpf. bind H as r Hr. bind H as u1 H1.
  bind H as u2 H2. bind H as pos H3. bind H as u4 H4. ctl_ok Hpf. ctl_ok H4. unfold countable in H4. cbn in H4. propify.
  exists pf. split_and!; done || lia.
Qed.

(** C27: One count per position and epoch. After a snapshot has counted a position, no
    sequence of instructions and outside changes lets a snapshot of the same position
    succeed again in the same controller epoch: not after the preference was moved to
    another validator, synced, or closed and created anew. *)
Theorem preference_counts_once (env : StakeEnv) (position : Pubkey) (c c1 c2 : Controller) :
  stake_reachable c -> env_ok env c -> snapshot_preference env position c = Ok c1 -> rtc stake_step c1 c2 ->
  es_controller_epoch (ct_es c2) = es_controller_epoch (ct_es c1) ->
  forall env' c3, snapshot_preference env' position c2 <> Ok c3.
Proof.
  intros Hr Henv H1 Hrun Ee env' c3 H3. pose proof (stake_invariant c Hr) as C.
  assert (stays_spent (es_controller_epoch (ct_es c1)) (preference_pda position) c1) as Hs.
  { split; [exact (snapshot_preference_inv _ _ _ _ C H1)|]. split; [lia|]. intros _ pf Hpf. left.
    unfold snapshot_preference in H1. run_ok H1. injection H1 as <-. cbn in Hpf. rewrite lookup_insert_eq in Hpf.
    by injection Hpf as <-. }
  destruct (spent_run _ _ _ _ Hs Hrun) as (_ & _ & Hend).
  destruct (snapshot_needs _ _ _ _ H3) as (pf & Hpf & N1 & N2). destruct (Hend Ee pf Hpf); lia.
Qed.

End preference.
