(* ===== verification/StakeStream.v ===== *)
(** * The controller's stream replays its state

    A reader that keeps only what the events say (the epoch, the phase, the payouts and the
    stake moved in the epoch, the status of every validator and the terms of every
    preference) never meets an event that does not fit what it knows, and is never behind
    the accounts. *)

From S2P Require Import Prelude MachineInt State Token AccountBytes StakeMath StakeTargets StakeView Cpi SplCpi StakeState.
From S2P Require Import StakeAccounts StakeCrank StakeSystem StakeEvents StakePlan StakeNeutral StakeDirected StakeInv StakeProofs.

Open Scope Z_scope.

(** ** The reader *)

(** The terms of a preference: owner, vote account, ink, nonce and the epoch it counts from. *)
Definition Terms : Type := Pubkey * Pubkey * Z * Z * Z.

Record Tracker := mkTracker {
  tk_epoch : Z;
  tk_phase : Z;
  tk_paid : Z;
  tk_moved : Z;
  tk_status : gmap Pubkey Z;
  tk_terms : gmap Pubkey Terms;
}.

#[export] Instance Tracker_fields : Fields Tracker := fun t =>
  mkTracker (tk_epoch t) (tk_phase t) (tk_paid t) (tk_moved t) (tk_status t) (tk_terms t).






Section stream.
Context {R : Runtime} {S : StakeRuntime}.





Definition same_status (records records' : gmap Pubkey ValidatorRecord) : Prop :=
  forall k, vr_status <$> records' !! k = vr_status <$> records !! k.



#[local] Instance same_status_preorder : PreOrder same_status.
Proof. split; [done|]. intros a b d H1 H2 k. by rewrite H2, H1. Qed.

(** ** The parts the cranks share *)










(** ** The cranks *)









(** ** The neutral rounds *)







(** ** The directed plan *)










(** ** The walk *)






(** ** Preferences and the other accounts *)








(** ** Every instruction *)


(** ** Histories *)





End stream.
