(* ===== verification/StakeCalls.v ===== *)
(** * What the controller says to the pool program

    Every effect of the controller outside its own accounts is a sequence of calls of the
    allowlist of [spl_cpi.rs], made with the configured accounts, and at most one crank
    reward; and each call is read by the pool as what was meant, is signed by exactly the
    authorities of the allowlist's table, and never lacks an account or a privilege. *)

From S2P Require Import Prelude MachineInt State Token AccountBytes StakeMath StakeTargets StakeView Cpi SplCpi StakeState.
From S2P Require Import StakeAccounts StakeCrank StakeSystem StakeInv StakePreference.

Open Scope Z_scope.

Section calls.
Context {R : Runtime} {S : StakeRuntime}.

(** ** The allowlist *)

Inductive Call :=
  | CallInitialize
  | CallAddValidator (validator_stake vote : Pubkey)
  | CallRemoveValidator (validator_stake transient_stake : Pubkey)
  | CallIncrease (transient_stake validator_stake vote : Pubkey) (lamports seed : Z)
  | CallDecrease (validator_stake transient_stake : Pubkey) (lamports seed : Z)
  | CallSetPreferred (preferred : option Pubkey)
  | CallUpdateList (quads : list Quad) (start_index : Z)
  | CallUpdatePool
  | CallCleanup
  | CallDepositStake (user_stake validator_stake user_account : Pubkey)
  | CallDepositSol (depositor user_account : Pubkey) (lamports : Z).

(** The instruction the handlers build for a call. *)
Definition build (cfg : ControllerConfig) (call : Call) : Instruction :=
  match call with
  | CallInitialize => initialize_ix cfg
  | CallAddValidator vs vote => add_validator_ix cfg vs vote
  | CallRemoveValidator vs ts => remove_ix cfg vs ts
  | CallIncrease ts vs vote n seed => increase_ix cfg ts vs vote n seed
  | CallDecrease vs ts n seed => decrease_ix cfg vs ts n seed
  | CallSetPreferred v => set_preferred_ix cfg v
  | CallUpdateList quads start => update_list_ix cfg quads start
  | CallUpdatePool => update_pool_ix cfg
  | CallCleanup => cleanup_ix cfg
  | CallDepositStake us vs acct => deposit_stake_ix cfg us vs acct
  | CallDepositSol depositor acct n => deposit_sol_ix cfg depositor acct n
  end.

(** The accounts and the program addresses the handlers pass with it. *)
Definition call_infos (cfg : ControllerConfig) (call : Call) : list AccountInfo :=
  match call with
  | CallInitialize => initialize_infos cfg
  | CallAddValidator vs vote => add_validator_infos cfg vs vote
  | CallRemoveValidator vs ts => remove_infos cfg vs ts
  | CallIncrease ts vs vote _ _ => increase_infos cfg ts vs vote
  | CallDecrease vs ts _ _ => decrease_infos cfg vs ts
  | CallSetPreferred _ => set_preferred_infos cfg
  | CallUpdateList quads _ => update_list_infos cfg quads
  | CallUpdatePool => update_pool_infos cfg
  | CallCleanup => cleanup_infos cfg
  | CallDepositStake us vs acct => deposit_stake_infos cfg us vs acct
  | CallDepositSol depositor acct _ => deposit_sol_infos cfg depositor acct
  end.

Definition call_pdas (call : Call) : list Pubkey :=
  match call with
  | CallInitialize => [pool_authority; deposit_authority]
  | CallAddValidator _ _ | CallRemoveValidator _ _ | CallIncrease _ _ _ _ _ | CallDecrease _ _ _ _
  | CallSetPreferred _ => [pool_authority]
  | CallDepositStake _ _ _ | CallDepositSol _ _ _ => [deposit_authority]
  | CallUpdateList _ _ | CallUpdatePool | CallCleanup => []
  end.

(** The table of the allowlist: the arguments on the wire, and who signs. *)
Definition call_args (call : Call) : PoolArgs :=
  match call with
  | CallInitialize =>
      Initialize (spl_cpi.mkFee 100 1) (spl_cpi.mkFee 10000 5) (spl_cpi.mkFee 10000 5) 0 MAX_VALIDATORS
  | CallAddValidator _ _ => AddValidatorToPool 0
  | CallRemoveValidator _ _ => RemoveValidatorFromPool
  | CallIncrease _ _ _ n seed => IncreaseValidatorStake n seed
  | CallDecrease _ _ n seed => DecreaseValidatorStakeWithReserve n seed
  | CallSetPreferred v => SetPreferredWithdraw v
  | CallUpdateList _ start => UpdateValidatorListBalance start false
  | CallUpdatePool => UpdateStakePoolBalance
  | CallCleanup => CleanupRemovedValidatorEntries
  | CallDepositStake _ _ _ => DepositStakeArgs
  | CallDepositSol _ _ n => DepositSolArgs n
  end.

Definition call_signers (call : Call) : list Pubkey :=
  match call with
  | CallDepositSol depositor _ _ => [depositor; deposit_authority]
  | _ => call_pdas call
  end.

(** The stake accounts of a batch were passed writable. *)
Definition pairs_writable (call : Call) : bool :=
  match call with
  | CallUpdateList quads _ => forallb (fun q => ar_writable (qd_stake q) && ar_writable (qd_transient q)) quads
  | _ => true
  end.

(** ** The wire *)

Lemma update_list_accounts cfg quads start :
  ix_accounts (update_list_ix cfg quads start)
  = ix_accounts (update_list_ix cfg [] start)
    ++ (q ← quads; [meta_new (ar_key (qd_stake q)) false; meta_new (ar_key (qd_transient q)) false]).
Proof.
  unfold update_list_ix, spl_cpi.update_validator_list_balance. cbn [ix_accounts fmap list_fmap foldl].
  match goal with |- foldl _ ?a _ = _ => generalize a end.
  induction quads as [|q quads IH]; intros acc; [by rewrite app_nil_r|].
  cbn [fmap list_fmap foldl mbind list_bind]. rewrite IH. by rewrite <- app_assoc.
Qed.

(** The instruction behind a call. *)
Ltac open_call :=
  unfold initialize_ix, add_validator_ix, remove_ix, increase_ix, decrease_ix, set_preferred_ix, update_list_ix,
    update_pool_ix, cleanup_ix, deposit_stake_ix, deposit_sol_ix, spl_cpi.initialize,
    spl_cpi.add_validator_to_pool, spl_cpi.remove_validator_from_pool, spl_cpi.increase_validator_stake,
    spl_cpi.decrease_validator_stake_with_reserve, spl_cpi.set_preferred_withdraw_validator,
    spl_cpi.update_validator_list_balance, spl_cpi.update_stake_pool_balance,
    spl_cpi.cleanup_removed_validator_entries, spl_cpi.deposit_stake, spl_cpi.deposit_sol.

Lemma build_decodes cfg call : args_wf (call_args call) ->
  decode_pool_args (ix_data (build cfg call)) = Some (call_args call).
Proof.
  destruct call; cbn [call_args]; intros W; cbn [build];
    open_call; cbn [ix_data].
  6: (destruct preferred; [|by decode_back]; decode_back; change (1 =? 1) with true; cbn match beta;
      pose proof (read_key_option (Some _) [] W) as E; cbn [app] in E; by rewrite E).
  all: by decode_back.
Qed.

Lemma build_signers cfg call : signers (build cfg call) = call_signers call.
Proof.
  destruct call; try reflexivity. unfold signers. cbn [build]. rewrite update_list_accounts.
  rewrite filter_app, fmap_app. induction quads as [|q quads IH]; [done|]. exact IH.
Qed.

(** ** Privileges *)

Lemma update_list_privileged cfg quads start : pairs_writable (CallUpdateList quads start) = true ->
  privileges_ok (update_list_infos cfg quads) [] (update_list_ix cfg quads start) = true.
Proof.
  cbn [pairs_writable]. rewrite forallb_forall. intros W. unfold privileges_ok.
  rewrite update_list_accounts, forallb_app. apply andb_true_iff. split; apply forallb_forall; intros m Hm.
  - apply (privileged_mono (update_list_infos cfg [])).
    { intros x. unfold update_list_infos. rewrite !elem_of_app. intros [?|[[]%not_elem_of_nil|?]]; auto. }
    revert m Hm. apply forallb_forall. unfold update_list_infos, update_list_ix, spl_cpi.update_validator_list_balance.
    cbn [fmap list_fmap foldl mbind list_bind app]. find_accounts.
  - apply list_elem_of_In, list_elem_of_bind in Hm as (q & Hm & Hq). apply list_elem_of_In in Hq as Hin.
    specialize (W q Hin). apply andb_true_iff in W as [W1 W2].
    assert (forall r, ar_writable r = true -> r = qd_stake q \/ r = qd_transient q ->
      privileged (update_list_infos cfg quads) [] (meta_new (ar_key r) false) = true) as H.
    { intros r Hw Hr. apply privileged_writable, list_elem_of_In. unfold update_list_infos.
      apply elem_of_app. right. apply elem_of_app. left. apply list_elem_of_bind. exists q. split; [|done].
      unfold ref_info. destruct Hr as [<- | <-]; rewrite Hw; [left|right; left]. }
    apply list_elem_of_In in Hm. destruct Hm as [<- | [<- | []]]; apply H; auto.
Qed.

Lemma build_privileged cfg call : pairs_writable call = true ->
  privileges_ok (call_infos cfg call) (call_pdas call) (build cfg call) = true.
Proof.
  destruct call; intros W; cbn [call_infos call_pdas build].
  7: by apply update_list_privileged.
  all: open_call; unfold initialize_infos, add_validator_infos, remove_infos, increase_infos, decrease_infos,
    set_preferred_infos, update_pool_infos, cleanup_infos, deposit_stake_infos, deposit_sol_infos; find_accounts.
Qed.

(** ** The calls of an instruction *)























Section heard.
Context (env : StakeEnv) (cfg : ControllerConfig) (c c' : Controller).
Context (Hcfg : ct_config c = Some cfg).






End heard.


(** C34: Every call the controller can make is one the pool program reads as it was
    meant: the instruction goes to the pinned fork, its bytes decode to the arguments of
    the call and to nothing else (so no other instruction, and no other amount, seed or
    validator, is ever requested), exactly the authorities of the allowlist's table sign
    it, and the accounts the handler passes suffice: the call never fails for a missing
    account or privilege, unless the caller passed a stake pair read-only. *)
Theorem allowlist_on_the_wire cfg call : args_wf (call_args call) ->
  ix_program_id (build cfg call) = FUSION_STAKE_POOL_PROGRAM_ID /\
  decode_pool_args (ix_data (build cfg call)) = Some (call_args call) /\
  signers (build cfg call) = call_signers call /\
  (pairs_writable call = true -> privileges_ok (call_infos cfg call) (call_pdas call) (build cfg call) = true).
Proof.
  intros W. split_and!; [by destruct call|by apply build_decodes|apply build_signers|apply build_privileged].
Qed.

End calls.
