(* ===== verification/StakeScenario.v ===== *)
(** * A concrete pool and a run of the controller

    An instance of the pool interface (a pool whose accounts hold fixed bytes) and a run
    over it: genesis, registrations, preferences, an epoch that admits two
    validators, and the next one through its neutral rounds in two slices. The
    guarantees of the controller are applied to its states. *)

From S2P Require Import Prelude MachineInt State Token AccountBytes StakeMath StakeTargets StakeView Cpi SplCpi StakeState.
From S2P Require Import StakeAccounts StakeCrank StakeSystem StakePlan StakeNeutral StakeDirected StakeInv StakeProofs.
From S2P Require Import StakeRefine StakePreference StakeCalls StakeEvents StakeStream.

Open Scope Z_scope.

Module PlainPool.

#[local] Existing Instance MapLedger.runtime.

(** One million SOL, two validators of 100 SOL each. *)
Definition entry (vote : Pubkey) : ListBytes.ValidatorEntry * Z :=
  (ListBytes.mkValidatorEntry 100000000000 0 1 0 0 0 vote, 0).

Definition list_data : list Z := list_bytes MAX_VALIDATORS [entry 11; entry 12].

Definition account_data : list Z :=
  [1] ++ replicate 257 0 ++ le_bytes 8 1000000000000000 ++ le_bytes 8 1000000000000000 ++ replicate 72 0.

Definition all_bytes (data : list Z) : bool := forallb (fun b => (0 <=? b) && (b <=? U8_MAX)) data.

Lemma all_bytes_ok data : all_bytes data = true -> Forall u8 data.
Proof.
  unfold all_bytes. induction data as [|b data IH]; cbn [forallb]; intros H; [constructor|].
  apply andb_prop in H as [H1 H2]. constructor; [|by apply IH]. unfold u8. lia.
Qed.

(** A derived address reads the first key of its seeds. *)
Definition plain_addresses : Addresses := {|
  find_program_address seeds _ :=
    match seeds with
    | [vote; _; _] | [vote; _] => 4000000 + le_value vote
    | _ :: vote :: _ => 5000000 + le_value vote
    | _ => 0
    end;
  FUSION_STAKE_POOL_PROGRAM_ID := 900;
  STAKE_PROGRAM_ID := 903;
  STAKE_CONFIG_ID := 907;
  TOKEN_PROGRAM_ID := 908;
  SYSTEM_PROGRAM_ID := 909;
  MPL_TOKEN_METADATA_PROGRAM_ID := 913;
  RENT_ID := 910;
  CLOCK_ID := 911;
  STAKE_HISTORY_ID := 912;
|}.

#[export, refine] Instance pool_runtime : StakeRuntime := {|
  pool := unit;
  pool_account _ := account_data;
  pool_list _ := list_data;
  pool_reserve _ := 30000000000000;
  process_instruction _ ix p l := match decode_pool_args (ix_data ix) with Some _ => Some (p, l) | None => None end;
  stake_addresses := plain_addresses;
  FUSD_CORE_PROGRAM_ID := 901;
  VOTE_PROGRAM_ID := 902;
  validator_pda v := 1000000 + v;
  preference_pda p := 2000000 + p;
  pool_authority := 905;
  deposit_authority := 906;
  maintenance_pda := 904;
  withdraw_authority p := 3000000 + p;
|}.
Proof.
  - intros; lia.
  - intros; lia.
  - intros _ h H.
    assert (ListBytes.parse_header list_data = Ok (ListBytes.mkHeader MAX_VALIDATORS 2)) as E by (vm_compute; reflexivity).
    rewrite E in H. injection H as <-. cbn. lia.
  - intros _. apply all_bytes_ok. vm_compute. reflexivity.
  - intros _. apply all_bytes_ok. vm_compute. reflexivity.
Defined.

(** ** The cluster *)

Definition vote_data : list Z := vote_bytes
  (mkVoteAccount true 5 6 7 [(1, 1000, 31); (2, 1040, 1)] (Some 90) [(3, 5)] (replicate 1545 0)
     [(0, 40, 0); (1, 50, 40); (2, 60, 50)] 1030 1700000000).

(** A position of [owner] with 700 SOL of fuSOL. *)
Definition position_data (o : Pubkey) : list Z :=
  PositionBytes.POSITION_DISCRIMINATOR ++ le_bytes 32 o ++ le_bytes 32 50 ++ le_bytes 8 700000000000
  ++ replicate 101 0 ++ le_bytes 8 3 ++ replicate 24 0.

Definition env (e s : Z) : StakeEnv := {|
  se_clock := mkClock 0 s e;
  se_slots_in_epoch := 432000;
  se_stake_rent := 2282880;
  se_stake_program _ := true;
  se_return_data _ := Some (Some (903, le_bytes 8 1));
  se_owner a := if (a =? 21) || (a =? 22) then 901 else 902;
  se_data a := if a =? 21 then position_data 31 else if a =? 22 then position_data 32 else vote_data;
  se_lamports _ := 0;
|}.

Lemma env_bytes e s a : Forall u8 (se_data (env e s) a).
Proof.
  cbn [env se_data]. destruct (a =? 21); [apply all_bytes_ok; vm_compute; reflexivity|].
  destruct (a =? 22); apply all_bytes_ok; vm_compute; reflexivity.
Qed.

(** ** A run *)

(** Instructions at their epoch and slot; the clock does not run backwards. *)
Definition Script := list (Z * Z * SInstr).

Fixpoint stake_run (steps : Script) (c : Controller) : result CError Controller :=
  match steps with
  | [] => Ok c
  | (e, s, i) :: steps =>
      _ ← require ((es_controller_epoch (ct_es c) <=? e) && (e <=? U64_MAX) && (0 <=? e) && (0 <=? s) && (s <=? U64_MAX))
            AccountInvalid;
      c ← stake_exec (env e s) i c;
      stake_run steps c
  end.

Lemma stake_run_rtc steps : forall c c', stake_run steps c = Ok c' -> rtc stake_step c c'.
Proof.
  induction steps as [|[[e s] i] steps IH]; intros c c' H; cbn [stake_run] in H; [by injection H as <-|].
  bind H as u Hu. bind H as c1 H1. ctl_ok Hu. apply (rtc_l _ _ c1); [|by apply IH].
  apply (step_instr (env e s) i); [|done]. split; [cbn; rlia..|intros a; apply env_bytes|].
  intros ix pid data [= <- <-]. apply all_bytes_ok. vm_compute. reflexivity.
Qed.

Definition ref (k : Pubkey) : AccountRef := mkAccountRef k true.
Definition quad (v : Pubkey) : list AccountRef := [ref (4000000 + v); ref (5000000 + v); ref (1000000 + v); ref v].
Definition pair_of (v : Pubkey) : list AccountRef := [ref (1000000 + v); ref v].

Definition genesis : Controller :=
  mkController None zero_epoch_state ∅ ∅ tt
    (MapLedger.mkLedger {[60 := 1000000000]} {[60 := 904]} {[60 := 50; 61 := 50]} ∅ ∅).

(** Genesis, two validators, a preference for each. *)
Definition setup : Script := [
  (1, 1050, InitializeController (Some 7) 7 (mkInitializeControllerArgs 70 71 72 50 60));
  (1, 1050, InitializePool (mkMintFacts 9 None (Some 3000070) None None));
  (1, 1050, RegisterValidator 60 11); (1, 1050, RegisterValidator 60 12);
  (1, 1050, SetPreference 31 21 11); (1, 1050, SetPreference 32 22 12)].

(** An epoch up to its preference window. *)
Definition open_window (e s : Z) : Script := [
  (e, s, StartEpoch); (e, s, ReconcileBatch (quad 11) 61); (e, s, ReconcileBatch (quad 12) 61);
  (e, s, FinalizePool 61)].

Definition plan_directed (e s : Z) : Script := [
  (e, s, ClosePreferenceWindow); (e, s, PlanDirectedBatch (pair_of 11) 61); (e, s, PlanDirectedBatch (pair_of 12) 61)].

(** The admission epoch, abandoned after its plan. *)
Definition first_epoch : Script :=
  open_window 2 1060 ++ [(2, 1060, SnapshotPreference 21); (2, 1060, SnapshotPreference 22)] ++
  plan_directed 2 20000 ++ [(2, 20000, PlanNeutralBatch [] 61); (2, 20000, FinalizePlan 61)].

Definition to_window : Script := setup ++ first_epoch ++ open_window 3 20010.
Definition to_neutral : Script := (3, 20010, SnapshotPreference 21) :: plan_directed 3 40000.
Definition neutral_slices : Script := [
  (3, 40000, PlanNeutralBatch [ref 1000011] 61); (3, 40000, RegisterValidator 60 13);
  (3, 40000, PlanNeutralBatch [ref 1000012] 61)].

Definition state_after (steps : Script) (c : Controller) : Controller :=
  match stake_run steps c with Ok c' => c' | Err _ => c end.

Definition runs (steps : Script) (c : Controller) : bool := match stake_run steps c with Ok _ => true | Err _ => false end.

Lemma runs_rtc steps c : runs steps c = true -> rtc stake_step c (state_after steps c).
Proof. unfold runs, state_after. destruct (stake_run steps c) eqn:E; [|done]. intros _. by eapply stake_run_rtc. Qed.

Lemma run_one e s i c : runs [(e, s, i)] c = true -> stake_exec (env e s) i c = Ok (state_after [(e, s, i)] c).
Proof.
  unfold runs, state_after. cbn [stake_run]. destruct (require _ _); [|done]. cbn [mbind result_bind].
  by destruct (stake_exec (env e s) i c).
Qed.

Definition at_window : Controller := state_after to_window genesis.
Definition at_entry : Controller := state_after to_neutral at_window.
Definition at_exit : Controller := state_after neutral_slices at_entry.

(** The position of the first preference, counted in the window; then the preference is
    closed and created anew for the other validator. *)
Definition counted : Controller := state_after [(3, 20010, SnapshotPreference 21)] at_window.
Definition recreated : Controller :=
  state_after [(3, 20020, ClosePreference 31 21 31); (3, 20020, SetPreference 31 21 12)] counted.

Lemma env_ok_at e s c : u64 e -> u64 s -> es_controller_epoch (ct_es c) <= e -> env_ok (env e s) c.
Proof.
  intros He Hs Hc. split; [done|done|done|cbn; rlia|cbn; rlia|intros a; apply env_bytes|].
  intros ix pid data [= <- <-]. apply all_bytes_ok. vm_compute. reflexivity.
Qed.

Lemma at_window_reachable : stake_reachable at_window.
Proof. exists genesis. split; [by split_and!|]. apply runs_rtc. vm_compute. reflexivity. Qed.

Lemma entry_run : rtc stake_step at_window at_entry.
Proof. apply runs_rtc. vm_compute. reflexivity. Qed.

Lemma exit_run : rtc stake_step at_entry at_exit.
Proof. apply runs_rtc. vm_compute. reflexivity. Qed.

Lemma reachable_run c c' : stake_reachable c -> rtc stake_step c c' -> stake_reachable c'.
Proof. intros (c0 & Hg & Hr) H. exists c0. split; [done|]. by transitivity c. Qed.

Lemma at_entry_reachable : stake_reachable at_entry.
Proof. exact (reachable_run _ _ at_window_reachable entry_run). Qed.

Lemma at_exit_reachable : stake_reachable at_exit.
Proof. exact (reachable_run _ _ at_entry_reachable exit_run). Qed.

(** ** The guarantees, at these states *)

Lemma epoch_machine_witness :
  es_phase (ct_es at_exit) = 6 /\
  exists c', start_epoch (env 4 50000) at_exit = Ok c' /\ es_phase (ct_es c') = PHASE_RECONCILE /\
    es_controller_epoch (ct_es c') = 4 /\ unplanned (ct_es c') (ct_records c').
Proof.
  split; [vm_compute; reflexivity|].
  destruct (epoch_machine at_exit at_exit_reachable) as [_ H].
  destruct (ct_config at_exit) as [cfg|] eqn:E; [|vm_compute in E; discriminate].
  apply (H (env 4 50000) cfg eq_refl).
  - vm_compute in E. by injection E as <-.
  - vm_compute. reflexivity.
Defined.


Lemma plan_accounts_for_pool_witness :
  es_capacity_shortfall (ct_es at_exit) = 940000000000000 /\
  planned_sum (es_controller_epoch (ct_es at_exit)) vr_final_target (ct_records at_exit)
    + es_capacity_shortfall (ct_es at_exit) + es_reserve_target (ct_es at_exit)
  = es_nav_total_lamports (ct_es at_exit).
Proof.
  split; [vm_compute; reflexivity|].
  destruct (plan_accounts_for_pool at_exit at_exit_reachable ltac:(left; vm_compute; reflexivity)) as (H & _). exact H.
Defined.

Lemma consistency_errors_unreachable_witness :
  avoids CtlError.NeutralRoundInconsistent (plan_neutral_batch (env 3 40000) [ref 1000011] 61 at_entry) /\
  avoids CtlError.PlanConservationViolated (finalize_plan (env 3 40000) 61 at_exit).
Proof.
  destruct (consistency_errors_unreachable at_entry at_entry_reachable) as [H _].
  destruct (consistency_errors_unreachable at_exit at_exit_reachable) as [_ H'].
  exact (conj (H (env 3 40000) [ref 1000011] 61) (H' (env 3 40000) 61)).
Defined.

Lemma neutral_batches_refine_witness :
  exists keys, covers 3 keys (ct_records at_entry) /\ length keys = 2%nat /\
    distribute_neutral 979314000000000 3 (slots_of (ct_records at_entry) keys).*1 (slots_of (ct_records at_entry) keys).*2
    = Some (mkNeutralOutcome 1 940000000000000,
            (slots_of (ct_records at_exit) keys).*1, (slots_of (ct_records at_exit) keys).*2).
Proof.
  destruct (neutral_batches_refine at_entry at_exit at_entry_reachable ltac:(vm_compute; reflexivity)
    ltac:(vm_compute; reflexivity) exit_run ltac:(vm_compute; reflexivity) ltac:(vm_compute; discriminate))
    as (keys & H1 & H2 & H3).
  assert (es_controller_epoch (ct_es at_entry) = 3) as E1 by (vm_compute; reflexivity).
  assert (es_plan_directed_cursor (ct_es at_entry) = 2) as E2 by (vm_compute; reflexivity).
  assert (es_neutral_total (ct_es at_entry) = 979314000000000) as E3 by (vm_compute; reflexivity).
  assert (outcome_of (ct_es at_exit) = mkNeutralOutcome 1 940000000000000) as E4 by (vm_compute; reflexivity).
  rewrite E1 in H1. rewrite E1, E3, E4 in H3. rewrite E2 in H2. exists keys. split; [exact H1|]. split; [lia|exact H3].
Defined.

Lemma preference_counts_once_witness :
  runs [(3, 20020, ClosePreference 31 21 31); (3, 20020, SetPreference 31 21 12)] counted = true /\
  forall env' c3, snapshot_preference env' 21 recreated <> Ok c3.
Proof.
  assert (runs [(3, 20020, ClosePreference 31 21 31); (3, 20020, SetPreference 31 21 12)] counted = true) as Hrun
    by (vm_compute; reflexivity).
  split; [exact Hrun|].
  assert (snapshot_preference (env 3 20010) 21 at_window = Ok counted) as Hsnap.
  { assert (runs [(3, 20010, SnapshotPreference 21)] at_window = true) as Hok by (vm_compute; reflexivity).
    apply run_one in Hok. cbn [stake_exec] in Hok. fold counted in Hok. exact Hok. }
  assert (env_ok (env 3 20010) at_window) as Henv.
  { apply env_ok_at; [rlia|rlia|]. vm_compute. discriminate. }
  assert (es_controller_epoch (ct_es recreated) = es_controller_epoch (ct_es counted)) as Hep by (vm_compute; reflexivity).
  exact (preference_counts_once (env 3 20010) 21 at_window counted recreated at_window_reachable Henv Hsnap
    (runs_rtc _ _ Hrun) Hep).
Defined.



Definition plain_config : ControllerConfig := mkControllerConfig true 70 71 72 50 3000070 60 901 50.



Lemma allowlist_on_the_wire_witness :
  let ix := build plain_config (CallIncrease 5000012 4000012 12 5000000000000 0) in
  ix_data ix = [4; 0; 80; 57; 39; 140; 4; 0; 0; 0; 0; 0; 0; 0; 0; 0; 0] /\
  decode_pool_args (ix_data ix) = Some (IncreaseValidatorStake 5000000000000 0) /\ signers ix = [905].
Proof.
  intros ix. split; [vm_compute; reflexivity|].
  destruct (allowlist_on_the_wire plain_config (CallIncrease 5000012 4000012 12 5000000000000 0)
    ltac:(cbn; unfold u64; lia)) as (_ & H1 & H2 & _).
  exact (conj H1 H2).
Defined.








End PlainPool.
